(** * ericw-tools light: entity / light model assembly and BSP queries

    A shallow embedding of [common/bsputils.cc], [light/entities.cc] and
    [light/bounce.cc].

    Conventions of the embedding.
    - C [int]s are [Z]; the values that occur (indices, counts, enum tags)
      stay far from the 32-bit range, so no wrap-around is written out.
    - [float], [double] and [vec_t] are exact rationals ([Q]): rounding is
      not modelled, and statements about numbers are statements about the
      exact arithmetic the code approximates.
    - [Error]/[FError] (which terminate the process), failed assertions,
      and unchecked out-of-range array accesses are the three ways a
      computation can stop; they are kept apart in [result].
    - Recursion over the index-linked BSP is by fuel; theorems give the
      fuel that suffices. *)

From Stdlib Require Import ZArith QArith Qround Qabs Lia Lqa List String Ascii Bool DecimalString.
From Stdlib Require DecimalZ DecimalPos.
From stdpp Require Import base option list gmap strings fin_maps sorting.
Import ListNotations.

Local Open Scope Z_scope.

(** ** Outcomes of a computation *)

Inductive result (A : Type) : Type :=
| Ok (a : A)
| Fatal (msg : string)   (* Error(...): formatted message, process exits *)
| AssertFail             (* Q_assert / assert does not hold *)
| Undefined              (* unchecked access out of range *)
| OutOfFuel.             (* the model's recursion budget ran out *)

Arguments Ok {A} a.
Arguments Fatal {A} msg.
Arguments AssertFail {A}.
Arguments Undefined {A}.
Arguments OutOfFuel {A}.

Definition bind {A B} (m : result A) (k : A -> result B) : result B :=
  match m with
  | Ok a => k a
  | Fatal s => Fatal s
  | AssertFail => AssertFail
  | Undefined => Undefined
  | OutOfFuel => OutOfFuel
  end.

Notation "'do' x <- m ; k" := (bind m (fun x => k))
  (at level 10, x pattern, m at level 100, k at level 200).

Definition is_fatal {A} (r : result A) : bool :=
  match r with Fatal _ => true | _ => false end.

Definition is_ok {A} (r : result A) : bool :=
  match r with Ok _ => true | _ => false end.

(** ** Vectors and arrays *)

Definition vec3 : Type := Q * Q * Q.

Definition vx (v : vec3) : Q := fst (fst v).
Definition vy (v : vec3) : Q := snd (fst v).
Definition vz (v : vec3) : Q := snd v.

(** [v[i]] for [i] in 0..2. *)
Definition vidx (v : vec3) (i : nat) : Q :=
  match i with O => vx v | S O => vy v | _ => vz v end.

Definition vset (v : vec3) (i : nat) (x : Q) : vec3 :=
  match i with
  | O => (x, vy v, vz v)
  | S O => (vx v, x, vz v)
  | _ => (vx v, vy v, x)
  end.

Definition DotProduct (a b : vec3) : Q :=
  (vx a * vx b + vy a * vy b + vz a * vz b)%Q.

Definition VectorAdd (a b : vec3) : vec3 :=
  ((vx a + vx b)%Q, (vy a + vy b)%Q, (vz a + vz b)%Q).

Definition VectorSubtract (a b : vec3) : vec3 :=
  ((vx a - vx b)%Q, (vy a - vy b)%Q, (vz a - vz b)%Q).

Definition VectorScale (a : vec3) (s : Q) : vec3 :=
  ((vx a * s)%Q, (vy a * s)%Q, (vz a * s)%Q).

(** [VectorMA(a, s, b) = a + s*b]. *)
Definition VectorMA (a : vec3) (s : Q) (b : vec3) : vec3 :=
  ((vx a + s * vx b)%Q, (vy a + s * vy b)%Q, (vz a + s * vz b)%Q).

Definition vec3_origin : vec3 := (0%Q, 0%Q, 0%Q).

Definition Qltb (a b : Q) : bool := negb (Qle_bool b a).

(** Read of element [i] of a C array or [std::vector]; [None] outside. *)
Definition nthZ {A} (l : list A) (i : Z) : option A :=
  if i <? 0 then None else nth_error l (Z.to_nat i).

(** [v[i]] without a bounds check. *)
Definition unchecked {A} (l : list A) (i : Z) : result A :=
  match nthZ l i with Some x => Ok x | None => Undefined end.

Definition zlen {A} (l : list A) : Z := Z.of_nat (length l).

(** ** The BSP view *)

Inductive gameid_t := GAME_QUAKE | GAME_HEXEN_II | GAME_HALF_LIFE | GAME_QUAKE_II.

Definition gameid_eqb (a b : gameid_t) : bool :=
  match a, b with
  | GAME_QUAKE, GAME_QUAKE | GAME_HEXEN_II, GAME_HEXEN_II
  | GAME_HALF_LIFE, GAME_HALF_LIFE | GAME_QUAKE_II, GAME_QUAKE_II => true
  | _, _ => false
  end.

Record dplane_t := {
  normal : vec3;
  dist : Q;
  type : Z
}.

Record bsp2_dnode_t := {
  planenum : Z;
  children : Z * Z;       (* children[0] front, children[1] back *)
  firstface : Z;
  numfaces : Z
}.

Record mleaf_t := {
  contents : Z;
  firstmarksurface : Z;
  nummarksurfaces : Z
}.

Record mface_t := {
  face_planenum : Z;
  side : bool;
  firstedge : Z;
  numedges : Z;
  texinfo : Z
}.

Record gtexinfo_t := {
  miptex : Z;
  flags : Z;
  texture : string
}.

Record miptex_t := { name : string }.
Record rgba_miptex_t := { rgba_name : string }.

Record dmodelh2_t := {
  mins : vec3;
  maxs : vec3;
  headnode_0 : Z          (* headnode[0], the only hull the code reads *)
}.

Record mbsp_t := {
  game : gameid_t;        (* bsp->loadversion->game->id *)
  dmodels : list dmodelh2_t;
  dnodes : list bsp2_dnode_t;
  dleafs : list mleaf_t;
  dplanes : list dplane_t;
  dfaces : list mface_t;
  bsp_texinfo : list gtexinfo_t;
  dtex_textures : list miptex_t;
  drgbatexdata : list rgba_miptex_t;
  dvertexes : list vec3;
  dedges : list (Z * Z);
  dsurfedges : list Z;
  dmarksurfaces : list Z
}.

(** ** common/bsputils.cc *)

Module BspUtils.

Section Queries.

(** Constants of [common/bspfile.hh] and the plane method
    [distance_to_fast] of [common/qvec.hh]: both headers are outside the
    files embedded here, so they are parameters. *)
Variable CONTENTS_SOLID CONTENTS_SKY Q2_CONTENTS_SOLID : Z.
Variable distance_to_fast : dplane_t -> vec3 -> Q.

Definition Q_assert (b : bool) : result unit :=
  if b then Ok tt else AssertFail.

Definition in_range {A} (i : Z) (l : list A) : bool :=
  (0 <=? i) && (i <? zlen l).

Definition BSP_GetNode (bsp : mbsp_t) (nodenum : Z) : result bsp2_dnode_t :=
  do _ <- Q_assert (in_range nodenum (dnodes bsp));
  unchecked (dnodes bsp) nodenum.

Definition BSP_GetLeaf (bsp : mbsp_t) (leafnum : Z) : result mleaf_t :=
  if (leafnum <? 0) || (zlen (dleafs bsp) <=? leafnum)
  then Fatal "Corrupt BSP: leaf is out of bounds"
  else unchecked (dleafs bsp) leafnum.

Definition BSP_GetLeafFromNodeNum (bsp : mbsp_t) (nodenum : Z) : result mleaf_t :=
  let leafnum := -1 - nodenum in
  BSP_GetLeaf bsp leafnum.

Definition BSP_GetPlane (bsp : mbsp_t) (pnum : Z) : result dplane_t :=
  do _ <- Q_assert (in_range pnum (dplanes bsp));
  unchecked (dplanes bsp) pnum.

Definition BSP_GetFace (bsp : mbsp_t) (fnum : Z) : result mface_t :=
  do _ <- Q_assert (in_range fnum (dfaces bsp));
  unchecked (dfaces bsp) fnum.

(** A null pointer is [None]. *)
Definition BSP_GetTexinfo (bsp : mbsp_t) (ti : Z) : option gtexinfo_t :=
  if ti <? 0 then None
  else if zlen (bsp_texinfo bsp) <=? ti then None
  else nthZ (bsp_texinfo bsp) ti.

Definition Vertex_GetPos (bsp : mbsp_t) (num : Z) : result vec3 :=
  do _ <- Q_assert (in_range num (dvertexes bsp));
  unchecked (dvertexes bsp) num.

Definition Face_VertexAtIndex (bsp : mbsp_t) (f : mface_t) (v : Z) : result Z :=
  do _ <- Q_assert (0 <=? v);
  do _ <- Q_assert (v <? numedges f);
  let edge := firstedge f + v in
  do edge <- unchecked (dsurfedges bsp) edge;
  if edge <? 0
  then do e <- unchecked (dedges bsp) (- edge); Ok (snd e)
  else do e <- unchecked (dedges bsp) edge; Ok (fst e).

Definition Face_PointAtIndex (bsp : mbsp_t) (f : mface_t) (v : Z) : result vec3 :=
  do vertnum <- Face_VertexAtIndex bsp f v;
  Vertex_GetPos bsp vertnum.

Definition Face_Texinfo (bsp : mbsp_t) (face : mface_t) : option gtexinfo_t :=
  if (texinfo face <? 0) || (zlen (bsp_texinfo bsp) <=? texinfo face)
  then None
  else nthZ (bsp_texinfo bsp) (texinfo face).

Definition Face_Miptex (bsp : mbsp_t) (face : mface_t) : result (option miptex_t) :=
  match dtex_textures bsp with
  | [] => Ok None                      (* no miptex data (Q2 maps) *)
  | _ =>
    match Face_Texinfo bsp face with
    | None => Ok None
    | Some ti =>
      let texnum := miptex ti in
      do mt <- unchecked (dtex_textures bsp) texnum;
      (* sometimes the texture just wasn't written. including its name. *)
      if String.eqb (name mt) "" then Ok None else Ok (Some mt)
    end
  end.

Definition Face_RgbaMiptex (bsp : mbsp_t) (face : mface_t)
  : result (option rgba_miptex_t) :=
  match drgbatexdata bsp with
  | [] => Ok None
  | _ =>
    match Face_Texinfo bsp face with
    | None => Ok None
    | Some ti =>
      do mt <- unchecked (drgbatexdata bsp) (miptex ti); Ok (Some mt)
    end
  end.

Definition Face_TextureName (bsp : mbsp_t) (face : mface_t) : result string :=
  do mt <- Face_Miptex bsp face;
  match mt with
  | Some m => Ok (name m)
  | None =>
    do rm <- Face_RgbaMiptex bsp face;
    match rm with
    | Some r => Ok (rgba_name r)
    | None =>
      match Face_Texinfo bsp face with
      | Some ti =>
        if String.eqb (texture ti) "" then Ok ""%string else Ok (texture ti)
      | None => Ok ""%string
      end
    end
  end.

(** Leaf test of [Light_PointInSolid_r]. *)
Definition leaf_is_solid (g : gameid_t) (c : Z) : bool :=
  if gameid_eqb g GAME_QUAKE_II
  then negb (Z.land c Q2_CONTENTS_SOLID =? 0)
  else (c =? CONTENTS_SOLID) || (c =? CONTENTS_SKY).

Fixpoint Light_PointInSolid_r (fuel : nat) (bsp : mbsp_t) (nodenum : Z)
    (point : vec3) : result bool :=
  match fuel with
  | O => OutOfFuel
  | S fuel' =>
    if nodenum <? 0 then
      do leaf <- BSP_GetLeafFromNodeNum bsp nodenum;
      Ok (leaf_is_solid (game bsp) (contents leaf))
    else
      do node <- unchecked (dnodes bsp) nodenum;
      do plane <- unchecked (dplanes bsp) (planenum node);
      let d := distance_to_fast plane point in
      if Qltb (1 # 10) d then
        Light_PointInSolid_r fuel' bsp (fst (children node)) point
      else if Qltb d (- (1 # 10)) then
        Light_PointInSolid_r fuel' bsp (snd (children node)) point
      else
        (* too close to the plane, check both sides *)
        do front <- Light_PointInSolid_r fuel' bsp (fst (children node)) point;
        if front then Ok true
        else Light_PointInSolid_r fuel' bsp (snd (children node)) point
  end.

(** The fast bounds check: some coordinate lies outside [mins, maxs]. *)
Definition outside_bounds (model : dmodelh2_t) (point : vec3) : bool :=
  existsb (fun i => Qltb (vidx point i) (vidx (mins model) i)
                    || Qltb (vidx (maxs model) i) (vidx point i))
          [0%nat; 1%nat; 2%nat].

(** Tests hull 0 of the given model. *)
Definition Light_PointInSolid (fuel : nat) (bsp : mbsp_t) (model : dmodelh2_t)
    (point : vec3) : result bool :=
  if outside_bounds model point then Ok false
  else Light_PointInSolid_r fuel bsp (headnode_0 model) point.

Definition Light_PointInWorld (fuel : nat) (bsp : mbsp_t) (point : vec3)
  : result bool :=
  do model <- unchecked (dmodels bsp) 0;
  Light_PointInSolid fuel bsp model point.

(** *** Planes, contents and faces at a point *)

(** [qplane3d] of [common/qvec.hh]: a normal and a distance. *)
Record qplane3d := {
  qnormal : vec3;
  qdist : Q
}.

(** Modelled from the spec: the plane's [operator-] and [distance_to] are
    methods of [common/qvec.hh].  "Returns [planes[face.planenum]],
    negated (normal and distance) when [face.side] is set"; "signed
    distance to plane". *)
Definition qplane_neg (p : qplane3d) : qplane3d :=
  {| qnormal := VectorScale (qnormal p) (-1)%Q; qdist := (- qdist p)%Q |}.

Definition distance_to (p : qplane3d) (point : vec3) : Q :=
  (DotProduct (qnormal p) point - qdist p)%Q.

(** [qv::cross] *)
Definition CrossProduct (a b : vec3) : vec3 :=
  ((vy a * vz b - vz a * vy b)%Q,
   (vz a * vx b - vx a * vz b)%Q,
   (vx a * vy b - vy a * vx b)%Q).

(** [qv::normalize] (it takes a square root), [Q_strncasecmp] of
    [common/cmdlib.hh] (0 when the first [n] characters agree up to
    case), and further constants of [common/bspfile.hh]. *)
Variable qv_normalize : vec3 -> vec3.
Variable Q_strncasecmp : string -> string -> Z -> Z.
Variable CONTENTS_WATER CONTENTS_SLIME CONTENTS_LAVA Q2_SURF_TRANSLUCENT : Z.

Definition BSP_GetWorldModel (bsp : mbsp_t) : result dmodelh2_t :=
  (* We only support .bsp's that have a world model *)
  if zlen (dmodels bsp) <? 1 then Fatal "BSP has no models"
  else unchecked (dmodels bsp) 0.

Definition Face_Plane (bsp : mbsp_t) (f : mface_t) : result qplane3d :=
  do _ <- Q_assert (in_range (face_planenum f) (dplanes bsp));
  do pl <- unchecked (dplanes bsp) (face_planenum f);
  let result := {| qnormal := normal pl; qdist := dist pl |} in
  if side f then Ok (qplane_neg result) else Ok result.

Definition Face_Normal (bsp : mbsp_t) (f : mface_t) : result vec3 :=
  do p <- Face_Plane bsp f;
  Ok (qnormal p).

Definition GetSurfaceVertexPoint (bsp : mbsp_t) (f : mface_t) (v : Z) : result vec3 :=
  do vertnum <- Face_VertexAtIndex bsp f v;
  unchecked (dvertexes bsp) vertnum.

Definition TextureName_Contents (texname : string) : Z :=
  if Q_strncasecmp texname "sky" 3 =? 0 then CONTENTS_SKY
  else if Q_strncasecmp texname "*lava" 5 =? 0 then CONTENTS_LAVA
  else if Q_strncasecmp texname "*slime" 6 =? 0 then CONTENTS_SLIME
  else
    match texname with
    | String "*"%char _ => CONTENTS_WATER
    | _ => CONTENTS_SOLID
    end.

Definition ContentsOrSurfaceFlags_IsTranslucent (bsp : mbsp_t)
    (contents_or_surf_flags : Z) : bool :=
  if gameid_eqb (game bsp) GAME_QUAKE_II then
    negb (Z.land contents_or_surf_flags Q2_SURF_TRANSLUCENT =? 0)
    && negb (Z.land contents_or_surf_flags Q2_SURF_TRANSLUCENT =? Q2_SURF_TRANSLUCENT)
    (* Don't count KMQ2 fence flags combo as translucent *)
  else
    (contents_or_surf_flags =? CONTENTS_WATER)
    || (contents_or_surf_flags =? CONTENTS_LAVA)
    || (contents_or_surf_flags =? CONTENTS_SLIME).

(** Returns CONTENTS_ value for Q1, Q2_SURF_ bitflags for Q2; on Q2 the
    texinfo pointer is dereferenced without a check. *)
Definition Face_ContentsOrSurfaceFlags (bsp : mbsp_t) (face : mface_t) : result Z :=
  if gameid_eqb (game bsp) GAME_QUAKE_II then
    match Face_Texinfo bsp face with
    | Some info => Ok (flags info)
    | None => Undefined
    end
  else
    do texname <- Face_TextureName bsp face;
    Ok (TextureName_Contents texname).

Definition Face_IsTranslucent (bsp : mbsp_t) (face : mface_t) : result bool :=
  do c <- Face_ContentsOrSurfaceFlags bsp face;
  Ok (ContentsOrSurfaceFlags_IsTranslucent bsp c).

(** The loop of [Face_AllocInwardFacingEdgePlanes], from edge [i] on. *)
Fixpoint edge_planes (n : nat) (bsp : mbsp_t) (face : mface_t) (faceplane : qplane3d)
    (i : Z) : result (list qplane3d) :=
  match n with
  | O => Ok []
  | S n' =>
    do v0 <- GetSurfaceVertexPoint bsp face i;
    do v1 <- GetSurfaceVertexPoint bsp face (Z.rem (i + 1) (numedges face));
    let edgevec := qv_normalize (VectorSubtract v1 v0) in
    let normal := CrossProduct edgevec (qnormal faceplane) in
    do rest <- edge_planes n' bsp face faceplane (i + 1);
    Ok ({| qnormal := normal; qdist := DotProduct normal v0 |} :: rest)
  end.

Definition Face_AllocInwardFacingEdgePlanes (bsp : mbsp_t) (face : mface_t)
  : result (list qplane3d) :=
  do faceplane <- Face_Plane bsp face;
  edge_planes (Z.to_nat (numedges face)) bsp face faceplane 0.

Fixpoint EdgePlanes_PointInside (edgeplanes : list qplane3d) (point : vec3) : bool :=
  match edgeplanes with
  | [] => true
  | plane :: rest =>
    if Qltb (distance_to plane point) 0 then false
    else EdgePlanes_PointInside rest point
  end.

(** The loop of [BSP_FindFaceAtPoint_r] over the faces of a node, from
    face [i] of the node on.  A face pointer is the face's number. *)
Fixpoint find_face_on_node (n : nat) (bsp : mbsp_t) (node : bsp2_dnode_t) (i : Z)
    (point wantedNormal : vec3) : result (option Z) :=
  match n with
  | O => Ok None
  | S n' =>
    do face <- BSP_GetFace bsp (firstface node + i);
    (* First check if it's facing the right way *)
    do faceNormal <- Face_Normal bsp face;
    if Qltb (DotProduct faceNormal wantedNormal) 0 then
      (* Opposite, so not the right face. *)
      find_face_on_node n' bsp node (i + 1) point wantedNormal
    else
      (* Next test if it's within the boundaries of the face *)
      do edgeplanes <- Face_AllocInwardFacingEdgePlanes bsp face;
      if EdgePlanes_PointInside edgeplanes point then Ok (Some (firstface node + i))
      else find_face_on_node n' bsp node (i + 1) point wantedNormal
  end.

Fixpoint BSP_FindFaceAtPoint_r (fuel : nat) (bsp : mbsp_t) (nodenum : Z)
    (point wantedNormal : vec3) : result (option Z) :=
  match fuel with
  | O => OutOfFuel
  | S fuel' =>
    if nodenum <? 0 then
      (* we're only interested in nodes, since faces are owned by nodes. *)
      Ok None
    else
      do node <- unchecked (dnodes bsp) nodenum;
      do plane <- unchecked (dplanes bsp) (planenum node);
      let d := distance_to_fast plane point in
      if Qltb (1 # 10) d then
        BSP_FindFaceAtPoint_r fuel' bsp (fst (children node)) point wantedNormal
      else if Qltb d (- (1 # 10)) then
        BSP_FindFaceAtPoint_r fuel' bsp (snd (children node)) point wantedNormal
      else
        (* Point is close to this node plane. Check all faces on the plane. *)
        do found <- find_face_on_node (Z.to_nat (numfaces node)) bsp node 0
                      point wantedNormal;
        match found with
        | Some face => Ok (Some face)
        | None =>
          (* No match found on this plane. Check both sides of the tree. *)
          do side0Match <-
            BSP_FindFaceAtPoint_r fuel' bsp (fst (children node)) point wantedNormal;
          match side0Match with
          | Some face => Ok (Some face)
          | None =>
            BSP_FindFaceAtPoint_r fuel' bsp (snd (children node)) point wantedNormal
          end
        end
  end.

Definition BSP_FindFaceAtPoint (fuel : nat) (bsp : mbsp_t) (model : dmodelh2_t)
    (point wantedNormal : vec3) : result (option Z) :=
  BSP_FindFaceAtPoint_r fuel bsp (headnode_0 model) point wantedNormal.

(** The loop of [GLM_FacePoints], from edge [j] on. *)
Fixpoint face_points (n : nat) (bsp : mbsp_t) (face : mface_t) (j : Z)
  : result (list vec3) :=
  match n with
  | O => Ok []
  | S n' =>
    do p <- Face_PointAtIndex bsp face j;
    do rest <- face_points n' bsp face (j + 1);
    Ok (p :: rest)
  end.

Definition GLM_FacePoints (bsp : mbsp_t) (face : mface_t) : result (list vec3) :=
  face_points (Z.to_nat (numedges face)) bsp face 0.

(** A pointer to a face is its distance [f - bsp->dfaces.data()] from the
    start of the array, [None] for the null pointer. *)
Definition Face_GetNum (bsp : mbsp_t) (f : option Z) : result Z :=
  match f with
  | None => AssertFail
  | Some diff =>
    do _ <- Q_assert ((0 <=? diff) && (diff <? zlen (dfaces bsp)));
    Ok diff
  end.

(** [surf_is_lightmapped] of the game definition
    ([bsp->loadversion->game]). *)
Variable surf_is_lightmapped : Z -> bool.

Definition Face_IsLightmapped (bsp : mbsp_t) (face : mface_t) : bool :=
  match Face_Texinfo bsp face with
  | None => false
  | Some texinfo => surf_is_lightmapped (flags texinfo)
  end.

End Queries.

End BspUtils.

(** ** light/entities.cc *)

Module Entities.

(** *** Characters and C strings *)

Definition NUL : ascii := "000"%char.
Definition LF : ascii := "010"%char.
Definition SPACE : ascii := "032"%char.
Definition DQUOTE : ascii := "034"%char.
Definition BACKSLASH : ascii := "092"%char.
Definition LBRACE : ascii := "{"%char.
Definition RBRACE : ascii := "}"%char.

Definition str1 (c : ascii) : string := String c EmptyString.

(** What a reader of a [const char *] sees of a buffer: the characters
    before the first NUL. *)
Fixpoint c_str (s : string) : string :=
  match s with
  | EmptyString => EmptyString
  | String c r => if Ascii.eqb c NUL then EmptyString else String c (c_str r)
  end.

Definition slen (s : string) : Z := Z.of_nat (String.length s).

(** [s[0] == c]; the character at the end of a string is NUL. *)
Definition first_char_is (c : ascii) (s : string) : bool :=
  match s with
  | EmptyString => Ascii.eqb NUL c
  | String c0 _ => Ascii.eqb c0 c
  end.

(** *** Entity dictionaries

    [entdict_t] is declared in [light/entities.hh]; this file uses it as a
    [std::map<std::string, std::string>]: [operator[]], [find], [erase] of
    an iterator, and iteration over the pairs, which is in key order. *)

Abbreviation entdict_t := (gmap string string).

Definition EntDict_StringForKey (dict : entdict_t) (key : string) : string :=
  match dict !! key with
  | Some v => v
  | None => ""%string
  end.

Definition EntDict_RemoveValueForKey (dict : entdict_t) (key : string) : entdict_t :=
  delete key dict.

Definition epair_le (p q : string * string) : Prop :=
  String.leb (fst p) (fst q) = true.

#[global] Instance epair_le_dec (p q : string * string) : Decision (epair_le p q).
Proof. unfold epair_le. apply _. Defined.

(** The pairs of a dict in iteration order (ascending keys). *)
Definition epairs_of (ent : entdict_t) : list (string * string) :=
  merge_sort epair_le (map_to_list ent).

(** *** The tokenizer *)

(** [c <= ' '] *)
Definition is_space (c : ascii) : bool := (N_of_ascii c <=? 32)%N.

Definition is_brace (c : ascii) : bool := Ascii.eqb c LBRACE || Ascii.eqb c RBRACE.

Fixpoint skip_white (s : string) : string :=
  match s with
  | EmptyString => EmptyString
  | String c r => if is_space c then skip_white r else s
  end.

(** Body of a quoted string, after its opening quote: up to the next
    quote, which is consumed; no escapes. *)
Fixpoint read_quoted (s : string) : string * string :=
  match s with
  | EmptyString => (EmptyString, EmptyString)
  | String c r =>
    if Ascii.eqb c DQUOTE then (EmptyString, r)
    else let '(tok, rest) := read_quoted r in (String c tok, rest)
  end.

(** A regular word: up to white space or a brace. *)
Fixpoint read_word (s : string) : string * string :=
  match s with
  | EmptyString => (EmptyString, EmptyString)
  | String c r =>
    if is_space c || is_brace c then (EmptyString, s)
    else let '(tok, rest) := read_word r in (String c tok, rest)
  end.

(** Modelled from the spec: [COM_Parse] (common/cmdlib) is not among the
    embedded files.  "Token grammar: whitespace-separated; a quoted string
    allows embedded spaces but no escapes at this layer; [{] and [}] are
    single-char tokens."  The result is the token (the C code leaves it in
    [com_token]) and the rest of the data; [None] is the null pointer
    returned at the end of the data. *)
Definition COM_Parse (data : string) : option (string * string) :=
  match skip_white data with
  | EmptyString => None
  | String c r =>
    if Ascii.eqb c DQUOTE then Some (read_quoted r)
    else if is_brace c then Some (str1 c, r)
    else let '(tok, rest) := read_word r in Some (String c tok, rest)
  end.

(** *** EntData_Parse and EntData_Write *)

(** Modelled from the spec: [MAX_ENT_KEY] and [MAX_ENT_VALUE] are defined
    in [light/entities.hh].  "Keys bounded to 31 chars, values to 1023
    chars at parse time", and the code compares lengths with
    [MAX_ENT_KEY - 1] and [MAX_ENT_VALUE - 1]. *)
Definition MAX_ENT_KEY : Z := 32.
Definition MAX_ENT_VALUE : Z := 1024.

(** The inner loop of [EntData_Parse]: the keys of one entity. *)
Fixpoint parse_epairs (fuel : nat) (data : string) (entity : entdict_t)
  : result (entdict_t * string) :=
  match fuel with
  | O => OutOfFuel
  | S fuel' =>
    match COM_Parse data with
    | None => Fatal "EntData_Parse: EOF without closing brace"
    | Some (keystr, data) =>
      if String.eqb keystr (str1 RBRACE) then Ok (entity, data)
      else if MAX_ENT_KEY - 1 <? slen keystr
      then Fatal "EntData_Parse: Key length > 31"
      else
        match COM_Parse data with
        | None => Fatal "EntData_Parse: EOF without closing brace"
        | Some (valstring, data) =>
          if first_char_is RBRACE valstring
          then Fatal "EntData_Parse: closing brace without data"
          else if MAX_ENT_VALUE - 1 <? slen valstring
          then Fatal "EntData_Parse: Value length > 1023"
          else parse_epairs fuel' data (<[keystr := valstring]> entity)
        end
    end
  end.

(** The outer loop: all the entities. *)
Fixpoint parse_entities (fuel : nat) (data : string) (acc : list entdict_t)
  : result (list entdict_t) :=
  match fuel with
  | O => OutOfFuel
  | S fuel' =>
    match COM_Parse data with
    | None => Ok acc
    | Some (tok, data) =>
      if negb (first_char_is LBRACE tok)
      then Fatal "EntData_Parse: found token when expecting {"
      else
        do (entity, data) <- parse_epairs fuel' data ∅;
        parse_entities fuel' data (acc ++ [entity])
    end
  end.

(** Every pass of either loop consumes a character, so the length of the
    data bounds the number of passes. *)
Definition EntData_Parse (entdata : string) : result (list entdict_t) :=
  let data := c_str entdata in
  parse_entities (S (String.length data)) data [].

Definition write_epair (epair : string * string) : string :=
  str1 DQUOTE +:+ fst epair +:+ str1 DQUOTE +:+ str1 SPACE +:+
  str1 DQUOTE +:+ snd epair +:+ str1 DQUOTE +:+ str1 LF.

Fixpoint write_epairs (l : list (string * string)) : string :=
  match l with
  | [] => EmptyString
  | p :: rest => write_epair p +:+ write_epairs rest
  end.

Definition write_ent (ent : entdict_t) : string :=
  str1 LBRACE +:+ str1 LF +:+ write_epairs (epairs_of ent) +:+ str1 RBRACE +:+ str1 LF.

Fixpoint EntData_Write (ents : list entdict_t) : string :=
  match ents with
  | [] => EmptyString
  | ent :: rest => write_ent ent +:+ EntData_Write rest
  end.

(** *** Escape sequences *)

(** [c |= 128] *)
Definition set_high_bit (c : ascii) : ascii :=
  ascii_of_N (N.lor (N_of_ascii c) 128).

Fixpoint ParseEscapeSequences_from (bold : bool) (input : string) : string :=
  match input with
  | EmptyString => EmptyString
  | String c rest =>
    let plain := String (if bold then set_high_bit c else c)
                        (ParseEscapeSequences_from bold rest) in
    if Ascii.eqb c BACKSLASH then
      match rest with
      | String c2 rest2 =>
        if Ascii.eqb c2 "b"%char
        then ParseEscapeSequences_from (negb bold) rest2
        else plain
      | EmptyString => plain
      end
    else plain
  end.

Definition ParseEscapeSequences (input : string) : string :=
  ParseEscapeSequences_from false input.

(** *** Light styles of switchable lights *)

Definition MAX_LIGHT_TARGETS : Z := 32.

(** The search loop: the index of the first entry equal to [targetname]. *)
Fixpoint find_targetname (names : list string) (targetname : string) (i : Z)
  : option Z :=
  match names with
  | [] => None
  | n :: rest =>
    if String.eqb n targetname then Some i
    else find_targetname rest targetname (i + 1)
  end.

(** [lighttargetnames] is passed in and out. *)
Definition LightStyleForTargetname (lighttargetnames : list string)
    (targetname : string) : result (Z * list string) :=
  match find_targetname lighttargetnames targetname 0 with
  | Some i => Ok (32 + i, lighttargetnames)
  | None =>
    (* the loop has left i = lighttargetnames.size() *)
    if zlen lighttargetnames =? MAX_LIGHT_TARGETS
    then Fatal "LightStyleForTargetname: Too many unique light targetnames"
    else
      let names := lighttargetnames ++ [targetname] in
      Ok (zlen names - 1 + 32, names)
  end.

(** [(int) f] *)
Definition intValue (f : Q) : Z := Z.quot (Qnum f) (Z.pos (Qden f)).

(** [std::to_string(int)] *)
Definition to_string (i : Z) : string := NilZero.string_of_int (Z.to_int i).

Section Load.

(** [std::stof]; [None] when it throws. *)
Variable stof : string -> option Q.

Definition EntDict_FloatForKey (dict : entdict_t) (key : string) : Q :=
  let s := EntDict_StringForKey dict key in
  if String.eqb s "" then 0%Q
  else match stof s with
       | Some f => f
       | None => 0%Q
       end.

(** The body of the first loop of [LoadEntities], for one dict. *)
Definition LoadEntities_entdict (entdict : entdict_t) (lighttargetnames : list string)
  : result (entdict_t * list string) :=
  (* fix "lightmap_scale" *)
  let lmscale := EntDict_StringForKey entdict "lightmap_scale" in
  let entdict :=
    if negb (String.eqb lmscale "")
    then <["_lightmap_scale"%string := lmscale]> (delete "lightmap_scale"%string entdict)
    else entdict in
  (* setup light styles for switchable lights *)
  let classname := EntDict_StringForKey entdict "classname" in
  do (entdict, lighttargetnames) <-
    (if String.prefix "light" classname then
       let targetname := EntDict_StringForKey entdict "targetname" in
       let style := intValue (EntDict_FloatForKey entdict "style") in
       if negb (String.eqb targetname "") && (style =? 0) then
         do (style, names) <- LightStyleForTargetname lighttargetnames targetname;
         Ok (<["style"%string := to_string style]> entdict, names)
       else Ok (entdict, lighttargetnames)
     else Ok (entdict, lighttargetnames));
  (* parse escape sequences *)
  Ok (ParseEscapeSequences <$> entdict, lighttargetnames).

(** The first loop of [LoadEntities] over the parsed [entdicts]. *)
Fixpoint LoadEntities_entdicts (entdicts : list entdict_t) (lighttargetnames : list string)
  : result (list entdict_t * list string) :=
  match entdicts with
  | [] => Ok ([], lighttargetnames)
  | entdict :: rest =>
    do (entdict, names) <- LoadEntities_entdict entdict lighttargetnames;
    do (rest, names) <- LoadEntities_entdicts rest names;
    Ok (entdict :: rest, names)
  end.

(** [LoadEntities] up to the point where [entdicts] has its final value:
    parse the entity lump, then run the first loop with an empty
    [lighttargetnames].  The rest of the function binds settings and
    builds [all_lights]; it does not touch [entdicts] again. *)
Definition LoadEntities (dentdata : string) : result (list entdict_t * list string) :=
  do entdicts <- EntData_Parse dentdata;
  LoadEntities_entdicts entdicts [].

End Load.

(** *** Lights and suns

    [light_t] is declared in [light/entities.hh]; the fields are those
    this file reads and writes (the projected-texture members, used only
    while [LoadEntities] builds a light, are left out).  A setting holds a
    float: [floatValue] is the field itself and [intValue] its truncation.
    [epairs] points at the light's dict in [entdicts], which no longer
    changes once lights exist: the field holds that dict.  [targetent]
    points at an element of [entdicts]: the field holds its index, [None]
    for the null pointer.  [leaf] is the number of the cached leaf. *)

Record light_t := {
  (* settings bound from the entity's keys *)
  light : Q;
  atten : Q;
  formula : Q;
  spotangle : Q;
  spotangle2 : Q;
  style : Q;
  anglescale : Q;
  origin : vec3;
  deviance : Q;
  samples : Q;
  (* the entity's dict, and what the pipeline derives *)
  epairs : entdict_t;
  targetent : option nat;
  spotlight : bool;
  spotvec : vec3;
  spotfalloff : Q;
  spotfalloff2 : Q;
  generated : bool;
  leaf : option Z
}.

Definition set_light (v : Q) (e : light_t) : light_t :=
  {| light := v;
     atten := atten e;
     formula := formula e;
     spotangle := spotangle e;
     spotangle2 := spotangle2 e;
     style := style e;
     anglescale := anglescale e;
     origin := origin e;
     deviance := deviance e;
     samples := samples e;
     epairs := epairs e;
     targetent := targetent e;
     spotlight := spotlight e;
     spotvec := spotvec e;
     spotfalloff := spotfalloff e;
     spotfalloff2 := spotfalloff2 e;
     generated := generated e;
     leaf := leaf e |}.

Definition set_atten (v : Q) (e : light_t) : light_t :=
  {| light := light e;
     atten := v;
     formula := formula e;
     spotangle := spotangle e;
     spotangle2 := spotangle2 e;
     style := style e;
     anglescale := anglescale e;
     origin := origin e;
     deviance := deviance e;
     samples := samples e;
     epairs := epairs e;
     targetent := targetent e;
     spotlight := spotlight e;
     spotvec := spotvec e;
     spotfalloff := spotfalloff e;
     spotfalloff2 := spotfalloff2 e;
     generated := generated e;
     leaf := leaf e |}.

Definition set_formula (v : Q) (e : light_t) : light_t :=
  {| light := light e;
     atten := atten e;
     formula := v;
     spotangle := spotangle e;
     spotangle2 := spotangle2 e;
     style := style e;
     anglescale := anglescale e;
     origin := origin e;
     deviance := deviance e;
     samples := samples e;
     epairs := epairs e;
     targetent := targetent e;
     spotlight := spotlight e;
     spotvec := spotvec e;
     spotfalloff := spotfalloff e;
     spotfalloff2 := spotfalloff2 e;
     generated := generated e;
     leaf := leaf e |}.

Definition set_anglescale (v : Q) (e : light_t) : light_t :=
  {| light := light e;
     atten := atten e;
     formula := formula e;
     spotangle := spotangle e;
     spotangle2 := spotangle2 e;
     style := style e;
     anglescale := v;
     origin := origin e;
     deviance := deviance e;
     samples := samples e;
     epairs := epairs e;
     targetent := targetent e;
     spotlight := spotlight e;
     spotvec := spotvec e;
     spotfalloff := spotfalloff e;
     spotfalloff2 := spotfalloff2 e;
     generated := generated e;
     leaf := leaf e |}.

Definition set_origin (v : vec3) (e : light_t) : light_t :=
  {| light := light e;
     atten := atten e;
     formula := formula e;
     spotangle := spotangle e;
     spotangle2 := spotangle2 e;
     style := style e;
     anglescale := anglescale e;
     origin := v;
     deviance := deviance e;
     samples := samples e;
     epairs := epairs e;
     targetent := targetent e;
     spotlight := spotlight e;
     spotvec := spotvec e;
     spotfalloff := spotfalloff e;
     spotfalloff2 := spotfalloff2 e;
     generated := generated e;
     leaf := leaf e |}.

Definition set_deviance (v : Q) (e : light_t) : light_t :=
  {| light := light e;
     atten := atten e;
     formula := formula e;
     spotangle := spotangle e;
     spotangle2 := spotangle2 e;
     style := style e;
     anglescale := anglescale e;
     origin := origin e;
     deviance := v;
     samples := samples e;
     epairs := epairs e;
     targetent := targetent e;
     spotlight := spotlight e;
     spotvec := spotvec e;
     spotfalloff := spotfalloff e;
     spotfalloff2 := spotfalloff2 e;
     generated := generated e;
     leaf := leaf e |}.

Definition set_samples (v : Q) (e : light_t) : light_t :=
  {| light := light e;
     atten := atten e;
     formula := formula e;
     spotangle := spotangle e;
     spotangle2 := spotangle2 e;
     style := style e;
     anglescale := anglescale e;
     origin := origin e;
     deviance := deviance e;
     samples := v;
     epairs := epairs e;
     targetent := targetent e;
     spotlight := spotlight e;
     spotvec := spotvec e;
     spotfalloff := spotfalloff e;
     spotfalloff2 := spotfalloff2 e;
     generated := generated e;
     leaf := leaf e |}.

Definition set_targetent (v : option nat) (e : light_t) : light_t :=
  {| light := light e;
     atten := atten e;
     formula := formula e;
     spotangle := spotangle e;
     spotangle2 := spotangle2 e;
     style := style e;
     anglescale := anglescale e;
     origin := origin e;
     deviance := deviance e;
     samples := samples e;
     epairs := epairs e;
     targetent := v;
     spotlight := spotlight e;
     spotvec := spotvec e;
     spotfalloff := spotfalloff e;
     spotfalloff2 := spotfalloff2 e;
     generated := generated e;
     leaf := leaf e |}.

Definition set_spotlight (v : bool) (e : light_t) : light_t :=
  {| light := light e;
     atten := atten e;
     formula := formula e;
     spotangle := spotangle e;
     spotangle2 := spotangle2 e;
     style := style e;
     anglescale := anglescale e;
     origin := origin e;
     deviance := deviance e;
     samples := samples e;
     epairs := epairs e;
     targetent := targetent e;
     spotlight := v;
     spotvec := spotvec e;
     spotfalloff := spotfalloff e;
     spotfalloff2 := spotfalloff2 e;
     generated := generated e;
     leaf := leaf e |}.

Definition set_spotvec (v : vec3) (e : light_t) : light_t :=
  {| light := light e;
     atten := atten e;
     formula := formula e;
     spotangle := spotangle e;
     spotangle2 := spotangle2 e;
     style := style e;
     anglescale := anglescale e;
     origin := origin e;
     deviance := deviance e;
     samples := samples e;
     epairs := epairs e;
     targetent := targetent e;
     spotlight := spotlight e;
     spotvec := v;
     spotfalloff := spotfalloff e;
     spotfalloff2 := spotfalloff2 e;
     generated := generated e;
     leaf := leaf e |}.

Definition set_spotfalloff (v : Q) (e : light_t) : light_t :=
  {| light := light e;
     atten := atten e;
     formula := formula e;
     spotangle := spotangle e;
     spotangle2 := spotangle2 e;
     style := style e;
     anglescale := anglescale e;
     origin := origin e;
     deviance := deviance e;
     samples := samples e;
     epairs := epairs e;
     targetent := targetent e;
     spotlight := spotlight e;
     spotvec := spotvec e;
     spotfalloff := v;
     spotfalloff2 := spotfalloff2 e;
     generated := generated e;
     leaf := leaf e |}.

Definition set_spotfalloff2 (v : Q) (e : light_t) : light_t :=
  {| light := light e;
     atten := atten e;
     formula := formula e;
     spotangle := spotangle e;
     spotangle2 := spotangle2 e;
     style := style e;
     anglescale := anglescale e;
     origin := origin e;
     deviance := deviance e;
     samples := samples e;
     epairs := epairs e;
     targetent := targetent e;
     spotlight := spotlight e;
     spotvec := spotvec e;
     spotfalloff := spotfalloff e;
     spotfalloff2 := v;
     generated := generated e;
     leaf := leaf e |}.

Definition set_generated (v : bool) (e : light_t) : light_t :=
  {| light := light e;
     atten := atten e;
     formula := formula e;
     spotangle := spotangle e;
     spotangle2 := spotangle2 e;
     style := style e;
     anglescale := anglescale e;
     origin := origin e;
     deviance := deviance e;
     samples := samples e;
     epairs := epairs e;
     targetent := targetent e;
     spotlight := spotlight e;
     spotvec := spotvec e;
     spotfalloff := spotfalloff e;
     spotfalloff2 := spotfalloff2 e;
     generated := v;
     leaf := leaf e |}.

Definition set_leaf (v : option Z) (e : light_t) : light_t :=
  {| light := light e;
     atten := atten e;
     formula := formula e;
     spotangle := spotangle e;
     spotangle2 := spotangle2 e;
     style := style e;
     anglescale := anglescale e;
     origin := origin e;
     deviance := deviance e;
     samples := samples e;
     epairs := epairs e;
     targetent := targetent e;
     spotlight := spotlight e;
     spotvec := spotvec e;
     spotfalloff := spotfalloff e;
     spotfalloff2 := spotfalloff2 e;
     generated := generated e;
     leaf := v |}.

Module Sun.
Record t := {
  sunvec : vec3;
  sunlight : Q;
  sunlight_color : vec3;
  anglescale : Q;
  dirt : bool
}.
End Sun.

Abbreviation sun_t := Sun.t.

(** The globals of [light/light.hh] this file reads. *)
Record globals_t := {
  global_anglescale : Q;
  addminlight : bool;
  globalDirt : bool;
  sunsamples : Z;
  sunlight : Q;
  sunlight_color : vec3;
  sunvec : vec3;
  sunlight_dirt : Q;
  sun2 : Q;
  sun2_color : vec3;
  sun2vec : vec3;
  sun_deviance : Q;
  sunlight2 : Q;
  sunlight2_color : vec3;
  sunlight2_dirt : Q;
  sunlight3 : Q;
  sunlight3_color : vec3;
  surflight_subdivide : Q
}.

(** Modelled from the spec: [lightformula_t] is declared in
    [light/light.hh].  "formula (enum: LINEAR, INVERSE, INVERSE2, INFINITE,
    LOCALMIN, INVERSE2A)", numbered from 0 in that order, with [LF_COUNT]
    closing the enum. *)
Definition LF_LINEAR : Z := 0.
Definition LF_INVERSE : Z := 1.
Definition LF_INVERSE2 : Z := 2.
Definition LF_INFINITE : Z := 3.
Definition LF_LOCALMIN : Z := 4.
Definition LF_INVERSE2A : Z := 5.
Definition LF_COUNT : Z := 6.

Definition getFormula (entity : light_t) : Z := intValue (formula entity).

Definition ValueForKey (ent : light_t) (key : string) : string :=
  match epairs ent !! key with
  | Some v => v
  | None => ""%string
  end.

(** What [CheckEntityFields] leaves behind besides the light: its
    function-local [static qboolean warned_once], and the lines it logs. *)
Record check_state := {
  warned_once : bool;
  logged : list string
}.

(** [static qboolean warned_once = true;] *)
Definition check_state_init : check_state :=
  {| warned_once := true; logged := [] |}.

Definition formula_warning : string :=
  "WARNING: unknown formula number in delay field (further formula warnings will be supressed)".

Section Check.

Variable cfg : globals_t.
(** [DEFAULTLIGHTLEVEL] of [light/light.hh]. *)
Variable DEFAULTLIGHTLEVEL : Q.

Definition CheckEntityFields (entity : light_t) (st : check_state)
  : result (light_t * check_state) :=
  let entity :=
    if Qeq_bool (light entity) 0 then set_light DEFAULTLIGHTLEVEL entity else entity in
  let entity :=
    if Qle_bool (atten entity) 0 then set_atten 1%Q entity else entity in
  let entity :=
    if Qltb (anglescale entity) 0 || Qltb 1 (anglescale entity)
    then set_anglescale (global_anglescale cfg) entity else entity in
  let '(entity, st) :=
    if (getFormula entity <? LF_LINEAR) || (LF_COUNT <=? getFormula entity) then
      let st :=
        if negb (warned_once st)
        then {| warned_once := true; logged := logged st ++ [formula_warning] |}
        else st in
      (set_formula (inject_Z LF_LINEAR) entity, st)
    else (entity, st) in
  (* set up deviance and samples defaults *)
  let entity :=
    if Qltb 0 (deviance entity) && (intValue (samples entity) =? 0)
    then set_samples 16%Q entity else entity in
  let entity :=
    if Qle_bool (deviance entity) 0 || (intValue (samples entity) <=? 1)
    then set_samples 1%Q (set_deviance 0%Q entity) else entity in
  (* For most formulas, we need to divide the light value by the number of
     samples (jittering) to keep the brightness approximately the same. *)
  let entity :=
    if (getFormula entity =? LF_INVERSE)
       || (getFormula entity =? LF_INVERSE2)
       || (getFormula entity =? LF_INFINITE)
       || ((getFormula entity =? LF_LOCALMIN) && addminlight cfg)
       || (getFormula entity =? LF_INVERSE2A)
    then set_light (light entity / inject_Z (intValue (samples entity)))%Q entity
    else entity in
  if (intValue (style entity) <? 0) || (254 <? intValue (style entity))
  then Fatal "Bad light style (must be 0-254)"
  else Ok (entity, st).

(** [CheckEntityFields] on one light after the other, as the second loop
    of [LoadEntities] calls it. *)
Fixpoint CheckEntityFields_all (entities : list light_t) (st : check_state)
  : result (list light_t * check_state) :=
  match entities with
  | [] => Ok ([], st)
  | entity :: rest =>
    do (entity, st) <- CheckEntityFields entity st;
    do (rest, st) <- CheckEntityFields_all rest st;
    Ok (entity :: rest, st)
  end.

End Check.

(** *** Suns and the sky dome *)

(** [rint(sqrt(n))] for an integer [n >= 0].  The square root of an
    integer is never half way between two integers, so rounding to nearest
    gives [r = floor(sqrt n)] when [sqrt n < r + 1/2], that is when
    [n <= r*r + r], and [r + 1] otherwise. *)
Definition rint_sqrt (n : Z) : Z :=
  let r := Z.sqrt n in
  if n <=? r * r + r then r else r + 1.

(** [iterations], as [SetupSkyDome] computes it from the [int]
    [sunsamples]: the division is the integer division of C.  The square
    root of a negative number is a NaN, whose conversion to [int] is
    undefined. *)
Definition skydome_iterations (sunsamples : Z) : result Z :=
  let n := Z.quot (sunsamples - 1) 4 in
  if n <? 0 then Undefined
  else
    let iterations := rint_sqrt n + 1 in
    Ok (Z.max iterations 2).

Section Lighting.

(** The globals. *)
Variable cfg : globals_t.

(** The C library ([cos], [sin], [atan2], [sqrt], [atoi], [atof]);
    [VectorNormalize], [DEG2RAD] and [Q_PI] of [common/mathlib.h];
    [Random] and [Q_strcasecmp] (0 when the strings are equal up to case)
    of [common/cmdlib.h].  [Random n] is what the [n]-th call of
    [Random()] returns; the functions below pass the number of calls made
    so far in and out.  [sscanf_vec3 s] is the vector that
    [sscanf(s, "%f %f %f", ...)] leaves in [EntDict_VectorForKey]. *)
Variable cosf sinf sqrtf : Q -> Q.
Variable atan2f : Q -> Q -> Q.
Variable VectorNormalize : vec3 -> vec3.
Variable DEG2RAD : Q -> Q.
Variable Q_PI : Q.
Variable Random : nat -> Q.
Variable sscanf_vec3 : string -> vec3.
Variable atoi : string -> Z.
Variable atof : string -> Q.
Variable Q_strcasecmp : string -> string -> Z.

(** Constants of [common/bspfile.h]. *)
Variable PLANE_X PLANE_Y PLANE_Z : Z.
Variable CONTENTS_EMPTY CONTENTS_SOLID CONTENTS_SKY : Z.

(** [modelinfo_t] of [light/light.hh]: the one member used here. *)
Record modelinfo_t := { offset : vec3 }.

(** [ModelInfoForFace] of [light/light.cc] ([None] is the null pointer),
    and [Light_PointInLeaf] of [light/ltface.cc]: the number of the leaf
    that holds the point, if the descent finds one. *)
Variable ModelInfoForFace : mbsp_t -> Z -> option modelinfo_t.
Variable Light_PointInLeaf : mbsp_t -> vec3 -> option Z.

(** Resolves a dirt flag (0=default, 1=enable, -1=disable) to a boolean *)
Definition Dirt_ResolveFlag (dirtInt : Z) : bool :=
  if dirtInt =? 1 then true
  else if dirtInt =? -1 then false
  else globalDirt cfg.

(** The [sun_t] that [AddSun] builds. *)
Definition new_sun (sunvec : vec3) (light : Q) (color : vec3) (dirtInt : Z) : sun_t :=
  {| Sun.sunvec := VectorScale (VectorNormalize sunvec) (-16384)%Q;
     Sun.sunlight := light;
     Sun.sunlight_color := color;
     Sun.anglescale := global_anglescale cfg;
     Sun.dirt := Dirt_ResolveFlag dirtInt |}.

Definition AddSun (sunvec : vec3) (light : Q) (color : vec3) (dirtInt : Z)
    (all_suns : list sun_t) : list sun_t :=
  all_suns ++ [new_sun sunvec light color dirtInt].

(** The [do ... while] of [SetupSun]: draw [da] and [de] until they pass
    the test. *)
Fixpoint jitter_angles (fuel : nat) (calls : nat) : result (Q * Q * nat) :=
  match fuel with
  | O => OutOfFuel
  | S fuel' =>
    let da := ((Random calls * 2 - 1) * DEG2RAD (sun_deviance cfg))%Q in
    let de := ((Random (S calls) * 2 - 1) * DEG2RAD (sun_deviance cfg))%Q in
    if Qltb (sun_deviance cfg * sun_deviance cfg) (da * da + de * de)
    then jitter_angles fuel' (S (S calls))
    else Ok (da, de, S (S calls))
  end.

(** The [for] loop of [SetupSun], from sample [i] on, [n] samples to go. *)
Fixpoint SetupSun_samples (fuel : nat) (n : nat) (i : Z) (light : Q) (color sunvec : vec3)
    (all_suns : list sun_t) (calls : nat) : result (list sun_t * nat) :=
  match n with
  | O => Ok (all_suns, calls)
  | S n' =>
    do (direction, calls) <-
      (if i =? 0 then Ok (sunvec, calls)
       else
         let d := sqrtf (vx sunvec * vx sunvec + vy sunvec * vy sunvec)%Q in
         let angle := atan2f (vy sunvec) (vx sunvec) in
         let elevation := atan2f (vz sunvec) d in
         (* jitter the angles (loop to keep random sample within sun->deviance steridians) *)
         do (dade, calls) <- jitter_angles fuel calls;
         let angle := (angle + fst dade)%Q in
         let elevation := (elevation + snd dade)%Q in
         (* create new vector *)
         Ok ((cosf angle * cosf elevation, sinf angle * cosf elevation, sinf elevation)%Q,
             calls));
    SetupSun_samples fuel n' (i + 1) light color sunvec
      (AddSun direction light color (intValue (sunlight_dirt cfg)) all_suns) calls
  end.

Definition SetupSun (fuel : nat) (light : Q) (color sunvec_in : vec3)
    (all_suns : list sun_t) (calls : nat) : result (list sun_t * nat) :=
  let sun_num_samples :=
    if Qeq_bool (sun_deviance cfg) 0 then 1 else sunsamples cfg in
  let sunvec := VectorNormalize sunvec_in in
  (* set photons *)
  let light := (light / inject_Z sun_num_samples)%Q in
  SetupSun_samples fuel (Z.to_nat sun_num_samples) 0 light color sunvec all_suns calls.

Definition SetupSuns (fuel : nat) (all_suns : list sun_t) (calls : nat)
  : result (list sun_t * nat) :=
  do (all_suns, calls) <-
    SetupSun fuel (sunlight cfg) (sunlight_color cfg) (sunvec cfg) all_suns calls;
  if negb (Qeq_bool (sun2 cfg) 0)
  then SetupSun fuel (sun2 cfg) (sun2_color cfg) (sun2vec cfg) all_suns calls
  else Ok (all_suns, calls).

(** One pass of the inner loop of [SetupSkyDome]. *)
Definition skydome_cell (sunlight2value sunlight3value angle elevation : Q)
    (all_suns : list sun_t) : list sun_t :=
  (* create sun *)
  let direction :=
    (cosf angle * cosf elevation, sinf angle * cosf elevation, - sinf elevation)%Q in
  (* insert top hemisphere light *)
  let all_suns :=
    if Qltb 0 sunlight2value
    then AddSun direction sunlight2value (sunlight2_color cfg)
                (intValue (sunlight2_dirt cfg)) all_suns
    else all_suns in
  let direction := vset direction 2 (- vz direction)%Q in
  (* insert bottom hemisphere light *)
  if Qltb 0 sunlight3value
  then AddSun direction sunlight3value (sunlight3_color cfg)
              (intValue (sunlight2_dirt cfg)) all_suns
  else all_suns.

(** The inner loop ("iterate angle"), [n] passes to go. *)
Fixpoint skydome_angles (n : nat) (sunlight2value sunlight3value angleStep : Q)
    (angle elevation : Q) (all_suns : list sun_t) : Q * list sun_t :=
  match n with
  | O => (angle, all_suns)
  | S n' =>
    let all_suns := skydome_cell sunlight2value sunlight3value angle elevation all_suns in
    skydome_angles n' sunlight2value sunlight3value angleStep
                   (angle + angleStep)%Q elevation all_suns
  end.

(** The outer loop ("iterate elevation"), [n] passes to go. *)
Fixpoint skydome_elevations (n : nat) (angleSteps elevationSteps : Z)
    (sunlight2value sunlight3value angleStep elevationStep : Q)
    (angle elevation : Q) (all_suns : list sun_t) : list sun_t :=
  match n with
  | O => all_suns
  | S n' =>
    let '(angle, all_suns) :=
      skydome_angles (Z.to_nat angleSteps) sunlight2value sunlight3value angleStep
                     angle elevation all_suns in
    skydome_elevations n' angleSteps elevationSteps
      sunlight2value sunlight3value angleStep elevationStep
      (angle + angleStep / inject_Z elevationSteps)%Q
      (elevation + elevationStep)%Q all_suns
  end.

Definition SetupSkyDome (all_suns : list sun_t) : result (list sun_t) :=
  (* pick a value for 'iterations' so that 'numSuns' will be close to 'sunsamples' *)
  do iterations <- skydome_iterations (sunsamples cfg);
  (* dummy check *)
  if Qle_bool (sunlight2 cfg) 0 && Qle_bool (sunlight3 cfg) 0 then Ok all_suns
  else
    (* setup *)
    let elevationSteps := iterations - 1 in
    let angleSteps := elevationSteps * 4 in
    let elevationStep := DEG2RAD (90 / inject_Z (elevationSteps + 1))%Q in
    let angleStep := DEG2RAD (360 / inject_Z angleSteps)%Q in
    (* calc individual sun brightness *)
    let numSuns := angleSteps * elevationSteps + 1 in
    let sunlight2value := (sunlight2 cfg / inject_Z numSuns)%Q in
    let sunlight3value := (sunlight3 cfg / inject_Z numSuns)%Q in
    (* iterate elevation *)
    let all_suns :=
      skydome_elevations (Z.to_nat elevationSteps) angleSteps elevationSteps
        sunlight2value sunlight3value angleStep elevationStep
        0%Q (elevationStep * (1 # 2))%Q all_suns in
    (* create vertical sun *)
    let all_suns :=
      if Qltb 0 sunlight2value
      then AddSun (0, 0, 1)%Q sunlight2value (sunlight2_color cfg)
                  (intValue (sunlight2_dirt cfg)) all_suns
      else all_suns in
    let all_suns :=
      if Qltb 0 sunlight3value
      then AddSun (0, 0, -1)%Q sunlight3value (sunlight3_color cfg)
                  (intValue (sunlight2_dirt cfg)) all_suns
      else all_suns in
    Ok all_suns.

(** *** Jitter *)

Definition DuplicateEntity (src : light_t) : light_t := src.

(** The loop of [JitterEntity], [n] passes to go. *)
Fixpoint JitterEntity_loop (n : nat) (entity : light_t)
    (all_lights : list light_t) (calls : nat) : list light_t * nat :=
  match n with
  | O => (all_lights, calls)
  | S n' =>
    (* create a light *)
    let light2 := DuplicateEntity entity in
    let light2 := set_generated true light2 in   (* don't write generated light to bsp *)
    (* jitter it *)
    let neworigin :=
      (vx (origin entity) + (Random calls * 2 - 1) * deviance entity,
       vy (origin entity) + (Random (S calls) * 2 - 1) * deviance entity,
       vz (origin entity) + (Random (S (S calls)) * 2 - 1) * deviance entity)%Q in
    let light2 := set_origin neworigin light2 in
    JitterEntity_loop n' entity (all_lights ++ [light2]) (S (S (S calls)))
  end.

(** [j] runs from 1 up to [samples - 1]. *)
Definition JitterEntity (entity : light_t) (all_lights : list light_t) (calls : nat)
  : list light_t * nat :=
  JitterEntity_loop (Z.to_nat (intValue (samples entity) - 1)) entity all_lights calls.

(** The loop of [JitterEntities] from index [i] on, [n] passes to go.
    [all_lights.at(i)] throws when [i] is out of range. *)
Fixpoint JitterEntities_loop (n : nat) (i : nat) (all_lights : list light_t) (calls : nat)
  : result (list light_t * nat) :=
  match n with
  | O => Ok (all_lights, calls)
  | S n' =>
    match all_lights !! i with
    | None => Fatal "std::out_of_range"
    | Some entity =>
      let '(all_lights, calls) := JitterEntity entity all_lights calls in
      JitterEntities_loop n' (S i) all_lights calls
    end
  end.

Definition JitterEntities (all_lights : list light_t) (calls : nat)
  : result (list light_t * nat) :=
  (* We will append to the list during iteration. *)
  let starting_size := length all_lights in
  JitterEntities_loop starting_size 0 all_lights calls.

(** *** Targets and spotlights *)

(** The search of [MatchTargets]: the index of the first dict of
    [entdicts] whose [targetname] is [targetstr]. *)
Fixpoint find_target (entdicts : list entdict_t) (targetstr : string) (i : nat)
  : option nat :=
  match entdicts with
  | [] => None
  | target :: rest =>
    if String.eqb targetstr (EntDict_StringForKey target "targetname") then Some i
    else find_target rest targetstr (S i)
  end.

Definition MatchTarget (entdicts : list entdict_t) (entity : light_t) : light_t :=
  let targetstr := ValueForKey entity "target" in
  if (String.length targetstr =? 0)%nat then entity
  else
    match find_target entdicts targetstr 0 with
    | Some i => set_targetent (Some i) entity
    | None => entity     (* WARNING: ... has unmatched target *)
    end.

Definition MatchTargets (entdicts : list entdict_t) (all_lights : list light_t)
  : list light_t :=
  map (MatchTarget entdicts) all_lights.

Definition EntDict_VectorForKey (ent : entdict_t) (key : string) : vec3 :=
  sscanf_vec3 (EntDict_StringForKey ent key).

Definition SetupSpotlight (entdicts : list entdict_t) (entity : light_t)
  : result light_t :=
  do entity <-
    match targetent entity with
    | Some i =>
      match entdicts !! i with
      | None => Undefined
      | Some target =>
        let targetOrigin := EntDict_VectorForKey target "origin" in
        let v := VectorNormalize (VectorSubtract targetOrigin (origin entity)) in
        Ok (set_spotlight true (set_spotvec v entity))
      end
    | None => Ok entity
    end;
  if spotlight entity then
    let angle := if Qltb 0 (spotangle entity) then spotangle entity else 40%Q in
    let entity := set_spotfalloff (- cosf (angle / 2 * Q_PI / 180))%Q entity in
    let angle2 := spotangle2 entity in
    let angle2 := if Qle_bool angle2 0 || Qltb angle angle2 then angle else angle2 in
    Ok (set_spotfalloff2 (- cosf (angle2 / 2 * Q_PI / 180))%Q entity)
  else Ok entity.

(** A loop over [all_lights] that rewrites each element in place. *)
Fixpoint for_each {A} (f : A -> result A) (l : list A) : result (list A) :=
  match l with
  | [] => Ok []
  | x :: rest =>
    do x <- f x;
    do rest <- for_each f rest;
    Ok (x :: rest)
  end.

Definition SetupSpotlights (entdicts : list entdict_t) (all_lights : list light_t)
  : result (list light_t) :=
  for_each (SetupSpotlight entdicts) all_lights.

(** *** Lights in solid *)

Definition Plane_Dist (point : vec3) (plane : dplane_t) : Q :=
  if type plane =? PLANE_X then (vx point - dist plane)%Q
  else if type plane =? PLANE_Y then (vy point - dist plane)%Q
  else if type plane =? PLANE_Z then (vz point - dist plane)%Q
  else (DotProduct point (normal plane) - dist plane)%Q.

Fixpoint Light_PointInSolid_r (fuel : nat) (bsp : mbsp_t) (nodenum : Z) (point : vec3)
  : result bool :=
  match fuel with
  | O => OutOfFuel
  | S fuel' =>
    if nodenum <? 0 then
      do leaf <- unchecked (dleafs bsp) (-1 - nodenum);
      Ok ((contents leaf =? CONTENTS_SOLID) || (contents leaf =? CONTENTS_SKY))
    else
      do node <- unchecked (dnodes bsp) nodenum;
      do plane <- unchecked (dplanes bsp) (planenum node);
      let d := Plane_Dist point plane in
      if Qltb (1 # 10) d then
        Light_PointInSolid_r fuel' bsp (fst (children node)) point
      else if Qltb d (- (1 # 10)) then
        Light_PointInSolid_r fuel' bsp (snd (children node)) point
      else
        (* too close to the plane, check both sides *)
        do front <- Light_PointInSolid_r fuel' bsp (fst (children node)) point;
        if front then Ok true
        else Light_PointInSolid_r fuel' bsp (snd (children node)) point
  end.

(** only check hull 0 of model 0 (world) *)
Definition Light_PointInSolid (fuel : nat) (bsp : mbsp_t) (point : vec3) : result bool :=
  do model <- unchecked (dmodels bsp) 0;
  Light_PointInSolid_r fuel bsp (headnode_0 model) point.

(** The loop of [FixLightOnFace] over the six nudges, from [i] on. *)
Fixpoint FixLightOnFace_nudges (fuel : nat) (bsp : mbsp_t) (point : vec3) (tries : list Z)
  : result vec3 :=
  match tries with
  | [] => Ok point    (* WARNING: couldn't nudge light in solid *)
  | i :: rest =>
    let axis := Z.to_nat (i / 2) in
    let add := negb (i mod 2 =? 0) in
    (* sample points are 1 unit off faces. so nudge by 2 units, so the
       lights are above the sample points *)
    let testpoint :=
      vset point axis (vidx point axis + (if add then 2 else -2))%Q in
    do solid <- Light_PointInSolid fuel bsp testpoint;
    if negb solid then Ok testpoint
    else FixLightOnFace_nudges fuel bsp point rest
  end.

Definition FixLightOnFace (fuel : nat) (bsp : mbsp_t) (point : vec3) : result vec3 :=
  do solid <- Light_PointInSolid fuel bsp point;
  if negb solid then Ok point
  else FixLightOnFace_nudges fuel bsp point [0; 1; 2; 3; 4; 5].

Definition FixLightsOnFaces (fuel : nat) (bsp : mbsp_t) (all_lights : list light_t)
  : result (list light_t) :=
  for_each
    (fun entity =>
       if negb (Qeq_bool (light entity) 0) then
         do tmp <- FixLightOnFace fuel bsp (origin entity);
         Ok (set_origin tmp entity)
       else Ok entity)
    all_lights.

Definition SetupLightLeafnums (bsp : mbsp_t) (all_lights : list light_t) : list light_t :=
  map (fun entity => set_leaf (Light_PointInLeaf bsp (origin entity)) entity) all_lights.

(** *** Surface lights *)

(** [surflight_dump] only writes a copy of the new entity to a map file;
    that output is not modelled. *)
Definition CreateSurfaceLight (origin normal : vec3) (surflight_template : light_t)
    (all_lights : list light_t) : list light_t :=
  let entity := DuplicateEntity surflight_template in
  let entity := set_origin origin entity in
  (* don't write to bsp *)
  let entity := set_generated true entity in
  (* set spotlight vector based on face normal *)
  let entity :=
    if negb (atoi (ValueForKey surflight_template "_surface_spotlight") =? 0)
    then set_spotvec normal (set_spotlight true entity)
    else entity in
  all_lights ++ [entity].

Definition CreateSurfaceLightOnFaceSubdivision (face : mface_t)
    (face_modelinfo : modelinfo_t) (surflight_template : light_t) (bsp : mbsp_t)
    (verts : list vec3) (all_lights : list light_t) : result (list light_t) :=
  let model_offset := offset face_modelinfo in
  let numverts := inject_Z (zlen verts) in
  let midpoint := fold_left VectorAdd verts vec3_origin in
  let midpoint :=
    (vx midpoint / numverts, vy midpoint / numverts, vz midpoint / numverts)%Q in
  do plane <- unchecked (dplanes bsp) (face_planenum face);
  (* Nudge 2 units (by default) along face normal *)
  let normal :=
    if side face then VectorSubtract vec3_origin (normal plane) else normal plane in
  let offset := atof (ValueForKey surflight_template "_surface_offset") in
  let offset := if Qeq_bool offset 0 then 2%Q else offset in
  let midpoint := VectorMA midpoint offset normal in
  (* Add the model offset *)
  let midpoint := VectorAdd midpoint model_offset in
  Ok (CreateSurfaceLight midpoint normal surflight_template all_lights).

Definition BoundPoly (verts : list vec3) : vec3 * vec3 :=
  fold_left
    (fun '(mins, maxs) v =>
       let bound j '(mins, maxs) :=
         (if Qltb (vidx v j) (vidx mins j) then vset mins j (vidx v j) else mins,
          if Qltb (vidx maxs j) (vidx v j) then vset maxs j (vidx v j) else maxs) in
       bound 2%nat (bound 1%nat (bound 0%nat (mins, maxs))))
    verts
    ((9999, 9999, 9999)%Q, (-9999, -9999, -9999)%Q).

(** The cut of [SubdividePolygon] along axis [i] at [m]: rounded middle of
    the bounds, [None] when it is less than 8 units from either bound. *)
Definition cut_position (subdivide_size : Q) (mins maxs : vec3) (i : nat) : option Q :=
  let m := ((vidx mins i + vidx maxs i) * (1 # 2))%Q in
  let m := (subdivide_size * inject_Z (Qfloor (m / subdivide_size + (1 # 2))))%Q in
  if Qltb (vidx maxs i - m) 8 then None
  else if Qltb (m - vidx mins i) 8 then None
  else Some m.

(** The clipping loop over the vertices with their distances; [first] is
    the wrap case, vertex 0 again after the last. *)
Fixpoint clip_verts (first : vec3 * Q) (l : list (vec3 * Q)) : list vec3 * list vec3 :=
  match l with
  | [] => ([], [])
  | (v, d) :: rest =>
    let '(v1, d1) := match rest with [] => first | x :: _ => x end in
    let '(front, back) := clip_verts first rest in
    let '(front, back) :=
      if Qeq_bool d 0 || Qeq_bool d1 0 then (front, back)
      else if negb (Bool.eqb (Qltb 0 d) (Qltb 0 d1)) then
        (* clip point *)
        let frac := (d / (d - d1))%Q in
        let p := (vx v + frac * (vx v1 - vx v),
                  vy v + frac * (vy v1 - vy v),
                  vz v + frac * (vz v1 - vz v))%Q in
        (p :: front, p :: back)
      else (front, back) in
    (if Qle_bool 0 d then v :: front else front,
     if Qle_bool d 0 then v :: back else back)
  end.

(** [front] and [back] are arrays of 64 vertices. *)
Definition cut_polygon (verts : list vec3) (i : nat) (m : Q)
  : result (list vec3 * list vec3) :=
  let dists := map (fun v => (v, (vidx v i - m)%Q)) verts in
  match dists with
  | [] => Ok ([], [])
  | first :: _ =>
    let '(front, back) := clip_verts first dists in
    if (64 <? zlen front) || (64 <? zlen back) then Undefined
    else Ok (front, back)
  end.

(** The first axis of 0, 1, 2 along which [SubdividePolygon] cuts. *)
Definition first_cut (subdivide_size : Q) (verts : list vec3) : option (nat * Q) :=
  let '(mins, maxs) := BoundPoly verts in
  match cut_position subdivide_size mins maxs 0 with
  | Some m => Some (0%nat, m)
  | None =>
    match cut_position subdivide_size mins maxs 1 with
    | Some m => Some (1%nat, m)
    | None =>
      match cut_position subdivide_size mins maxs 2 with
      | Some m => Some (2%nat, m)
      | None => None
      end
    end
  end.

(** The loop over [surfacelight_templates] at a cell that is not cut. *)
Fixpoint subdivision_lights (face : mface_t) (face_modelinfo : modelinfo_t) (bsp : mbsp_t)
    (texname : string) (verts : list vec3) (templates : list light_t)
    (all_lights : list light_t) : result (list light_t) :=
  match templates with
  | [] => Ok all_lights
  | surflight :: rest =>
    do all_lights <-
      (if Q_strcasecmp texname (ValueForKey surflight "_surface") =? 0
       then CreateSurfaceLightOnFaceSubdivision face face_modelinfo surflight bsp
              verts all_lights
       else Ok all_lights);
    subdivision_lights face face_modelinfo bsp texname verts rest all_lights
  end.

(** [numverts] is the length of [verts]. *)
Fixpoint SubdividePolygon (fuel : nat) (face : mface_t) (face_modelinfo : modelinfo_t)
    (bsp : mbsp_t) (verts : list vec3) (subdivide_size : Q)
    (surfacelight_templates : list light_t) (all_lights : list light_t)
  : result (list light_t) :=
  match fuel with
  | O => OutOfFuel
  | S fuel' =>
    if 60 <? zlen verts then Fatal ("numverts = " +:+ to_string (zlen verts))
    else
      match first_cut subdivide_size verts with
      | Some (i, m) =>
        (* cut it *)
        do (front, back) <- cut_polygon verts i m;
        do all_lights <-
          SubdividePolygon fuel' face face_modelinfo bsp front subdivide_size
            surfacelight_templates all_lights;
        SubdividePolygon fuel' face face_modelinfo bsp back subdivide_size
          surfacelight_templates all_lights
      | None =>
        do texname <- BspUtils.Face_TextureName bsp face;
        subdivision_lights face face_modelinfo bsp texname verts
          surfacelight_templates all_lights
      end
  end.

(** The vertex loop of [GL_SubdivideSurface], from edge [i] on; [verts] is
    an array of 64 vertices. *)
Fixpoint face_verts (n : nat) (bsp : mbsp_t) (face : mface_t) (i : Z) : result (list vec3) :=
  match n with
  | O => Ok []
  | S n' =>
    do edgenum <- unchecked (dsurfedges bsp) (firstedge face + i);
    do v <-
      (if 0 <=? edgenum
       then do e <- unchecked (dedges bsp) edgenum; unchecked (dvertexes bsp) (fst e)
       else do e <- unchecked (dedges bsp) (- edgenum); unchecked (dvertexes bsp) (snd e));
    if 64 <=? i then Undefined
    else
      do rest <- face_verts n' bsp face (i + 1);
      Ok (v :: rest)
  end.

Definition GL_SubdivideSurface (fuel : nat) (face : mface_t) (face_modelinfo : modelinfo_t)
    (bsp : mbsp_t) (surfacelight_templates : list light_t) (all_lights : list light_t)
  : result (list light_t) :=
  do verts <- face_verts (Z.to_nat (numedges face)) bsp face 0;
  SubdividePolygon fuel face face_modelinfo bsp verts (surflight_subdivide cfg)
    surfacelight_templates all_lights.

(** The first loop of [MakeSurfaceLights]: copy the templates out of
    [all_lights] and clear their light value. *)
Fixpoint collect_templates (all_lights : list light_t) (templates : list light_t)
  : list light_t * list light_t :=
  match all_lights with
  | [] => ([], templates)
  | entity :: rest =>
    let tex := ValueForKey entity "_surface" in
    if negb (String.eqb tex "") then
      let templates := templates ++ [entity] in     (* makes a copy *)
      (* Hack: clear templates light value to 0 so they don't cast light *)
      let entity := set_light 0%Q entity in
      let '(rest, templates) := collect_templates rest templates in
      (entity :: rest, templates)
    else
      let '(rest, templates) := collect_templates rest templates in
      (entity :: rest, templates)
  end.

(** The loop over the marksurfaces of one leaf, from [k] on. *)
Fixpoint leaf_surface_lights (fuel : nat) (n : nat) (bsp : mbsp_t) (leaf : mleaf_t) (k : Z)
    (templates : list light_t) (face_visited : gset Z) (all_lights : list light_t)
  : result (gset Z * list light_t) :=
  match n with
  | O => Ok (face_visited, all_lights)
  | S n' =>
    let underwater := negb (contents leaf =? CONTENTS_EMPTY) in
    do facenum <- unchecked (dmarksurfaces bsp) (firstmarksurface leaf + k);
    do surf <- unchecked (dfaces bsp) facenum;
    do texname <- BspUtils.Face_TextureName bsp surf;
    do (face_visited, all_lights) <-
      match ModelInfoForFace bsp facenum with
      | None => Ok (face_visited, all_lights)     (* Skip face with no modelinfo *)
      | Some face_modelinfo =>
        (* Ignore the underwater side of liquid surfaces *)
        if first_char_is "*"%char texname && underwater then Ok (face_visited, all_lights)
        (* Skip if already handled *)
        else if bool_decide (facenum ∈ face_visited) then Ok (face_visited, all_lights)
        else
          (* Mark as handled *)
          let face_visited := {[ facenum ]} ∪ face_visited in
          (* Generate the lights *)
          do all_lights <-
            GL_SubdivideSurface fuel surf face_modelinfo bsp templates all_lights;
          Ok (face_visited, all_lights)
      end;
    leaf_surface_lights fuel n' bsp leaf (k + 1) templates face_visited all_lights
  end.

Fixpoint leafs_surface_lights (fuel : nat) (bsp : mbsp_t) (leafs : list mleaf_t)
    (templates : list light_t) (face_visited : gset Z) (all_lights : list light_t)
  : result (list light_t) :=
  match leafs with
  | [] => Ok all_lights
  | leaf :: rest =>
    do (face_visited, all_lights) <-
      leaf_surface_lights fuel (Z.to_nat (nummarksurfaces leaf)) bsp leaf 0
        templates face_visited all_lights;
    leafs_surface_lights fuel bsp rest templates face_visited all_lights
  end.

(** [all_lights] and [surfacelight_templates] are passed in and out. *)
Definition MakeSurfaceLights (fuel : nat) (bsp : mbsp_t)
    (all_lights surfacelight_templates : list light_t)
  : result (list light_t * list light_t) :=
  let '(all_lights, surfacelight_templates) :=
    collect_templates all_lights surfacelight_templates in
  if (length surfacelight_templates =? 0)%nat
  then Ok (all_lights, surfacelight_templates)
  else
    (* Create the surface lights *)
    do all_lights <-
      leafs_surface_lights fuel bsp (dleafs bsp) surfacelight_templates ∅ all_lights;
    Ok (all_lights, surfacelight_templates).

(** *** SetupLights *)

(** [assert] *)
Definition c_assert (b : bool) : result unit :=
  if b then Ok tt else AssertFail.

(** The passes of [SetupLights] that follow [JitterEntities]. *)
Definition SetupLights_passes (fuel : nat) (bsp : mbsp_t) (entdicts : list entdict_t)
    (all_lights : list light_t) (all_suns : list sun_t) (calls : nat)
  : result (list light_t * list sun_t * nat) :=
  let all_lights := MatchTargets entdicts all_lights in
  do all_lights <- SetupSpotlights entdicts all_lights;
  do (all_suns, calls) <- SetupSuns fuel all_suns calls;
  do all_suns <- SetupSkyDome all_suns;
  do all_lights <- FixLightsOnFaces fuel bsp all_lights;
  let all_lights := SetupLightLeafnums bsp all_lights in
  Ok (all_lights, all_suns, calls).

(** The globals that [SetupLights] works on. *)
Record lights_state := {
  all_lights : list light_t;
  all_suns : list sun_t;
  surfacelight_templates : list light_t;
  random_calls : nat
}.

Definition SetupLights (fuel : nat) (bsp : mbsp_t) (entdicts : list entdict_t)
    (st : lights_state) : result lights_state :=
  (* Creates more light entities, needs to be done before the rest *)
  do (lights, templates) <-
    MakeSurfaceLights fuel bsp (all_lights st) (surfacelight_templates st);
  do (lights, calls) <- JitterEntities lights (random_calls st);
  let final_lightcount := length lights in
  do (lights_suns, calls) <-
    SetupLights_passes fuel bsp entdicts lights (all_suns st) calls;
  do _ <- c_assert (final_lightcount =? length (fst lights_suns))%nat;
  Ok {| all_lights := fst lights_suns;
        all_suns := snd lights_suns;
        surfacelight_templates := templates;
        random_calls := calls |}.

End Lighting.

(** *** The world entity and lookups in [entdicts] *)

(** [entdicts.at(0)["classname"]] reads the value, the empty string when
    the key is missing. *)
Definition WorldEnt (entdicts : list entdict_t) : result entdict_t :=
  match entdicts with
  | [] => Fatal "WorldEnt() failed to get worldspawn"
  | world :: _ =>
    if negb (String.eqb (EntDict_StringForKey world "classname") "worldspawn")
    then Fatal "WorldEnt() failed to get worldspawn"
    else Ok world
  end.

(** [entdicts] is passed in and out. *)
Definition SetWorldKeyValue (entdicts : list entdict_t) (key value : string)
  : result (list entdict_t) :=
  do world <- WorldEnt entdicts;
  Ok (<[0%nat := <[key := value]> world]> entdicts).

Definition WorldValueForKey (entdicts : list entdict_t) (key : string) : result string :=
  do world <- WorldEnt entdicts;
  Ok (EntDict_StringForKey world key).

(** The result points at an element of [entdicts]: its index, [None] for
    the null pointer. *)
Fixpoint FindEntDictWithKeyPair (entdicts : list entdict_t) (key value : string)
  : option nat :=
  match entdicts with
  | [] => None
  | entdict :: rest =>
    if String.eqb (EntDict_StringForKey entdict key) value then Some 0%nat
    else S <$> FindEntDictWithKeyPair rest key value
  end.


(** *** Projection matrices *)

(** A [float[16]], column after column. *)
Record mat4 := {
  e0 : Q; e1 : Q; e2 : Q; e3 : Q;
  e4 : Q; e5 : Q; e6 : Q; e7 : Q;
  e8 : Q; e9 : Q; e10 : Q; e11 : Q;
  e12 : Q; e13 : Q; e14 : Q; e15 : Q
}.

Definition Matrix4x4_CM_NewTranslation (x y z : Q) : mat4 :=
  {| e0 := 1; e4 := 0; e8 := 0; e12 := x;
     e1 := 0; e5 := 1; e9 := 0; e13 := y;
     e2 := 0; e6 := 0; e10 := 1; e14 := z;
     e3 := 0; e7 := 0; e11 := 0; e15 := 1 |}.

Definition Matrix4_Multiply (a b : mat4) : mat4 :=
  {| e0 := e0 a * e0 b + e4 a * e1 b + e8 a * e2 b + e12 a * e3 b;
     e1 := e1 a * e0 b + e5 a * e1 b + e9 a * e2 b + e13 a * e3 b;
     e2 := e2 a * e0 b + e6 a * e1 b + e10 a * e2 b + e14 a * e3 b;
     e3 := e3 a * e0 b + e7 a * e1 b + e11 a * e2 b + e15 a * e3 b;

     e4 := e0 a * e4 b + e4 a * e5 b + e8 a * e6 b + e12 a * e7 b;
     e5 := e1 a * e4 b + e5 a * e5 b + e9 a * e6 b + e13 a * e7 b;
     e6 := e2 a * e4 b + e6 a * e5 b + e10 a * e6 b + e14 a * e7 b;
     e7 := e3 a * e4 b + e7 a * e5 b + e11 a * e6 b + e15 a * e7 b;

     e8 := e0 a * e8 b + e4 a * e9 b + e8 a * e10 b + e12 a * e11 b;
     e9 := e1 a * e8 b + e5 a * e9 b + e9 a * e10 b + e13 a * e11 b;
     e10 := e2 a * e8 b + e6 a * e9 b + e10 a * e10 b + e14 a * e11 b;
     e11 := e3 a * e8 b + e7 a * e9 b + e11 a * e10 b + e15 a * e11 b;

     e12 := e0 a * e12 b + e4 a * e13 b + e8 a * e14 b + e12 a * e15 b;
     e13 := e1 a * e12 b + e5 a * e13 b + e9 a * e14 b + e13 a * e15 b;
     e14 := e2 a * e12 b + e6 a * e13 b + e10 a * e14 b + e14 a * e15 b;
     e15 := e3 a * e12 b + e7 a * e13 b + e11 a * e14 b + e15 a * e15 b |}%Q.

Section Projection.

(** [cos], [sin] and [Q_PI]. *)
Variable cosf sinf : Q -> Q.
Variable Q_PI : Q.

Definition Matrix4x4_CM_NewRotation (a x y z : Q) : mat4 :=
  let c := cosf (a * Q_PI / 180)%Q in
  let s := sinf (a * Q_PI / 180)%Q in
  {| e0 := x * x * (1 - c) + c;
     e4 := x * y * (1 - c) - z * s;
     e8 := x * z * (1 - c) + y * s;
     e12 := 0;

     e1 := y * x * (1 - c) + z * s;
     e5 := y * y * (1 - c) + c;
     e9 := y * z * (1 - c) - x * s;
     e13 := 0;

     e2 := x * z * (1 - c) - y * s;
     e6 := y * z * (1 - c) + x * s;
     e10 := z * z * (1 - c) + c;
     e14 := 0;

     e3 := 0;
     e7 := 0;
     e11 := 0;
     e15 := 1 |}%Q.

(** The build without [FULLYGL]. *)
Definition Matrix4x4_CM_ModelViewMatrix (viewangles vieworg : vec3) : mat4 :=
  (* use this lame wierd and crazy identity matrix.. *)
  let modelview :=
    {| e0 := 0; e1 := 0; e2 := -1; e3 := 0;
       e4 := -1; e5 := 0; e6 := 0; e7 := 0;
       e8 := 0; e9 := 1; e10 := 0; e11 := 0;
       e12 := 0; e13 := 0; e14 := 0; e15 := 1 |}%Q in
  (* figure out the current modelview matrix *)
  let tempmat :=
    Matrix4_Multiply modelview (Matrix4x4_CM_NewRotation (- vz viewangles) 1 0 0) in (* roll *)
  let modelview :=
    Matrix4_Multiply tempmat (Matrix4x4_CM_NewRotation (vy viewangles) 0 1 0) in   (* pitch *)
  let tempmat :=
    Matrix4_Multiply modelview (Matrix4x4_CM_NewRotation (- vx viewangles) 0 0 1) in (* yaw *)
  Matrix4_Multiply tempmat
    (Matrix4x4_CM_NewTranslation (- vx vieworg) (- vy vieworg) (- vz vieworg)).

End Projection.

End Entities.

(** ** light/bounce.cc *)

Module Bounce.

(** [qvec4f]: red, green, blue, alpha. *)
Definition vec4 : Type := Q * Q * Q * Q.

Definition style_le (p q : Z * vec3) : Prop := fst p <= fst q.

#[global] Instance style_le_dec (p q : Z * vec3) : Decision (style_le p q).
Proof. unfold style_le. apply _. Defined.

(** The pairs of a [std::map<int, qvec3f>] in iteration order (ascending
    styles). *)
Definition styles_of (m : gmap Z vec3) : list (Z * vec3) :=
  merge_sort style_le (map_to_list m).

Section Lights.

(** What the file takes from elsewhere.  [light/bounce.hh] and
    [light/light.hh]: the types of the edge planes and of the visibility
    bounds of a bounce light, [GLM_MakeInwardFacingEdgePlanes],
    [EstimateVisibleBoundsAtPoint], the bounds that [qvec3d(0)] stands
    for, the globals [novisapprox] and [extended_texinfo_flags] (its
    member [extended]) with [TEX_EXFLAG_NOBOUNCE], the setting
    [cfg.bouncecolorscale], and [GetDirectLighting] of [light/ltface.cc]
    with its [cfg] argument bound.  [common/polylib.hh]: [winding_t] with
    [from_face], [area], [plane], [center], and [dice], given as the
    pieces it hands to its callback, in that order.  [Q_strcasecmp] of
    [common/cmdlib.hh] and the BSP constants and plane functions that
    [common/bsputils.cc] uses. *)
Variable edgeplanes_t bounds_t winding_t : Type.
Variable GLM_MakeInwardFacingEdgePlanes : list vec3 -> edgeplanes_t.
Variable EstimateVisibleBoundsAtPoint : vec3 -> bounds_t.
Variable no_bounds : bounds_t.
Variable novisapprox : bool.
Variable extended_texinfo_flags : list Z.
Variable TEX_EXFLAG_NOBOUNCE : Z.
Variable bouncecolorscale : Q.
Variable GetDirectLighting : mbsp_t -> vec3 -> vec3 -> gmap Z vec3.
Variable winding_from_face : mbsp_t -> mface_t -> winding_t.
Variable winding_area : winding_t -> Q.
Variable winding_plane : winding_t -> BspUtils.qplane3d.
Variable winding_center : winding_t -> vec3.
Variable winding_dice : Q -> winding_t -> list winding_t.
Variable Q_strcasecmp : string -> string -> Z.
Variable surf_is_lightmapped : Z -> bool.

(** [modelinfo_t] of [light/light.hh]: the one member used here. *)
Record modelinfo_t := { shadow : bool }.

(** [ModelInfoForFace] of [light/light.cc]; [None] is the null pointer. *)
Variable ModelInfoForFace : mbsp_t -> Z -> option modelinfo_t.

(** The members of [rgba_miptex_t] that [Texture_AvgColor] reads besides
    the name, and [Texture_GetColor] of [light/imglib.cc]. *)
Variable miptex_has_data : rgba_miptex_t -> bool.
Variable miptex_width miptex_height : rgba_miptex_t -> Z.
Variable Texture_GetColor : rgba_miptex_t -> Z -> vec4.

(** Modelled from the spec: [bouncelight_t] is declared in
    [light/bounce.hh].  "Face polygon (ordered vertex list), precomputed
    inward edge planes, emission position (face center + 1 unit along
    normal), per-style emissive color map, componentwise max color (for
    culling), surface normal, face area, optional visibility AABB."  The
    member names are those [AddBounceLight] assigns. *)
Record bouncelight_t := {
  poly : list vec3;
  poly_edgeplanes : edgeplanes_t;
  pos : vec3;
  colorByStyle : gmap Z vec3;
  componentwiseMaxColor : vec3;
  surfnormal : vec3;
  area : Q;
  bounds : bounds_t
}.

Record patch_t := {
  w : winding_t;
  center : vec3;
  samplepoint : vec3;     (* 1 unit above center *)
  plane : BspUtils.qplane3d;
  lightByStyle : gmap Z vec3
}.

(** The globals [radlights] and [radlightsByFacenum], both written under
    [radlights_lock]. *)
Record bounce_state := {
  radlights : list bouncelight_t;
  radlightsByFacenum : gmap Z (list Z)
}.

Definition MakePatch (bsp : mbsp_t) (w : winding_t) : patch_t :=
  (* cache some stuff *)
  let center := winding_center w in
  let plane := winding_plane w in
  (* nudge the cernter point 1 unit off *)
  let samplepoint := VectorMA center 1 (BspUtils.qnormal plane) in
  (* calculate direct light *)
  {| w := w;
     center := center;
     samplepoint := samplepoint;
     plane := plane;
     lightByStyle := GetDirectLighting bsp samplepoint (BspUtils.qnormal plane) |}.

(** A pointer to a face is passed as the number of the face together with
    the face it points at. *)
Definition Face_ShouldBounce (bsp : mbsp_t) (facenum : Z) (face : mface_t) : result bool :=
  (* make bounce light, only if this face is shadow casting *)
  do num <- BspUtils.Face_GetNum bsp (Some facenum);
  match ModelInfoForFace bsp num with
  | None => Ok false
  | Some mi =>
    if negb (shadow mi) then Ok false
    else if negb (BspUtils.Face_IsLightmapped surf_is_lightmapped bsp face) then Ok false
    else
      do texname <- BspUtils.Face_TextureName bsp face;
      if Q_strcasecmp "skip" texname =? 0 then Ok false
      else
        (* check for "_bounce" "-1" *)
        do extended <- unchecked extended_texinfo_flags (texinfo face);
        if negb (Z.land extended TEX_EXFLAG_NOBOUNCE =? 0) then Ok false
        else Ok true
  end.

Definition Face_LookupTextureColor (texturecolors : gmap string vec3)
    (bsp : mbsp_t) (face : mface_t) : result vec3 :=
  do facename <- BspUtils.Face_TextureName bsp face;
  match texturecolors !! facename with
  | Some color => Ok color
  | None => Ok (127, 127, 127)%Q
  end.

(** The loop over the styles that raises [componentwiseMaxColor]. *)
Definition raise_max (maxColor : vec3) (styleColor : Z * vec3) : vec3 :=
  let raise i (m : vec3) :=
    if Qltb (vidx m i) (vidx (snd styleColor) i) then vset m i (vidx (snd styleColor) i)
    else m in
  raise 2%nat (raise 1%nat (raise 0%nat maxColor)).

Definition color_nonneg (c : vec3) : bool :=
  Qle_bool 0 (vx c) && Qle_bool 0 (vy c) && Qle_bool 0 (vz c).

(** The bounce light that [AddBounceLight] builds. *)
Definition new_bouncelight (pos : vec3) (colorByStyle : gmap Z vec3) (surfnormal : vec3)
    (area : Q) (poly : list vec3) : bouncelight_t :=
  {| poly := poly;
     poly_edgeplanes := GLM_MakeInwardFacingEdgePlanes poly;
     pos := pos;
     colorByStyle := colorByStyle;
     componentwiseMaxColor := fold_left raise_max (styles_of colorByStyle) vec3_origin;
     surfnormal := surfnormal;
     area := area;
     bounds := if negb novisapprox then EstimateVisibleBoundsAtPoint pos else no_bounds |}.

(** The globals are passed in and out; the part from [push_back] on runs
    with [radlights_lock] held. *)
Definition AddBounceLight (pos : vec3) (colorByStyle : gmap Z vec3) (surfnormal : vec3)
    (area : Q) (facenum : Z) (face : mface_t) (bsp : mbsp_t) (st : bounce_state)
  : result bounce_state :=
  do _ <- BspUtils.Q_assert (forallb (fun sc => color_nonneg (snd sc)) (styles_of colorByStyle));
  do _ <- BspUtils.Q_assert (Qltb 0 area);
  do poly <- BspUtils.GLM_FacePoints bsp face;
  let l := new_bouncelight pos colorByStyle surfnormal area poly in
  let radlights := radlights st ++ [l] in
  let lastBounceLightIndex := zlen radlights - 1 in
  do num <- BspUtils.Face_GetNum bsp (Some facenum);
  let indices :=
    match radlightsByFacenum st !! num with
    | Some v => v
    | None => []
    end in
  Ok {| radlights := radlights;
        radlightsByFacenum :=
          <[num := indices ++ [lastBounceLightIndex]]> (radlightsByFacenum st) |}.

(** The loop over the patches: the area and the sums per style. *)
Definition add_patch (acc : Q * gmap Z vec3) (patch : patch_t) : Q * gmap Z vec3 :=
  let patcharea := winding_area (w patch) in
  let totalarea := (fst acc + patcharea)%Q in
  let sum :=
    fold_left
      (fun (sum : gmap Z vec3) (styleColor : Z * vec3) =>
         let old := match sum !! fst styleColor with
                    | Some c => c
                    | None => vec3_origin
                    end in
         <[fst styleColor := VectorAdd old (VectorScale (snd styleColor) patcharea)]> sum)
      (styles_of (lightByStyle patch)) (snd acc) in
  (totalarea, sum).

Definition emitcolor (blendedcolor : vec3) (color : vec3) : vec3 :=
  ((vx color / 255) * (vx blendedcolor / 255),
   (vy color / 255) * (vy blendedcolor / 255),
   (vz color / 255) * (vz blendedcolor / 255))%Q.

(** One pass of the loop of [MakeBounceLightsThread], for the face number
    [i] that [GetThreadWork] hands out, up to the call of
    [AddBounceLight]: the arguments of that call, [None] when the face is
    skipped. *)
Definition bounce_emission (texturecolors : gmap string vec3) (bsp : mbsp_t) (i : Z)
  : result (option (vec3 * gmap Z vec3 * vec3 * Q * mface_t)) :=
  do face <- BspUtils.BSP_GetFace bsp i;
  do should <- Face_ShouldBounce bsp i face;
  if negb should then Ok None
  else
    let winding := winding_from_face bsp face in
    (* grab some info about the face winding *)
    let facearea := winding_area winding in
    (* degenerate face *)
    if Qeq_bool facearea 0 then Ok None
    else
      let faceplane := winding_plane winding in
      let facemidpoint := winding_center winding in
      let facemidpoint := VectorAdd facemidpoint (BspUtils.qnormal faceplane) in (* lift 1 unit *)
      let patches := map (MakePatch bsp) (winding_dice 64 winding) in
      (* average them, area weighted *)
      let averaged := fold_left add_patch patches (0%Q, ∅) in
      let totalarea := fst averaged in
      let sum := (fun c => VectorScale c (1 / totalarea)%Q) <$> snd averaged in
      (* avoid small, or zero-area patches ("sum" would be nan) *)
      if Qltb totalarea 1 then Ok None
      else
        do texturecolor <- Face_LookupTextureColor texturecolors bsp face;
        (* lerp between gray and the texture color according to `bouncecolorscale` *)
        let gray := (127, 127, 127)%Q in
        let blendedcolor := vec3_origin in
        let blendedcolor := VectorMA blendedcolor bouncecolorscale texturecolor in
        let blendedcolor := VectorMA blendedcolor (1 - bouncecolorscale)%Q gray in
        (* final colors to emit *)
        let emitcolors := emitcolor blendedcolor <$> sum in
        Ok (Some (facemidpoint, emitcolors, BspUtils.qnormal faceplane, facearea, face)).

Definition MakeBounceLightsThread_face (texturecolors : gmap string vec3) (bsp : mbsp_t)
    (i : Z) (st : bounce_state) : result bounce_state :=
  do args <- bounce_emission texturecolors bsp i;
  match args with
  | None => Ok st
  | Some (facemidpoint, emitcolors, normal, facearea, face) =>
    AddBounceLight facemidpoint emitcolors normal facearea i face bsp st
  end.

(** [RunThreadsOn] hands every face number from 0 to the number of faces
    to one worker.  The workers read the BSP and [texturecolors] and
    change the globals only inside [AddBounceLight], with the lock held:
    a run is those passes one after the other, in the order [order] in
    which the workers take the lock. *)
Fixpoint MakeBounceLights (texturecolors : gmap string vec3) (bsp : mbsp_t)
    (order : list Z) (st : bounce_state) : result bounce_state :=
  match order with
  | [] => Ok st
  | i :: rest =>
    do st <- MakeBounceLightsThread_face texturecolors bsp i st;
    MakeBounceLights texturecolors bsp rest st
  end.

Definition BounceLights (st : bounce_state) : list bouncelight_t := radlights st.

Definition BounceLightsForFaceNum (st : bounce_state) (facenum : Z) : list Z :=
  match radlightsByFacenum st !! facenum with
  | Some v => v
  | None => []
  end.

(** The loop of [Texture_AvgColor] over the pixels, from pixel [i] on. *)
Fixpoint sum_pixels (n : nat) (miptex : rgba_miptex_t) (i : Z) (color : vec4) : vec4 :=
  match n with
  | O => color
  | S n' =>
    let c := Texture_GetColor miptex i in
    let color :=
      if Qltb (snd c) 128 then color     (* Skip transparent pixels... *)
      else
        let '(r, g, b, a) := color in
        let '(cr, cg, cb, ca) := c in
        (r + cr, g + cg, b + cb, a + ca)%Q in
    sum_pixels n' miptex (i + 1) color
  end.

(** Returns color in [0,255].  The quotient by a size of zero is a NaN,
    which the model does not have: there the result is left at zero. *)
Definition Texture_AvgColor (bsp : mbsp_t) (miptex : rgba_miptex_t) : vec3 :=
  if negb (miptex_has_data miptex) then vec3_origin
  else
    let miptexsize := miptex_width miptex * miptex_height miptex in
    let '(r, g, b, _) :=
      sum_pixels (Z.to_nat miptexsize) miptex 0 (0, 0, 0, 0)%Q in
    (r / inject_Z miptexsize, g / inject_Z miptexsize, b / inject_Z miptexsize)%Q.

(** [texturecolors] is passed in and out. *)
Definition MakeTextureColors (bsp : mbsp_t) (texturecolors : gmap string vec3)
  : gmap string vec3 :=
  match drgbatexdata bsp with
  | [] => texturecolors
  | _ =>
    fold_left
      (fun (texturecolors : gmap string vec3) (miptex : rgba_miptex_t) =>
         if negb (miptex_has_data miptex) then texturecolors
         else
           let name := rgba_name miptex in
           let color := Texture_AvgColor bsp miptex in
           <[name := color]> texturecolors)
      (drgbatexdata bsp) texturecolors
  end.

End Lights.

End Bounce.

(** ** The BSP as a tree

    What the index-linked arrays stand for: a node carries a plane and two
    subtrees, a leaf its contents.  [represents bsp n t] reads the tree
    [t] off the arrays from child index [n] (negative: leaf [-1 - n]). *)

Inductive bsptree :=
| TLeaf (leaf_contents : Z)
| TNode (plane : dplane_t) (front back : bsptree).

Fixpoint depth (t : bsptree) : nat :=
  match t with
  | TLeaf _ => 1
  | TNode _ f b => S (Nat.max (depth f) (depth b))
  end.

Inductive represents (bsp : mbsp_t) : Z -> bsptree -> Prop :=
| represents_leaf n leaf :
    n < 0 ->
    nthZ (dleafs bsp) (-1 - n) = Some leaf ->
    represents bsp n (TLeaf (contents leaf))
| represents_node n node plane tf tb :
    0 <= n ->
    nthZ (dnodes bsp) n = Some node ->
    nthZ (dplanes bsp) (planenum node) = Some plane ->
    represents bsp (fst (children node)) tf ->
    represents bsp (snd (children node)) tb ->
    represents bsp n (TNode plane tf tb).

Module PointInSolidSpec.

Section Spec.

Variable CONTENTS_SOLID CONTENTS_SKY Q2_CONTENTS_SOLID : Z.
Variable distance : dplane_t -> vec3 -> Q.

(** "On a leaf: Q2 uses [contents & SOLID]; Q1 treats both SOLID and SKY
    as solid." *)
Definition solid_leaf (g : gameid_t) (c : Z) : Prop :=
  match g with
  | GAME_QUAKE_II => Z.land c Q2_CONTENTS_SOLID <> 0
  | _ => c = CONTENTS_SOLID \/ c = CONTENTS_SKY
  end.

(** "On a node: signed distance to plane; if > +eps descend front child,
    if < -eps descend back, else descend both and OR.  eps = 0.1." *)
Fixpoint in_solid (g : gameid_t) (t : bsptree) (p : vec3) : Prop :=
  match t with
  | TLeaf c => solid_leaf g c
  | TNode pl f b =>
    ((1 # 10 < distance pl p)%Q /\ in_solid g f p)
    \/ ((distance pl p < - (1 # 10))%Q /\ in_solid g b p)
    \/ ((- (1 # 10) <= distance pl p <= 1 # 10)%Q /\ (in_solid g f p \/ in_solid g b p))
  end.

(** Strictly outside the model's bounding box along some axis. *)
Definition outside (model : dmodelh2_t) (p : vec3) : Prop :=
  exists i, (i < 3)%nat /\
    ((vidx p i < vidx (mins model) i)%Q \/ (vidx (maxs model) i < vidx p i)%Q).

End Spec.

End PointInSolidSpec.

(** ** The sky dome in numbers *)

Module SkyDomeSpec.

(** [r] is the integer nearest to the square root of [q]: the root lies
    strictly within 1/2 of [r]. *)
Definition nearest_to_sqrt (q : Q) (r : Z) : Prop :=
  (0 <= q)%Q /\ 0 <= r
  /\ (4 * q < inject_Z ((2 * r + 1) ^ 2))%Q
  /\ (r = 0 \/ (inject_Z ((2 * r - 1) ^ 2) < 4 * q)%Q).

(** A sun of the upper dome: its share of [_sunlight2], in that colour. *)
Definition upper_sun (cfg : Entities.globals_t) (share : Q) (s : Entities.sun_t) : Prop :=
  Entities.Sun.sunlight s = share
  /\ Entities.Sun.sunlight_color s = Entities.sunlight2_color cfg.

(** The sum of the intensities of a list of suns. *)
Definition total_sunlight (suns : list Entities.sun_t) : Q :=
  fold_right (fun s acc => (Entities.Sun.sunlight s + acc)%Q) 0%Q suns.

End SkyDomeSpec.

(** ** Switchable lights *)

Module StyleSpec.

(** An entity to which [LoadEntities] gives a style: its classname begins
    with [light], its targetname is [targetname], not empty, and it has no
    [style] key. *)
Definition switchable (e : gmap string string) (targetname : string) : Prop :=
  String.prefix "light" (Entities.EntDict_StringForKey e "classname") = true
  /\ Entities.EntDict_StringForKey e "targetname" = targetname
  /\ targetname <> ""%string
  /\ e !! "style"%string = None.

(** The dict after the [lightmap_scale] fix. *)
Definition lmscale_fixed (e : gmap string string) : gmap string string :=
  if negb (String.eqb (Entities.EntDict_StringForKey e "lightmap_scale") "")
  then <["_lightmap_scale"%string :=
           Entities.EntDict_StringForKey e "lightmap_scale"]>
         (delete "lightmap_scale"%string e)
  else e.

End StyleSpec.

(** ** Jitter *)

Module JitterSpec.

(** [dup] is a jittered duplicate of [entity]: the same light but for the
    [generated] mark and an origin within the deviance, in absolute value,
    along each axis. *)
Definition duplicate_of (entity dup : Entities.light_t) : Prop :=
  Entities.generated dup = true
  /\ dup = Entities.set_origin (Entities.origin dup) (Entities.set_generated true entity)
  /\ forall i, (i < 3)%nat ->
       (Qabs (vidx (Entities.origin dup) i - vidx (Entities.origin entity) i)
        <= Qabs (Entities.deviance entity))%Q.

(** The duplicates of one light: [samples - 1] of them, none when
    [samples] is 1 or less. *)
Definition duplicates_of (entity : Entities.light_t) (block : list Entities.light_t) : Prop :=
  length block = Z.to_nat (Entities.intValue (Entities.samples entity) - 1)
  /\ Forall (duplicate_of entity) block.

End JitterSpec.

(** ** Entity dicts that can be written and read back *)

Module RoundTripSpec.

Fixpoint string_forall (P : ascii -> bool) (s : string) : bool :=
  match s with
  | EmptyString => true
  | String c r => P c && string_forall P r
  end.

(** None of backslash, double quote, [{], [}]; and not NUL, which no
    character of a C string is. *)
Definition plain_char (c : ascii) : bool :=
  negb (Ascii.eqb c Entities.BACKSLASH) && negb (Ascii.eqb c Entities.DQUOTE)
  && negb (Ascii.eqb c Entities.LBRACE) && negb (Ascii.eqb c Entities.RBRACE)
  && negb (Ascii.eqb c Entities.NUL).

Definition plain (s : string) : bool := string_forall plain_char s.

(** The keys and values of the claim: plain strings. *)
Definition plain_dict (ent : gmap string string) : Prop :=
  map_Forall (fun k v => plain k = true /\ plain v = true) ent.

(** Keys of at most 31 characters and values of at most 1023. *)
Definition short_dict (ent : gmap string string) : Prop :=
  map_Forall (fun k v => Entities.slen k <= 31 /\ Entities.slen v <= 1023) ent.

Definition not_nul (c : ascii) : bool := negb (Ascii.eqb c Entities.NUL).
Definition not_quote (c : ascii) : bool := negb (Ascii.eqb c Entities.DQUOTE).

(** A pair that [EntData_Parse] accepts and reads back as written. *)
Definition readable (p : string * string) : Prop :=
  plain (fst p) = true /\ plain (snd p) = true
  /\ Entities.slen (fst p) <= 31 /\ Entities.slen (snd p) <= 1023.

Definition put (m : gmap string string) (p : string * string) : gmap string string :=
  <[fst p := snd p]> m.

End RoundTripSpec.

(** ** Surface lights *)

Module SurfaceLightSpec.

(** What the template loop appends: lights marked [generated] that are
    copies of templates, dict and intensity included. *)
Definition from_templates (templates : list Entities.light_t) (l : Entities.light_t) : Prop :=
  Entities.generated l = true
  /\ exists tmpl, In tmpl templates
       /\ Entities.epairs l = Entities.epairs tmpl
       /\ Entities.light l = Entities.light tmpl.

(** The predicate "appends lights made from the templates". *)
Definition appends_from (templates lights lights' : list Entities.light_t) : Prop :=
  exists extra, lights' = lights ++ extra /\ Forall (from_templates templates) extra.

(** What the first loop does to one light. *)
Definition has_surface (entity : Entities.light_t) : bool :=
  negb (String.eqb (Entities.ValueForKey entity "_surface") "").

Definition neutralized (entity : Entities.light_t) : Entities.light_t :=
  if has_surface entity then Entities.set_light 0%Q entity else entity.

End SurfaceLightSpec.

(** ** Sample data *)

Module Sample.

(** The values the constants have in the Quake formats. *)
Definition CONTENTS_EMPTY : Z := -1.
Definition CONTENTS_SOLID : Z := -2.
Definition CONTENTS_SKY : Z := -6.
Definition Q2_CONTENTS_SOLID : Z := 1.
Definition PLANE_X : Z := 0.
Definition PLANE_Y : Z := 1.
Definition PLANE_Z : Z := 2.

Definition distance_to_fast (pl : dplane_t) (p : vec3) : Q :=
  (DotProduct p (normal pl) - dist pl)%Q.

(** One node on the plane x = 0: empty in front, solid behind. *)
Definition half_space : mbsp_t :=
  {| game := GAME_QUAKE;
     dmodels := [ {| mins := (-64, -64, -64)%Q; maxs := (64, 64, 64)%Q; headnode_0 := 0 |} ];
     dnodes := [ {| planenum := 0; children := (-1, -2); firstface := 0; numfaces := 0 |} ];
     dleafs := [ {| contents := CONTENTS_EMPTY; firstmarksurface := 0; nummarksurfaces := 0 |};
                 {| contents := CONTENTS_SOLID; firstmarksurface := 0; nummarksurfaces := 0 |} ];
     dplanes := [ {| normal := (1, 0, 0)%Q; dist := 0%Q; type := PLANE_X |} ];
     dfaces := [];
     bsp_texinfo := [];
     dtex_textures := [];
     drgbatexdata := [];
     dvertexes := [];
     dedges := [];
     dsurfedges := [];
     dmarksurfaces := [] |}.

Definition half_space_model : dmodelh2_t :=
  {| mins := (-64, -64, -64)%Q; maxs := (64, 64, 64)%Q; headnode_0 := 0 |}.

Definition half_space_tree : bsptree :=
  TNode {| normal := (1, 0, 0)%Q; dist := 0%Q; type := PLANE_X |}
        (TLeaf CONTENTS_EMPTY) (TLeaf CONTENTS_SOLID).

(** Stand-ins for the C library, for running the model. *)
Definition zero_fn (x : Q) : Q := 0%Q.
Definition zero_fn2 (x y : Q) : Q := 0%Q.
Definition keep_vec (v : vec3) : vec3 := v.
Definition DEG2RAD (a : Q) : Q := (a * (355 # 113) / 180)%Q.

(** Worldspawn with [_sunlight2 100] and [-sunsamples 11]. *)
Definition dome_cfg : Entities.globals_t :=
  {| Entities.global_anglescale := 1 # 2;
     Entities.addminlight := false;
     Entities.globalDirt := false;
     Entities.sunsamples := 11;
     Entities.sunlight := 0;
     Entities.sunlight_color := (255, 255, 255)%Q;
     Entities.sunvec := (0, 0, -1)%Q;
     Entities.sunlight_dirt := 0;
     Entities.sun2 := 0;
     Entities.sun2_color := (255, 255, 255)%Q;
     Entities.sun2vec := (0, 0, -1)%Q;
     Entities.sun_deviance := 0;
     Entities.sunlight2 := 100;
     Entities.sunlight2_color := (255, 255, 255)%Q;
     Entities.sunlight2_dirt := 0;
     Entities.sunlight3 := 0;
     Entities.sunlight3_color := (255, 255, 255)%Q;
     Entities.surflight_subdivide := 128 |}.

(** Scenario 1 of the spec: two lights that share a targetname. *)
Definition worldspawn : gmap string string :=
  {[ "classname"%string := "worldspawn"%string ]}.

Definition button_light (origin : string) : gmap string string :=
  <[ "classname"%string := "light"%string ]>
    (<[ "origin"%string := origin ]> {[ "targetname"%string := "button1"%string ]}).

Definition button_map : list (gmap string string) :=
  [ worldspawn; button_light "0 0 0"; button_light "8 0 0" ].

Definition no_stof (s : string) : option Q := None.

(** A light as [LoadEntities] binds it from [epairs], before
    [CheckEntityFields]: intensity 300 at the origin, the other settings
    at zero. *)
Definition bound_light (epairs : gmap string string) (formula samples deviance : Q)
  : Entities.light_t :=
  {| Entities.light := 300;
     Entities.atten := 1;
     Entities.formula := formula;
     Entities.spotangle := 0;
     Entities.spotangle2 := 0;
     Entities.style := 0;
     Entities.anglescale := 1 # 2;
     Entities.origin := (0, 0, 64)%Q;
     Entities.deviance := deviance;
     Entities.samples := samples;
     Entities.epairs := epairs;
     Entities.targetent := None;
     Entities.spotlight := false;
     Entities.spotvec := (0, 0, 0)%Q;
     Entities.spotfalloff := 0;
     Entities.spotfalloff2 := 0;
     Entities.generated := false;
     Entities.leaf := None |}.

(** A light with [delay 9]. *)
Definition delay9_light : Entities.light_t :=
  bound_light (<[ "classname"%string := "light"%string ]> {[ "delay"%string := "9"%string ]})
              9 0 0.

(** A 32 x 32 floor face with texture [lava1], seen from one empty leaf. *)
Definition lava_floor : mbsp_t :=
  {| game := GAME_QUAKE;
     dmodels := [ {| mins := (-64, -64, -64)%Q; maxs := (64, 64, 64)%Q; headnode_0 := 0 |} ];
     dnodes := [ {| planenum := 0; children := (-2, -1); firstface := 0; numfaces := 1 |} ];
     dleafs := [ {| contents := CONTENTS_SOLID; firstmarksurface := 0; nummarksurfaces := 0 |};
                 {| contents := CONTENTS_EMPTY; firstmarksurface := 0; nummarksurfaces := 1 |} ];
     dplanes := [ {| normal := (0, 0, 1)%Q; dist := 0%Q; type := PLANE_Z |} ];
     dfaces := [ {| face_planenum := 0; side := false; firstedge := 0; numedges := 4;
                    texinfo := 0 |} ];
     bsp_texinfo := [ {| miptex := 0; flags := 0; texture := ""%string |} ];
     dtex_textures := [ {| name := "lava1"%string |} ];
     drgbatexdata := [];
     dvertexes := [ (0, 0, 0)%Q; (32, 0, 0)%Q; (32, 32, 0)%Q; (0, 32, 0)%Q ];
     dedges := [ (0, 0); (0, 1); (1, 2); (2, 3); (3, 0) ];
     dsurfedges := [ 1; 2; 3; 4 ];
     dmarksurfaces := [ 0 ] |}.

Definition lava_face : mface_t :=
  {| face_planenum := 0; side := false; firstedge := 0; numedges := 4; texinfo := 0 |}.

Definition lava_quad : list vec3 :=
  [ (0, 0, 0)%Q; (32, 0, 0)%Q; (32, 32, 0)%Q; (0, 32, 0)%Q ].

(** The template entity: [_surface lava1]. *)
Definition lava_template : Entities.light_t :=
  bound_light (<[ "classname"%string := "light"%string ]>
                 {[ "_surface"%string := "lava1"%string ]})
              0 1 0.

Definition no_offset : Entities.modelinfo_t := {| Entities.offset := (0, 0, 0)%Q |}.
Definition every_face (bsp : mbsp_t) (facenum : Z) : option Entities.modelinfo_t :=
  Some no_offset.
Definition atoi0 (s : string) : Z := 0.
Definition atof0 (s : string) : Q := 0%Q.
Definition strcmp01 (a b : string) : Z := if String.eqb a b then 0 else 1.

(** Scenario 6 of the spec: [_samples 4], [_deviance 8]. *)
Definition jitter_light : Entities.light_t :=
  bound_light (<[ "classname"%string := "light"%string ]>
                 (<[ "_samples"%string := "4"%string ]>
                    {[ "_deviance"%string := "8"%string ]}))
              0 4 8.

(** A generator that returns 0, 1/2, 1, 0, 1/2, 1, ... *)
Definition Random3 (n : nat) : Q :=
  match (n mod 3)%nat with
  | O => 0%Q
  | S O => (1 # 2)%Q
  | _ => 1%Q
  end.

Definition no_sscanf (s : string) : vec3 := (0, 0, 0)%Q.
Definition no_leaf (bsp : mbsp_t) (p : vec3) : option Z := None.

(** A light with a [target], and the entity it aims at. *)
Definition aimed_light : Entities.light_t :=
  bound_light (<[ "classname"%string := "light"%string ]> {[ "target"%string := "t"%string ]})
              0 1 0.

Definition aim_map : list (gmap string string) :=
  [ worldspawn;
    <[ "classname"%string := "light"%string ]> {[ "target"%string := "t"%string ]};
    <[ "classname"%string := "info_null"%string ]> {[ "targetname"%string := "t"%string ]} ].

(** A dict with a key of 32 characters. *)
Definition long_key : string := "abcdefghijklmnopqrstuvwxyz012345".
Definition long_key_dict : gmap string string := {[ long_key := "v"%string ]}.

End Sample.

(** ** Escape sequences and what a parse accepts *)

Module EscapeSpec.

Definition not_backslash (c : ascii) : bool := negb (Ascii.eqb c Entities.BACKSLASH).

(** No backslash in the string. *)
Definition no_backslash (s : string) : bool :=
  RoundTripSpec.string_forall not_backslash s.

(** The string with the high bit of every character set. *)
Fixpoint bold_text (s : string) : string :=
  match s with
  | EmptyString => EmptyString
  | String c r => String (Entities.set_high_bit c) (bold_text r)
  end.

(** The two characters [\b]. *)
Definition toggle (rest : string) : string :=
  String Entities.BACKSLASH (String "b"%char rest).

End EscapeSpec.

(** ** More sample data *)

Module Scenes.

(** A light that a trigger named [t] switches. *)
Definition switch_light (t : string) : gmap string string :=
  <[ "classname"%string := "light"%string ]> {[ "targetname"%string := t ]}.

(** Two switchable lights with targetnames of their own. *)
Definition two_switches : list (gmap string string) :=
  [ Sample.worldspawn; switch_light "a"; switch_light "b" ].

(** A misspelt [lightmap_scale] on a brush entity. *)
Definition scaled_wall : gmap string string :=
  <[ "classname"%string := "func_wall"%string ]> {[ "lightmap_scale"%string := "4"%string ]}.

End Scenes.

(** ** Checked lights *)

Module CheckSpec.

(** The intensity a light is given: its [light] value, the default when
    that is zero. *)
Definition given_light (DEFAULTLIGHTLEVEL : Q) (entity : Entities.light_t) : Q :=
  if Qeq_bool (Entities.light entity) 0 then DEFAULTLIGHTLEVEL else Entities.light entity.

(** The formulas for which the intensity is divided by the number of
    samples. *)
Definition scaled (cfg : Entities.globals_t) (f : Z) : bool :=
  (f =? Entities.LF_INVERSE)
  || (f =? Entities.LF_INVERSE2)
  || (f =? Entities.LF_INFINITE)
  || ((f =? Entities.LF_LOCALMIN) && Entities.addminlight cfg)
  || (f =? Entities.LF_INVERSE2A).

(** What [CheckEntityFields] leaves of [entity] in [e]. *)
Definition checked (cfg : Entities.globals_t) (DEFAULTLIGHTLEVEL : Q)
    (entity e : Entities.light_t) : Prop :=
  (Entities.style e = Entities.style entity
   /\ Entities.epairs e = Entities.epairs entity
   /\ Entities.origin e = Entities.origin entity
   /\ Entities.generated e = Entities.generated entity
   /\ Entities.targetent e = Entities.targetent entity)
  /\ (0 < Entities.atten e)%Q
  /\ ((0 <= Entities.anglescale e <= 1)%Q
      \/ Entities.anglescale e = Entities.global_anglescale cfg)
  /\ Entities.LF_LINEAR <= Entities.getFormula e < Entities.LF_COUNT
  /\ ((Entities.deviance e = 0%Q /\ Entities.samples e = 1%Q)
      \/ ((0 < Entities.deviance e)%Q
          /\ 1 < Entities.intValue (Entities.samples e)
          /\ Entities.deviance e = Entities.deviance entity))
  /\ Entities.light e
     = (if scaled cfg (Entities.getFormula e)
        then (given_light DEFAULTLIGHTLEVEL entity
              / inject_Z (Entities.intValue (Entities.samples e)))%Q
        else given_light DEFAULTLIGHTLEVEL entity).

End CheckSpec.
(** ** Sample lights *)

Module Lamps.

(** A light with formula 2 (inverse square), [_samples 4] and
    [_deviance 8]. *)
Definition soft_light : Entities.light_t :=
  Sample.bound_light (<[ "classname"%string := "light"%string ]>
                        {[ "delay"%string := "2"%string ]})
                     2 4 8.

(** A light with [style 255]. *)
Definition bad_style_light : Entities.light_t :=
  {| Entities.light := 300;
     Entities.atten := 1;
     Entities.formula := 0;
     Entities.spotangle := 0;
     Entities.spotangle2 := 0;
     Entities.style := 255;
     Entities.anglescale := 1 # 2;
     Entities.origin := (0, 0, 64)%Q;
     Entities.deviance := 0;
     Entities.samples := 0;
     Entities.epairs := <[ "classname"%string := "light"%string ]>
                          {[ "style"%string := "255"%string ]};
     Entities.targetent := None;
     Entities.spotlight := false;
     Entities.spotvec := (0, 0, 0)%Q;
     Entities.spotfalloff := 0;
     Entities.spotfalloff2 := 0;
     Entities.generated := false;
     Entities.leaf := None |}.

End Lamps.

(** ** Suns by intensity *)

Module DomeSpec.

(** What a share of intensity gives: a sun when it is positive, of that
    intensity. *)
Definition lit (v : Q) : nat := if Qltb 0 v then 1%nat else 0%nat.
Definition share (v : Q) : Q := if Qltb 0 v then v else 0%Q.

(** A sun of the dome for the shares [v2] of [_sunlight2] and [v3] of
    [_sunlight3]: it carries one of the two, in its colour. *)
Definition dome_sun (cfg : Entities.globals_t) (v2 v3 : Q) (s : Entities.sun_t) : Prop :=
  ((Entities.Sun.sunlight s = v2
    /\ Entities.Sun.sunlight_color s = Entities.sunlight2_color cfg
    /\ Qltb 0 v2 = true)
   \/ (Entities.Sun.sunlight s = v3
       /\ Entities.Sun.sunlight_color s = Entities.sunlight3_color cfg
       /\ Qltb 0 v3 = true))
  /\ Entities.Sun.anglescale s = Entities.global_anglescale cfg
  /\ Entities.Sun.dirt s
     = Entities.Dirt_ResolveFlag cfg (Entities.intValue (Entities.sunlight2_dirt cfg)).

(** A sun that [SetupSun] makes for a share [light] in [color]. *)
Definition direct_sun (cfg : Entities.globals_t) (light : Q) (color : vec3)
    (s : Entities.sun_t) : Prop :=
  Entities.Sun.sunlight s = light
  /\ Entities.Sun.sunlight_color s = color
  /\ Entities.Sun.anglescale s = Entities.global_anglescale cfg
  /\ Entities.Sun.dirt s
     = Entities.Dirt_ResolveFlag cfg (Entities.intValue (Entities.sunlight_dirt cfg)).

(** Worldspawn with [_sunlight2 100], [_sunlight3 50] and [-sunsamples 16]. *)
Definition two_domes : Entities.globals_t :=
  {| Entities.global_anglescale := 1 # 2;
     Entities.addminlight := false;
     Entities.globalDirt := false;
     Entities.sunsamples := 16;
     Entities.sunlight := 0;
     Entities.sunlight_color := (255, 255, 255)%Q;
     Entities.sunvec := (0, 0, -1)%Q;
     Entities.sunlight_dirt := 0;
     Entities.sun2 := 0;
     Entities.sun2_color := (255, 255, 255)%Q;
     Entities.sun2vec := (0, 0, -1)%Q;
     Entities.sun_deviance := 0;
     Entities.sunlight2 := 100;
     Entities.sunlight2_color := (255, 255, 255)%Q;
     Entities.sunlight2_dirt := 0;
     Entities.sunlight3 := 50;
     Entities.sunlight3_color := (128, 128, 255)%Q;
     Entities.surflight_subdivide := 128 |}.

(** Worldspawn with [_sunlight 200], [_sun2 80], [_sunlight_penumbra 4]
    and [-sunsamples 5]. *)
Definition two_suns : Entities.globals_t :=
  {| Entities.global_anglescale := 1 # 2;
     Entities.addminlight := false;
     Entities.globalDirt := false;
     Entities.sunsamples := 5;
     Entities.sunlight := 200;
     Entities.sunlight_color := (255, 255, 255)%Q;
     Entities.sunvec := (0, 0, -1)%Q;
     Entities.sunlight_dirt := 0;
     Entities.sun2 := 80;
     Entities.sun2_color := (255, 200, 200)%Q;
     Entities.sun2vec := (0, 1, -1)%Q;
     Entities.sun_deviance := 4;
     Entities.sunlight2 := 0;
     Entities.sunlight2_color := (255, 255, 255)%Q;
     Entities.sunlight2_dirt := 0;
     Entities.sunlight3 := 0;
     Entities.sunlight3_color := (255, 255, 255)%Q;
     Entities.surflight_subdivide := 128 |}.

End DomeSpec.

(** ** Nudged points *)

Module NudgeSpec.

(** The point [p] moved by [s] along [axis]. *)
Definition nudged (p : vec3) (axis : nat) (s : Q) : vec3 :=
  vset p axis (vidx p axis + s)%Q.

(** The six points that [FixLightOnFace] tries, by their number. *)
Definition testpoint (p : vec3) (i : Z) : vec3 :=
  nudged p (Z.to_nat (i / 2)) (if negb (i mod 2 =? 0) then 2 else -2)%Q.

End NudgeSpec.

(** ** The extent of a polygon *)

Module SubdivideSpec.

(** The pass of [BoundPoly] for one vertex. *)
Definition bound_step (acc : vec3 * vec3) (v : vec3) : vec3 * vec3 :=
  (fun '(mins, maxs) v =>
     let bound j '(mins, maxs) :=
       (if Qltb (vidx v j) (vidx mins j) then vset mins j (vidx v j) else mins,
        if Qltb (vidx maxs j) (vidx v j) then vset maxs j (vidx v j) else maxs) in
     bound 2%nat (bound 1%nat (bound 0%nat (mins, maxs)))) acc v.

(** Every coordinate lies between the values from which [BoundPoly]
    starts its bounds. *)
Definition in_range (v : vec3) : Prop :=
  forall k, (k < 3)%nat -> (-9999 <= vidx v k <= 9999)%Q.



End SubdivideSpec.

(** ** A face seen from above *)

Module Floor.

(** The floor of [Sample.lava_floor] with its edges the other way round:
    seen from above the vertices run clockwise, as the faces of a BSP do
    seen from their front. *)
Definition floor_cw : mbsp_t :=
  {| game := GAME_QUAKE;
     dmodels := [ {| mins := (-64, -64, -64)%Q; maxs := (64, 64, 64)%Q; headnode_0 := 0 |} ];
     dnodes := [ {| planenum := 0; children := (-2, -1); firstface := 0; numfaces := 1 |} ];
     dleafs := [ {| contents := Sample.CONTENTS_SOLID; firstmarksurface := 0;
                    nummarksurfaces := 0 |};
                 {| contents := Sample.CONTENTS_EMPTY; firstmarksurface := 0;
                    nummarksurfaces := 1 |} ];
     dplanes := [ {| normal := (0, 0, 1)%Q; dist := 0%Q; type := Sample.PLANE_Z |} ];
     dfaces := [ {| face_planenum := 0; side := false; firstedge := 0; numedges := 4;
                    texinfo := 0 |} ];
     bsp_texinfo := [ {| miptex := 0; flags := 0; texture := ""%string |} ];
     dtex_textures := [ {| name := "lava1"%string |} ];
     drgbatexdata := [];
     dvertexes := [ (0, 0, 0)%Q; (32, 0, 0)%Q; (32, 32, 0)%Q; (0, 32, 0)%Q ];
     dedges := [ (0, 0); (0, 1); (1, 2); (2, 3); (3, 0) ];
     dsurfedges := [ -4; -3; -2; -1 ];
     dmarksurfaces := [ 0 ] |}.

Definition floor_model : dmodelh2_t :=
  {| mins := (-64, -64, -64)%Q; maxs := (64, 64, 64)%Q; headnode_0 := 0 |}.

Definition floor_tree : bsptree :=
  TNode {| normal := (0, 0, 1)%Q; dist := 0%Q; type := Sample.PLANE_Z |}
        (TLeaf Sample.CONTENTS_EMPTY) (TLeaf Sample.CONTENTS_SOLID).

Definition floor_face : mface_t :=
  {| face_planenum := 0; side := false; firstedge := 0; numedges := 4; texinfo := 0 |}.

(** The edge planes of the floor face, with [normalize] the identity:
    all four face inwards. *)
Definition floor_edgeplanes : list BspUtils.qplane3d :=
  [ {| BspUtils.qnormal := (32, 0, 0)%Q; BspUtils.qdist := 0%Q |};
    {| BspUtils.qnormal := (0, -32, 0)%Q; BspUtils.qdist := (-1024)%Q |};
    {| BspUtils.qnormal := (-32, 0, 0)%Q; BspUtils.qdist := (-1024)%Q |};
    {| BspUtils.qnormal := (0, 32, 0)%Q; BspUtils.qdist := 0%Q |} ].

End Floor.

(** ** What [BSP_FindFaceAtPoint] looks for *)

Module FindFaceSpec.

Section Spec.

Variable distance_to_fast : dplane_t -> vec3 -> Q.
Variable qv_normalize : vec3 -> vec3.

(** Face [fnum] does not face away from [wantedNormal], and [point] is on
    the inner side of each of its edge planes. *)
Definition face_matches (bsp : mbsp_t) (fnum : Z) (point wantedNormal : vec3) : Prop :=
  exists face faceNormal edgeplanes,
    BspUtils.BSP_GetFace bsp fnum = Ok face
    /\ BspUtils.Face_Normal bsp face = Ok faceNormal
    /\ (0 <= DotProduct faceNormal wantedNormal)%Q
    /\ BspUtils.Face_AllocInwardFacingEdgePlanes qv_normalize bsp face = Ok edgeplanes
    /\ Forall (fun pl => (0 <= BspUtils.distance_to pl point)%Q) edgeplanes.

(** Face [fnum] is one of the faces of a node whose plane is within 0.1
    of [point]. *)
Definition on_near_node (bsp : mbsp_t) (fnum : Z) (point : vec3) : Prop :=
  exists nodenum node plane,
    nthZ (dnodes bsp) nodenum = Some node
    /\ nthZ (dplanes bsp) (planenum node) = Some plane
    /\ (- (1 # 10) <= distance_to_fast plane point <= 1 # 10)%Q
    /\ firstface node <= fnum < firstface node + numfaces node.

End Spec.

End FindFaceSpec.

(** ** Matrices up to equality of their entries *)

Module MatrixSpec.

Definition mat4_eq (a b : Entities.mat4) : Prop :=
  (Entities.e0 a == Entities.e0 b /\ Entities.e1 a == Entities.e1 b
   /\ Entities.e2 a == Entities.e2 b /\ Entities.e3 a == Entities.e3 b
   /\ Entities.e4 a == Entities.e4 b /\ Entities.e5 a == Entities.e5 b
   /\ Entities.e6 a == Entities.e6 b /\ Entities.e7 a == Entities.e7 b
   /\ Entities.e8 a == Entities.e8 b /\ Entities.e9 a == Entities.e9 b
   /\ Entities.e10 a == Entities.e10 b /\ Entities.e11 a == Entities.e11 b
   /\ Entities.e12 a == Entities.e12 b /\ Entities.e13 a == Entities.e13 b
   /\ Entities.e14 a == Entities.e14 b /\ Entities.e15 a == Entities.e15 b)%Q.

(** The matrix applied to the point [(x, y, z, 1)]: the first three
    coordinates of the image. *)
Definition transform (m : Entities.mat4) (p : vec3) : vec3 :=
  (Entities.e0 m * vx p + Entities.e4 m * vy p + Entities.e8 m * vz p + Entities.e12 m,
   Entities.e1 m * vx p + Entities.e5 m * vy p + Entities.e9 m * vz p + Entities.e13 m,
   Entities.e2 m * vx p + Entities.e6 m * vy p + Entities.e10 m * vz p + Entities.e14 m)%Q.

Definition vec3_eq (a b : vec3) : Prop :=
  (vx a == vx b /\ vy a == vy b /\ vz a == vz b)%Q.

(** The last row is 0 0 0 1: the matrix is an affine map. *)
Definition affine (m : Entities.mat4) : Prop :=
  (Entities.e3 m == 0 /\ Entities.e7 m == 0 /\ Entities.e11 m == 0
   /\ Entities.e15 m == 1)%Q.

(** An affine map that keeps the origin. *)
Definition linear (m : Entities.mat4) : Prop :=
  affine m /\ (Entities.e12 m == 0 /\ Entities.e13 m == 0 /\ Entities.e14 m == 0)%Q.

End MatrixSpec.

(** ** A map of one entity *)

Module World.

Definition bare_world : list Entities.entdict_t :=
  [ {[ "classname"%string := "worldspawn"%string ]} ].

End World.

(** ** Colours and bounce lights *)

Module BounceSpec.

(** Red, green and blue between 0 and [bound]. *)
Definition rgb_within (c : Bounce.vec4) (bound : Q) : Prop :=
  (0 <= fst (fst (fst c)) <= bound
   /\ 0 <= snd (fst (fst c)) <= bound
   /\ 0 <= snd (fst c) <= bound)%Q.

Definition color_within (c : vec3) (bound : Q) : Prop :=
  (0 <= vx c <= bound /\ 0 <= vy c <= bound /\ 0 <= vz c <= bound)%Q.

Definition color_le (c d : vec3) : Prop :=
  (vx c <= vx d /\ vy c <= vy d /\ vz c <= vz d)%Q.

Definition color_ge0 (c : vec3) : Prop :=
  (0 <= vx c /\ 0 <= vy c /\ 0 <= vz c)%Q.

Section Lights.

Variable edgeplanes_t bounds_t : Type.

(** Every index that [BounceLightsForFaceNum] gives for a face is the
    place in [BounceLights] of a light made from that face. *)
Definition indexed (bsp : mbsp_t) (st : Bounce.bounce_state edgeplanes_t bounds_t) : Prop :=
  forall facenum idx,
    In idx (Bounce.BounceLightsForFaceNum edgeplanes_t bounds_t st facenum) ->
    exists l face,
      nthZ (Bounce.BounceLights edgeplanes_t bounds_t st) idx = Some l
      /\ BspUtils.BSP_GetFace bsp facenum = Ok face
      /\ BspUtils.GLM_FacePoints bsp face = Ok (Bounce.poly edgeplanes_t bounds_t l)
      /\ (0 < Bounce.area edgeplanes_t bounds_t l)%Q
      /\ forall style c,
           Bounce.colorByStyle edgeplanes_t bounds_t l !! style = Some c ->
           color_ge0 c /\ color_le c (Bounce.componentwiseMaxColor edgeplanes_t bounds_t l).

(** Every light of [BounceLights] is listed under a face. *)
Definition covered (st : Bounce.bounce_state edgeplanes_t bounds_t) : Prop :=
  forall idx, 0 <= idx < zlen (Bounce.BounceLights edgeplanes_t bounds_t st) ->
              exists facenum, In idx (Bounce.BounceLightsForFaceNum edgeplanes_t bounds_t st facenum).

Definition no_lights : Bounce.bounce_state edgeplanes_t bounds_t :=
  Bounce.Build_bounce_state edgeplanes_t bounds_t [] ∅.

End Lights.

End BounceSpec.

(** ** A textured floor and stand-ins for the lighting *)

Module BounceSample.

Definition painted_floor : mbsp_t :=
  {| game := game Floor.floor_cw;
     dmodels := dmodels Floor.floor_cw;
     dnodes := dnodes Floor.floor_cw;
     dleafs := dleafs Floor.floor_cw;
     dplanes := dplanes Floor.floor_cw;
     dfaces := dfaces Floor.floor_cw;
     bsp_texinfo := bsp_texinfo Floor.floor_cw;
     dtex_textures := dtex_textures Floor.floor_cw;
     drgbatexdata := [ {| rgba_name := "lava1"%string |} ];
     dvertexes := dvertexes Floor.floor_cw;
     dedges := dedges Floor.floor_cw;
     dsurfedges := dsurfedges Floor.floor_cw;
     dmarksurfaces := dmarksurfaces Floor.floor_cw |}.

(** A 2 x 2 texture, opaque, red rising with the pixel. *)
Definition has_data (m : rgba_miptex_t) : bool := true.
Definition two (m : rgba_miptex_t) : Z := 2.
Definition pixel (m : rgba_miptex_t) (i : Z) : Bounce.vec4 :=
  (inject_Z (i * 10), 20, 30, 255)%Q.

(** One patch for each face, lit white in style 0. *)
Definition no_planes (poly : list vec3) : unit := tt.
Definition no_estimate (p : vec3) : unit := tt.
Definition white_light (bsp : mbsp_t) (p n : vec3) : gmap Z vec3 :=
  {[ 0 := (255, 255, 255)%Q ]}.
Definition whole_face (bsp : mbsp_t) (f : mface_t) : unit := tt.
Definition area_1024 (w : unit) : Q := 1024.
Definition plane_up (w : unit) : BspUtils.qplane3d :=
  {| BspUtils.qnormal := (0, 0, 1)%Q; BspUtils.qdist := 0 |}.
Definition middle (w : unit) : vec3 := (16, 16, 0)%Q.
Definition one_piece (size : Q) (w : unit) : list unit := [w].
Definition same_name (a b : string) : Z := if String.eqb a b then 0 else 1.
Definition lightmapped (flags : Z) : bool := true.
Definition casts_shadow (bsp : mbsp_t) (facenum : Z) : option Bounce.modelinfo_t :=
  Some {| Bounce.shadow := true |}.

End BounceSample.

(** * Properties *)

(** ** Arithmetic and array helpers *)

Lemma is_ok_returns {A} (r : result A) : is_ok r = true -> exists a, r = Ok a.
Proof. destruct r; try discriminate. eauto. Qed.

Lemma Qltb_lt (a b : Q) : Qltb a b = true <-> (a < b)%Q.
Proof.
  unfold Qltb. rewrite negb_true_iff.
  destruct (Qle_bool b a) eqn:E.
  - apply Qle_bool_iff in E. split; [discriminate | intros H; exfalso; lra].
  - split; [intros _ | reflexivity].
    apply Qnot_le_lt. intros H. apply Qle_bool_iff in H. congruence.
Qed.

Lemma Qltb_ge (a b : Q) : Qltb a b = false <-> (b <= a)%Q.
Proof.
  unfold Qltb. rewrite negb_false_iff. apply Qle_bool_iff.
Qed.

Lemma nthZ_Some_range {A} (l : list A) i x :
  nthZ l i = Some x -> 0 <= i < zlen l.
Proof.
  unfold nthZ, zlen. destruct (i <? 0) eqn:E; [discriminate |].
  intros H. apply Z.ltb_ge in E.
  assert (Hlt : (Z.to_nat i < length l)%nat).
  { apply nth_error_Some. congruence. }
  lia.
Qed.

Lemma nthZ_None_range {A} (l : list A) i :
  i < 0 \/ zlen l <= i -> nthZ l i = None.
Proof.
  unfold nthZ, zlen. intros H. destruct (i <? 0) eqn:E; [reflexivity |].
  apply Z.ltb_ge in E. apply nth_error_None. lia.
Qed.

Lemma in_range_false {A} (l : list A) i :
  i < 0 \/ zlen l <= i -> BspUtils.in_range i l = false.
Proof.
  unfold BspUtils.in_range. intros [H | H].
  - apply Z.leb_gt in H. rewrite H. reflexivity.
  - apply andb_false_iff. right. apply Z.ltb_ge. exact H.
Qed.

(** ** common/bsputils.cc: the accessors *)

Section AccessorFacts.

Variable bsp : mbsp_t.

Lemma Face_Texinfo_out_of_range (face : mface_t) :
  texinfo face < 0 \/ zlen (bsp_texinfo bsp) <= texinfo face ->
  BspUtils.Face_Texinfo bsp face = None.
Proof.
  intros H. unfold BspUtils.Face_Texinfo.
  destruct H as [H | H].
  - apply Z.ltb_lt in H. rewrite H. reflexivity.
  - apply Z.leb_le in H. rewrite H, orb_true_r. reflexivity.
Qed.

Lemma Face_Miptex_no_texinfo (face : mface_t) :
  BspUtils.Face_Texinfo bsp face = None ->
  BspUtils.Face_Miptex bsp face = Ok None.
Proof.
  intros H. unfold BspUtils.Face_Miptex. rewrite H.
  destruct (dtex_textures bsp); reflexivity.
Qed.

Lemma Face_RgbaMiptex_no_texinfo (face : mface_t) :
  BspUtils.Face_Texinfo bsp face = None ->
  BspUtils.Face_RgbaMiptex bsp face = Ok None.
Proof.
  intros H. unfold BspUtils.Face_RgbaMiptex. rewrite H.
  destruct (drgbatexdata bsp); reflexivity.
Qed.

(** C10.  A texinfo index that is negative or not below the texinfo count
    makes [BSP_GetTexinfo] and [Face_Texinfo] return the null pointer, and
    [Face_TextureName] the empty string; the node, plane, face and vertex
    accessors fail their assertion on such an index, and the leaf accessor
    stops with its fatal error. *)
Theorem texinfo_out_of_range_is_null (i : Z) :
  i < 0 \/ zlen (bsp_texinfo bsp) <= i ->
  BspUtils.BSP_GetTexinfo bsp i = None
  /\ (forall face : mface_t, texinfo face = i ->
        BspUtils.Face_Texinfo bsp face = None
        /\ BspUtils.Face_TextureName bsp face = Ok ""%string)
  /\ (forall n, n < 0 \/ zlen (dnodes bsp) <= n -> BspUtils.BSP_GetNode bsp n = AssertFail)
  /\ (forall n, n < 0 \/ zlen (dplanes bsp) <= n -> BspUtils.BSP_GetPlane bsp n = AssertFail)
  /\ (forall n, n < 0 \/ zlen (dfaces bsp) <= n -> BspUtils.BSP_GetFace bsp n = AssertFail)
  /\ (forall n, n < 0 \/ zlen (dvertexes bsp) <= n -> BspUtils.Vertex_GetPos bsp n = AssertFail)
  /\ (forall n, n < 0 \/ zlen (dleafs bsp) <= n ->
        is_fatal (BspUtils.BSP_GetLeaf bsp n) = true).
Proof.
  intros Hi. repeat split.
  - unfold BspUtils.BSP_GetTexinfo. destruct Hi as [H | H].
    + apply Z.ltb_lt in H. rewrite H. reflexivity.
    + destruct (i <? 0); [reflexivity |].
      apply Z.leb_le in H. rewrite H. reflexivity.
  - subst i. apply Face_Texinfo_out_of_range. exact Hi.
  - subst i. unfold BspUtils.Face_TextureName.
    pose proof (Face_Texinfo_out_of_range face Hi) as Hnull.
    rewrite (Face_Miptex_no_texinfo face Hnull). simpl.
    rewrite (Face_RgbaMiptex_no_texinfo face Hnull). simpl.
    rewrite Hnull. reflexivity.
  - intros n Hn. unfold BspUtils.BSP_GetNode. rewrite (in_range_false _ _ Hn). reflexivity.
  - intros n Hn. unfold BspUtils.BSP_GetPlane. rewrite (in_range_false _ _ Hn). reflexivity.
  - intros n Hn. unfold BspUtils.BSP_GetFace. rewrite (in_range_false _ _ Hn). reflexivity.
  - intros n Hn. unfold BspUtils.Vertex_GetPos. rewrite (in_range_false _ _ Hn). reflexivity.
  - intros n Hn. unfold BspUtils.BSP_GetLeaf.
    assert (E : ((n <? 0) || (zlen (dleafs bsp) <=? n)) = true).
    { apply orb_true_iff. destruct Hn as [H | H]; [left; apply Z.ltb_lt | right; apply Z.leb_le]; exact H. }
    rewrite E. reflexivity.
Qed.

End AccessorFacts.

Lemma texinfo_out_of_range_is_null_witness :
  BspUtils.BSP_GetTexinfo Sample.half_space 7 = None.
Proof.
  apply (texinfo_out_of_range_is_null Sample.half_space 7).
  right. vm_compute. discriminate.
Defined.

(** ** common/bsputils.cc: point in solid *)

Section PointInSolid.

Variable CONTENTS_SOLID CONTENTS_SKY Q2_CONTENTS_SOLID : Z.
Variable distance_to_fast : dplane_t -> vec3 -> Q.

Local Abbreviation Light_PointInSolid_r :=
  (BspUtils.Light_PointInSolid_r CONTENTS_SOLID CONTENTS_SKY Q2_CONTENTS_SOLID distance_to_fast).
Local Abbreviation Light_PointInSolid :=
  (BspUtils.Light_PointInSolid CONTENTS_SOLID CONTENTS_SKY Q2_CONTENTS_SOLID distance_to_fast).
Local Abbreviation leaf_is_solid :=
  (BspUtils.leaf_is_solid CONTENTS_SOLID CONTENTS_SKY Q2_CONTENTS_SOLID).
Local Abbreviation in_solid :=
  (PointInSolidSpec.in_solid CONTENTS_SOLID CONTENTS_SKY Q2_CONTENTS_SOLID distance_to_fast).
Local Abbreviation solid_leaf :=
  (PointInSolidSpec.solid_leaf CONTENTS_SOLID CONTENTS_SKY Q2_CONTENTS_SOLID).

Lemma leaf_is_solid_iff (g : gameid_t) (c : Z) :
  leaf_is_solid g c = true <-> solid_leaf g c.
Proof.
  unfold BspUtils.leaf_is_solid, PointInSolidSpec.solid_leaf.
  destruct g; simpl;
    rewrite ?orb_true_iff, ?negb_true_iff, ?Z.eqb_eq, ?Z.eqb_neq; reflexivity.
Qed.

Lemma outside_bounds_iff (model : dmodelh2_t) (p : vec3) :
  BspUtils.outside_bounds model p = true <-> PointInSolidSpec.outside model p.
Proof.
  unfold BspUtils.outside_bounds, PointInSolidSpec.outside. simpl.
  rewrite !orb_true_iff, !Qltb_lt. split.
  - intros [[H | H] | [[H | H] | [[H | H] | H]]]; try discriminate.
    + exists 0%nat. split; [lia | left; exact H].
    + exists 0%nat. split; [lia | right; exact H].
    + exists 1%nat. split; [lia | left; exact H].
    + exists 1%nat. split; [lia | right; exact H].
    + exists 2%nat. split; [lia | left; exact H].
    + exists 2%nat. split; [lia | right; exact H].
  - intros (i & Hi & H).
    destruct i as [| [| [| i]]]; [| | | lia]; simpl in H; tauto.
Qed.

(** On a BSP that is a tree, the descent returns, and says "solid"
    exactly when the tree-level description does. *)
Lemma Light_PointInSolid_r_refines (bsp : mbsp_t) (p : vec3) :
  forall (t : bsptree) (n : Z), represents bsp n t ->
  forall fuel : nat, (depth t <= fuel)%nat ->
  exists b : bool,
    Light_PointInSolid_r fuel bsp n p = Ok b
    /\ (b = true <-> in_solid (game bsp) t p).
Proof.
  intros t n Hrep. induction Hrep as [n leaf Hn Hleaf | n node plane tf tb Hn Hnode Hplane _ IHf _ IHb];
    intros fuel Hfuel; (destruct fuel as [| fuel]; [simpl in Hfuel; lia |]); simpl.
  - apply Z.ltb_lt in Hn. rewrite Hn.
    unfold BspUtils.BSP_GetLeafFromNodeNum, BspUtils.BSP_GetLeaf.
    pose proof (nthZ_Some_range _ _ _ Hleaf) as Hr.
    assert (E : ((-1 - n <? 0) || (zlen (dleafs bsp) <=? -1 - n)) = false).
    { apply orb_false_iff. split; [apply Z.ltb_ge | apply Z.leb_gt]; lia. }
    rewrite E. unfold unchecked. rewrite Hleaf. simpl.
    eexists. split; [reflexivity |]. apply leaf_is_solid_iff.
  - assert (E : (n <? 0) = false) by (apply Z.ltb_ge; exact Hn).
    rewrite E. unfold unchecked. rewrite Hnode. simpl. rewrite Hplane. simpl.
    simpl in Hfuel.
    destruct (IHf fuel ltac:(lia)) as (bf & Hf & Hbf).
    destruct (IHb fuel ltac:(lia)) as (bb & Hb & Hbb).
    destruct (Qltb (1 # 10) (distance_to_fast plane p)) eqn:E1.
    + exists bf. split; [exact Hf |]. apply Qltb_lt in E1.
      rewrite Hbf. split; [intros H; left; split; assumption |].
      intros [[_ H] | [[H _] | [[_ H] _]]]; [exact H | exfalso; lra | exfalso; lra].
    + apply Qltb_ge in E1.
      destruct (Qltb (distance_to_fast plane p) (- (1 # 10))) eqn:E2.
      * exists bb. split; [exact Hb |]. apply Qltb_lt in E2.
        rewrite Hbb. split; [intros H; right; left; split; assumption |].
        intros [[H _] | [[_ H] | [[H _] _]]]; [exfalso; lra | exact H | exfalso; lra].
      * apply Qltb_ge in E2. rewrite Hf. simpl.
        destruct bf.
        -- exists true. split; [reflexivity |]. split; [| reflexivity].
           intros _. right. right. split; [split; assumption |]. left. apply Hbf. reflexivity.
        -- exists bb. split; [exact Hb |]. rewrite Hbb. split.
           ++ intros H. right. right. split; [split; assumption |]. right. exact H.
           ++ intros [[H _] | [[H _] | [_ [H | H]]]];
                [exfalso; lra | exfalso; lra | apply Hbf in H; discriminate | exact H].
Qed.

(** C9.  [Light_PointInSolid] returns false for a point strictly outside
    the model's bounding box.  For any other point, on a BSP whose arrays
    form a tree under the model's head node, it returns (given fuel for the
    depth of the tree), and returns true exactly when the descent described
    on the tree ends in solid: front child alone when the plane distance is
    above 0.1, back child alone below -0.1, either child in between; at a
    leaf, [contents & SOLID] for Quake 2 and [contents] equal to SOLID or
    SKY otherwise. *)
Theorem Light_PointInSolid_descent (bsp : mbsp_t) (model : dmodelh2_t) (p : vec3) :
  (PointInSolidSpec.outside model p ->
     forall fuel, Light_PointInSolid fuel bsp model p = Ok false)
  /\ (~ PointInSolidSpec.outside model p ->
      forall t : bsptree, represents bsp (headnode_0 model) t ->
      forall fuel : nat, (depth t <= fuel)%nat ->
      exists b : bool,
        Light_PointInSolid fuel bsp model p = Ok b
        /\ (b = true <-> in_solid (game bsp) t p)).
Proof.
  split.
  - intros Hout fuel. unfold BspUtils.Light_PointInSolid.
    apply outside_bounds_iff in Hout. rewrite Hout. reflexivity.
  - intros Hin t Hrep fuel Hfuel. unfold BspUtils.Light_PointInSolid.
    destruct (BspUtils.outside_bounds model p) eqn:E.
    + exfalso. apply Hin. apply outside_bounds_iff. exact E.
    + apply Light_PointInSolid_r_refines; assumption.
Qed.

End PointInSolid.

Lemma half_space_represents :
  represents Sample.half_space 0 Sample.half_space_tree.
Proof.
  unfold Sample.half_space_tree.
  eapply (represents_node Sample.half_space 0
            {| planenum := 0; children := (-1, -2); firstface := 0; numfaces := 0 |}).
  - lia.
  - reflexivity.
  - reflexivity.
  - apply (represents_leaf Sample.half_space (-1)
             {| contents := Sample.CONTENTS_EMPTY; firstmarksurface := 0; nummarksurfaces := 0 |});
      [lia | reflexivity].
  - apply (represents_leaf Sample.half_space (-2)
             {| contents := Sample.CONTENTS_SOLID; firstmarksurface := 0; nummarksurfaces := 0 |});
      [lia | reflexivity].
Defined.

Lemma Light_PointInSolid_descent_witness :
  (forall fuel,
     BspUtils.Light_PointInSolid Sample.CONTENTS_SOLID Sample.CONTENTS_SKY
       Sample.Q2_CONTENTS_SOLID Sample.distance_to_fast fuel Sample.half_space
       Sample.half_space_model (100, 0, 0)%Q = Ok false)
  /\ exists b : bool,
       BspUtils.Light_PointInSolid Sample.CONTENTS_SOLID Sample.CONTENTS_SKY
         Sample.Q2_CONTENTS_SOLID Sample.distance_to_fast 2 Sample.half_space
         Sample.half_space_model (-5, 0, 0)%Q = Ok b
       /\ (b = true <->
           PointInSolidSpec.in_solid Sample.CONTENTS_SOLID Sample.CONTENTS_SKY
             Sample.Q2_CONTENTS_SOLID Sample.distance_to_fast GAME_QUAKE
             Sample.half_space_tree (-5, 0, 0)%Q).
Proof.
  split.
  - apply (Light_PointInSolid_descent Sample.CONTENTS_SOLID Sample.CONTENTS_SKY
             Sample.Q2_CONTENTS_SOLID Sample.distance_to_fast Sample.half_space
             Sample.half_space_model (100, 0, 0)%Q).
    exists 0%nat. split; [lia |]. right. reflexivity.
  - apply (Light_PointInSolid_descent Sample.CONTENTS_SOLID Sample.CONTENTS_SKY
             Sample.Q2_CONTENTS_SOLID Sample.distance_to_fast Sample.half_space
             Sample.half_space_model (-5, 0, 0)%Q).
    + intros (i & Hi & H).
      destruct i as [| [| [| i]]]; [| | | lia];
        destruct H as [H | H]; vm_compute in H; discriminate.
    + exact half_space_represents.
    + simpl. lia.
Defined.

(** ** light/entities.cc: the sky dome *)

Lemma rint_sqrt_nearest (n : Z) :
  0 <= n -> SkyDomeSpec.nearest_to_sqrt (inject_Z n) (Entities.rint_sqrt n).
Proof.
  intros Hn. unfold SkyDomeSpec.nearest_to_sqrt, Entities.rint_sqrt. cbv zeta.
  pose proof (Z.sqrt_spec n Hn) as Hs. pose proof (Z.sqrt_nonneg n) as Hr.
  cbv zeta in Hs. generalize dependent (Z.sqrt n). intros r Hs Hr.
  assert (Hq : (0 <= inject_Z n)%Q) by (unfold Qle; simpl; lia).
  destruct (n <=? r * r + r) eqn:E.
  - apply Z.leb_le in E. repeat split; [exact Hq | lia | unfold Qlt; simpl; nia |].
    destruct (Z.eq_dec r 0) as [-> | Hne]; [left; reflexivity | right].
    unfold Qlt; simpl. nia.
  - apply Z.leb_gt in E. repeat split; [exact Hq | lia | unfold Qlt; simpl; nia |].
    right. unfold Qlt; simpl. nia.
Qed.

Lemma nearest_to_sqrt_unique (q : Q) (r1 r2 : Z) :
  SkyDomeSpec.nearest_to_sqrt q r1 -> SkyDomeSpec.nearest_to_sqrt q r2 -> r1 = r2.
Proof.
  unfold SkyDomeSpec.nearest_to_sqrt.
  intros (_ & H1 & U1 & L1) (Hq & H2 & U2 & L2).
  destruct (Z.lt_trichotomy r1 r2) as [Hlt | [Heq | Hgt]]; [exfalso | exact Heq | exfalso].
  - destruct L2 as [-> | L2]; [lia |].
    assert (H : (inject_Z ((2 * r2 - 1) ^ 2) < inject_Z ((2 * r1 + 1) ^ 2))%Q) by lra.
    rewrite <- Zlt_Qlt in H. rewrite !Z.pow_2_r in H. nia.
  - destruct L1 as [-> | L1]; [lia |].
    assert (H : (inject_Z ((2 * r1 - 1) ^ 2) < inject_Z ((2 * r2 + 1) ^ 2))%Q) by lra.
    rewrite <- Zlt_Qlt in H. rewrite !Z.pow_2_r in H. nia.
Qed.

Lemma total_sunlight_app (l1 l2 : list Entities.sun_t) :
  (SkyDomeSpec.total_sunlight (l1 ++ l2)
   == SkyDomeSpec.total_sunlight l1 + SkyDomeSpec.total_sunlight l2)%Q.
Proof.
  induction l1 as [| s l1 IH]; simpl.
  - ring.
  - rewrite IH. ring.
Qed.

Lemma total_sunlight_equal_shares (v : Q) (l : list Entities.sun_t) :
  Forall (fun s => Entities.Sun.sunlight s = v) l ->
  (SkyDomeSpec.total_sunlight l == inject_Z (Z.of_nat (length l)) * v)%Q.
Proof.
  induction 1 as [| s l Hs _ IH].
  - simpl. ring.
  - cbn [SkyDomeSpec.total_sunlight fold_right length].
    fold (SkyDomeSpec.total_sunlight l). rewrite IH, Hs, Nat2Z.inj_succ.
    unfold Z.succ. rewrite inject_Z_plus. ring.
Qed.

Section SkyDome.

Variable cfg : Entities.globals_t.
Variable cosf sinf : Q -> Q.
Variable VectorNormalize : vec3 -> vec3.
Variable DEG2RAD : Q -> Q.

Local Abbreviation SetupSkyDome := (Entities.SetupSkyDome cfg cosf sinf VectorNormalize DEG2RAD).
Local Abbreviation skydome_elevations := (Entities.skydome_elevations cfg cosf sinf VectorNormalize).
Local Abbreviation skydome_angles := (Entities.skydome_angles cfg cosf sinf VectorNormalize).
Local Abbreviation skydome_cell := (Entities.skydome_cell cfg cosf sinf VectorNormalize).

Local Abbreviation upper_sun := (SkyDomeSpec.upper_sun cfg).

Variable v2 v3 : Q.
Hypothesis v2_pos : Qltb 0 v2 = true.
Hypothesis v3_nonpos : Qltb 0 v3 = false.

Lemma skydome_cell_upper (angle elevation : Q) (suns : list Entities.sun_t) :
  exists s, skydome_cell v2 v3 angle elevation suns = suns ++ [s] /\ upper_sun v2 s.
Proof.
  unfold Entities.skydome_cell. rewrite v2_pos, v3_nonpos.
  unfold Entities.AddSun. eexists. split; [reflexivity |].
  split; reflexivity.
Qed.

Lemma skydome_angles_upper (angleStep elevation : Q) (n : nat) :
  forall (angle : Q) (suns : list Entities.sun_t),
  exists emitted,
    snd (skydome_angles n v2 v3 angleStep angle elevation suns) = suns ++ emitted
    /\ length emitted = n /\ Forall (upper_sun v2) emitted.
Proof.
  induction n as [| n IH]; intros angle suns; simpl.
  - exists []. rewrite app_nil_r. repeat split. constructor.
  - destruct (skydome_cell_upper angle elevation suns) as (s & -> & Hs).
    destruct (IH (angle + angleStep)%Q (suns ++ [s])) as (emitted & -> & Hlen & Hall).
    exists (s :: emitted). rewrite <- app_assoc. simpl.
    repeat split; [congruence | constructor; assumption].
Qed.

Lemma skydome_elevations_upper (angleSteps elevationSteps : Z)
    (angleStep elevationStep : Q) (n : nat) :
  forall (angle elevation : Q) (suns : list Entities.sun_t),
  exists emitted,
    skydome_elevations n angleSteps elevationSteps v2 v3 angleStep elevationStep
      angle elevation suns = suns ++ emitted
    /\ length emitted = (n * Z.to_nat angleSteps)%nat
    /\ Forall (upper_sun v2) emitted.
Proof.
  induction n as [| n IH]; intros angle elevation suns; simpl.
  - exists []. rewrite app_nil_r. repeat split. constructor.
  - destruct (skydome_angles_upper angleStep elevation (Z.to_nat angleSteps) angle suns)
      as (row & Hrow & Hlen & Hall).
    destruct (skydome_angles (Z.to_nat angleSteps) v2 v3 angleStep angle elevation suns)
      as [angle' suns'] eqn:E.
    simpl in Hrow. subst suns'.
    destruct (IH (angle' + angleStep / inject_Z elevationSteps)%Q
                 (elevation + elevationStep)%Q (suns ++ row))
      as (emitted & -> & Hlen' & Hall').
    exists (row ++ emitted). rewrite app_assoc.
    repeat split.
    + rewrite length_app. lia.
    + apply Forall_app. split; assumption.
Qed.

End SkyDome.

Lemma Qdiv_pos (a : Q) (n : Z) : (0 < a)%Q -> 0 < n -> Qltb 0 (a / inject_Z n) = true.
Proof.
  intros Ha Hn. apply Qltb_lt. apply Qlt_shift_div_l.
  - unfold Qlt; simpl; lia.
  - lra.
Qed.

Lemma Qdiv_nonpos (a : Q) (n : Z) : (a <= 0)%Q -> 0 < n -> Qltb 0 (a / inject_Z n) = false.
Proof.
  intros Ha Hn. apply Qltb_ge. apply Qle_shift_div_r.
  - unfold Qlt; simpl; lia.
  - lra.
Qed.

(** C1, as the code has it.  With [sunsamples >= 1], [_sunlight2 = L > 0]
    and [_sunlight3 <= 0], [SetupSkyDome] takes [iterations] to be
    [max(r + 1, 2)] for [r] the integer nearest to the square root of the
    integer quotient [(sunsamples - 1) / 4], and with
    [elevationSteps = iterations - 1], [angleSteps = 4 * elevationSteps]
    and [N = angleSteps * elevationSteps + 1] it appends exactly [N] suns
    to [all_suns], each with intensity [L / N] and the colour of
    [_sunlight2], so that their intensities sum to [L]; none of them
    carries the share of [_sunlight3]. *)
Theorem SetupSkyDome_upper_suns
    (cfg : Entities.globals_t) (cosf sinf : Q -> Q) (VectorNormalize : vec3 -> vec3)
    (DEG2RAD : Q -> Q) (all_suns : list Entities.sun_t) :
  1 <= Entities.sunsamples cfg ->
  (0 < Entities.sunlight2 cfg)%Q ->
  (Entities.sunlight3 cfg <= 0)%Q ->
  exists (r : Z) (emitted : list Entities.sun_t),
    let iterations := Z.max (r + 1) 2 in
    let elevationSteps := iterations - 1 in
    let angleSteps := 4 * elevationSteps in
    let N := angleSteps * elevationSteps + 1 in
    SkyDomeSpec.nearest_to_sqrt (inject_Z (Z.quot (Entities.sunsamples cfg - 1) 4)) r
    /\ Entities.skydome_iterations (Entities.sunsamples cfg) = Ok iterations
    /\ Entities.SetupSkyDome cfg cosf sinf VectorNormalize DEG2RAD all_suns
       = Ok (all_suns ++ emitted)
    /\ Z.of_nat (length emitted) = N
    /\ Forall (fun s =>
                 Entities.Sun.sunlight s = (Entities.sunlight2 cfg / inject_Z N)%Q
                 /\ Entities.Sun.sunlight_color s = Entities.sunlight2_color cfg
                 /\ ~ (Entities.Sun.sunlight s == Entities.sunlight3 cfg / inject_Z N)%Q)
              emitted
    /\ (SkyDomeSpec.total_sunlight emitted == Entities.sunlight2 cfg)%Q.
Proof.
  intros Hs HL HL3.
  set (n := Z.quot (Entities.sunsamples cfg - 1) 4).
  assert (Hn : 0 <= n) by (apply Z.quot_pos; lia).
  pose proof (rint_sqrt_nearest n Hn) as Hnear.
  set (r := Entities.rint_sqrt n) in *.
  assert (Hr : 0 <= r) by apply Hnear.
  set (iterations := Z.max (r + 1) 2).
  set (eS := iterations - 1).
  set (aS := 4 * eS).
  set (N := aS * eS + 1).
  assert (HeS : 1 <= eS) by (unfold eS, iterations; lia).
  assert (HN : 0 < N) by (unfold N, aS; nia).
  pose proof (Qdiv_pos _ N HL HN) as Hv2.
  pose proof (Qdiv_nonpos _ N HL3 HN) as Hv3.
  assert (Hiter : Entities.skydome_iterations (Entities.sunsamples cfg) = Ok iterations).
  { unfold Entities.skydome_iterations. fold n.
    assert (E : (n <? 0) = false) by (apply Z.ltb_ge; exact Hn).
    rewrite E. reflexivity. }
  set (v2 := (Entities.sunlight2 cfg / inject_Z N)%Q) in *.
  set (v3 := (Entities.sunlight3 cfg / inject_Z N)%Q) in *.
  set (eStep := DEG2RAD (90 / inject_Z (eS + 1))%Q).
  set (aStep := DEG2RAD (360 / inject_Z (eS * 4))%Q).
  destruct (skydome_elevations_upper cfg cosf sinf VectorNormalize v2 v3 Hv2 Hv3
              (eS * 4) eS aStep eStep (Z.to_nat eS) 0%Q (eStep * (1 # 2))%Q all_suns)
    as (grid & Hgrid & Hlen & Hall).
  exists r, (grid ++ [Entities.new_sun cfg VectorNormalize (0, 0, 1)%Q v2
                        (Entities.sunlight2_color cfg)
                        (Entities.intValue (Entities.sunlight2_dirt cfg))]).
  cbv zeta. fold iterations eS aS N v2 v3.
  assert (Hemit : Forall (SkyDomeSpec.upper_sun cfg v2)
            (grid ++ [Entities.new_sun cfg VectorNormalize (0, 0, 1)%Q v2
                        (Entities.sunlight2_color cfg)
                        (Entities.intValue (Entities.sunlight2_dirt cfg))])).
  { apply Forall_app. split; [exact Hall |]. constructor; [split; reflexivity | constructor]. }
  assert (Hcount : Z.of_nat (length (grid ++ [Entities.new_sun cfg VectorNormalize (0, 0, 1)%Q v2
                        (Entities.sunlight2_color cfg)
                        (Entities.intValue (Entities.sunlight2_dirt cfg))])) = N).
  { rewrite length_app, Hlen. simpl. unfold N, aS. nia. }
  split; [exact Hnear |]. split; [exact Hiter |]. split; [| split; [exact Hcount | split]].
  - unfold Entities.SetupSkyDome. rewrite Hiter. simpl.
    assert (E : Qle_bool (Entities.sunlight2 cfg) 0 = false).
    { destruct (Qle_bool (Entities.sunlight2 cfg) 0) eqn:E; [| reflexivity].
      apply Qle_bool_iff in E. lra. }
    rewrite E. simpl. fold eS.
    replace (eS * 4 * eS + 1) with N by (unfold N, aS; ring).
    fold v2 v3 eStep aStep. rewrite Hgrid, Hv2, Hv3.
    unfold Entities.AddSun. rewrite <- app_assoc. reflexivity.
  - eapply Forall_impl; [exact Hemit |].
    intros s [Hs1 Hs2]. repeat split; [exact Hs1 | exact Hs2 |].
    rewrite Hs1. intros Heq. apply Qltb_lt in Hv2. apply Qltb_ge in Hv3. lra.
  - rewrite (total_sunlight_equal_shares v2).
    + rewrite Hcount. unfold v2. field. intros H0.
      assert (HNq : (0 < inject_Z N)%Q) by (unfold Qlt; simpl; lia). lra.
    + eapply Forall_impl; [exact Hemit |]. intros s [Hs1 _]. exact Hs1.
Qed.

Lemma SetupSkyDome_upper_suns_witness :
  exists (r : Z) (emitted : list Entities.sun_t),
    Entities.skydome_iterations 16 = Ok (Z.max (r + 1) 2)
    /\ Z.of_nat (length emitted) = 4 * (Z.max (r + 1) 2 - 1) * (Z.max (r + 1) 2 - 1) + 1
    /\ (SkyDomeSpec.total_sunlight emitted == 100)%Q.
Proof.
  destruct (SetupSkyDome_upper_suns
              {| Entities.global_anglescale := 1 # 2;
                 Entities.addminlight := false;
                 Entities.globalDirt := false;
                 Entities.sunsamples := 16;
                 Entities.sunlight := 0;
                 Entities.sunlight_color := (255, 255, 255)%Q;
                 Entities.sunvec := (0, 0, -1)%Q;
                 Entities.sunlight_dirt := 0;
                 Entities.sun2 := 0;
                 Entities.sun2_color := (255, 255, 255)%Q;
                 Entities.sun2vec := (0, 0, -1)%Q;
                 Entities.sun_deviance := 0;
                 Entities.sunlight2 := 100;
                 Entities.sunlight2_color := (255, 255, 255)%Q;
                 Entities.sunlight2_dirt := 0;
                 Entities.sunlight3 := 0;
                 Entities.sunlight3_color := (255, 255, 255)%Q;
                 Entities.surflight_subdivide := 128 |}
              Sample.zero_fn Sample.zero_fn Sample.keep_vec Sample.DEG2RAD [])
    as (r & emitted & _ & Hiter & _ & Hcount & _ & Hsum).
  - simpl. lia.
  - reflexivity.
  - simpl. discriminate.
  - exists r, emitted. simpl in *. auto.
Defined.

(** The integer division matters: read as arithmetic on real numbers,
    [round(sqrt((sunsamples - 1) / 4)) + 1] is 3 at [sunsamples = 11]
    (the root of 10/4 is nearest to 2) and the dome would have 17 suns;
    the code, dividing integers, gets [iterations = 2] and emits 5. *)
Lemma skydome_iterations_not_real_division :
  SkyDomeSpec.nearest_to_sqrt (inject_Z (11 - 1) / 4) 2
  /\ Entities.skydome_iterations 11 <> Ok (Z.max (2 + 1) 2)
  /\ Entities.skydome_iterations 11 = Ok 2
  /\ exists emitted,
       Entities.SetupSkyDome Sample.dome_cfg Sample.zero_fn Sample.zero_fn
         Sample.keep_vec Sample.DEG2RAD [] = Ok emitted
       /\ length emitted = 5%nat.
Proof.
  split; [| split; [| split]].
  - unfold SkyDomeSpec.nearest_to_sqrt. repeat split; try (vm_compute; congruence).
    right. reflexivity.
  - vm_compute. discriminate.
  - reflexivity.
  - eexists. split; [vm_compute; reflexivity | reflexivity].
Qed.

(** ** light/entities.cc: styles of switchable lights *)

Lemma find_targetname_bounds (names : list string) (t : string) :
  forall i k, Entities.find_targetname names t i = Some k ->
  i <= k < i + zlen names /\ In t names.
Proof.
  induction names as [| n names IH]; intros i k; simpl; [discriminate |].
  destruct (String.eqb n t) eqn:E.
  - intros [= <-]. apply String.eqb_eq in E. unfold zlen. simpl length. split; [lia | left; exact E].
  - intros H. apply IH in H. unfold zlen in *. simpl length. split; [lia | right; tauto].
Qed.

Lemma find_targetname_app (names extra : list string) (t : string) :
  forall i k, Entities.find_targetname names t i = Some k ->
  Entities.find_targetname (names ++ extra) t i = Some k.
Proof.
  induction names as [| n names IH]; intros i k; simpl; [discriminate |].
  destruct (String.eqb n t); [auto | apply IH].
Qed.

Lemma find_targetname_fresh (names : list string) (t : string) :
  forall i, Entities.find_targetname names t i = None ->
  Entities.find_targetname (names ++ [t]) t i = Some (i + zlen names).
Proof.
  induction names as [| n names IH]; intros i; simpl.
  - intros _. rewrite String.eqb_refl. f_equal. unfold zlen. simpl. lia.
  - destruct (String.eqb n t); [discriminate |].
    intros H. rewrite (IH _ H). f_equal. unfold zlen. simpl length. lia.
Qed.

(** What [LightStyleForTargetname] returns is 32 plus the place of the
    name in the list it leaves, which extends the list it was given. *)
Lemma LightStyleForTargetname_ok (names names' : list string) (t : string) (style : Z) :
  Entities.LightStyleForTargetname names t = Ok (style, names') ->
  zlen names <= 32 ->
  exists k, style = 32 + k
    /\ Entities.find_targetname names' t 0 = Some k
    /\ (exists extra, names' = names ++ extra)
    /\ 0 <= k < zlen names' /\ zlen names' <= 32.
Proof.
  unfold Entities.LightStyleForTargetname. intros H Hlen.
  destruct (Entities.find_targetname names t 0) as [k |] eqn:E.
  - injection H as <- <-. exists k.
    pose proof (find_targetname_bounds _ _ _ _ E) as [Hk _].
    repeat split; [exact E | exists []; symmetry; apply app_nil_r | lia | lia | lia].
  - destruct (zlen names =? Entities.MAX_LIGHT_TARGETS) eqn:Efull; [discriminate |].
    apply Z.eqb_neq in Efull. unfold Entities.MAX_LIGHT_TARGETS in Efull.
    injection H as <- <-. exists (zlen names).
    assert (Hl : zlen (names ++ [t]) = zlen names + 1).
    { unfold zlen. rewrite length_app. simpl. lia. }
    repeat split.
    + lia.
    + apply (find_targetname_fresh names t 0 E).
    + exists [t]. reflexivity.
    + unfold zlen. lia.
    + lia.
    + lia.
Qed.

Lemma LightStyleForTargetname_ok_or_fatal (names : list string) (t : string) :
  (exists r, Entities.LightStyleForTargetname names t = Ok r)
  \/ (exists msg, Entities.LightStyleForTargetname names t = Fatal msg).
Proof.
  unfold Entities.LightStyleForTargetname.
  destruct (Entities.find_targetname names t 0); [left; eauto |].
  destruct (zlen names =? Entities.MAX_LIGHT_TARGETS); [right | left]; eauto.
Qed.

(** The decimal numerals of the styles hold no escape sequence. *)
Lemma ParseEscapeSequences_style (k : Z) :
  0 <= k < 32 ->
  Entities.ParseEscapeSequences (Entities.to_string (32 + k)) = Entities.to_string (32 + k).
Proof.
  intros Hk.
  assert (Hall : forallb
            (fun n => String.eqb
               (Entities.ParseEscapeSequences (Entities.to_string (32 + Z.of_nat n)))
               (Entities.to_string (32 + Z.of_nat n)))
            (seq 0 32) = true) by (vm_compute; reflexivity).
  rewrite forallb_forall in Hall.
  specialize (Hall (Z.to_nat k)). rewrite Z2Nat.id in Hall by lia.
  apply String.eqb_eq. apply Hall. apply in_seq. lia.
Qed.

Section Styles.

Variable stof : string -> option Q.

Local Abbreviation LoadEntities_entdict := (Entities.LoadEntities_entdict stof).
Local Abbreviation LoadEntities_entdicts := (Entities.LoadEntities_entdicts stof).

Lemma lmscale_fixed_lookup (e : gmap string string) (key : string) :
  key <> "lightmap_scale"%string -> key <> "_lightmap_scale"%string ->
  StyleSpec.lmscale_fixed e !! key = e !! key.
Proof.
  intros H1 H2. unfold StyleSpec.lmscale_fixed.
  destruct (negb _); [| reflexivity].
  rewrite lookup_insert_ne by congruence.
  rewrite lookup_delete_ne by congruence. reflexivity.
Qed.

Lemma lmscale_fixed_StringForKey (e : gmap string string) (key : string) :
  key <> "lightmap_scale"%string -> key <> "_lightmap_scale"%string ->
  Entities.EntDict_StringForKey (StyleSpec.lmscale_fixed e) key = Entities.EntDict_StringForKey e key.
Proof.
  intros H1 H2. unfold Entities.EntDict_StringForKey.
  rewrite lmscale_fixed_lookup by assumption. reflexivity.
Qed.

Lemma LoadEntities_entdict_ok_or_fatal (e : gmap string string) (names : list string) :
  (exists r, LoadEntities_entdict e names = Ok r)
  \/ (exists msg, LoadEntities_entdict e names = Fatal msg).
Proof.
  unfold Entities.LoadEntities_entdict. fold (StyleSpec.lmscale_fixed e).
  destruct (String.prefix _ _); [| left; simpl; eauto].
  destruct (_ && _); [| left; simpl; eauto].
  destruct (LightStyleForTargetname_ok_or_fatal names
              (Entities.EntDict_StringForKey (StyleSpec.lmscale_fixed e) "targetname"))
    as [[[style names'] ->] | [msg ->]]; simpl; eauto.
Qed.

Lemma LoadEntities_entdicts_ok_or_fatal (es : list (gmap string string)) :
  forall names,
  (exists r, LoadEntities_entdicts es names = Ok r)
  \/ (exists msg, LoadEntities_entdicts es names = Fatal msg).
Proof.
  induction es as [| e es IH]; intros names; simpl; [left; eauto |].
  destruct (LoadEntities_entdict_ok_or_fatal e names) as [[[e' names1] ->] | [msg ->]];
    simpl; [| right; eauto].
  destruct (IH names1) as [[[es' names2] ->] | [msg ->]]; simpl; eauto.
Qed.

(** One pass of the loop: the list of names grows at its end and stays
    within 32 entries; a switchable entity leaves with the style of its
    targetname's place in the list. *)
Lemma LoadEntities_entdict_step (e e' : gmap string string) (names names' : list string) :
  LoadEntities_entdict e names = Ok (e', names') ->
  zlen names <= 32 ->
  (exists extra, names' = names ++ extra)
  /\ zlen names' <= 32
  /\ (forall t, StyleSpec.switchable e t ->
        exists k, Entities.find_targetname names' t 0 = Some k
          /\ 0 <= k < 32
          /\ e' !! "style"%string = Some (Entities.to_string (32 + k))).
Proof.
  unfold Entities.LoadEntities_entdict. fold (StyleSpec.lmscale_fixed e).
  intros H Hlen.
  destruct (String.prefix "light"
              (Entities.EntDict_StringForKey (StyleSpec.lmscale_fixed e) "classname")) eqn:Ecls.
  - destruct (negb (String.eqb
                 (Entities.EntDict_StringForKey (StyleSpec.lmscale_fixed e) "targetname") "")
              && (Entities.intValue
                    (Entities.EntDict_FloatForKey stof (StyleSpec.lmscale_fixed e) "style") =? 0))
      eqn:Esw.
    + destruct (Entities.LightStyleForTargetname names
                  (Entities.EntDict_StringForKey (StyleSpec.lmscale_fixed e) "targetname"))
        as [[style names1] | | | |] eqn:Els; simpl in H; try discriminate.
      injection H as <- <-.
      destruct (LightStyleForTargetname_ok _ _ _ _ Els Hlen)
        as (k & -> & Hfind & Hext & Hk & Hlen').
      split; [exact Hext |]. split; [exact Hlen' |].
      intros t (_ & Ht & _ & _).
      rewrite lmscale_fixed_StringForKey in Hfind by discriminate.
      rewrite Ht in Hfind. exists k. split; [exact Hfind |]. split; [lia |].
      rewrite lookup_fmap, lookup_insert_eq. simpl.
      rewrite ParseEscapeSequences_style by lia. reflexivity.
    + simpl in H. injection H as <- <-.
      split; [exists []; symmetry; apply app_nil_r |]. split; [exact Hlen |].
      intros t (_ & Ht & Hne & Hstyle). exfalso.
      rewrite lmscale_fixed_StringForKey in Esw by discriminate.
      unfold Entities.EntDict_FloatForKey in Esw.
      rewrite lmscale_fixed_StringForKey in Esw by discriminate.
      unfold Entities.EntDict_StringForKey at 2 in Esw. rewrite Hstyle in Esw.
      simpl in Esw. rewrite Ht in Esw.
      apply andb_false_iff in Esw. destruct Esw as [Esw | Esw]; [| discriminate].
      apply negb_false_iff, String.eqb_eq in Esw. contradiction.
  - simpl in H. injection H as <- <-.
    split; [exists []; symmetry; apply app_nil_r |]. split; [exact Hlen |].
    intros t (Hcls & _). exfalso.
    rewrite lmscale_fixed_StringForKey in Ecls by discriminate. congruence.
Qed.

Lemma LoadEntities_entdicts_styles (es : list (gmap string string)) :
  forall (es' : list (gmap string string)) (names names' : list string),
  LoadEntities_entdicts es names = Ok (es', names') ->
  zlen names <= 32 ->
  (exists extra, names' = names ++ extra)
  /\ zlen names' <= 32
  /\ (forall i e t, es !! i = Some e -> StyleSpec.switchable e t ->
        exists e' k, es' !! i = Some e'
          /\ Entities.find_targetname names' t 0 = Some k
          /\ 0 <= k < 32
          /\ e' !! "style"%string = Some (Entities.to_string (32 + k))).
Proof.
  induction es as [| e es IH]; intros es' names names' H Hlen; simpl in H.
  - injection H as <- <-.
    split; [exists []; symmetry; apply app_nil_r |]. split; [exact Hlen |].
    intros i e t Hi. rewrite lookup_nil in Hi. discriminate.
  - destruct (LoadEntities_entdict e names) as [[e1 names1] | | | |] eqn:E1;
      simpl in H; try discriminate.
    destruct (LoadEntities_entdicts es names1) as [[es1 names2] | | | |] eqn:E2;
      simpl in H; try discriminate.
    injection H as <- <-.
    destruct (LoadEntities_entdict_step _ _ _ _ E1 Hlen) as ([x1 Hx1] & Hlen1 & Hstep).
    destruct (IH _ _ _ E2 Hlen1) as ([x2 Hx2] & Hlen2 & Hrest).
    split; [exists (x1 ++ x2); subst; symmetry; apply app_assoc |]. split; [exact Hlen2 |].
    intros [| i] e0 t Hi Hsw; simpl in Hi.
    + injection Hi as <-. destruct (Hstep t Hsw) as (k & Hfind & Hk & Hstyle).
      exists e1, k. repeat split; try assumption; try lia.
      rewrite Hx2. apply find_targetname_app. exact Hfind.
    + destruct (Hrest i e0 t Hi Hsw) as (e' & k & He' & Hfind & Hk & Hstyle).
      exists e', k. repeat split; try assumption; lia.
Qed.

(** C2.  After [LoadEntities], two entities whose classname begins with
    [light], that share a non-empty targetname and have no [style] key,
    carry the same [style] value, a number from 32 to 63; and when more
    than 32 distinct targetnames occur on such entities, [LoadEntities]
    stops with a fatal error. *)
Theorem LoadEntities_switchable_styles (dentdata : string)
    (entdicts : list (gmap string string)) :
  Entities.EntData_Parse dentdata = Ok entdicts ->
  (forall entdicts' names,
     Entities.LoadEntities stof dentdata = Ok (entdicts', names) ->
     forall i j e1 e2 targetname,
       entdicts !! i = Some e1 -> entdicts !! j = Some e2 ->
       StyleSpec.switchable e1 targetname -> StyleSpec.switchable e2 targetname ->
       exists e1' e2' style,
         entdicts' !! i = Some e1' /\ entdicts' !! j = Some e2'
         /\ e1' !! "style"%string = Some (Entities.to_string style)
         /\ e2' !! "style"%string = Some (Entities.to_string style)
         /\ 32 <= style <= 63)
  /\ (forall targets : list string,
        NoDup targets -> (32 < length targets)%nat ->
        (forall t, In t targets -> exists e, In e entdicts /\ StyleSpec.switchable e t) ->
        is_fatal (Entities.LoadEntities stof dentdata) = true).
Proof.
  intros Hparse. unfold Entities.LoadEntities. rewrite Hparse. simpl.
  assert (H0 : zlen (@nil string) <= 32) by (unfold zlen; simpl; lia).
  split.
  - intros es' names H i j e1 e2 t Hi Hj Hs1 Hs2.
    destruct (LoadEntities_entdicts_styles _ _ _ _ H H0) as (_ & _ & Hall).
    destruct (Hall i e1 t Hi Hs1) as (e1' & k1 & He1 & Hf1 & Hk1 & Hst1).
    destruct (Hall j e2 t Hj Hs2) as (e2' & k2 & He2 & Hf2 & Hk2 & Hst2).
    assert (k2 = k1) by congruence. subst k2.
    exists e1', e2', (32 + k1). repeat split; try assumption; lia.
  - intros targets Hnodup Hmany Hsw.
    destruct (LoadEntities_entdicts_ok_or_fatal entdicts []) as [[[es' names] H] | [msg ->]];
      [exfalso | reflexivity].
    destruct (LoadEntities_entdicts_styles _ _ _ _ H H0) as (_ & Hlen & Hall).
    assert (Hincl : incl targets names).
    { intros t Ht. destruct (Hsw t Ht) as (e & He & Hse).
      apply list_elem_of_In, list_elem_of_lookup in He. destruct He as [i Hi].
      destruct (Hall i e t Hi Hse) as (_ & k & _ & Hfind & _).
      apply (find_targetname_bounds _ _ _ _ Hfind). }
    apply NoDup_ListNoDup in Hnodup.
    pose proof (List.NoDup_incl_length Hnodup Hincl) as Hle.
    unfold zlen in Hlen. lia.
Qed.

End Styles.

(** ** light/entities.cc: CheckEntityFields *)

Section CheckFacts.

Variable cfg : Entities.globals_t.
Variable DEFAULTLIGHTLEVEL : Q.

Local Abbreviation CheckEntityFields := (Entities.CheckEntityFields cfg DEFAULTLIGHTLEVEL).

(** C3, as the code has it.  On a light whose formula is outside the enum
    range, the first call of [CheckEntityFields] in a run resets the
    formula to LINEAR, and logs nothing: [warned_once] starts out true, so
    the warning is suppressed from the first occurrence on. *)
Theorem CheckEntityFields_unknown_formula_silent
    (entity entity' : Entities.light_t) (st' : Entities.check_state) :
  Entities.getFormula entity < Entities.LF_LINEAR
  \/ Entities.LF_COUNT <= Entities.getFormula entity ->
  CheckEntityFields entity Entities.check_state_init = Ok (entity', st') ->
  Entities.getFormula entity' = Entities.LF_LINEAR
  /\ Entities.logged st' = []
  /\ st' = Entities.check_state_init.
Proof.
  intros Hbad. unfold Entities.CheckEntityFields.
  set (e1 := if Qeq_bool (Entities.light entity) 0 then _ else _).
  set (e2 := if Qle_bool (Entities.atten e1) 0 then _ else _).
  set (e3 := if _ || _ then Entities.set_anglescale _ e2 else e2).
  assert (Hf : Entities.getFormula e3 = Entities.getFormula entity).
  { unfold e3, e2, e1, Entities.getFormula.
    repeat match goal with |- context [if ?b then _ else _] => destruct b end;
      reflexivity. }
  assert (Hcond : (Entities.getFormula e3 <? Entities.LF_LINEAR)
                  || (Entities.LF_COUNT <=? Entities.getFormula e3) = true).
  { rewrite Hf. apply orb_true_iff.
    destruct Hbad as [H | H]; [left; apply Z.ltb_lt | right; apply Z.leb_le]; exact H. }
  rewrite Hcond. cbn [Entities.warned_once Entities.check_state_init negb].
  set (e4 := Entities.set_formula (inject_Z Entities.LF_LINEAR) e3).
  set (e5 := if _ && _ then Entities.set_samples 16%Q e4 else e4).
  set (e6 := if _ || _ then Entities.set_samples 1%Q _ else e5).
  set (e7 := if _ || _ then Entities.set_light _ e6 else e6).
  assert (Hf7 : Entities.getFormula e7 = Entities.LF_LINEAR).
  { unfold e7, e6, e5, e4, Entities.getFormula.
    repeat match goal with |- context [if ?b then _ else _] => destruct b end;
      reflexivity. }
  destruct ((Entities.intValue (Entities.style e7) <? 0) || _);
    intros H; [discriminate H |].
  injection H as <- <-. auto.
Qed.

End CheckFacts.

Lemma delay9_light_checks :
  exists r,
    Entities.CheckEntityFields Sample.dome_cfg 300 Sample.delay9_light
      Entities.check_state_init = Ok r.
Proof. apply is_ok_returns. vm_compute. reflexivity. Qed.

Lemma CheckEntityFields_unknown_formula_silent_witness :
  exists entity',
    Entities.CheckEntityFields Sample.dome_cfg 300 Sample.delay9_light
      Entities.check_state_init = Ok (entity', Entities.check_state_init)
    /\ Entities.getFormula entity' = Entities.LF_LINEAR.
Proof.
  destruct delay9_light_checks as [[entity' st'] E].
  destruct (CheckEntityFields_unknown_formula_silent Sample.dome_cfg 300
              Sample.delay9_light entity' st') as (Hf & _ & Hst).
  - right. vm_compute. discriminate.
  - exact E.
  - exists entity'. split; [rewrite E, Hst; reflexivity | exact Hf].
Defined.

(** ** light/entities.cc: SubdividePolygon *)

Section Subdivide.

Variable atoi : string -> Z.
Variable atof : string -> Q.
Variable Q_strcasecmp : string -> string -> Z.

Local Abbreviation SubdividePolygon := (Entities.SubdividePolygon atoi atof Q_strcasecmp).
Local Abbreviation subdivision_lights := (Entities.subdivision_lights atoi atof Q_strcasecmp).
Local Abbreviation CreateSurfaceLightOnFaceSubdivision :=
  (Entities.CreateSurfaceLightOnFaceSubdivision atoi atof).

Lemma unchecked_not_fatal {A} (l : list A) (i : Z) : is_fatal (unchecked l i) = false.
Proof. unfold unchecked. destruct (nthZ l i); reflexivity. Qed.

Lemma Face_Miptex_defined_or_not (bsp : mbsp_t) (face : mface_t) :
  BspUtils.Face_Miptex bsp face = Undefined
  \/ exists mt, BspUtils.Face_Miptex bsp face = Ok mt.
Proof.
  unfold BspUtils.Face_Miptex, unchecked.
  destruct (dtex_textures bsp); [right; eauto |].
  destruct (BspUtils.Face_Texinfo bsp face); [| right; eauto].
  destruct (nthZ _ _); simpl; [| left; reflexivity].
  destruct (String.eqb _ _); right; eauto.
Qed.

Lemma Face_RgbaMiptex_defined_or_not (bsp : mbsp_t) (face : mface_t) :
  BspUtils.Face_RgbaMiptex bsp face = Undefined
  \/ exists mt, BspUtils.Face_RgbaMiptex bsp face = Ok mt.
Proof.
  unfold BspUtils.Face_RgbaMiptex, unchecked.
  destruct (drgbatexdata bsp); [right; eauto |].
  destruct (BspUtils.Face_Texinfo bsp face); [| right; eauto].
  destruct (nthZ _ _); simpl; [right; eauto | left; reflexivity].
Qed.

Lemma Face_TextureName_not_fatal (bsp : mbsp_t) (face : mface_t) :
  is_fatal (BspUtils.Face_TextureName bsp face) = false.
Proof.
  unfold BspUtils.Face_TextureName.
  destruct (Face_Miptex_defined_or_not bsp face) as [-> | [[mt |] ->]]; simpl;
    try reflexivity.
  destruct (Face_RgbaMiptex_defined_or_not bsp face) as [-> | [[rm |] ->]]; simpl;
    try reflexivity.
  destruct (BspUtils.Face_Texinfo bsp face); [| reflexivity].
  destruct (String.eqb _ _); reflexivity.
Qed.

Lemma CreateSurfaceLightOnFaceSubdivision_appends (face : mface_t)
    (mi : Entities.modelinfo_t) (tmpl : Entities.light_t) (bsp : mbsp_t)
    (verts : list vec3) (lights : list Entities.light_t) :
  CreateSurfaceLightOnFaceSubdivision face mi tmpl bsp verts lights = Undefined
  \/ exists l, CreateSurfaceLightOnFaceSubdivision face mi tmpl bsp verts lights
               = Ok (lights ++ [l])
       /\ Entities.generated l = true
       /\ Entities.epairs l = Entities.epairs tmpl
       /\ Entities.light l = Entities.light tmpl.
Proof.
  unfold Entities.CreateSurfaceLightOnFaceSubdivision, unchecked.
  destruct (nthZ (dplanes bsp) (face_planenum face)); simpl; [right | left; reflexivity].
  unfold Entities.CreateSurfaceLight. eexists. split; [reflexivity |].
  destruct (negb _); repeat split.
Qed.

Lemma from_templates_mono (t : Entities.light_t) (templates : list Entities.light_t)
    (l : Entities.light_t) :
  SurfaceLightSpec.from_templates templates l -> SurfaceLightSpec.from_templates (t :: templates) l.
Proof.
  intros (Hg & tmpl & Hin & H). split; [exact Hg |]. exists tmpl. split; [right; exact Hin | exact H].
Qed.

Lemma subdivision_lights_appends (face : mface_t) (mi : Entities.modelinfo_t)
    (bsp : mbsp_t) (texname : string) (verts : list vec3)
    (templates : list Entities.light_t) :
  forall lights,
  subdivision_lights face mi bsp texname verts templates lights = Undefined
  \/ exists extra,
       subdivision_lights face mi bsp texname verts templates lights = Ok (lights ++ extra)
       /\ Forall (SurfaceLightSpec.from_templates templates) extra.
Proof.
  induction templates as [| t templates IH]; intros lights; simpl.
  - right. exists []. rewrite app_nil_r. split; [reflexivity | constructor].
  - destruct (Q_strcasecmp texname (Entities.ValueForKey t "_surface") =? 0).
    + destruct (CreateSurfaceLightOnFaceSubdivision_appends face mi t bsp verts lights)
        as [-> | (l & -> & Hg & He & Hl)]; simpl; [left; reflexivity |].
      destruct (IH (lights ++ [l])) as [-> | (extra & -> & Hall)]; [left; reflexivity | right].
      exists (l :: extra). rewrite <- app_assoc. split; [reflexivity |].
      constructor.
      * split; [exact Hg |]. exists t. split; [left; reflexivity | split; assumption].
      * eapply Forall_impl; [exact Hall | apply from_templates_mono].
    + simpl. destruct (IH lights) as [-> | (extra & -> & Hall)]; [left; reflexivity | right].
      exists extra. split; [reflexivity |].
      eapply Forall_impl; [exact Hall | apply from_templates_mono].
Qed.

(** C4, as the code has it.  The cap of [SubdividePolygon] is 60
    vertices: a call on more than 60 vertices is the fatal error
    [numverts = n]; a call on at most 60 vertices passes the check, is
    carried out without a fatal error when the polygon is not cut, and
    otherwise ends in the fatal error only when the recursive call on one
    of the two halves does. *)
Theorem SubdividePolygon_cap (fuel : nat) (face : mface_t) (mi : Entities.modelinfo_t)
    (bsp : mbsp_t) (verts : list vec3) (size : Q)
    (templates lights : list Entities.light_t) :
  (60 < zlen verts ->
     SubdividePolygon (S fuel) face mi bsp verts size templates lights
     = Fatal ("numverts = " +:+ Entities.to_string (zlen verts)))
  /\ (zlen verts <= 60 -> Entities.first_cut size verts = None ->
      is_fatal (SubdividePolygon (S fuel) face mi bsp verts size templates lights) = false)
  /\ (zlen verts <= 60 ->
      is_fatal (SubdividePolygon (S fuel) face mi bsp verts size templates lights) = true ->
      exists i m front back,
        Entities.first_cut size verts = Some (i, m)
        /\ Entities.cut_polygon verts i m = Ok (front, back)
        /\ (is_fatal (SubdividePolygon fuel face mi bsp front size templates lights) = true
            \/ exists lights',
                 SubdividePolygon fuel face mi bsp front size templates lights = Ok lights'
                 /\ is_fatal (SubdividePolygon fuel face mi bsp back size templates lights')
                    = true)).
Proof.
  split; [| split].
  - intros H. simpl. apply Z.ltb_lt in H. rewrite H. reflexivity.
  - intros H Hcut. simpl. apply Z.ltb_ge in H. rewrite H, Hcut.
    pose proof (Face_TextureName_not_fatal bsp face) as Htex.
    destruct (BspUtils.Face_TextureName bsp face) as [texname | | | |];
      simpl; try reflexivity; try discriminate.
    destruct (subdivision_lights_appends face mi bsp texname verts templates lights)
      as [-> | (extra & -> & _)]; reflexivity.
  - intros H. simpl. apply Z.ltb_ge in H. rewrite H.
    destruct (Entities.first_cut size verts) as [[i m] |] eqn:Hcut.
    + destruct (Entities.cut_polygon verts i m) as [[front back] | | | |] eqn:Hpoly;
        simpl; try discriminate.
      * intros Hfatal. exists i, m, front, back. split; [reflexivity |]. split; [exact Hpoly |].
        destruct (SubdividePolygon fuel face mi bsp front size templates lights)
          as [lights' | | | |]; simpl in *; try discriminate; [right | left; reflexivity].
        exists lights'. split; [reflexivity | exact Hfatal].
      * unfold Entities.cut_polygon in Hpoly.
        destruct (map _ verts); [discriminate |].
        destruct (Entities.clip_verts _ _). destruct (_ || _); discriminate.
    + pose proof (Face_TextureName_not_fatal bsp face) as Htex.
      destruct (BspUtils.Face_TextureName bsp face) as [texname | | | |];
        simpl; try discriminate.
      destruct (subdivision_lights_appends face mi bsp texname verts templates lights)
        as [-> | (extra & -> & _)]; discriminate.
Qed.

End Subdivide.

Lemma SubdividePolygon_cap_witness :
  Entities.SubdividePolygon Sample.atoi0 Sample.atof0 Sample.strcmp01 1
    Sample.lava_face Sample.no_offset Sample.lava_floor
    (repeat (0, 0, 0)%Q 70) 128 [Sample.lava_template] []
  = Fatal "numverts = 70"
  /\ is_fatal
       (Entities.SubdividePolygon Sample.atoi0 Sample.atof0 Sample.strcmp01 1
          Sample.lava_face Sample.no_offset Sample.lava_floor
          Sample.lava_quad 128 [Sample.lava_template] []) = false.
Proof.
  split.
  - apply (SubdividePolygon_cap Sample.atoi0 Sample.atof0 Sample.strcmp01 0
             Sample.lava_face Sample.no_offset Sample.lava_floor
             (repeat (0, 0, 0)%Q 70) 128 [Sample.lava_template] []).
    vm_compute. reflexivity.
  - apply (SubdividePolygon_cap Sample.atoi0 Sample.atof0 Sample.strcmp01 0
             Sample.lava_face Sample.no_offset Sample.lava_floor
             Sample.lava_quad 128 [Sample.lava_template] []).
    + vm_compute. discriminate.
    + vm_compute. reflexivity.
Defined.

(** The cap is not 64: a polygon of 61 vertices is within 64, and the call
    is the fatal error. *)
Lemma SubdividePolygon_61_vertices_fatal :
  zlen (repeat (0, 0, 0)%Q 61) <= 64
  /\ Entities.SubdividePolygon Sample.atoi0 Sample.atof0 Sample.strcmp01 1
       Sample.lava_face Sample.no_offset Sample.lava_floor
       (repeat (0, 0, 0)%Q 61) 128 [Sample.lava_template] []
     = Fatal "numverts = 61".
Proof.
  split; [vm_compute; discriminate | vm_compute; reflexivity].
Qed.

(** ** light/entities.cc: MakeSurfaceLights *)

Section SurfaceLights.

Variable cfg : Entities.globals_t.
Variable atoi : string -> Z.
Variable atof : string -> Q.
Variable Q_strcasecmp : string -> string -> Z.
Variable CONTENTS_EMPTY : Z.
Variable ModelInfoForFace : mbsp_t -> Z -> option Entities.modelinfo_t.

Local Abbreviation SubdividePolygon := (Entities.SubdividePolygon atoi atof Q_strcasecmp).
Local Abbreviation GL_SubdivideSurface :=
  (Entities.GL_SubdivideSurface cfg atoi atof Q_strcasecmp).
Local Abbreviation leaf_surface_lights :=
  (Entities.leaf_surface_lights cfg atoi atof Q_strcasecmp CONTENTS_EMPTY ModelInfoForFace).
Local Abbreviation leafs_surface_lights :=
  (Entities.leafs_surface_lights cfg atoi atof Q_strcasecmp CONTENTS_EMPTY ModelInfoForFace).
Local Abbreviation MakeSurfaceLights :=
  (Entities.MakeSurfaceLights cfg atoi atof Q_strcasecmp CONTENTS_EMPTY ModelInfoForFace).

Lemma appends_from_refl (templates lights : list Entities.light_t) :
  SurfaceLightSpec.appends_from templates lights lights.
Proof. exists []. rewrite app_nil_r. split; [reflexivity | constructor]. Qed.

Lemma appends_from_trans (templates l1 l2 l3 : list Entities.light_t) :
  SurfaceLightSpec.appends_from templates l1 l2 -> SurfaceLightSpec.appends_from templates l2 l3 ->
  SurfaceLightSpec.appends_from templates l1 l3.
Proof.
  intros (x & -> & Hx) (y & -> & Hy). exists (x ++ y).
  rewrite app_assoc. split; [reflexivity | apply Forall_app; split; assumption].
Qed.

Lemma SubdividePolygon_appends (face : mface_t) (mi : Entities.modelinfo_t) (bsp : mbsp_t)
    (size : Q) (templates : list Entities.light_t) (fuel : nat) :
  forall verts lights lights',
  SubdividePolygon fuel face mi bsp verts size templates lights = Ok lights' ->
  SurfaceLightSpec.appends_from templates lights lights'.
Proof.
  induction fuel as [| fuel IH]; intros verts lights lights'; simpl; [discriminate |].
  destruct (60 <? zlen verts); [discriminate |].
  destruct (Entities.first_cut size verts) as [[i m] |].
  - destruct (Entities.cut_polygon verts i m) as [[front back] | | | |]; simpl;
      try discriminate.
    destruct (SubdividePolygon fuel face mi bsp front size templates lights)
      as [l1 | | | |] eqn:E1; simpl; try discriminate.
    intros E2. eapply appends_from_trans; [eapply IH; exact E1 | eapply IH; exact E2].
  - destruct (BspUtils.Face_TextureName bsp face) as [texname | | | |]; simpl;
      try discriminate.
    destruct (subdivision_lights_appends atoi atof Q_strcasecmp face mi bsp texname
                verts templates lights) as [-> | (extra & -> & Hall)]; [discriminate |].
    intros [= <-]. exists extra. split; [reflexivity | exact Hall].
Qed.

Lemma leaf_surface_lights_appends (fuel : nat) (bsp : mbsp_t) (leaf : mleaf_t)
    (templates : list Entities.light_t) (n : nat) :
  forall k visited lights visited' lights',
  leaf_surface_lights fuel n bsp leaf k templates visited lights = Ok (visited', lights') ->
  SurfaceLightSpec.appends_from templates lights lights'.
Proof.
  induction n as [| n IH]; intros k visited lights visited' lights'; simpl.
  - intros [= _ <-]. apply appends_from_refl.
  - destruct (unchecked (dmarksurfaces bsp) (firstmarksurface leaf + k))
      as [facenum | | | |]; simpl; try discriminate.
    destruct (unchecked (dfaces bsp) facenum) as [surf | | | |]; simpl; try discriminate.
    destruct (BspUtils.Face_TextureName bsp surf) as [texname | | | |]; simpl;
      try discriminate.
    destruct (ModelInfoForFace bsp facenum) as [mi |]; simpl; [| apply IH].
    destruct (_ && _); simpl; [apply IH |].
    destruct (bool_decide _); simpl; [apply IH |].
    unfold Entities.GL_SubdivideSurface.
    destruct (Entities.face_verts _ bsp surf 0) as [verts | | | |]; simpl; try discriminate.
    destruct (SubdividePolygon fuel surf mi bsp verts (Entities.surflight_subdivide cfg)
                templates lights) as [l1 | | | |] eqn:E1; simpl; try discriminate.
    intros E2. eapply appends_from_trans;
      [eapply SubdividePolygon_appends; exact E1 | eapply IH; exact E2].
Qed.

Lemma leafs_surface_lights_appends (fuel : nat) (bsp : mbsp_t)
    (templates : list Entities.light_t) (leafs : list mleaf_t) :
  forall visited lights lights',
  leafs_surface_lights fuel bsp leafs templates visited lights = Ok lights' ->
  SurfaceLightSpec.appends_from templates lights lights'.
Proof.
  induction leafs as [| leaf leafs IH]; intros visited lights lights'; simpl.
  - intros [= <-]. apply appends_from_refl.
  - destruct (leaf_surface_lights fuel (Z.to_nat (nummarksurfaces leaf)) bsp leaf 0
                templates visited lights) as [[v1 l1] | | | |] eqn:E1; simpl;
      try discriminate.
    intros E2. eapply appends_from_trans;
      [eapply leaf_surface_lights_appends; exact E1 | eapply IH; exact E2].
Qed.

Lemma collect_templates_spec (lights : list Entities.light_t) :
  forall templates,
  Entities.collect_templates lights templates
  = (map SurfaceLightSpec.neutralized lights, templates ++ List.filter SurfaceLightSpec.has_surface lights).
Proof.
  induction lights as [| e lights IH]; intros templates; simpl.
  - rewrite app_nil_r. reflexivity.
  - unfold SurfaceLightSpec.neutralized at 1. unfold SurfaceLightSpec.has_surface at 1 2.
    destruct (negb (String.eqb (Entities.ValueForKey e "_surface") "")).
    + rewrite IH. rewrite <- app_assoc. reflexivity.
    + rewrite IH. reflexivity.
Qed.

(** C8, as the code has it.  After [MakeSurfaceLights] returns, every
    light that was in [all_lights] when it was called and whose dict has a
    non-empty [_surface] value is in place with intensity 0 and otherwise
    unchanged, and a copy with its original fields is in
    [surfacelight_templates]; the other lights that were there are
    unchanged; whatever follows them was appended by the call, is marked
    [generated], and has the dict and the intensity of a template. *)
Theorem MakeSurfaceLights_templates (fuel : nat) (bsp : mbsp_t)
    (all_lights templates0 all_lights' templates : list Entities.light_t) :
  MakeSurfaceLights fuel bsp all_lights templates0 = Ok (all_lights', templates) ->
  (forall i entity,
     all_lights !! i = Some entity ->
     Entities.ValueForKey entity "_surface" <> ""%string ->
     exists entity',
       all_lights' !! i = Some entity'
       /\ Entities.light entity' = 0%Q
       /\ entity' = Entities.set_light 0%Q entity
       /\ In entity templates)
  /\ (forall i entity,
        all_lights !! i = Some entity ->
        Entities.ValueForKey entity "_surface" = ""%string ->
        all_lights' !! i = Some entity)
  /\ (forall i entity',
        (length all_lights <= i)%nat ->
        all_lights' !! i = Some entity' ->
        SurfaceLightSpec.from_templates templates entity').
Proof.
  unfold Entities.MakeSurfaceLights. rewrite collect_templates_spec.
  set (T := templates0 ++ List.filter SurfaceLightSpec.has_surface all_lights).
  intros H.
  assert (Happ : templates = T /\ SurfaceLightSpec.appends_from T (map SurfaceLightSpec.neutralized all_lights) all_lights').
  { destruct (length T =? 0)%nat.
    - injection H as <- <-. split; [reflexivity | apply appends_from_refl].
    - destruct (leafs_surface_lights fuel bsp (dleafs bsp) T ∅ (map SurfaceLightSpec.neutralized all_lights))
        as [l1 | | | |] eqn:E; simpl in H; try discriminate.
      injection H as <- <-. split; [reflexivity |].
      eapply leafs_surface_lights_appends. exact E. }
  destruct Happ as (-> & extra & -> & Hextra).
  split; [| split].
  - intros i entity Hi Hs. exists (Entities.set_light 0%Q entity).
    assert (Hhas : SurfaceLightSpec.has_surface entity = true).
    { unfold SurfaceLightSpec.has_surface. apply negb_true_iff. apply String.eqb_neq. exact Hs. }
    repeat split.
    + apply lookup_app_l_Some. rewrite list_lookup_fmap, Hi. simpl.
      unfold SurfaceLightSpec.neutralized. rewrite Hhas. reflexivity.
    + unfold T. apply in_or_app. right. apply filter_In. split; [| exact Hhas].
      apply list_elem_of_In. eapply list_elem_of_lookup_2. exact Hi.
  - intros i entity Hi Hs.
    apply lookup_app_l_Some. rewrite list_lookup_fmap, Hi. simpl.
    unfold SurfaceLightSpec.neutralized, SurfaceLightSpec.has_surface. rewrite Hs. reflexivity.
  - intros i entity' Hi Hl.
    rewrite lookup_app_r in Hl by (rewrite length_map; exact Hi).
    rewrite Forall_forall in Hextra. apply Hextra.
    eapply list_elem_of_lookup_2. exact Hl.
Qed.

End SurfaceLights.

Lemma lava_floor_lights :
  exists r,
    Entities.MakeSurfaceLights Sample.dome_cfg Sample.atoi0 Sample.atof0
      Sample.strcmp01 Sample.CONTENTS_EMPTY Sample.every_face 2 Sample.lava_floor
      [Sample.lava_template] [] = Ok r.
Proof. apply is_ok_returns. vm_compute. reflexivity. Qed.

Lemma MakeSurfaceLights_templates_witness :
  exists entity',
    Entities.light entity' = 0%Q
    /\ entity' = Entities.set_light 0%Q Sample.lava_template.
Proof.
  destruct lava_floor_lights as [[lights' templates] E].
  destruct (MakeSurfaceLights_templates Sample.dome_cfg Sample.atoi0 Sample.atof0
              Sample.strcmp01 Sample.CONTENTS_EMPTY Sample.every_face 2 Sample.lava_floor
              [Sample.lava_template] [] lights' templates E) as [Hzero _].
  destruct (Hzero 0%nat Sample.lava_template eq_refl) as (entity' & _ & H0 & Heq & _).
  - vm_compute. discriminate.
  - exists entity'. split; assumption.
Defined.

(** The lights that [MakeSurfaceLights] appends share the dict of their
    template, [_surface] value included, and keep its intensity: on the
    lava floor the call leaves two lights with [_surface lava1], the
    template at intensity 0 and the surface light at 300. *)
Lemma MakeSurfaceLights_surface_light_is_lit :
  exists lights' templates entity,
    Entities.MakeSurfaceLights Sample.dome_cfg Sample.atoi0 Sample.atof0
      Sample.strcmp01 Sample.CONTENTS_EMPTY Sample.every_face 2 Sample.lava_floor
      [Sample.lava_template] [] = Ok (lights', templates)
    /\ In entity lights'
    /\ Entities.ValueForKey entity "_surface" = "lava1"%string
    /\ Entities.ValueForKey entity "_surface" <> ""%string
    /\ ~ (Entities.light entity == 0)%Q
    /\ Entities.light entity = 300%Q.
Proof.
  eexists. eexists. eexists.
  split; [vm_compute; reflexivity |].
  split; [right; left; reflexivity |].
  split; [vm_compute; reflexivity |].
  split; [vm_compute; discriminate |].
  split; [vm_compute; discriminate | reflexivity].
Qed.

(** ** light/entities.cc: JitterEntities *)

Lemma jitter_offset_bound (r d x : Q) :
  (0 <= r <= 1)%Q -> (Qabs (x + (r * 2 - 1) * d - x) <= Qabs d)%Q.
Proof.
  intros Hr.
  assert (E : (x + (r * 2 - 1) * d - x == (r * 2 - 1) * d)%Q) by ring.
  rewrite E, Qabs_Qmult.
  assert (H1 : (Qabs (r * 2 - 1) <= 1)%Q) by (apply Qabs_Qle_condition; lra).
  pose proof (Qabs_nonneg d) as H2.
  assert (H3 : (Qabs (r * 2 - 1) * Qabs d <= 1 * Qabs d)%Q).
  { apply Qmult_le_compat_r; assumption. }
  lra.
Qed.

Lemma Forall2_combine_In {A B} (P : A -> B -> Prop) (l1 : list A) (l2 : list B) :
  Forall2 P l1 l2 -> forall a b, In (a, b) (combine l1 l2) -> P a b.
Proof.
  induction 1 as [| x y l1 l2 Hxy _ IH]; intros a b; simpl; [contradiction |].
  intros [Heq | Hin]; [| apply IH; exact Hin].
  injection Heq as -> ->. exact Hxy.
Qed.

Lemma Random3_range (n : nat) : (0 <= Sample.Random3 n <= 1)%Q.
Proof.
  unfold Sample.Random3. destruct (n mod 3)%nat as [| [| k]]; lra.
Qed.

Section Jitter.

Variable Random : nat -> Q.
Hypothesis Random_range : forall n, (0 <= Random n <= 1)%Q.

Local Abbreviation JitterEntity_loop := (Entities.JitterEntity_loop Random).
Local Abbreviation JitterEntity := (Entities.JitterEntity Random).
Local Abbreviation JitterEntities_loop := (Entities.JitterEntities_loop Random).
Local Abbreviation JitterEntities := (Entities.JitterEntities Random).

Lemma JitterEntity_loop_appends (entity : Entities.light_t) (n : nat) :
  forall lights calls,
  exists block,
    JitterEntity_loop n entity lights calls = (lights ++ block, (calls + 3 * n)%nat)
    /\ length block = n
    /\ Forall (JitterSpec.duplicate_of entity) block.
Proof.
  induction n as [| n IH]; intros lights calls; simpl.
  - exists []. rewrite app_nil_r. replace (calls + 0)%nat with calls by lia.
    repeat split. constructor.
  - match goal with
    | |- context [lights ++ [?d]] => set (dup := d)
    end.
    destruct (IH (lights ++ [dup]) (S (S (S calls)))) as (block & -> & Hlen & Hall).
    exists (dup :: block). rewrite <- app_assoc. simpl.
    split; [f_equal; lia |]. split; [congruence |].
    constructor; [| exact Hall].
    unfold JitterSpec.duplicate_of. split; [reflexivity |]. split; [reflexivity |].
    intros i Hi. unfold dup, Entities.DuplicateEntity. simpl.
    destruct i as [| [| [| i]]]; [| | | lia]; simpl;
      apply jitter_offset_bound; apply Random_range.
Qed.

Lemma JitterEntity_appends (entity : Entities.light_t) (lights : list Entities.light_t)
    (calls : nat) :
  exists block calls',
    JitterEntity entity lights calls = (lights ++ block, calls')
    /\ JitterSpec.duplicates_of entity block.
Proof.
  unfold Entities.JitterEntity.
  destruct (JitterEntity_loop_appends entity
              (Z.to_nat (Entities.intValue (Entities.samples entity) - 1)) lights calls)
    as (block & H & Hlen & Hall).
  exists block. eexists. split; [exact H |]. split; assumption.
Qed.

Lemma JitterEntities_loop_appends (orig : list Entities.light_t) (n : nat) :
  forall i acc calls,
  (i + n = length orig)%nat ->
  exists blocks calls',
    JitterEntities_loop n i (orig ++ acc) calls = Ok (orig ++ acc ++ concat blocks, calls')
    /\ Forall2 JitterSpec.duplicates_of (drop i orig) blocks.
Proof.
  induction n as [| n IH]; intros i acc calls Hi; simpl.
  - exists [], calls. simpl. rewrite app_nil_r. split; [reflexivity |].
    rewrite drop_ge by lia. constructor.
  - destruct (lookup_lt_is_Some_2 orig i ltac:(lia)) as [entity Hent].
    rewrite (lookup_app_l_Some _ _ _ _ Hent).
    destruct (JitterEntity_appends entity (orig ++ acc) calls)
      as (block & calls1 & -> & Hblock).
    rewrite <- app_assoc.
    destruct (IH (S i) (acc ++ block) calls1 ltac:(lia)) as (blocks & calls' & -> & Hall).
    exists (block :: blocks), calls'. simpl. rewrite <- app_assoc.
    split; [reflexivity |].
    rewrite (drop_S _ _ _ Hent). constructor; assumption.
Qed.

(** C6.  [JitterEntities] leaves the lights it was given in place and
    unchanged (a light that was not [generated] stays so), and appends,
    for each of them in turn, [samples - 1] duplicates (none when
    [samples <= 1]): copies of that light marked [generated] whose origin
    differs from the light's by at most the deviance, in absolute value,
    along each axis.  The duplicates are not visited: what is appended is
    exactly one block per light of the list as it was. *)
Theorem JitterEntities_duplicates (all_lights : list Entities.light_t) (calls : nat) :
  exists blocks calls',
    JitterEntities all_lights calls = Ok (all_lights ++ concat blocks, calls')
    /\ Forall2 JitterSpec.duplicates_of all_lights blocks
    /\ (forall entity block s,
          In (entity, block) (combine all_lights blocks) ->
          Entities.intValue (Entities.samples entity) = s -> 1 < s ->
          Z.of_nat (length block) = s - 1
          /\ forall dup, In dup block ->
               Entities.generated dup = true
               /\ forall i, (i < 3)%nat -> (0 <= Entities.deviance entity)%Q ->
                    (Qabs (vidx (Entities.origin dup) i - vidx (Entities.origin entity) i)
                     <= Entities.deviance entity)%Q).
Proof.
  unfold Entities.JitterEntities.
  destruct (JitterEntities_loop_appends all_lights (length all_lights) 0 [] calls
              ltac:(lia)) as (blocks & calls' & H & Hall).
  rewrite app_nil_r in H. simpl in H, Hall.
  exists blocks, calls'. split; [exact H |]. split; [exact Hall |].
  intros entity block s Hin Hs Hgt.
  assert (Hdup : JitterSpec.duplicates_of entity block).
  { eapply Forall2_combine_In; [exact Hall | exact Hin]. }
  destruct Hdup as [Hlen Hdups]. split; [rewrite Hlen, Hs; lia |].
  intros dup Hd. rewrite Forall_forall in Hdups.
  destruct (Hdups dup ltac:(apply list_elem_of_In; exact Hd)) as (Hg & _ & Hwithin).
  split; [exact Hg |]. intros i Hi Hpos.
  specialize (Hwithin i Hi). rewrite (Qabs_pos _ Hpos) in Hwithin. exact Hwithin.
Qed.

End Jitter.

Lemma JitterEntities_duplicates_witness :
  exists blocks calls',
    Entities.JitterEntities Sample.Random3 [Sample.jitter_light] 0
    = Ok ([Sample.jitter_light] ++ concat blocks, calls')
    /\ Forall2 JitterSpec.duplicates_of [Sample.jitter_light] blocks.
Proof.
  destruct (JitterEntities_duplicates Sample.Random3 Random3_range [Sample.jitter_light] 0)
    as (blocks & calls' & H & Hall & _).
  exists blocks, calls'. split; assumption.
Defined.

(** Scenario 6 of the spec, run: one light with [_samples 4] becomes four,
    the original not [generated] and the three duplicates [generated]. *)
Example jitter_light_makes_four :
  exists lights calls',
    Entities.JitterEntities Sample.Random3 [Sample.jitter_light] 0 = Ok (lights, calls')
    /\ map Entities.generated lights = [false; true; true; true]
    /\ calls' = 9%nat.
Proof.
  eexists. eexists. split; [vm_compute; reflexivity |]. split; reflexivity.
Qed.

(** ** light/entities.cc: the passes after JitterEntities *)

Lemma for_each_length {A} (f : A -> result A) (l : list A) :
  forall l', Entities.for_each f l = Ok l' -> length l' = length l.
Proof.
  induction l as [| x l IH]; intros l'; simpl.
  - intros [= <-]. reflexivity.
  - destruct (f x) as [y | | | |]; simpl; try discriminate.
    destruct (Entities.for_each f l) as [ys | | | |]; simpl; try discriminate.
    intros [= <-]. simpl. f_equal. apply IH. reflexivity.
Qed.

Lemma for_each_returns {A} (f : A -> result A) (l : list A) :
  (forall x, In x l -> exists y, f x = Ok y) ->
  exists l', Entities.for_each f l = Ok l'.
Proof.
  induction l as [| x l IH]; intros Hf; simpl; [eauto |].
  destruct (Hf x (or_introl eq_refl)) as [y ->]. simpl.
  destruct IH as [ys ->]; [intros z Hz; apply Hf; right; exact Hz |].
  simpl. eauto.
Qed.

Lemma find_target_in_range (entdicts : list (gmap string string)) (t : string) :
  forall i k, Entities.find_target entdicts t i = Some k ->
  exists target, entdicts !! (k - i)%nat = Some target /\ (i <= k)%nat.
Proof.
  induction entdicts as [| e es IH]; intros i k; simpl; [discriminate |].
  destruct (String.eqb t (Entities.EntDict_StringForKey e "targetname")).
  - intros [= <-]. exists e. rewrite Nat.sub_diag. split; [reflexivity | lia].
  - intros H. destruct (IH _ _ H) as (target & Ht & Hle).
    exists target. split; [| lia].
    replace (k - i)%nat with (S (k - S i)) by lia. exact Ht.
Qed.

Section Passes.

Variable cfg : Entities.globals_t.
Variable cosf sinf sqrtf : Q -> Q.
Variable atan2f : Q -> Q -> Q.
Variable VectorNormalize : vec3 -> vec3.
Variable DEG2RAD : Q -> Q.
Variable Q_PI : Q.
Variable Random : nat -> Q.
Variable sscanf_vec3 : string -> vec3.
Variable PLANE_X PLANE_Y PLANE_Z : Z.
Variable CONTENTS_SOLID CONTENTS_SKY : Z.
Variable Light_PointInLeaf : mbsp_t -> vec3 -> option Z.

Local Abbreviation SetupLights_passes :=
  (Entities.SetupLights_passes cfg cosf sinf sqrtf atan2f VectorNormalize DEG2RAD Q_PI
     Random sscanf_vec3 PLANE_X PLANE_Y PLANE_Z CONTENTS_SOLID CONTENTS_SKY
     Light_PointInLeaf).
Local Abbreviation SetupSpotlight :=
  (Entities.SetupSpotlight cosf VectorNormalize Q_PI sscanf_vec3).
Local Abbreviation SetupSpotlights :=
  (Entities.SetupSpotlights cosf VectorNormalize Q_PI sscanf_vec3).
Local Abbreviation SetupSuns :=
  (Entities.SetupSuns cfg cosf sinf sqrtf atan2f VectorNormalize DEG2RAD Random).
Local Abbreviation SetupSun :=
  (Entities.SetupSun cfg cosf sinf sqrtf atan2f VectorNormalize DEG2RAD Random).
Local Abbreviation SetupSun_samples :=
  (Entities.SetupSun_samples cfg cosf sinf sqrtf atan2f VectorNormalize DEG2RAD Random).
Local Abbreviation jitter_angles := (Entities.jitter_angles cfg DEG2RAD Random).
Local Abbreviation SetupSkyDome :=
  (Entities.SetupSkyDome cfg cosf sinf VectorNormalize DEG2RAD).
Local Abbreviation FixLightsOnFaces :=
  (Entities.FixLightsOnFaces PLANE_X PLANE_Y PLANE_Z CONTENTS_SOLID CONTENTS_SKY).
Local Abbreviation FixLightOnFace :=
  (Entities.FixLightOnFace PLANE_X PLANE_Y PLANE_Z CONTENTS_SOLID CONTENTS_SKY).
Local Abbreviation FixLightOnFace_nudges :=
  (Entities.FixLightOnFace_nudges PLANE_X PLANE_Y PLANE_Z CONTENTS_SOLID CONTENTS_SKY).
Local Abbreviation Light_PointInSolid :=
  (Entities.Light_PointInSolid PLANE_X PLANE_Y PLANE_Z CONTENTS_SOLID CONTENTS_SKY).
Local Abbreviation Light_PointInSolid_r :=
  (Entities.Light_PointInSolid_r PLANE_X PLANE_Y PLANE_Z CONTENTS_SOLID CONTENTS_SKY).

(** *** The passes return *)

Lemma MatchTarget_targetent (entdicts : list (gmap string string))
    (entity : Entities.light_t) :
  Entities.targetent entity = None ->
  match Entities.targetent (Entities.MatchTarget entdicts entity) with
  | Some i => is_Some (entdicts !! i)
  | None => True
  end.
Proof.
  intros Hnone. unfold Entities.MatchTarget.
  destruct (String.length _ =? 0)%nat; [rewrite Hnone; exact I |].
  destruct (Entities.find_target entdicts _ 0) as [k |] eqn:E; [| rewrite Hnone; exact I].
  simpl. destruct (find_target_in_range _ _ _ _ E) as (target & Ht & _).
  rewrite Nat.sub_0_r in Ht. rewrite Ht. eauto.
Qed.

Lemma SetupSpotlight_returns (entdicts : list (gmap string string))
    (entity : Entities.light_t) :
  match Entities.targetent entity with
  | Some i => is_Some (entdicts !! i)
  | None => True
  end ->
  exists entity', SetupSpotlight entdicts entity = Ok entity'.
Proof.
  intros Ht. unfold Entities.SetupSpotlight.
  destruct (Entities.targetent entity) as [i |].
  - destruct Ht as [target ->]. simpl. eauto.
  - simpl. destruct (Entities.spotlight entity); eauto.
Qed.

Hypothesis Random_range : forall n, (0 <= Random n <= 1)%Q.
Hypothesis DEG2RAD_small : forall a, (2 * (DEG2RAD a * DEG2RAD a) <= a * a)%Q.

(** The rejection loop of [SetupSun] accepts its first draw: the test
    compares radians with degrees. *)
Lemma jitter_angles_first_draw (fuel calls : nat) :
  exists da de, jitter_angles (S fuel) calls = Ok (da, de, S (S calls)).
Proof.
  simpl.
  set (D := DEG2RAD (Entities.sun_deviance cfg)).
  set (a := (Random calls * 2 - 1)%Q). set (b := (Random (S calls) * 2 - 1)%Q).
  assert (Ha : (a * a <= 1)%Q).
  { pose proof (Random_range calls). unfold a. nra. }
  assert (Hb : (b * b <= 1)%Q).
  { pose proof (Random_range (S calls)). unfold b. nra. }
  pose proof (DEG2RAD_small (Entities.sun_deviance cfg)) as HD. fold D in HD.
  assert (Hle : (a * D * (a * D) + b * D * (b * D)
                 <= Entities.sun_deviance cfg * Entities.sun_deviance cfg)%Q).
  { assert (H0 : (0 <= D * D)%Q) by nra. nra. }
  apply Qltb_ge in Hle. rewrite Hle. eauto.
Qed.

Lemma SetupSun_samples_returns (fuel n : nat) :
  forall i light color sunvec suns calls,
  exists suns' calls',
    SetupSun_samples (S fuel) n i light color sunvec suns calls = Ok (suns', calls').
Proof.
  induction n as [| n IH]; intros i light color sunvec suns calls; simpl; [eauto |].
  destruct (i =? 0); simpl; [apply IH |].
  destruct (jitter_angles_first_draw fuel calls) as (da & de & H).
  simpl in H. rewrite H. simpl. apply IH.
Qed.

Lemma SetupSuns_returns (fuel : nat) (suns : list Entities.sun_t) (calls : nat) :
  exists suns' calls', SetupSuns (S fuel) suns calls = Ok (suns', calls').
Proof.
  unfold Entities.SetupSuns, Entities.SetupSun.
  destruct (SetupSun_samples_returns fuel
              (Z.to_nat (if Qeq_bool (Entities.sun_deviance cfg) 0 then 1
                         else Entities.sunsamples cfg)) 0
              (Entities.sunlight cfg
               / inject_Z (if Qeq_bool (Entities.sun_deviance cfg) 0 then 1
                           else Entities.sunsamples cfg))%Q
              (Entities.sunlight_color cfg) (VectorNormalize (Entities.sunvec cfg))
              suns calls) as (s1 & c1 & ->).
  simpl. destruct (negb _); [apply SetupSun_samples_returns | eauto].
Qed.

Lemma SetupSkyDome_returns (suns : list Entities.sun_t) :
  -2 <= Entities.sunsamples cfg ->
  exists suns', SetupSkyDome suns = Ok suns'.
Proof.
  intros Hs. unfold Entities.SetupSkyDome, Entities.skydome_iterations.
  assert (E : (Z.quot (Entities.sunsamples cfg - 1) 4 <? 0) = false).
  { apply Z.ltb_ge.
    destruct (Z.le_gt_cases 1 (Entities.sunsamples cfg)) as [H | H].
    - apply Z.quot_pos; lia.
    - assert (Hq : Z.quot (Entities.sunsamples cfg - 1) 4 = 0); [| lia].
      apply Z.quot_small_iff; lia. }
  rewrite E. simpl. destruct (_ && _); eauto.
Qed.

Lemma Light_PointInSolid_r_returns (bsp : mbsp_t) (p : vec3) :
  forall (t : bsptree) (n : Z), represents bsp n t ->
  forall fuel : nat, (depth t <= fuel)%nat ->
  exists b, Light_PointInSolid_r fuel bsp n p = Ok b.
Proof.
  intros t n Hrep.
  induction Hrep as [n leaf Hn Hleaf | n node plane tf tb Hn Hnode Hplane _ IHf _ IHb];
    intros fuel Hfuel; (destruct fuel as [| fuel]; [simpl in Hfuel; lia |]); simpl.
  - apply Z.ltb_lt in Hn. rewrite Hn. unfold unchecked. rewrite Hleaf. simpl. eauto.
  - assert (E : (n <? 0) = false) by (apply Z.ltb_ge; exact Hn).
    rewrite E. unfold unchecked. rewrite Hnode. simpl. rewrite Hplane. simpl.
    simpl in Hfuel.
    destruct (IHf fuel ltac:(lia)) as (bf & Hf).
    destruct (IHb fuel ltac:(lia)) as (bb & Hb).
    destruct (Qltb _ _); [eauto |]. destruct (Qltb _ _); [eauto |].
    rewrite Hf. simpl. destruct bf; eauto.
Qed.

Section World.

Variable bsp : mbsp_t.
Variable world : dmodelh2_t.
Variable tree : bsptree.
Variable fuel : nat.
Hypothesis world_model : nthZ (dmodels bsp) 0 = Some world.
Hypothesis world_tree : represents bsp (headnode_0 world) tree.
Hypothesis enough_fuel : (depth tree <= fuel)%nat.

Lemma Light_PointInSolid_returns (p : vec3) :
  exists b, Light_PointInSolid fuel bsp p = Ok b.
Proof.
  unfold Entities.Light_PointInSolid, unchecked. rewrite world_model. simpl.
  eapply Light_PointInSolid_r_returns; eassumption.
Qed.

Lemma FixLightOnFace_nudges_returns (p : vec3) (tries : list Z) :
  exists q, FixLightOnFace_nudges fuel bsp p tries = Ok q.
Proof.
  induction tries as [| i tries IH]; simpl; [eauto |].
  match goal with
  | |- context [Light_PointInSolid fuel bsp ?tp] =>
      destruct (Light_PointInSolid_returns tp) as [b ->]
  end.
  simpl. destruct b; simpl; eauto.
Qed.

Lemma FixLightOnFace_returns (p : vec3) :
  exists q, FixLightOnFace fuel bsp p = Ok q.
Proof.
  unfold Entities.FixLightOnFace.
  destruct (Light_PointInSolid_returns p) as [b ->]. cbn [bind].
  destruct b; cbn [negb]; [apply FixLightOnFace_nudges_returns | eauto].
Qed.

Lemma FixLightsOnFaces_returns (lights : list Entities.light_t) :
  exists lights', FixLightsOnFaces fuel bsp lights = Ok lights'.
Proof.
  unfold Entities.FixLightsOnFaces. apply for_each_returns.
  intros entity _. destruct (negb _); [| eauto].
  destruct (FixLightOnFace_returns (Entities.origin entity)) as [q ->].
  cbn [bind]. eauto.
Qed.

End World.

(** C7.  The passes that follow [JitterEntities] ([MatchTargets],
    [SetupSpotlights], [SetupSuns], [SetupSkyDome], [FixLightsOnFaces],
    [SetupLightLeafnums]) leave [all_lights] with the size it had: when
    they return, the list has as many lights as before, so the assertion
    that closes [SetupLights] holds.  And they do return: on a world model
    whose BSP is a tree, with fuel for its depth, lights whose [targetent]
    is still null, [sunsamples] from -2 up, [Random] within 0 and 1 and a
    [DEG2RAD] that scales down by a factor of the square root of 2 or
    more. *)
Theorem SetupLights_passes_keep_size (fuel : nat) (bsp : mbsp_t)
    (entdicts : list (gmap string string)) (all_lights : list Entities.light_t)
    (all_suns : list Entities.sun_t) (calls : nat) :
  (forall all_lights' all_suns' calls',
     SetupLights_passes fuel bsp entdicts all_lights all_suns calls
     = Ok (all_lights', all_suns', calls') ->
     length all_lights' = length all_lights
     /\ Entities.c_assert (length all_lights =? length all_lights')%nat = Ok tt)
  /\ (forall world tree,
        nthZ (dmodels bsp) 0 = Some world ->
        represents bsp (headnode_0 world) tree ->
        (depth tree <= fuel)%nat ->
        Forall (fun entity => Entities.targetent entity = None) all_lights ->
        -2 <= Entities.sunsamples cfg ->
        exists all_lights' all_suns' calls',
          SetupLights_passes fuel bsp entdicts all_lights all_suns calls
          = Ok (all_lights', all_suns', calls')).
Proof.
  split.
  - intros lights' suns' calls'. unfold Entities.SetupLights_passes.
    destruct (SetupSpotlights entdicts (Entities.MatchTargets entdicts all_lights))
      as [l1 | | | |] eqn:E1; simpl; try discriminate.
    destruct (SetupSuns fuel all_suns calls) as [[s1 c1] | | | |]; simpl; try discriminate.
    destruct (SetupSkyDome s1) as [s2 | | | |]; simpl; try discriminate.
    destruct (FixLightsOnFaces fuel bsp l1) as [l2 | | | |] eqn:E2; simpl; try discriminate.
    intros [= <- <- <-].
    assert (Hlen : length (Entities.SetupLightLeafnums Light_PointInLeaf bsp l2)
                   = length all_lights).
    { unfold Entities.SetupLightLeafnums. rewrite length_map.
      unfold Entities.FixLightsOnFaces in E2. rewrite (for_each_length _ _ _ E2).
      unfold Entities.SetupSpotlights in E1. rewrite (for_each_length _ _ _ E1).
      unfold Entities.MatchTargets. apply length_map. }
    split; [exact Hlen |]. rewrite Hlen, Nat.eqb_refl. reflexivity.
  - intros world tree Hworld Htree Hfuel Hnull Hsamples.
    unfold Entities.SetupLights_passes.
    destruct (for_each_returns (SetupSpotlight entdicts)
                (Entities.MatchTargets entdicts all_lights)) as [l1 E1].
    { intros x Hx. apply SetupSpotlight_returns.
      unfold Entities.MatchTargets in Hx. apply in_map_iff in Hx.
      destruct Hx as (entity & <- & Hin). apply MatchTarget_targetent.
      rewrite Forall_forall in Hnull. apply Hnull. apply list_elem_of_In. exact Hin. }
    unfold Entities.SetupSpotlights. rewrite E1. simpl.
    destruct fuel as [| fuel']; [destruct tree; simpl in Hfuel; lia |].
    destruct (SetupSuns_returns fuel' all_suns calls) as (s1 & c1 & ->). simpl.
    destruct (SetupSkyDome_returns s1 Hsamples) as (s2 & ->). simpl.
    destruct (FixLightsOnFaces_returns bsp world tree (S fuel') Hworld Htree Hfuel l1)
      as (l2 & ->).
    simpl. eauto.
Qed.

End Passes.

Lemma DEG2RAD_sample_small (a : Q) :
  (2 * (Sample.DEG2RAD a * Sample.DEG2RAD a) <= a * a)%Q.
Proof.
  unfold Sample.DEG2RAD.
  assert (E : (a * (355 # 113) / 180 == a * (355 # 20340))%Q) by (field).
  rewrite E. assert (H : (0 <= a * a)%Q) by nra. nra.
Qed.

Lemma SetupLights_passes_keep_size_witness :
  exists all_lights' all_suns' calls',
    Entities.SetupLights_passes Sample.dome_cfg Sample.zero_fn Sample.zero_fn
      Sample.zero_fn Sample.zero_fn2 Sample.keep_vec Sample.DEG2RAD (355 # 113)
      Sample.Random3 Sample.no_sscanf Sample.PLANE_X Sample.PLANE_Y Sample.PLANE_Z
      Sample.CONTENTS_SOLID Sample.CONTENTS_SKY Sample.no_leaf
      2 Sample.half_space Sample.aim_map [Sample.aimed_light; Sample.jitter_light] [] 0
    = Ok (all_lights', all_suns', calls')
    /\ length all_lights' = 2%nat.
Proof.
  destruct (SetupLights_passes_keep_size Sample.dome_cfg Sample.zero_fn Sample.zero_fn
              Sample.zero_fn Sample.zero_fn2 Sample.keep_vec Sample.DEG2RAD (355 # 113)
              Sample.Random3 Sample.no_sscanf Sample.PLANE_X Sample.PLANE_Y Sample.PLANE_Z
              Sample.CONTENTS_SOLID Sample.CONTENTS_SKY Sample.no_leaf
              Random3_range DEG2RAD_sample_small
              2 Sample.half_space Sample.aim_map
              [Sample.aimed_light; Sample.jitter_light] [] 0) as [Hsize Hreturns].
  destruct (Hreturns Sample.half_space_model Sample.half_space_tree eq_refl
              half_space_represents) as (l' & s' & c' & E).
  - simpl. lia.
  - repeat constructor.
  - vm_compute. discriminate.
  - exists l', s', c'. split; [exact E |]. apply (Hsize l' s' c' E).
Defined.

(** ** light/entities.cc: EntData_Write and EntData_Parse *)

Lemma string_forall_app (P : ascii -> bool) (a b : string) :
  RoundTripSpec.string_forall P (a +:+ b)
  = RoundTripSpec.string_forall P a && RoundTripSpec.string_forall P b.
Proof.
  induction a as [| c a IH]; simpl; [reflexivity |].
  rewrite IH. apply andb_assoc.
Qed.

Lemma string_forall_impl (P R : ascii -> bool) (s : string) :
  (forall c, P c = true -> R c = true) ->
  RoundTripSpec.string_forall P s = true -> RoundTripSpec.string_forall R s = true.
Proof.
  intros HPR. induction s as [| c s IH]; simpl; [reflexivity |].
  rewrite !andb_true_iff. intros [Hc Hs]. split; [apply HPR; exact Hc | apply IH; exact Hs].
Qed.

Lemma plain_not_nul (s : string) :
  RoundTripSpec.plain s = true -> RoundTripSpec.string_forall RoundTripSpec.not_nul s = true.
Proof.
  apply string_forall_impl. intros c. unfold RoundTripSpec.plain_char, RoundTripSpec.not_nul.
  rewrite !andb_true_iff. tauto.
Qed.

Lemma plain_not_quote (s : string) :
  RoundTripSpec.plain s = true -> RoundTripSpec.string_forall RoundTripSpec.not_quote s = true.
Proof.
  apply string_forall_impl. intros c. unfold RoundTripSpec.plain_char, RoundTripSpec.not_quote.
  rewrite !andb_true_iff. tauto.
Qed.

Lemma c_str_id (s : string) :
  RoundTripSpec.string_forall RoundTripSpec.not_nul s = true -> Entities.c_str s = s.
Proof.
  induction s as [| c s IH]; simpl; [reflexivity |].
  rewrite andb_true_iff. unfold RoundTripSpec.not_nul at 1. rewrite negb_true_iff.
  intros [Hc Hs]. rewrite Hc, IH by exact Hs. reflexivity.
Qed.

Lemma read_quoted_app (k rest : string) :
  RoundTripSpec.string_forall RoundTripSpec.not_quote k = true ->
  Entities.read_quoted (k +:+ String Entities.DQUOTE rest) = (k, rest).
Proof.
  induction k as [| c k IH]; simpl; [reflexivity |].
  rewrite andb_true_iff. unfold RoundTripSpec.not_quote at 1. rewrite negb_true_iff.
  intros [Hc Hk]. rewrite Hc, IH by exact Hk. reflexivity.
Qed.

Lemma length_append (a b : string) :
  String.length (a +:+ b) = (String.length a + String.length b)%nat.
Proof. induction a as [| c a IH]; simpl; [reflexivity | rewrite IH; reflexivity]. Qed.

Lemma append_cons (x : ascii) (a b : string) : String x a +:+ b = String x (a +:+ b).
Proof. reflexivity. Qed.

Lemma append_nil (b : string) : EmptyString +:+ b = b.
Proof. reflexivity. Qed.

Lemma append_assoc (a b c : string) : (a +:+ b) +:+ c = a +:+ (b +:+ c).
Proof.
  induction a as [| x a IH]; [reflexivity |].
  rewrite !append_cons, IH. reflexivity.
Qed.

(** The tokens of a written pair. *)

Lemma COM_Parse_quoted (k rest : string) :
  RoundTripSpec.string_forall RoundTripSpec.not_quote k = true ->
  Entities.COM_Parse (String Entities.DQUOTE (k +:+ String Entities.DQUOTE rest))
  = Some (k, rest).
Proof.
  intros Hk. unfold Entities.COM_Parse. simpl.
  rewrite read_quoted_app by exact Hk. reflexivity.
Qed.

Lemma COM_Parse_skip (c : ascii) (s : string) :
  Entities.is_space c = true ->
  Entities.COM_Parse (String c s) = Entities.COM_Parse s.
Proof. intros Hc. unfold Entities.COM_Parse. simpl. rewrite Hc. reflexivity. Qed.

Lemma plain_not_closing_brace (k : string) :
  RoundTripSpec.plain k = true -> String.eqb k (Entities.str1 Entities.RBRACE) = false.
Proof.
  intros Hk. apply String.eqb_neq. intros ->. vm_compute in Hk. discriminate.
Qed.

Lemma plain_first_char (v : string) :
  RoundTripSpec.plain v = true -> Entities.first_char_is Entities.RBRACE v = false.
Proof.
  destruct v as [| c v]; [intros _; reflexivity |].
  unfold RoundTripSpec.plain. simpl.
  unfold RoundTripSpec.plain_char. rewrite !andb_true_iff, !negb_true_iff. tauto.
Qed.

Lemma parse_epairs_written (ps : list (string * string)) :
  Forall RoundTripSpec.readable ps ->
  forall (rest : string) (entity : gmap string string) (fuel : nat),
  (String.length (Entities.write_epairs ps) < fuel)%nat ->
  Entities.parse_epairs fuel
    (String Entities.LF
       (Entities.write_epairs ps +:+ String Entities.RBRACE (String Entities.LF rest)))
    entity
  = Ok (fold_left RoundTripSpec.put ps entity, String Entities.LF rest).
Proof.
  induction 1 as [| [k v] ps (Hk & Hv & Hlk & Hlv) _ IH]; intros rest entity fuel Hfuel.
  - destruct fuel as [| fuel]; [simpl in Hfuel; lia |]. reflexivity.
  - destruct fuel as [| fuel]; [simpl in Hfuel; lia |].
    simpl in Hk, Hv, Hlk, Hlv.
    cbn [Entities.parse_epairs].
    rewrite COM_Parse_skip by reflexivity.
    cbn [Entities.write_epairs]. unfold Entities.write_epair. cbn [fst snd].
    unfold Entities.str1.
    rewrite ?append_assoc, ?append_cons, ?append_nil.
    rewrite (COM_Parse_quoted k) by (apply plain_not_quote; exact Hk).
    pose proof (plain_not_closing_brace k Hk) as E0.
    unfold Entities.str1 in E0. rewrite E0.
    assert (E1 : (Entities.MAX_ENT_KEY - 1 <? Entities.slen k) = false).
    { apply Z.ltb_ge. unfold Entities.MAX_ENT_KEY. lia. }
    rewrite E1.
    rewrite COM_Parse_skip by reflexivity.
    rewrite (COM_Parse_quoted v) by (apply plain_not_quote; exact Hv).
    rewrite (plain_first_char v Hv).
    assert (E2 : (Entities.MAX_ENT_VALUE - 1 <? Entities.slen v) = false).
    { apply Z.ltb_ge. unfold Entities.MAX_ENT_VALUE. lia. }
    rewrite E2.
    apply IH.
    cbn [Entities.write_epairs] in Hfuel. rewrite length_append in Hfuel.
    unfold Entities.write_epair, Entities.str1 in Hfuel.
    rewrite append_cons in Hfuel. cbn [String.length] in Hfuel. lia.
Qed.

Lemma parse_entities_skip (fuel : nat) (c : ascii) (s : string)
    (acc : list (gmap string string)) :
  Entities.is_space c = true ->
  Entities.parse_entities fuel (String c s) acc = Entities.parse_entities fuel s acc.
Proof.
  intros Hc. destruct fuel as [| fuel]; [reflexivity |].
  cbn [Entities.parse_entities]. rewrite COM_Parse_skip by exact Hc. reflexivity.
Qed.

(** Reading the pairs of a dict in key order rebuilds the dict. *)
Lemma fold_left_put_rev (ps : list (string * string)) (m : gmap string string) :
  fold_left RoundTripSpec.put ps m = fold_right (fun p acc => <[fst p := snd p]> acc) m (rev ps).
Proof.
  revert m. induction ps as [| p ps IH]; intros m; simpl; [reflexivity |].
  rewrite IH, fold_right_app. reflexivity.
Qed.

Lemma list_to_map_fold_right (l : list (string * string)) :
  (list_to_map l : gmap string string)
  = fold_right (fun p acc => <[fst p := snd p]> acc) ∅ l.
Proof. induction l as [| [k v] l IH]; simpl; [reflexivity | rewrite <- IH; reflexivity]. Qed.

Lemma epairs_of_rebuild (ent : gmap string string) :
  fold_left RoundTripSpec.put (Entities.epairs_of ent) ∅ = ent.
Proof.
  rewrite fold_left_put_rev, <- list_to_map_fold_right.
  rewrite <- (list_to_map_to_list ent) at 2.
  assert (Hperm : rev (Entities.epairs_of ent) ≡ₚ map_to_list ent).
  { rewrite <- Permutation_rev. unfold Entities.epairs_of.
    apply merge_sort_Permutation. }
  apply list_to_map_proper.
  - rewrite Hperm. apply NoDup_fst_map_to_list.
  - exact Hperm.
Qed.

Lemma epairs_of_readable (ent : gmap string string) :
  RoundTripSpec.plain_dict ent -> RoundTripSpec.short_dict ent ->
  Forall RoundTripSpec.readable (Entities.epairs_of ent).
Proof.
  intros Hp Hs. unfold Entities.epairs_of. rewrite merge_sort_Permutation.
  apply Forall_forall. intros [k v] Hin. apply elem_of_map_to_list in Hin.
  destruct (Hp k v Hin) as [Hk Hv]. destruct (Hs k v Hin) as [Hlk Hlv].
  repeat split; assumption.
Qed.

Lemma write_epairs_not_nul (ps : list (string * string)) :
  Forall RoundTripSpec.readable ps ->
  RoundTripSpec.string_forall RoundTripSpec.not_nul (Entities.write_epairs ps) = true.
Proof.
  induction 1 as [| [k v] ps (Hk & Hv & _) _ IH]; simpl; [reflexivity |].
  unfold Entities.write_epair, Entities.str1. simpl in *.
  rewrite !string_forall_app. simpl.
  rewrite (plain_not_nul k Hk), (plain_not_nul v Hv), IH. reflexivity.
Qed.

Lemma EntData_Write_not_nul (es : list (gmap string string)) :
  Forall RoundTripSpec.plain_dict es -> Forall RoundTripSpec.short_dict es ->
  RoundTripSpec.string_forall RoundTripSpec.not_nul (Entities.EntData_Write es) = true.
Proof.
  intros Hp. induction Hp as [| ent es Hent _ IH]; intros Hs; simpl; [reflexivity |].
  apply Forall_cons in Hs. destruct Hs as [Hsent Hs].
  unfold Entities.write_ent, Entities.str1.
  rewrite !string_forall_app. simpl.
  rewrite (write_epairs_not_nul _ (epairs_of_readable ent Hent Hsent)), (IH Hs).
  reflexivity.
Qed.

Lemma parse_entities_written (es : list (gmap string string)) :
  Forall RoundTripSpec.plain_dict es -> Forall RoundTripSpec.short_dict es ->
  forall (acc : list (gmap string string)) (fuel : nat),
  (String.length (Entities.EntData_Write es) < fuel)%nat ->
  Entities.parse_entities fuel (Entities.EntData_Write es) acc = Ok (acc ++ es).
Proof.
  intros Hp. induction Hp as [| ent es Hent _ IH]; intros Hs acc fuel Hfuel.
  - destruct fuel as [| fuel]; [simpl in Hfuel; lia |].
    simpl. rewrite app_nil_r. reflexivity.
  - apply Forall_cons in Hs. destruct Hs as [Hsent Hs].
    destruct fuel as [| fuel]; [simpl in Hfuel; lia |].
    cbn [Entities.EntData_Write] in *. unfold Entities.write_ent, Entities.str1 in *.
    rewrite ?append_assoc, ?append_cons, ?append_nil in *.
    cbn [String.length] in Hfuel. rewrite length_append in Hfuel.
    cbn [String.length] in Hfuel.
    cbn [Entities.parse_entities].
    change (Entities.COM_Parse (String Entities.LBRACE ?s))
      with (Some (Entities.str1 Entities.LBRACE, s)).
    cbn [Entities.first_char_is Entities.str1 negb].
    change (Ascii.eqb Entities.LBRACE Entities.LBRACE) with true. cbn [negb].
    rewrite (parse_epairs_written _ (epairs_of_readable ent Hent Hsent)) by lia.
    cbn [bind]. rewrite parse_entities_skip by reflexivity.
    rewrite epairs_of_rebuild. rewrite IH by (assumption || lia).
    rewrite <- app_assoc. reflexivity.
Qed.

(** C5, as the code has it.  Writing a list of dicts and parsing the
    result gives the list back when every key and value is free of
    backslash, double quote, [{] and [}] (and of NUL, as C strings are)
    and, in addition, every key has at most 31 characters and every value
    at most 1023. *)
Theorem EntData_round_trip (es : list (gmap string string)) :
  Forall RoundTripSpec.plain_dict es ->
  Forall RoundTripSpec.short_dict es ->
  Entities.EntData_Parse (Entities.EntData_Write es) = Ok es.
Proof.
  intros Hp Hs. unfold Entities.EntData_Parse.
  rewrite (c_str_id _ (EntData_Write_not_nul es Hp Hs)).
  apply (parse_entities_written es Hp Hs []). lia.
Qed.

(** A property of every pair of a dict, checked by running over them. *)
Lemma map_Forall_checked (P : string -> string -> Prop) (b : string -> string -> bool)
    (m : gmap string string) :
  (forall k v, b k v = true -> P k v) ->
  forallb (fun p => b (fst p) (snd p)) (map_to_list m) = true ->
  map_Forall P m.
Proof.
  intros Hb Hall k v Hkv. apply Hb.
  rewrite forallb_forall in Hall.
  apply (Hall (k, v)). apply list_elem_of_In, elem_of_map_to_list. exact Hkv.
Qed.

Lemma plain_dict_checked (m : gmap string string) :
  forallb (fun p => RoundTripSpec.plain (fst p) && RoundTripSpec.plain (snd p))
          (map_to_list m) = true ->
  RoundTripSpec.plain_dict m.
Proof.
  apply (map_Forall_checked _ (fun k v => RoundTripSpec.plain k && RoundTripSpec.plain v)).
  intros k v H. apply andb_true_iff in H. exact H.
Qed.

Lemma short_dict_checked (m : gmap string string) :
  forallb (fun p => (Entities.slen (fst p) <=? 31) && (Entities.slen (snd p) <=? 1023))
          (map_to_list m) = true ->
  RoundTripSpec.short_dict m.
Proof.
  apply (map_Forall_checked _ (fun k v => (Entities.slen k <=? 31)
                                           && (Entities.slen v <=? 1023))).
  intros k v H. apply andb_true_iff in H. rewrite !Z.leb_le in H. exact H.
Qed.

Lemma button_map_plain : Forall RoundTripSpec.plain_dict Sample.button_map.
Proof.
  unfold Sample.button_map.
  repeat (apply Forall_cons; split); try apply List.Forall_nil;
    apply plain_dict_checked; vm_compute; reflexivity.
Qed.

Lemma button_map_short : Forall RoundTripSpec.short_dict Sample.button_map.
Proof.
  unfold Sample.button_map.
  repeat (apply Forall_cons; split); try apply List.Forall_nil;
    apply short_dict_checked; vm_compute; reflexivity.
Qed.

Lemma EntData_round_trip_witness :
  Entities.EntData_Parse (Entities.EntData_Write Sample.button_map) = Ok Sample.button_map.
Proof.
  apply (EntData_round_trip Sample.button_map button_map_plain button_map_short).
Defined.

(** A key of 32 plain characters is written, and refused when read. *)
Lemma EntData_long_key_not_read_back :
  Forall RoundTripSpec.plain_dict [Sample.long_key_dict]
  /\ Entities.EntData_Parse (Entities.EntData_Write [Sample.long_key_dict])
     = Fatal "EntData_Parse: Key length > 31"
  /\ Entities.EntData_Parse (Entities.EntData_Write [Sample.long_key_dict])
     <> Ok [Sample.long_key_dict].
Proof.
  split; [| split].
  - apply Forall_cons; split; [| apply List.Forall_nil].
    apply plain_dict_checked. vm_compute. reflexivity.
  - vm_compute. reflexivity.
  - intros H.
    assert (E : Entities.EntData_Parse (Entities.EntData_Write [Sample.long_key_dict])
                = Fatal "EntData_Parse: Key length > 31") by (vm_compute; reflexivity).
    rewrite E in H. discriminate H.
Qed.

(** Scenario 1 of the spec, written out and loaded. *)
Lemma button_map_written_parses :
  Entities.EntData_Parse (Entities.EntData_Write Sample.button_map) = Ok Sample.button_map.
Proof.
  unfold Entities.EntData_Parse.
  rewrite (c_str_id _ (EntData_Write_not_nul _ button_map_plain button_map_short)).
  apply (parse_entities_written _ button_map_plain button_map_short []). lia.
Qed.

Lemma button_map_loads :
  exists r,
    Entities.LoadEntities Sample.no_stof (Entities.EntData_Write Sample.button_map) = Ok r.
Proof. apply is_ok_returns. vm_compute. reflexivity. Qed.

Lemma button_light_switchable (o : string) :
  StyleSpec.switchable (Sample.button_light o) "button1".
Proof.
  unfold StyleSpec.switchable.
  repeat split; try discriminate; vm_compute; reflexivity.
Qed.

Lemma LoadEntities_switchable_styles_witness :
  exists (e1' e2' : gmap string string) (style : Z),
    e1' !! "style"%string = Some (Entities.to_string style)
    /\ e2' !! "style"%string = Some (Entities.to_string style)
    /\ 32 <= style <= 63.
Proof.
  destruct (LoadEntities_switchable_styles Sample.no_stof
              (Entities.EntData_Write Sample.button_map) Sample.button_map
              button_map_written_parses) as [Hsame _].
  destruct button_map_loads as [[es' names] E].
  destruct (Hsame es' names E 1%nat 2%nat
              (Sample.button_light "0 0 0") (Sample.button_light "8 0 0") "button1"%string
              eq_refl eq_refl (button_light_switchable _) (button_light_switchable _))
    as (e1' & e2' & style & _ & _ & H1 & H2 & Hr).
  exists e1', e2', style. auto.
Defined.

(** ** light/entities.cc: ParseEscapeSequences *)

Lemma ParseEscapeSequences_from_app (bold : bool) (s t : string) :
  EscapeSpec.no_backslash s = true ->
  Entities.ParseEscapeSequences_from bold (s +:+ t)
  = (if bold then EscapeSpec.bold_text s else s)
    +:+ Entities.ParseEscapeSequences_from bold t.
Proof.
  unfold EscapeSpec.no_backslash.
  induction s as [| c s IH]; intros Hs.
  - destruct bold; reflexivity.
  - simpl in Hs. apply andb_true_iff in Hs. destruct Hs as [Hc Hs].
    unfold EscapeSpec.not_backslash in Hc. apply negb_true_iff in Hc.
    rewrite append_cons. cbn [Entities.ParseEscapeSequences_from].
    rewrite Hc, (IH Hs). destruct bold; reflexivity.
Qed.

Lemma ParseEscapeSequences_from_cons (bold : bool) (c : ascii) (rest : string) :
  Entities.ParseEscapeSequences_from bold (String c rest)
  = if Ascii.eqb c Entities.BACKSLASH then
      match rest with
      | String c2 rest2 =>
        if Ascii.eqb c2 "b"%char
        then Entities.ParseEscapeSequences_from (negb bold) rest2
        else String (if bold then Entities.set_high_bit c else c)
                    (Entities.ParseEscapeSequences_from bold rest)
      | EmptyString =>
        String (if bold then Entities.set_high_bit c else c)
               (Entities.ParseEscapeSequences_from bold rest)
      end
    else String (if bold then Entities.set_high_bit c else c)
                (Entities.ParseEscapeSequences_from bold rest).
Proof. reflexivity. Qed.

Lemma ParseEscapeSequences_from_length (s : string) :
  (forall bold,
     (String.length (Entities.ParseEscapeSequences_from bold s) <= String.length s)%nat)
  /\ (forall c bold,
        (String.length (Entities.ParseEscapeSequences_from bold (String c s))
         <= S (String.length s))%nat).
Proof.
  induction s as [| c2 s [IH1 IH2]].
  - split; [intros bold; simpl; lia |].
    intros c bold. rewrite ParseEscapeSequences_from_cons.
    destruct (Ascii.eqb c Entities.BACKSLASH); simpl; lia.
  - split; [intros bold; apply IH2 |].
    intros c bold. rewrite ParseEscapeSequences_from_cons.
    specialize (IH1 (negb bold)). specialize (IH2 c2 bold).
    destruct (Ascii.eqb c Entities.BACKSLASH); [destruct (Ascii.eqb c2 "b"%char) |];
      cbn [String.length] in *; lia.
Qed.

(** X1. [ParseEscapeSequences] leaves a string without backslash as it
    is; a stretch without backslash between two [\b] comes out with the
    high bit of every character set, the two [\b] are dropped and the rest
    is decoded as on its own; and the result is never longer than the
    input. *)
Theorem ParseEscapeSequences_bold (s t : string) :
  EscapeSpec.no_backslash s = true ->
  Entities.ParseEscapeSequences s = s
  /\ Entities.ParseEscapeSequences (EscapeSpec.toggle (s +:+ EscapeSpec.toggle t))
     = EscapeSpec.bold_text s +:+ Entities.ParseEscapeSequences t
  /\ (forall u, (String.length (Entities.ParseEscapeSequences u) <= String.length u)%nat).
Proof.
  intros Hs. split; [| split].
  - unfold Entities.ParseEscapeSequences.
    pose proof (ParseEscapeSequences_from_app false s EmptyString Hs) as H.
    assert (E : forall x, x +:+ EmptyString = x).
    { induction x as [| c x IH]; [reflexivity | rewrite append_cons, IH; reflexivity]. }
    rewrite !E in H. exact H.
  - unfold Entities.ParseEscapeSequences, EscapeSpec.toggle.
    cbn [Entities.ParseEscapeSequences_from].
    change (Ascii.eqb Entities.BACKSLASH Entities.BACKSLASH) with true.
    change (Ascii.eqb "b"%char "b"%char) with true. cbn [negb].
    rewrite (ParseEscapeSequences_from_app true s _ Hs).
    reflexivity.
  - intros u. apply (proj1 (ParseEscapeSequences_from_length u)).
Qed.

Lemma ParseEscapeSequences_bold_witness :
  Entities.ParseEscapeSequences "hello" = "hello"%string
  /\ Entities.ParseEscapeSequences
       (EscapeSpec.toggle ("hello" +:+ EscapeSpec.toggle " world"))
     = EscapeSpec.bold_text "hello" +:+ " world".
Proof.
  destruct (ParseEscapeSequences_bold "hello" " world" eq_refl) as (H1 & H2 & _).
  split; [exact H1 | exact H2].
Defined.

(** ** light/entities.cc: EntData_Parse on any input *)

Lemma skip_white_length (s : string) :
  (String.length (Entities.skip_white s) <= String.length s)%nat.
Proof.
  induction s as [| c s IH]; simpl; [lia |].
  destruct (Entities.is_space c); simpl; lia.
Qed.

Lemma read_quoted_length (s : string) :
  (String.length (snd (Entities.read_quoted s)) <= String.length s)%nat.
Proof.
  induction s as [| c s IH]; simpl; [lia |].
  destruct (Ascii.eqb c Entities.DQUOTE); simpl; [lia |].
  destruct (Entities.read_quoted s); simpl in *; lia.
Qed.

Lemma read_word_length (s : string) :
  (String.length (snd (Entities.read_word s)) <= String.length s)%nat.
Proof.
  induction s as [| c s IH]; simpl; [lia |].
  destruct (Entities.is_space c || Entities.is_brace c); simpl; [lia |].
  destruct (Entities.read_word s); simpl in *; lia.
Qed.

(** Every token takes at least one character off the data. *)
Lemma COM_Parse_shrinks (data tok rest : string) :
  Entities.COM_Parse data = Some (tok, rest) ->
  (String.length rest < String.length data)%nat.
Proof.
  unfold Entities.COM_Parse. pose proof (skip_white_length data) as Hw.
  destruct (Entities.skip_white data) as [| c r]; [discriminate |].
  simpl in Hw.
  destruct (Ascii.eqb c Entities.DQUOTE).
  - pose proof (read_quoted_length r) as Hq. intros H.
    injection H as H. rewrite H in Hq. simpl in Hq. lia.
  - destruct (Entities.is_brace c).
    + intros H. injection H as _ <-. lia.
    + pose proof (read_word_length r) as Hq.
      destruct (Entities.read_word r) as [tok' rest']. intros H.
      injection H as _ <-. simpl in Hq. lia.
Qed.

Lemma parse_epairs_total (fuel : nat) :
  forall (data : string) (entity : gmap string string),
  (String.length data < fuel)%nat ->
  (exists e rest,
     Entities.parse_epairs fuel data entity = Ok (e, rest)
     /\ (String.length rest < String.length data)%nat
     /\ (RoundTripSpec.short_dict entity -> RoundTripSpec.short_dict e))
  \/ (exists msg, Entities.parse_epairs fuel data entity = Fatal msg).
Proof.
  induction fuel as [| fuel IH]; intros data entity Hfuel; [lia |].
  cbn [Entities.parse_epairs].
  destruct (Entities.COM_Parse data) as [[keystr data1] |] eqn:E1; [| right; eauto].
  apply COM_Parse_shrinks in E1.
  destruct (String.eqb keystr (Entities.str1 Entities.RBRACE)).
  { left. exists entity, data1. auto. }
  destruct (Entities.MAX_ENT_KEY - 1 <? Entities.slen keystr) eqn:Ek; [right; eauto |].
  destruct (Entities.COM_Parse data1) as [[valstring data2] |] eqn:E2; [| right; eauto].
  apply COM_Parse_shrinks in E2.
  destruct (Entities.first_char_is Entities.RBRACE valstring); [right; eauto |].
  destruct (Entities.MAX_ENT_VALUE - 1 <? Entities.slen valstring) eqn:Ev; [right; eauto |].
  destruct (IH data2 (<[keystr := valstring]> entity)) as [(e & rest & E & Hlen & Hsh) | Hf];
    [lia | | right; exact Hf].
  left. exists e, rest. split; [exact E |]. split; [lia |].
  intros Hent. apply Hsh. apply map_Forall_insert_2; [| exact Hent].
  apply Z.ltb_ge in Ek. apply Z.ltb_ge in Ev.
  unfold Entities.MAX_ENT_KEY in Ek. unfold Entities.MAX_ENT_VALUE in Ev. lia.
Qed.

Lemma parse_entities_total (fuel : nat) :
  forall (data : string) (acc : list (gmap string string)),
  (String.length data < fuel)%nat ->
  Forall RoundTripSpec.short_dict acc ->
  (exists es, Entities.parse_entities fuel data acc = Ok es
              /\ Forall RoundTripSpec.short_dict es)
  \/ (exists msg, Entities.parse_entities fuel data acc = Fatal msg).
Proof.
  induction fuel as [| fuel IH]; intros data acc Hfuel Hacc; [lia |].
  cbn [Entities.parse_entities].
  destruct (Entities.COM_Parse data) as [[tok data1] |] eqn:E1; [| left; eauto].
  apply COM_Parse_shrinks in E1.
  destruct (negb (Entities.first_char_is Entities.LBRACE tok)); [right; eauto |].
  destruct (parse_epairs_total fuel data1 ∅) as [(e & rest & E & Hlen & Hsh) | [msg Hf]];
    [lia | | right; exists msg; rewrite Hf; reflexivity].
  rewrite E. cbn [bind]. apply IH; [lia |].
  apply Forall_app. split; [exact Hacc |].
  apply Forall_cons. split; [| apply List.Forall_nil].
  apply Hsh. apply map_Forall_empty.
Qed.

(** X2. [EntData_Parse] comes to an end on every input: it returns the
    entities, or stops with one of its fatal errors.  In the dicts it
    returns every key has at most 31 characters and every value at most
    1023. *)
Theorem EntData_Parse_total (entdata : string) :
  (exists es, Entities.EntData_Parse entdata = Ok es
              /\ Forall RoundTripSpec.short_dict es)
  \/ (exists msg, Entities.EntData_Parse entdata = Fatal msg).
Proof.
  unfold Entities.EntData_Parse. apply parse_entities_total; [lia | apply List.Forall_nil].
Qed.

Lemma fold_left_put_not_in (ps : list (string * string)) (k : string) :
  Forall (fun p => fst p <> k) ps ->
  forall m : gmap string string, fold_left RoundTripSpec.put ps m !! k = m !! k.
Proof.
  induction 1 as [| [k' v'] ps Hne _ IH]; intros m; simpl; [reflexivity |].
  rewrite IH. unfold RoundTripSpec.put. simpl in *.
  apply lookup_insert_ne. exact Hne.
Qed.

Lemma string_not_nul_written (ps : list (string * string)) :
  Forall RoundTripSpec.readable ps ->
  RoundTripSpec.string_forall RoundTripSpec.not_nul
    (String Entities.LBRACE
       (String Entities.LF
          (Entities.write_epairs ps
           +:+ String Entities.RBRACE (String Entities.LF EmptyString)))) = true.
Proof.
  intros Hps. cbn [RoundTripSpec.string_forall].
  rewrite string_forall_app, (write_epairs_not_nul ps Hps). reflexivity.
Qed.

(** X3. An entity is read pair by pair into its dict, so of two pairs
    with the same key the later one wins: for pairs of plain strings
    within the length bounds, written between braces, [EntData_Parse]
    returns one dict that maps each key to the value of its last pair,
    and holds no other key. *)
Theorem EntData_Parse_last_pair_wins (ps : list (string * string)) :
  Forall RoundTripSpec.readable ps ->
  exists d : gmap string string,
    Entities.EntData_Parse
      (String Entities.LBRACE
         (String Entities.LF
            (Entities.write_epairs ps
             +:+ String Entities.RBRACE (String Entities.LF EmptyString))))
    = Ok [d]
    /\ (forall before k v after,
          ps = before ++ (k, v) :: after ->
          Forall (fun p => fst p <> k) after ->
          d !! k = Some v)
    /\ (forall k, Forall (fun p => fst p <> k) ps -> d !! k = None).
Proof.
  intros Hps. exists (fold_left RoundTripSpec.put ps ∅). split; [| split].
  - unfold Entities.EntData_Parse.
    rewrite (c_str_id _ (string_not_nul_written ps Hps)).
    cbn [Entities.parse_entities].
    change (Entities.COM_Parse (String Entities.LBRACE ?s))
      with (Some (Entities.str1 Entities.LBRACE, s)).
    cbn [Entities.first_char_is Entities.str1 negb].
    change (Ascii.eqb Entities.LBRACE Entities.LBRACE) with true. cbn [negb].
    rewrite (parse_epairs_written ps Hps).
    + cbn [bind String.length]. reflexivity.
    + cbn [String.length]. rewrite length_append. lia.
  - intros before k v after -> Hafter.
    rewrite fold_left_app. cbn [fold_left].
    rewrite (fold_left_put_not_in after k Hafter).
    unfold RoundTripSpec.put at 1. cbn [fst snd]. apply lookup_insert_eq.
  - intros k Hk. rewrite (fold_left_put_not_in ps k Hk). apply lookup_empty.
Qed.

Lemma EntData_Parse_last_pair_wins_witness :
  exists d : gmap string string,
    Entities.EntData_Parse
      (String Entities.LBRACE
         (String Entities.LF
            (Entities.write_epairs [("light", "100"); ("light", "200")]%string
             +:+ String Entities.RBRACE (String Entities.LF EmptyString))))
    = Ok [d]
    /\ d !! "light"%string = Some "200"%string.
Proof.
  assert (Hps : Forall RoundTripSpec.readable [("light", "100"); ("light", "200")]%string).
  { repeat (apply Forall_cons; split); try apply List.Forall_nil;
      repeat split; try reflexivity; vm_compute; discriminate. }
  destruct (EntData_Parse_last_pair_wins _ Hps) as (d & E & Hlast & _).
  exists d. split; [exact E |].
  apply (Hlast [("light", "100")]%string "light"%string "200"%string []);
    [reflexivity | apply List.Forall_nil].
Defined.

(** ** light/entities.cc: WriteEntitiesToString *)





(** ** light/entities.cc: one style per targetname *)

Lemma find_targetname_lookup (names : list string) (t : string) :
  forall i k, Entities.find_targetname names t i = Some k ->
  names !! Z.to_nat (k - i) = Some t.
Proof.
  induction names as [| n names IH]; intros i k H; simpl in H; [discriminate |].
  destruct (String.eqb n t) eqn:E.
  - injection H as <-. apply String.eqb_eq in E. subst. rewrite Z.sub_diag. reflexivity.
  - pose proof (find_targetname_bounds _ _ _ _ H) as [Hb _].
    specialize (IH _ _ H).
    replace (Z.to_nat (k - i)) with (S (Z.to_nat (k - (i + 1)))) by lia. exact IH.
Qed.

Lemma find_targetname_None (names : list string) (t : string) :
  forall i, Entities.find_targetname names t i = None -> t ∉ names.
Proof.
  induction names as [| n names IH]; intros i H; simpl in H.
  - apply not_elem_of_nil.
  - destruct (String.eqb n t) eqn:E; [discriminate |].
    apply String.eqb_neq in E. apply not_elem_of_cons. split; [congruence | eapply IH, H].
Qed.

Lemma to_int_not_nil (z : Z) :
  Z.to_int z <> Decimal.Pos Decimal.Nil /\ Z.to_int z <> Decimal.Neg Decimal.Nil.
Proof.
  destruct z as [| p | p]; simpl; split; try discriminate;
    intros H; injection H as H; exact (DecimalPos.Unsigned.to_uint_nonnil p H).
Qed.

(** [std::to_string] gives different numerals for different numbers. *)
Lemma to_string_inj (a b : Z) : Entities.to_string a = Entities.to_string b -> a = b.
Proof.
  unfold Entities.to_string. intros H.
  apply (f_equal NilZero.int_of_string) in H.
  destruct (to_int_not_nil a) as [Ha1 Ha2]. destruct (to_int_not_nil b) as [Hb1 Hb2].
  rewrite !NilZero.isi in H by assumption.
  injection H as H. apply (f_equal Z.of_int) in H.
  rewrite !DecimalZ.of_to in H. exact H.
Qed.

Lemma LightStyleForTargetname_NoDup (names names' : list string) (t : string) (style : Z) :
  Entities.LightStyleForTargetname names t = Ok (style, names') ->
  NoDup names -> NoDup names'.
Proof.
  unfold Entities.LightStyleForTargetname. intros H Hnd.
  destruct (Entities.find_targetname names t 0) as [k |] eqn:E.
  - injection H as _ <-. exact Hnd.
  - destruct (zlen names =? Entities.MAX_LIGHT_TARGETS); [discriminate |].
    injection H as _ <-. apply NoDup_app. split; [exact Hnd |]. split.
    + intros x Hx Hin. apply list_elem_of_singleton in Hin. subst x.
      exact (find_targetname_None _ _ _ E Hx).
    + apply NoDup_singleton.
Qed.

Section StyleNames.

Variable stof : string -> option Q.

Local Abbreviation LoadEntities_entdict := (Entities.LoadEntities_entdict stof).
Local Abbreviation LoadEntities_entdicts := (Entities.LoadEntities_entdicts stof).

Lemma LoadEntities_entdict_NoDup (e e' : gmap string string) (names names' : list string) :
  LoadEntities_entdict e names = Ok (e', names') -> NoDup names -> NoDup names'.
Proof.
  unfold Entities.LoadEntities_entdict. fold (StyleSpec.lmscale_fixed e).
  intros H Hnd.
  destruct (String.prefix "light"
              (Entities.EntDict_StringForKey (StyleSpec.lmscale_fixed e) "classname")).
  - destruct (negb (String.eqb
                 (Entities.EntDict_StringForKey (StyleSpec.lmscale_fixed e) "targetname") "")
              && (Entities.intValue
                    (Entities.EntDict_FloatForKey stof (StyleSpec.lmscale_fixed e) "style") =? 0)).
    + destruct (Entities.LightStyleForTargetname names
                  (Entities.EntDict_StringForKey (StyleSpec.lmscale_fixed e) "targetname"))
        as [[style names1] | | | |] eqn:Els; simpl in H; try discriminate.
      injection H as _ <-. exact (LightStyleForTargetname_NoDup _ _ _ _ Els Hnd).
    + simpl in H. injection H as _ <-. exact Hnd.
  - simpl in H. injection H as _ <-. exact Hnd.
Qed.

Lemma LoadEntities_entdicts_NoDup (es : list (gmap string string)) :
  forall (es' : list (gmap string string)) (names names' : list string),
  LoadEntities_entdicts es names = Ok (es', names') -> NoDup names -> NoDup names'.
Proof.
  induction es as [| e es IH]; intros es' names names' H Hnd; simpl in H.
  - injection H as _ <-. exact Hnd.
  - destruct (LoadEntities_entdict e names) as [[e1 names1] | | | |] eqn:E1;
      simpl in H; try discriminate.
    destruct (LoadEntities_entdicts es names1) as [[es1 names2] | | | |] eqn:E2;
      simpl in H; try discriminate.
    injection H as _ <-.
    exact (IH _ _ _ E2 (LoadEntities_entdict_NoDup _ _ _ _ E1 Hnd)).
Qed.

(** X5. [LoadEntities] gives switchable lights with different
    targetnames different styles: after it, two entities whose classname
    begins with [light], that have no [style] key and have non-empty
    targetnames that differ, carry [style] values that differ.  The list
    of targetnames it has built holds no name twice and at most 32
    names. *)
Theorem LoadEntities_distinct_styles (dentdata : string)
    (entdicts entdicts' : list (gmap string string)) (names : list string) :
  Entities.EntData_Parse dentdata = Ok entdicts ->
  Entities.LoadEntities stof dentdata = Ok (entdicts', names) ->
  NoDup names /\ zlen names <= 32
  /\ forall i j e1 e2 t1 t2,
       entdicts !! i = Some e1 -> entdicts !! j = Some e2 ->
       StyleSpec.switchable e1 t1 -> StyleSpec.switchable e2 t2 ->
       t1 <> t2 ->
       exists e1' e2' s1 s2,
         entdicts' !! i = Some e1' /\ entdicts' !! j = Some e2'
         /\ e1' !! "style"%string = Some s1
         /\ e2' !! "style"%string = Some s2
         /\ s1 <> s2.
Proof.
  intros Hparse H. unfold Entities.LoadEntities in H. rewrite Hparse in H. simpl in H.
  assert (H0 : zlen (@nil string) <= 32) by (unfold zlen; simpl; lia).
  destruct (LoadEntities_entdicts_styles stof _ _ _ _ H H0) as (_ & Hlen & Hall).
  split; [exact (LoadEntities_entdicts_NoDup _ _ _ _ H (NoDup_nil_2)) |].
  split; [exact Hlen |].
  intros i j e1 e2 t1 t2 Hi Hj Hs1 Hs2 Hne.
  destruct (Hall i e1 t1 Hi Hs1) as (e1' & k1 & He1 & Hf1 & Hk1 & Hst1).
  destruct (Hall j e2 t2 Hj Hs2) as (e2' & k2 & He2 & Hf2 & Hk2 & Hst2).
  exists e1', e2', (Entities.to_string (32 + k1)), (Entities.to_string (32 + k2)).
  repeat split; try assumption.
  intros Heq. apply to_string_inj in Heq. assert (k1 = k2) by lia. subst k2.
  apply find_targetname_lookup in Hf1. apply find_targetname_lookup in Hf2.
  congruence.
Qed.

Lemma lmscale_fixed_no_lightmap_scale (e : gmap string string) :
  Entities.EntDict_StringForKey e "lightmap_scale" <> ""%string ->
  StyleSpec.lmscale_fixed e !! "lightmap_scale"%string = None
  /\ StyleSpec.lmscale_fixed e !! "_lightmap_scale"%string
     = Some (Entities.EntDict_StringForKey e "lightmap_scale").
Proof.
  intros Hne. unfold StyleSpec.lmscale_fixed.
  apply String.eqb_neq in Hne. rewrite Hne. cbn [negb]. split.
  - rewrite lookup_insert_ne by discriminate. apply lookup_delete_eq.
  - apply lookup_insert_eq.
Qed.

Lemma LoadEntities_entdict_keys (e e' : gmap string string) (names names' : list string) :
  LoadEntities_entdict e names = Ok (e', names') ->
  (forall key, key <> "style"%string ->
     e' !! key = Entities.ParseEscapeSequences <$> StyleSpec.lmscale_fixed e !! key)
  /\ (String.prefix "light" (Entities.EntDict_StringForKey e "classname") = false ->
      e' !! "style"%string = Entities.ParseEscapeSequences <$> e !! "style"%string
      /\ names' = names).
Proof.
  unfold Entities.LoadEntities_entdict. fold (StyleSpec.lmscale_fixed e).
  rewrite (lmscale_fixed_StringForKey e "classname") by discriminate.
  intros H.
  destruct (String.prefix "light" (Entities.EntDict_StringForKey e "classname")).
  - split; [| discriminate].
    destruct (negb (String.eqb
                 (Entities.EntDict_StringForKey (StyleSpec.lmscale_fixed e) "targetname") "")
              && (Entities.intValue
                    (Entities.EntDict_FloatForKey stof (StyleSpec.lmscale_fixed e) "style") =? 0)).
    + destruct (Entities.LightStyleForTargetname names
                  (Entities.EntDict_StringForKey (StyleSpec.lmscale_fixed e) "targetname"))
        as [[style names1] | | | |] eqn:Els; simpl in H; try discriminate.
      injection H as <- <-. intros key Hkey.
      rewrite !lookup_fmap, lookup_insert_ne by congruence. reflexivity.
    + simpl in H. injection H as <- <-. intros key _. apply lookup_fmap.
  - simpl in H. injection H as <- <-. split.
    + intros key _. apply lookup_fmap.
    + intros _. split; [| reflexivity].
      rewrite lookup_fmap, lmscale_fixed_lookup by discriminate. reflexivity.
Qed.

(** X6. What the first loop of [LoadEntities] does to the keys.  It
    keeps the number of entities.  In every entity, each key but [style],
    [lightmap_scale] and [_lightmap_scale] keeps its value with the escape
    sequences decoded; a non-empty [lightmap_scale] is gone and its
    decoded value stands under [_lightmap_scale]; and an entity whose
    classname does not begin with [light] gets no style: its [style] key
    is as any other. *)
Theorem LoadEntities_entdicts_keys (es : list (gmap string string)) :
  forall (es' : list (gmap string string)) (names names' : list string),
  LoadEntities_entdicts es names = Ok (es', names') ->
  length es' = length es
  /\ forall i e, es !! i = Some e ->
       exists e', es' !! i = Some e'
         /\ (forall key, key <> "style"%string -> key <> "lightmap_scale"%string ->
               key <> "_lightmap_scale"%string ->
               e' !! key = Entities.ParseEscapeSequences <$> e !! key)
         /\ (Entities.EntDict_StringForKey e "lightmap_scale" <> ""%string ->
             e' !! "lightmap_scale"%string = None
             /\ e' !! "_lightmap_scale"%string
                = Some (Entities.ParseEscapeSequences
                          (Entities.EntDict_StringForKey e "lightmap_scale")))
         /\ (String.prefix "light" (Entities.EntDict_StringForKey e "classname") = false ->
             e' !! "style"%string = Entities.ParseEscapeSequences <$> e !! "style"%string).
Proof.
  induction es as [| e es IH]; intros es' names names' H; simpl in H.
  - injection H as <- <-. split; [reflexivity |].
    intros i e Hi. rewrite lookup_nil in Hi. discriminate.
  - destruct (LoadEntities_entdict e names) as [[e1 names1] | | | |] eqn:E1;
      simpl in H; try discriminate.
    destruct (LoadEntities_entdicts es names1) as [[es1 names2] | | | |] eqn:E2;
      simpl in H; try discriminate.
    injection H as <- <-.
    destruct (IH _ _ _ E2) as [Hlen Hrest].
    split; [simpl; rewrite Hlen; reflexivity |].
    intros [| i] e0 Hi; simpl in Hi; [| exact (Hrest i e0 Hi)].
    injection Hi as <-.
    destruct (LoadEntities_entdict_keys _ _ _ _ E1) as [Hkeys Hstyle].
    exists e1. split; [reflexivity |]. split; [| split].
    + intros key H1 H2 H3. rewrite (Hkeys key H1), lmscale_fixed_lookup by assumption.
      reflexivity.
    + intros Hne. destruct (lmscale_fixed_no_lightmap_scale e Hne) as [Ha Hb].
      rewrite !Hkeys by discriminate. rewrite Ha, Hb. split; reflexivity.
    + intros Hcls. apply (Hstyle Hcls).
Qed.

End StyleNames.

Lemma two_switches_plain : Forall RoundTripSpec.plain_dict Scenes.two_switches.
Proof.
  unfold Scenes.two_switches.
  repeat (apply Forall_cons; split); try apply List.Forall_nil;
    apply plain_dict_checked; vm_compute; reflexivity.
Qed.

Lemma two_switches_short : Forall RoundTripSpec.short_dict Scenes.two_switches.
Proof.
  unfold Scenes.two_switches.
  repeat (apply Forall_cons; split); try apply List.Forall_nil;
    apply short_dict_checked; vm_compute; reflexivity.
Qed.

Lemma two_switches_parse :
  Entities.EntData_Parse (Entities.EntData_Write Scenes.two_switches) = Ok Scenes.two_switches.
Proof.
  unfold Entities.EntData_Parse.
  rewrite (c_str_id _ (EntData_Write_not_nul _ two_switches_plain two_switches_short)).
  apply (parse_entities_written _ two_switches_plain two_switches_short []). lia.
Qed.

Lemma two_switches_load :
  exists r,
    Entities.LoadEntities Sample.no_stof (Entities.EntData_Write Scenes.two_switches) = Ok r.
Proof. apply is_ok_returns. vm_compute. reflexivity. Qed.

Lemma switch_light_switchable (t : string) :
  t <> ""%string -> StyleSpec.switchable (Scenes.switch_light t) t.
Proof.
  intros Ht. unfold StyleSpec.switchable.
  repeat split; try exact Ht; vm_compute; reflexivity.
Qed.

Lemma LoadEntities_distinct_styles_witness :
  exists (e1' e2' : gmap string string) (s1 s2 : string),
    e1' !! "style"%string = Some s1 /\ e2' !! "style"%string = Some s2 /\ s1 <> s2.
Proof.
  destruct two_switches_load as [[es' names] E].
  destruct (LoadEntities_distinct_styles Sample.no_stof _ _ _ _ two_switches_parse E)
    as (_ & _ & Hdiff).
  destruct (Hdiff 1%nat 2%nat (Scenes.switch_light "a") (Scenes.switch_light "b")
              "a"%string "b"%string eq_refl eq_refl
              (switch_light_switchable "a" ltac:(discriminate))
              (switch_light_switchable "b" ltac:(discriminate))
              ltac:(discriminate))
    as (e1' & e2' & s1 & s2 & _ & _ & H1 & H2 & Hne).
  exists e1', e2', s1, s2. auto.
Defined.

Lemma scaled_wall_loads :
  exists r, Entities.LoadEntities_entdicts Sample.no_stof [Scenes.scaled_wall] [] = Ok r.
Proof. apply is_ok_returns. vm_compute. reflexivity. Qed.

Lemma LoadEntities_entdicts_keys_witness :
  exists e' : gmap string string,
    e' !! "lightmap_scale"%string = None
    /\ e' !! "_lightmap_scale"%string = Some (Entities.ParseEscapeSequences "4").
Proof.
  destruct scaled_wall_loads as [[es' names'] E].
  destruct (LoadEntities_entdicts_keys Sample.no_stof _ _ _ _ E) as [_ Hkeys].
  destruct (Hkeys 0%nat Scenes.scaled_wall eq_refl) as (e' & _ & _ & Hscale & _).
  exists e'. apply Hscale. vm_compute. discriminate.
Defined.

(** ** light/entities.cc: what CheckEntityFields guarantees *)

Section CheckMore.

Variable cfg : Entities.globals_t.
Variable DEFAULTLIGHTLEVEL : Q.

Local Abbreviation CheckEntityFields := (Entities.CheckEntityFields cfg DEFAULTLIGHTLEVEL).

Local Ltac all_branches :=
  repeat match goal with |- context [if ?b then _ else _] => destruct b end.

(** The call, step by step: it fails on the style alone, and otherwise
    returns a light with the fields in order. *)
Lemma CheckEntityFields_result (entity : Entities.light_t) (st : Entities.check_state) :
  exists e7 st7,
    CheckEntityFields entity st
    = (if (Entities.intValue (Entities.style entity) <? 0)
          || (254 <? Entities.intValue (Entities.style entity))
       then Fatal "Bad light style (must be 0-254)"
       else Ok (e7, st7))
    /\ CheckSpec.checked cfg DEFAULTLIGHTLEVEL entity e7.
Proof.
  unfold Entities.CheckEntityFields.
  set (e1 := if Qeq_bool (Entities.light entity) 0 then _ else _).
  set (e2 := if Qle_bool (Entities.atten e1) 0 then _ else _).
  set (e3 := if _ || _ then Entities.set_anglescale _ e2 else e2).
  set (r4 := if _ || _ then (Entities.set_formula _ e3, _) else (e3, st)).
  assert (Hsame3 : Entities.style e3 = Entities.style entity
                   /\ Entities.epairs e3 = Entities.epairs entity
                   /\ Entities.origin e3 = Entities.origin entity
                   /\ Entities.generated e3 = Entities.generated entity
                   /\ Entities.targetent e3 = Entities.targetent entity
                   /\ Entities.deviance e3 = Entities.deviance entity
                   /\ Entities.light e3 = CheckSpec.given_light DEFAULTLIGHTLEVEL entity).
  { unfold e3, e2, e1, CheckSpec.given_light. all_branches; repeat split; reflexivity. }
  assert (Hatten3 : (0 < Entities.atten e3)%Q).
  { assert (H2 : (0 < Entities.atten e2)%Q).
    { unfold e2. destruct (Qle_bool (Entities.atten e1) 0) eqn:E; [reflexivity |].
      apply Qnot_le_lt. intros Hle. apply Qle_bool_iff in Hle. congruence. }
    unfold e3. all_branches; exact H2. }
  assert (Hangle3 : (0 <= Entities.anglescale e3 <= 1)%Q
                    \/ Entities.anglescale e3 = Entities.global_anglescale cfg).
  { unfold e3.
    destruct (Qltb (Entities.anglescale e2) 0 || Qltb 1 (Entities.anglescale e2)) eqn:E;
      [right; reflexivity | left].
    apply orb_false_iff in E. destruct E as [Ea Eb].
    apply Qltb_ge in Ea. apply Qltb_ge in Eb. split; assumption. }
  assert (H4 : Entities.LF_LINEAR <= Entities.getFormula (fst r4) < Entities.LF_COUNT
               /\ Entities.style (fst r4) = Entities.style e3
               /\ Entities.epairs (fst r4) = Entities.epairs e3
               /\ Entities.origin (fst r4) = Entities.origin e3
               /\ Entities.generated (fst r4) = Entities.generated e3
               /\ Entities.targetent (fst r4) = Entities.targetent e3
               /\ Entities.deviance (fst r4) = Entities.deviance e3
               /\ Entities.light (fst r4) = Entities.light e3
               /\ Entities.atten (fst r4) = Entities.atten e3
               /\ Entities.anglescale (fst r4) = Entities.anglescale e3).
  { unfold r4.
    destruct ((Entities.getFormula e3 <? Entities.LF_LINEAR)
              || (Entities.LF_COUNT <=? Entities.getFormula e3)) eqn:E; cbn [fst].
    - repeat split; vm_compute; congruence.
    - apply orb_false_iff in E. destruct E as [Ea Eb].
      apply Z.ltb_ge in Ea. apply Z.leb_gt in Eb. repeat split; assumption. }
  clearbody r4. destruct r4 as [e4 st4]. cbn [fst] in H4.
  destruct H4 as (Hf4 & Hs4 & Hep4 & Ho4 & Hg4 & Ht4 & Hd4 & Hl4 & Ha4 & Han4).
  destruct Hsame3 as (Hs3 & Hep3 & Ho3 & Hg3 & Ht3 & Hd3 & Hl3).
  set (e5 := if _ && _ then Entities.set_samples 16%Q e4 else e4).
  set (e6 := if _ || _ then Entities.set_samples 1%Q _ else e5).
  set (e7 := if _ || _ then Entities.set_light _ e6 else e6).
  assert (Hd5 : Entities.deviance e5 = Entities.deviance e4).
  { unfold e5. all_branches; reflexivity. }
  assert (Hsame6 : Entities.style e6 = Entities.style e4
                   /\ Entities.epairs e6 = Entities.epairs e4
                   /\ Entities.origin e6 = Entities.origin e4
                   /\ Entities.generated e6 = Entities.generated e4
                   /\ Entities.targetent e6 = Entities.targetent e4
                   /\ Entities.light e6 = Entities.light e4
                   /\ Entities.atten e6 = Entities.atten e4
                   /\ Entities.anglescale e6 = Entities.anglescale e4
                   /\ Entities.getFormula e6 = Entities.getFormula e4).
  { unfold e6, e5, Entities.getFormula. all_branches; repeat split; reflexivity. }
  assert (Hdev6 : (Entities.deviance e6 = 0%Q /\ Entities.samples e6 = 1%Q)
                  \/ ((0 < Entities.deviance e6)%Q
                      /\ 1 < Entities.intValue (Entities.samples e6)
                      /\ Entities.deviance e6 = Entities.deviance e4)).
  { unfold e6.
    destruct (Qle_bool (Entities.deviance e5) 0
              || (Entities.intValue (Entities.samples e5) <=? 1)) eqn:E;
      [left; split; reflexivity | right].
    apply orb_false_iff in E. destruct E as [Ea Eb]. apply Z.leb_gt in Eb.
    split; [| split; [exact Eb | exact Hd5]].
    apply Qnot_le_lt. intros Hle. apply Qle_bool_iff in Hle. congruence. }
  assert (Hsame7 : Entities.style e7 = Entities.style e6
                   /\ Entities.epairs e7 = Entities.epairs e6
                   /\ Entities.origin e7 = Entities.origin e6
                   /\ Entities.generated e7 = Entities.generated e6
                   /\ Entities.targetent e7 = Entities.targetent e6
                   /\ Entities.atten e7 = Entities.atten e6
                   /\ Entities.anglescale e7 = Entities.anglescale e6
                   /\ Entities.getFormula e7 = Entities.getFormula e6
                   /\ Entities.deviance e7 = Entities.deviance e6
                   /\ Entities.samples e7 = Entities.samples e6).
  { unfold e7, Entities.getFormula. all_branches; repeat split; reflexivity. }
  assert (Hlight7 : Entities.light e7
                    = if CheckSpec.scaled cfg (Entities.getFormula e6)
                      then (Entities.light e6
                            / inject_Z (Entities.intValue (Entities.samples e6)))%Q
                      else Entities.light e6).
  { unfold e7, CheckSpec.scaled. all_branches; reflexivity. }
  destruct Hsame6 as (Hs6 & Hep6 & Ho6 & Hg6 & Ht6 & Hl6 & Ha6 & Han6 & Hf6).
  destruct Hsame7 as (Hs7 & Hep7 & Ho7 & Hg7 & Ht7 & Ha7 & Han7 & Hf7 & Hd7 & Hsm7).
  exists e7, st4. split.
  - assert (Hst : Entities.style e7 = Entities.style entity) by congruence.
    rewrite Hst. reflexivity.
  - unfold CheckSpec.checked.
    split; [repeat split; congruence |].
    split; [rewrite Ha7, Ha6, Ha4; exact Hatten3 |].
    split; [rewrite Han7, Han6, Han4; exact Hangle3 |].
    split; [rewrite Hf7, Hf6; exact Hf4 |].
    split.
    + rewrite Hd7, Hsm7.
      destruct Hdev6 as [H | (Ha & Hb & Hc)]; [left; exact H | right].
      split; [exact Ha |]. split; [exact Hb |]. congruence.
    + rewrite Hlight7, Hf7, Hsm7, Hl6, Hl4, Hl3. reflexivity.
Qed.

Lemma CheckEntityFields_checked (entity entity' : Entities.light_t)
    (st st' : Entities.check_state) :
  CheckEntityFields entity st = Ok (entity', st') ->
  CheckSpec.checked cfg DEFAULTLIGHTLEVEL entity entity'
  /\ 0 <= Entities.intValue (Entities.style entity) <= 254.
Proof.
  intros H.
  destruct (CheckEntityFields_result entity st) as (e7 & st7 & E & Hc).
  rewrite E in H.
  destruct ((Entities.intValue (Entities.style entity) <? 0)
            || (254 <? Entities.intValue (Entities.style entity))) eqn:Est;
    [discriminate H |].
  injection H as <- <-. split; [exact Hc |].
  apply orb_false_iff in Est. destruct Est as [Ea Eb].
  apply Z.ltb_ge in Ea. apply Z.ltb_ge in Eb. split; assumption.
Qed.

Lemma checked_samples (entity e : Entities.light_t) :
  CheckSpec.checked cfg DEFAULTLIGHTLEVEL entity e ->
  1 <= Entities.intValue (Entities.samples e)
  /\ (Qabs (Entities.deviance e) <= Entities.deviance e)%Q.
Proof.
  intros (_ & _ & _ & _ & Hdev & _).
  destruct Hdev as [[-> ->] | (Hd & Hn & _)].
  - split; vm_compute; discriminate.
  - split; [lia |].
    rewrite Qabs_pos; [apply Qle_refl | apply Qlt_le_weak; exact Hd].
Qed.

(** The samples together are as bright as the light was given. *)
Lemma checked_brightness (entity e : Entities.light_t) :
  CheckSpec.checked cfg DEFAULTLIGHTLEVEL entity e ->
  CheckSpec.scaled cfg (Entities.getFormula e) = true ->
  (inject_Z (Entities.intValue (Entities.samples e)) * Entities.light e
   == CheckSpec.given_light DEFAULTLIGHTLEVEL entity)%Q.
Proof.
  intros Hc Hsc. destruct (checked_samples entity e Hc) as [Hn _].
  destruct Hc as (_ & _ & _ & _ & _ & Hlight).
  rewrite Hlight, Hsc.
  assert (Hq : ~ (inject_Z (Entities.intValue (Entities.samples e)) == 0)%Q).
  { intros Hz. unfold Qeq in Hz. simpl in Hz. lia. }
  field. exact Hq.
Qed.

(** X7. What a light looks like after [CheckEntityFields]: its
    attenuation is positive, its formula is one of the enum, the angle
    scale lies in 0..1 unless it is the global one, and the style is in
    0..254.  Either it has deviance 0 and one sample, or a positive
    deviance (the one it came with) and more than one sample.  For the
    formulas that divide the intensity, the number of samples times the
    intensity is the intensity the light was given (the default when that
    was 0); for the others the intensity is as given.  The dict, the
    origin and the style are untouched. *)
Theorem CheckEntityFields_postconditions
    (entity entity' : Entities.light_t) (st st' : Entities.check_state) :
  CheckEntityFields entity st = Ok (entity', st') ->
  (0 < Entities.atten entity')%Q
  /\ Entities.LF_LINEAR <= Entities.getFormula entity' < Entities.LF_COUNT
  /\ ((0 <= Entities.anglescale entity' <= 1)%Q
      \/ Entities.anglescale entity' = Entities.global_anglescale cfg)
  /\ 0 <= Entities.intValue (Entities.style entity') <= 254
  /\ ((Entities.deviance entity' = 0%Q /\ Entities.samples entity' = 1%Q)
      \/ ((0 < Entities.deviance entity')%Q
          /\ 1 < Entities.intValue (Entities.samples entity')
          /\ Entities.deviance entity' = Entities.deviance entity))
  /\ (if CheckSpec.scaled cfg (Entities.getFormula entity')
      then (inject_Z (Entities.intValue (Entities.samples entity')) * Entities.light entity'
            == CheckSpec.given_light DEFAULTLIGHTLEVEL entity)%Q
      else Entities.light entity' = CheckSpec.given_light DEFAULTLIGHTLEVEL entity)
  /\ Entities.epairs entity' = Entities.epairs entity
  /\ Entities.origin entity' = Entities.origin entity
  /\ Entities.style entity' = Entities.style entity.
Proof.
  intros H. destruct (CheckEntityFields_checked _ _ _ _ H) as [Hc Hst].
  pose proof (checked_brightness entity entity' Hc) as Hbright.
  destruct Hc as ((Hs & Hep & Ho & _ & _) & Hatten & Hangle & Hf & Hdev & Hlight).
  split; [exact Hatten |]. split; [exact Hf |]. split; [exact Hangle |].
  split; [rewrite Hs; exact Hst |]. split; [exact Hdev |].
  split; [| split; [exact Hep | split; [exact Ho | exact Hs]]].
  destruct (CheckSpec.scaled cfg (Entities.getFormula entity')) eqn:Hsc;
    [apply Hbright; reflexivity | rewrite Hlight; reflexivity].
Qed.

(** X8. [CheckEntityFields] stops with the fatal error
    [Bad light style] exactly when the style of the light is below 0 or
    above 254; on every other light it returns. *)
Theorem CheckEntityFields_fails_on_style_only
    (entity : Entities.light_t) (st : Entities.check_state) :
  (Entities.intValue (Entities.style entity) < 0
   \/ 254 < Entities.intValue (Entities.style entity) ->
   CheckEntityFields entity st = Fatal "Bad light style (must be 0-254)")
  /\ (0 <= Entities.intValue (Entities.style entity) <= 254 ->
      exists r, CheckEntityFields entity st = Ok r).
Proof.
  destruct (CheckEntityFields_result entity st) as (e7 & st7 & E & _).
  rewrite E. split.
  - intros Hbad.
    assert (Hc : (Entities.intValue (Entities.style entity) <? 0)
                 || (254 <? Entities.intValue (Entities.style entity)) = true).
    { apply orb_true_iff. destruct Hbad as [H | H]; [left | right]; apply Z.ltb_lt; exact H. }
    rewrite Hc. reflexivity.
  - intros [Ha Hb].
    assert (Hc : (Entities.intValue (Entities.style entity) <? 0)
                 || (254 <? Entities.intValue (Entities.style entity)) = false).
    { apply orb_false_iff. split; apply Z.ltb_ge; assumption. }
    rewrite Hc. eauto.
Qed.

End CheckMore.
Lemma soft_light_checks :
  exists r,
    Entities.CheckEntityFields Sample.dome_cfg 300 Lamps.soft_light
      Entities.check_state_init = Ok r.
Proof. apply is_ok_returns. vm_compute. reflexivity. Qed.

Lemma CheckEntityFields_postconditions_witness :
  exists entity' st',
    Entities.CheckEntityFields Sample.dome_cfg 300 Lamps.soft_light
      Entities.check_state_init = Ok (entity', st')
    /\ (0 < Entities.atten entity')%Q
    /\ Entities.origin entity' = Entities.origin Lamps.soft_light.
Proof.
  destruct soft_light_checks as [[entity' st'] E].
  destruct (CheckEntityFields_postconditions Sample.dome_cfg 300 Lamps.soft_light
              entity' Entities.check_state_init st' E)
    as (Ha & _ & _ & _ & _ & _ & _ & Ho & _).
  exists entity', st'. split; [exact E |]. split; [exact Ha | exact Ho].
Defined.

Lemma CheckEntityFields_fails_on_style_only_witness :
  Entities.CheckEntityFields Sample.dome_cfg 300 Lamps.bad_style_light
    Entities.check_state_init = Fatal "Bad light style (must be 0-254)"
  /\ exists r,
       Entities.CheckEntityFields Sample.dome_cfg 300 Lamps.soft_light
         Entities.check_state_init = Ok r.
Proof.
  split.
  - apply (proj1 (CheckEntityFields_fails_on_style_only Sample.dome_cfg 300
                    Lamps.bad_style_light Entities.check_state_init)).
    right. vm_compute. reflexivity.
  - apply (proj2 (CheckEntityFields_fails_on_style_only Sample.dome_cfg 300
                    Lamps.soft_light Entities.check_state_init)).
    vm_compute. split; discriminate.
Defined.

(** ** light/entities.cc: a checked light and its jittered copies *)

Section CheckedJitter.

Variable cfg : Entities.globals_t.
Variable DEFAULTLIGHTLEVEL : Q.
Variable Random : nat -> Q.
Hypothesis Random_range : forall n, (0 <= Random n <= 1)%Q.

(** X9. [CheckEntityFields] followed by [JitterEntity].  A light that
    has passed the check gets one copy less than it has samples, for three
    calls of [Random] each; every copy is marked generated, shares the
    dict and the intensity of the light, and lies within the deviance of
    it along each axis.  For the formulas that divide the intensity, the
    light and its copies together have the intensity the light was
    given. *)
Theorem checked_light_jitter (entity entity' : Entities.light_t)
    (st st' : Entities.check_state) (lights : list Entities.light_t) (calls : nat) :
  Entities.CheckEntityFields cfg DEFAULTLIGHTLEVEL entity st = Ok (entity', st') ->
  exists block,
    Entities.JitterEntity Random entity' lights calls
    = (lights ++ block, (calls + 3 * length block)%nat)
    /\ Z.of_nat (S (length block)) = Entities.intValue (Entities.samples entity')
    /\ Forall (fun dup =>
                 Entities.generated dup = true
                 /\ Entities.epairs dup = Entities.epairs entity'
                 /\ Entities.light dup = Entities.light entity'
                 /\ forall i, (i < 3)%nat ->
                      (Qabs (vidx (Entities.origin dup) i - vidx (Entities.origin entity') i)
                       <= Entities.deviance entity')%Q)
              block
    /\ (CheckSpec.scaled cfg (Entities.getFormula entity') = true ->
        (inject_Z (Z.of_nat (S (length block))) * Entities.light entity'
         == CheckSpec.given_light DEFAULTLIGHTLEVEL entity)%Q).
Proof.
  intros H.
  destruct (CheckEntityFields_checked cfg DEFAULTLIGHTLEVEL _ _ _ _ H) as [Hc _].
  destruct (checked_samples cfg DEFAULTLIGHTLEVEL _ _ Hc) as [Hn Hd].
  pose proof (checked_brightness cfg DEFAULTLIGHTLEVEL _ _ Hc) as Hlight.
  unfold Entities.JitterEntity.
  destruct (JitterEntity_loop_appends Random Random_range entity'
              (Z.to_nat (Entities.intValue (Entities.samples entity') - 1)) lights calls)
    as (block & E & Hlen & Hall).
  exists block. rewrite E, Hlen. split; [reflexivity |]. split; [lia |]. split.
  - eapply Forall_impl; [exact Hall |].
    intros dup (Hg & Hdup & Hbound). split; [exact Hg |].
    split; [rewrite Hdup; reflexivity |]. split; [rewrite Hdup; reflexivity |].
    intros i Hi. eapply Qle_trans; [apply (Hbound i Hi) | exact Hd].
  - intros Hsc. specialize (Hlight Hsc).
    replace (Z.of_nat (S (Z.to_nat (Entities.intValue (Entities.samples entity') - 1))))
      with (Entities.intValue (Entities.samples entity')) by lia.
    exact Hlight.
Qed.

End CheckedJitter.

Lemma checked_light_jitter_witness :
  exists entity' block,
    Entities.JitterEntity Sample.Random3 entity' [] 0
    = ([] ++ block, (0 + 3 * length block)%nat)
    /\ Z.of_nat (S (length block)) = Entities.intValue (Entities.samples entity').
Proof.
  destruct soft_light_checks as [[entity' st'] E].
  destruct (checked_light_jitter Sample.dome_cfg 300 Sample.Random3 Random3_range
              Lamps.soft_light entity' Entities.check_state_init st' [] 0%nat E)
    as (block & Hj & Hn & _).
  exists entity', block. split; [exact Hj | exact Hn].
Defined.

(** ** light/entities.cc: the sky dome for any pair of intensities *)

Lemma lit_share_div (L : Q) (N : Z) :
  0 < N ->
  DomeSpec.lit (L / inject_Z N) = DomeSpec.lit L
  /\ (inject_Z N * DomeSpec.share (L / inject_Z N) == DomeSpec.share L)%Q.
Proof.
  intros HN. unfold DomeSpec.lit, DomeSpec.share.
  assert (HNq : ~ (inject_Z N == 0)%Q).
  { intros Hz. unfold Qeq in Hz. simpl in Hz. lia. }
  destruct (Qltb 0 L) eqn:EL.
  - apply Qltb_lt in EL. rewrite (Qdiv_pos L N EL HN). split; [reflexivity |].
    field. exact HNq.
  - apply Qltb_ge in EL. rewrite (Qdiv_nonpos L N EL HN). split; [reflexivity | ring].
Qed.

Section DomeGeneral.

Variable cfg : Entities.globals_t.
Variable cosf sinf : Q -> Q.
Variable VectorNormalize : vec3 -> vec3.
Variable DEG2RAD : Q -> Q.
Variable v2 v3 : Q.

Local Abbreviation skydome_elevations := (Entities.skydome_elevations cfg cosf sinf VectorNormalize).
Local Abbreviation skydome_angles := (Entities.skydome_angles cfg cosf sinf VectorNormalize).
Local Abbreviation skydome_cell := (Entities.skydome_cell cfg cosf sinf VectorNormalize).
Local Abbreviation AddSun := (Entities.AddSun cfg VectorNormalize).
Local Abbreviation dome_sun := (DomeSpec.dome_sun cfg v2 v3).

(** The two conditional calls of [AddSun] that make up a cell and the
    vertical pair. *)
Lemma sun_pair (d2 d3 : vec3) (suns : list Entities.sun_t) :
  exists emitted,
    (if Qltb 0 v3
     then AddSun d3 v3 (Entities.sunlight3_color cfg)
            (Entities.intValue (Entities.sunlight2_dirt cfg))
            (if Qltb 0 v2
             then AddSun d2 v2 (Entities.sunlight2_color cfg)
                    (Entities.intValue (Entities.sunlight2_dirt cfg)) suns
             else suns)
     else if Qltb 0 v2
          then AddSun d2 v2 (Entities.sunlight2_color cfg)
                 (Entities.intValue (Entities.sunlight2_dirt cfg)) suns
          else suns)
    = suns ++ emitted
    /\ length emitted = (DomeSpec.lit v2 + DomeSpec.lit v3)%nat
    /\ (SkyDomeSpec.total_sunlight emitted == DomeSpec.share v2 + DomeSpec.share v3)%Q
    /\ Forall dome_sun emitted.
Proof.
  unfold DomeSpec.lit, DomeSpec.share, Entities.AddSun, DomeSpec.dome_sun.
  destruct (Qltb 0 v2) eqn:E2; destruct (Qltb 0 v3) eqn:E3.
  - eexists [_; _]. rewrite <- app_assoc. split; [reflexivity |].
    split; [reflexivity |]. split; [simpl; ring |].
    apply List.Forall_cons; [| apply List.Forall_cons; [| apply List.Forall_nil]].
    + split; [left; repeat split; reflexivity | split; reflexivity].
    + split; [right; repeat split; reflexivity | split; reflexivity].
  - eexists [_]. split; [reflexivity |]. split; [reflexivity |]. split; [simpl; ring |].
    apply List.Forall_cons; [| apply List.Forall_nil].
    split; [left; repeat split; reflexivity | split; reflexivity].
  - eexists [_]. split; [reflexivity |]. split; [reflexivity |]. split; [simpl; ring |].
    apply List.Forall_cons; [| apply List.Forall_nil].
    split; [right; repeat split; reflexivity | split; reflexivity].
  - exists []. rewrite app_nil_r. split; [reflexivity |]. split; [reflexivity |].
    split; [simpl; ring | constructor].
Qed.

Lemma skydome_cell_emits (angle elevation : Q) (suns : list Entities.sun_t) :
  exists emitted,
    skydome_cell v2 v3 angle elevation suns = suns ++ emitted
    /\ length emitted = (DomeSpec.lit v2 + DomeSpec.lit v3)%nat
    /\ (SkyDomeSpec.total_sunlight emitted == DomeSpec.share v2 + DomeSpec.share v3)%Q
    /\ Forall dome_sun emitted.
Proof.
  unfold Entities.skydome_cell. cbv zeta.
  destruct (sun_pair
              (cosf angle * cosf elevation, sinf angle * cosf elevation, - sinf elevation)%Q
              (vset (cosf angle * cosf elevation, sinf angle * cosf elevation,
                     - sinf elevation)%Q 2
                    (- vz (cosf angle * cosf elevation, sinf angle * cosf elevation,
                           - sinf elevation))%Q)
              suns) as (emitted & E & H).
  exists emitted. split; [| exact H]. rewrite <- E.
  destruct (Qltb 0 v3); reflexivity.
Qed.

Lemma skydome_angles_emits (angleStep elevation : Q) (n : nat) :
  forall (angle : Q) (suns : list Entities.sun_t),
  exists emitted,
    snd (skydome_angles n v2 v3 angleStep angle elevation suns) = suns ++ emitted
    /\ length emitted = (n * (DomeSpec.lit v2 + DomeSpec.lit v3))%nat
    /\ (SkyDomeSpec.total_sunlight emitted
        == inject_Z (Z.of_nat n) * (DomeSpec.share v2 + DomeSpec.share v3))%Q
    /\ Forall dome_sun emitted.
Proof.
  induction n as [| n IH]; intros angle suns.
  - exists []. simpl. rewrite app_nil_r.
    split; [reflexivity |]. split; [reflexivity |]. split; [ring | constructor].
  - cbn [Entities.skydome_angles].
    destruct (skydome_cell_emits angle elevation suns) as (cell & -> & Hlen & Htot & Hall).
    destruct (IH (angle + angleStep)%Q (suns ++ cell)) as (emitted & -> & Hlen' & Htot' & Hall').
    exists (cell ++ emitted). rewrite <- app_assoc. split; [reflexivity |].
    split; [rewrite length_app; lia |].
    split; [| apply Forall_app; split; assumption].
    rewrite total_sunlight_app, Htot, Htot', Nat2Z.inj_succ.
    unfold Z.succ. rewrite inject_Z_plus. ring.
Qed.

Lemma skydome_elevations_emits (angleSteps elevationSteps : Z)
    (angleStep elevationStep : Q) (n : nat) :
  forall (angle elevation : Q) (suns : list Entities.sun_t),
  exists emitted,
    skydome_elevations n angleSteps elevationSteps v2 v3 angleStep elevationStep
      angle elevation suns = suns ++ emitted
    /\ length emitted = (n * Z.to_nat angleSteps * (DomeSpec.lit v2 + DomeSpec.lit v3))%nat
    /\ (SkyDomeSpec.total_sunlight emitted
        == inject_Z (Z.of_nat (n * Z.to_nat angleSteps))
           * (DomeSpec.share v2 + DomeSpec.share v3))%Q
    /\ Forall dome_sun emitted.
Proof.
  induction n as [| n IH]; intros angle elevation suns.
  - exists []. simpl. rewrite app_nil_r.
    split; [reflexivity |]. split; [reflexivity |]. split; [ring | constructor].
  - cbn [Entities.skydome_elevations].
    destruct (skydome_angles_emits angleStep elevation (Z.to_nat angleSteps) angle suns)
      as (row & Hrow & Hlen & Htot & Hall).
    destruct (skydome_angles (Z.to_nat angleSteps) v2 v3 angleStep angle elevation suns)
      as [angle' suns'] eqn:E.
    simpl in Hrow. subst suns'.
    destruct (IH (angle' + angleStep / inject_Z elevationSteps)%Q
                 (elevation + elevationStep)%Q (suns ++ row))
      as (emitted & -> & Hlen' & Htot' & Hall').
    exists (row ++ emitted). rewrite app_assoc. split; [reflexivity |].
    split; [rewrite length_app; lia |].
    split; [| apply Forall_app; split; assumption].
    rewrite total_sunlight_app, Htot, Htot'.
    replace (Z.of_nat (S n * Z.to_nat angleSteps))
      with (Z.of_nat (Z.to_nat angleSteps) + Z.of_nat (n * Z.to_nat angleSteps)) by lia.
    rewrite inject_Z_plus. ring.
Qed.

End DomeGeneral.

(** X10. [SetupSkyDome] for any pair of [_sunlight2] and [_sunlight3]
    (with [sunsamples] at least -2, below which the square root is taken
    of a negative number).  When neither is positive it adds nothing.
    Otherwise, with [N] the number of directions of the dome, it appends
    [N] suns for each of the two that is positive, each of intensity
    [_sunlight2 / N] resp. [_sunlight3 / N] in the colour of its key, so
    that the intensities add up to the sum of the positive ones among
    [_sunlight2] and [_sunlight3].  Every sun takes the global angle
    scale, and its dirt flag from [_sunlight2_dirt], the suns of
    [_sunlight3] too. *)
Theorem SetupSkyDome_emits
    (cfg : Entities.globals_t) (cosf sinf : Q -> Q) (VectorNormalize : vec3 -> vec3)
    (DEG2RAD : Q -> Q) (all_suns : list Entities.sun_t) :
  -2 <= Entities.sunsamples cfg ->
  exists (iterations : Z) (emitted : list Entities.sun_t),
    let N := 4 * (iterations - 1) * (iterations - 1) + 1 in
    Entities.skydome_iterations (Entities.sunsamples cfg) = Ok iterations
    /\ Entities.SetupSkyDome cfg cosf sinf VectorNormalize DEG2RAD all_suns
       = Ok (all_suns ++ emitted)
    /\ Z.of_nat (length emitted)
       = N * Z.of_nat (DomeSpec.lit (Entities.sunlight2 cfg)
                       + DomeSpec.lit (Entities.sunlight3 cfg))
    /\ (SkyDomeSpec.total_sunlight emitted
        == DomeSpec.share (Entities.sunlight2 cfg)
           + DomeSpec.share (Entities.sunlight3 cfg))%Q
    /\ Forall (DomeSpec.dome_sun cfg (Entities.sunlight2 cfg / inject_Z N)
                 (Entities.sunlight3 cfg / inject_Z N))
              emitted.
Proof.
  intros Hs.
  set (n := Z.quot (Entities.sunsamples cfg - 1) 4).
  assert (Hn : 0 <= n).
  { unfold n. destruct (Z.le_gt_cases 1 (Entities.sunsamples cfg)) as [H1 | H1].
    - apply Z.quot_pos; lia.
    - assert (E : Z.quot (Entities.sunsamples cfg - 1) 4 = 0); [| lia].
      apply Z.quot_small_iff; lia. }
  pose proof (rint_sqrt_nearest n Hn) as Hnear.
  set (r := Entities.rint_sqrt n) in *.
  assert (Hr : 0 <= r) by apply Hnear.
  set (iterations := Z.max (r + 1) 2).
  set (eS := iterations - 1).
  set (N := 4 * eS * eS + 1).
  assert (HeS : 1 <= eS) by (unfold eS, iterations; lia).
  assert (HN : 0 < N) by (unfold N; nia).
  assert (Hiter : Entities.skydome_iterations (Entities.sunsamples cfg) = Ok iterations).
  { unfold Entities.skydome_iterations. fold n.
    assert (E : (n <? 0) = false) by (apply Z.ltb_ge; exact Hn).
    rewrite E. reflexivity. }
  set (v2 := (Entities.sunlight2 cfg / inject_Z N)%Q).
  set (v3 := (Entities.sunlight3 cfg / inject_Z N)%Q).
  destruct (lit_share_div (Entities.sunlight2 cfg) N HN) as [Hlit2 Hsh2].
  destruct (lit_share_div (Entities.sunlight3 cfg) N HN) as [Hlit3 Hsh3].
  fold v2 in Hlit2, Hsh2. fold v3 in Hlit3, Hsh3.
  unfold Entities.SetupSkyDome. rewrite Hiter. cbn [bind].
  destruct (Qle_bool (Entities.sunlight2 cfg) 0 && Qle_bool (Entities.sunlight3 cfg) 0)
    eqn:Eboth.
  - apply andb_true_iff in Eboth. destruct Eboth as [E2 E3].
    apply Qle_bool_iff in E2. apply Qle_bool_iff in E3.
    assert (L2 : DomeSpec.lit (Entities.sunlight2 cfg) = 0%nat
                 /\ DomeSpec.share (Entities.sunlight2 cfg) = 0%Q).
    { unfold DomeSpec.lit, DomeSpec.share.
      rewrite (proj2 (Qltb_ge 0 (Entities.sunlight2 cfg)) E2). split; reflexivity. }
    assert (L3 : DomeSpec.lit (Entities.sunlight3 cfg) = 0%nat
                 /\ DomeSpec.share (Entities.sunlight3 cfg) = 0%Q).
    { unfold DomeSpec.lit, DomeSpec.share.
      rewrite (proj2 (Qltb_ge 0 (Entities.sunlight3 cfg)) E3). split; reflexivity. }
    destruct L2 as [-> ->]. destruct L3 as [-> ->].
    exists iterations, []. cbv zeta. rewrite app_nil_r.
    split; [reflexivity |]. split; [reflexivity |]. split; [simpl; lia |].
    split; [simpl; ring | constructor].
  - cbv zeta. fold eS.
    replace (eS * 4 * eS + 1) with N by (unfold N; ring).
    fold v2 v3.
    set (eStep := DEG2RAD (90 / inject_Z (eS + 1))%Q).
    set (aStep := DEG2RAD (360 / inject_Z (eS * 4))%Q).
    destruct (skydome_elevations_emits cfg cosf sinf VectorNormalize v2 v3
                (eS * 4) eS aStep eStep (Z.to_nat eS) 0%Q (eStep * (1 # 2))%Q all_suns)
      as (grid & -> & Hlen & Htot & Hall).
    destruct (sun_pair cfg VectorNormalize v2 v3 (0, 0, 1)%Q (0, 0, -1)%Q (all_suns ++ grid))
      as (top & Etop & Hlen' & Htot' & Hall').
    exists iterations, (grid ++ top). split; [reflexivity |]. split; [| split; [| split]].
    + rewrite app_assoc, <- Etop. destruct (Qltb 0 v3); reflexivity.
    + rewrite length_app, Hlen, Hlen', Hlit2, Hlit3. fold eS. fold N. unfold N. nia.
    + rewrite total_sunlight_app, Htot, Htot', <- Hsh2, <- Hsh3.
      replace (Z.of_nat (Z.to_nat eS * Z.to_nat (eS * 4))) with (N - 1)
        by (unfold N; nia).
      unfold Zminus. rewrite inject_Z_plus, inject_Z_opp.
      change (inject_Z 1) with 1%Q. ring.
    + fold eS. fold N. fold v2 v3. apply Forall_app. split; assumption.
Qed.

Lemma SetupSkyDome_emits_witness :
  exists (iterations : Z) (emitted : list Entities.sun_t),
    Entities.skydome_iterations 16 = Ok iterations
    /\ Entities.SetupSkyDome DomeSpec.two_domes Sample.zero_fn Sample.zero_fn
         Sample.keep_vec Sample.DEG2RAD [] = Ok ([] ++ emitted)
    /\ (SkyDomeSpec.total_sunlight emitted
        == DomeSpec.share 100 + DomeSpec.share 50)%Q.
Proof.
  destruct (SetupSkyDome_emits DomeSpec.two_domes Sample.zero_fn Sample.zero_fn
              Sample.keep_vec Sample.DEG2RAD [] ltac:(simpl; lia))
    as (iterations & emitted & Hi & He & _ & Htot & _).
  exists iterations, emitted. split; [exact Hi |]. split; [exact He | exact Htot].
Defined.
(** ** light/entities.cc: the suns of _sunlight and _sun2 *)

Section SunsEmitted.

Variable cfg : Entities.globals_t.
Variable cosf sinf sqrtf : Q -> Q.
Variable atan2f : Q -> Q -> Q.
Variable VectorNormalize : vec3 -> vec3.
Variable DEG2RAD : Q -> Q.
Variable Random : nat -> Q.

Hypothesis Random_range : forall n, (0 <= Random n <= 1)%Q.
Hypothesis DEG2RAD_small : forall a, (2 * (DEG2RAD a * DEG2RAD a) <= a * a)%Q.

Local Abbreviation SetupSuns :=
  (Entities.SetupSuns cfg cosf sinf sqrtf atan2f VectorNormalize DEG2RAD Random).
Local Abbreviation SetupSun :=
  (Entities.SetupSun cfg cosf sinf sqrtf atan2f VectorNormalize DEG2RAD Random).
Local Abbreviation SetupSun_samples :=
  (Entities.SetupSun_samples cfg cosf sinf sqrtf atan2f VectorNormalize DEG2RAD Random).

Lemma SetupSun_samples_emits (fuel n : nat) :
  forall i light color sunvec suns calls,
  0 <= i ->
  exists emitted,
    SetupSun_samples (S fuel) n i light color sunvec suns calls
    = Ok (suns ++ emitted, (calls + 2 * (n - (if (i =? 0)%Z then 1 else 0)))%nat)
    /\ length emitted = n
    /\ Forall (DomeSpec.direct_sun cfg light color) emitted.
Proof.
  induction n as [| n IH]; intros i light color sunvec suns calls Hi.
  - exists []. simpl. rewrite app_nil_r, Nat.add_0_r. repeat split. constructor.
  - cbn [Entities.SetupSun_samples].
    assert (Hnext : (i + 1 =? 0) = false) by (apply Z.eqb_neq; lia).
    destruct (i =? 0) eqn:Ei.
    + cbn [bind].
      destruct (IH (i + 1) light color sunvec
                  (Entities.AddSun cfg VectorNormalize sunvec light color
                     (Entities.intValue (Entities.sunlight_dirt cfg)) suns) calls)
        as (emitted & E & Hlen & Hall); [lia |].
      rewrite E, Hnext. unfold Entities.AddSun. rewrite <- app_assoc.
      eexists. split; [f_equal; f_equal; lia |]. split; [simpl; lia |].
      constructor; [repeat split; reflexivity | exact Hall].
    + destruct (jitter_angles_first_draw cfg DEG2RAD Random Random_range DEG2RAD_small
                  fuel calls) as (da & de & Ej).
      rewrite Ej. cbn [bind fst snd].
      match goal with
      | |- context [Entities.AddSun cfg VectorNormalize ?d light color ?dirt suns] =>
        destruct (IH (i + 1) light color sunvec
                    (Entities.AddSun cfg VectorNormalize d light color dirt suns)
                    (S (S calls)))
          as (emitted & E & Hlen & Hall); [lia |]
      end.
      rewrite E, Hnext. unfold Entities.AddSun. rewrite <- app_assoc.
      eexists. split; [f_equal; f_equal; lia |]. split; [simpl; lia |].
      constructor; [repeat split; reflexivity | exact Hall].
Qed.

Lemma SetupSun_emits (fuel : nat) (light : Q) (color sunvec : vec3)
    (suns : list Entities.sun_t) (calls : nat) :
  let num := if Qeq_bool (Entities.sun_deviance cfg) 0 then 1 else Entities.sunsamples cfg in
  exists emitted,
    SetupSun (S fuel) light color sunvec suns calls
    = Ok (suns ++ emitted, (calls + 2 * (Z.to_nat num - 1))%nat)
    /\ length emitted = Z.to_nat num
    /\ Forall (DomeSpec.direct_sun cfg (light / inject_Z num) color) emitted
    /\ (1 <= num -> (SkyDomeSpec.total_sunlight emitted == light)%Q).
Proof.
  intros num. unfold Entities.SetupSun. fold num.
  destruct (SetupSun_samples_emits fuel (Z.to_nat num) 0 (light / inject_Z num)%Q color
              (VectorNormalize sunvec) suns calls) as (emitted & E & Hlen & Hall); [lia |].
  exists emitted. split; [exact E |]. split; [exact Hlen |]. split; [exact Hall |].
  intros Hnum. rewrite (total_sunlight_equal_shares (light / inject_Z num)%Q).
  - rewrite Hlen, Z2Nat.id by lia. field.
    intros Hz. unfold Qeq in Hz. simpl in Hz. lia.
  - eapply Forall_impl; [exact Hall |]. intros s (Hs & _). exact Hs.
Qed.

(** X11. [SetupSuns], with [Random] returning values in 0..1 and
    [DEG2RAD] the conversion to radians.  It makes [n] suns for
    [_sunlight], even when that is 0, and [n] more for [_sun2] unless that
    is 0, where [n] is 1 without [_sunlight_penumbra] and [sunsamples]
    with it.  Each sun carries the [n]-th part of the intensity of its
    key, in its colour, so that the suns of a key add up to its intensity;
    all take their dirt flag from [_sunlight_dirt].  The test that is to
    keep a jittered direction within the penumbra never rejects a draw,
    radians being compared with degrees: every sun but the first of its
    key takes exactly two calls of [Random]. *)
Theorem SetupSuns_emits (fuel : nat) (suns : list Entities.sun_t) (calls : nat) :
  let num := if Qeq_bool (Entities.sun_deviance cfg) 0 then 1 else Entities.sunsamples cfg in
  let n := Z.to_nat num in
  exists first second,
    SetupSuns (S fuel) suns calls
    = Ok (suns ++ first ++ second,
          (calls + 2 * (n - 1) * (if Qeq_bool (Entities.sun2 cfg) 0 then 1 else 2))%nat)
    /\ length first = n
    /\ Forall (DomeSpec.direct_sun cfg (Entities.sunlight cfg / inject_Z num)
                 (Entities.sunlight_color cfg)) first
    /\ length second = (if Qeq_bool (Entities.sun2 cfg) 0 then 0 else n)%nat
    /\ Forall (DomeSpec.direct_sun cfg (Entities.sun2 cfg / inject_Z num)
                 (Entities.sun2_color cfg)) second
    /\ (1 <= num ->
        (SkyDomeSpec.total_sunlight first == Entities.sunlight cfg)%Q
        /\ (SkyDomeSpec.total_sunlight second == Entities.sun2 cfg)%Q).
Proof.
  intros num n. unfold Entities.SetupSuns.
  destruct (SetupSun_emits fuel (Entities.sunlight cfg) (Entities.sunlight_color cfg)
              (Entities.sunvec cfg) suns calls) as (first & E1 & Hlen1 & Hall1 & Htot1).
  fold num in E1, Hlen1, Hall1, Htot1. fold n in E1, Hlen1.
  rewrite E1. cbn [bind].
  destruct (Qeq_bool (Entities.sun2 cfg) 0) eqn:E2; cbn [negb].
  - exists first, []. rewrite app_nil_r.
    split; [f_equal; f_equal; lia |]. split; [exact Hlen1 |]. split; [exact Hall1 |].
    split; [reflexivity |]. split; [constructor |].
    intros Hnum. split; [exact (Htot1 Hnum) |].
    apply Qeq_bool_iff in E2. rewrite E2. reflexivity.
  - destruct (SetupSun_emits fuel (Entities.sun2 cfg) (Entities.sun2_color cfg)
                (Entities.sun2vec cfg) (suns ++ first) (calls + 2 * (n - 1))%nat)
      as (second & E3 & Hlen3 & Hall3 & Htot3).
    fold num in E3, Hlen3, Hall3, Htot3. fold n in E3, Hlen3.
    rewrite E3. exists first, second. rewrite <- app_assoc.
    split; [f_equal; f_equal; lia |]. split; [exact Hlen1 |]. split; [exact Hall1 |].
    split; [exact Hlen3 |]. split; [exact Hall3 |].
    intros Hnum. split; [exact (Htot1 Hnum) | exact (Htot3 Hnum)].
Qed.

End SunsEmitted.

Lemma SetupSuns_emits_witness :
  exists first second,
    Entities.SetupSuns DomeSpec.two_suns Sample.zero_fn Sample.zero_fn Sample.zero_fn
      Sample.zero_fn2 Sample.keep_vec Sample.DEG2RAD Sample.Random3 1 [] 0
    = Ok ([] ++ first ++ second, 16%nat)
    /\ length first = 5%nat /\ length second = 5%nat
    /\ (SkyDomeSpec.total_sunlight first == 200)%Q
    /\ (SkyDomeSpec.total_sunlight second == 80)%Q.
Proof.
  destruct (SetupSuns_emits DomeSpec.two_suns Sample.zero_fn Sample.zero_fn Sample.zero_fn
              Sample.zero_fn2 Sample.keep_vec Sample.DEG2RAD Sample.Random3
              Random3_range DEG2RAD_sample_small 0 [] 0)
    as (first & second & E & H1 & _ & H2 & _ & Htot).
  exists first, second. split; [exact E |]. split; [exact H1 |]. split; [exact H2 |].
  apply Htot. vm_compute. discriminate.
Defined.

(** ** light/entities.cc: targets *)

Lemma find_target_FindEntDictWithKeyPair (entdicts : list (gmap string string)) (t : string) :
  forall i,
  Entities.find_target entdicts t i
  = (fun k => (i + k)%nat) <$> Entities.FindEntDictWithKeyPair entdicts "targetname" t.
Proof.
  induction entdicts as [| d entdicts IH]; intros i; simpl; [reflexivity |].
  rewrite String.eqb_sym.
  destruct (String.eqb (Entities.EntDict_StringForKey d "targetname") t).
  - simpl. f_equal. lia.
  - rewrite IH.
    destruct (Entities.FindEntDictWithKeyPair entdicts "targetname" t); simpl;
      [f_equal; lia | reflexivity].
Qed.

Lemma FindEntDictWithKeyPair_first_aux (entdicts : list (gmap string string))
    (key value : string) :
  forall i,
  Entities.FindEntDictWithKeyPair entdicts key value = Some i ->
  exists d, entdicts !! i = Some d /\ Entities.EntDict_StringForKey d key = value.
Proof.
  induction entdicts as [| d entdicts IH]; intros i H; simpl in H; [discriminate |].
  destruct (String.eqb (Entities.EntDict_StringForKey d key) value) eqn:E.
  - injection H as <-. apply String.eqb_eq in E. exists d. split; [reflexivity | exact E].
  - destruct (Entities.FindEntDictWithKeyPair entdicts key value) as [k |]; [| discriminate].
    simpl in H. injection H as <-. exact (IH k eq_refl).
Qed.

(** X12. [FindEntDictWithKeyPair] returns the first dict of [entdicts]
    in which the key has the value, and null when there is none; a dict
    without the key counts as having the empty string there. *)
Theorem FindEntDictWithKeyPair_first (entdicts : list (gmap string string))
    (key value : string) :
  (forall i,
     Entities.FindEntDictWithKeyPair entdicts key value = Some i <->
     (exists d, entdicts !! i = Some d /\ Entities.EntDict_StringForKey d key = value)
     /\ (forall j d, (j < i)%nat -> entdicts !! j = Some d ->
           Entities.EntDict_StringForKey d key <> value))
  /\ (Entities.FindEntDictWithKeyPair entdicts key value = None <->
      Forall (fun d => Entities.EntDict_StringForKey d key <> value) entdicts).
Proof.
  induction entdicts as [| d entdicts [IHs IHn]].
  - split.
    + intros i. simpl. split; [discriminate |].
      intros [(d & Hd & _) _]. rewrite lookup_nil in Hd. discriminate.
    + simpl. split; [constructor | reflexivity].
  - cbn [Entities.FindEntDictWithKeyPair].
    destruct (String.eqb (Entities.EntDict_StringForKey d key) value) eqn:E.
    + apply String.eqb_eq in E. split.
      * intros i. split.
        -- intros [= <-]. split; [exists d; split; [reflexivity | exact E] |].
           intros j d' Hj. lia.
        -- intros [_ Hfirst]. destruct i as [| i]; [reflexivity |].
           exfalso. apply (Hfirst 0%nat d); [lia | reflexivity | exact E].
      * split; [discriminate |]. intros H. apply Forall_cons in H. destruct H as [H _].
        contradiction.
    + apply String.eqb_neq in E. split.
      * intros i. split.
        -- intros H.
           destruct (Entities.FindEntDictWithKeyPair entdicts key value) as [k |] eqn:Ek;
             [| discriminate].
           simpl in H. injection H as <-.
           destruct (proj1 (IHs k) eq_refl) as [Hd Hfirst].
           split; [exact Hd |].
           intros [| j] d' Hj Hd'; simpl in Hd'.
           ++ injection Hd' as <-. exact E.
           ++ apply (Hfirst j d'); [lia | exact Hd'].
        -- intros [(d0 & Hd0 & Hv) Hfirst].
           destruct i as [| i]; simpl in Hd0.
           ++ injection Hd0 as <-. contradiction.
           ++ assert (Hk : Entities.FindEntDictWithKeyPair entdicts key value = Some i).
              { apply IHs. split; [exists d0; auto |].
                intros j d' Hj Hd'. apply (Hfirst (S j) d'); [lia | exact Hd']. }
              rewrite Hk. reflexivity.
      * split.
        -- intros H.
           destruct (Entities.FindEntDictWithKeyPair entdicts key value) eqn:Ek;
             [discriminate |].
           apply Forall_cons. split; [exact E | apply IHn; reflexivity].
        -- intros H. apply Forall_cons in H. destruct H as [_ H].
           rewrite (proj2 IHn H). reflexivity.
Qed.

(** X13. [MatchTargets] aims a light at what [FindEntDictWithKeyPair]
    finds for [targetname] and the light's [target]: a light without a
    [target] is left as it is, although a dict without a targetname reads
    as having the empty one; a light whose target no entity carries is
    left as it is too; otherwise the light changes in [targetent] alone,
    which points at the first entity with that targetname. *)
Theorem MatchTargets_first_match (entdicts : list (gmap string string))
    (all_lights : list Entities.light_t) :
  length (Entities.MatchTargets entdicts all_lights) = length all_lights
  /\ forall i entity,
       all_lights !! i = Some entity ->
       exists entity',
         Entities.MatchTargets entdicts all_lights !! i = Some entity'
         /\ (Entities.ValueForKey entity "target" = ""%string -> entity' = entity)
         /\ (Entities.ValueForKey entity "target" <> ""%string ->
             match Entities.FindEntDictWithKeyPair entdicts "targetname"
                     (Entities.ValueForKey entity "target") with
             | Some k =>
               entity' = Entities.set_targetent (Some k) entity
               /\ exists target,
                    entdicts !! k = Some target
                    /\ Entities.EntDict_StringForKey target "targetname"
                       = Entities.ValueForKey entity "target"
             | None => entity' = entity
             end).
Proof.
  unfold Entities.MatchTargets. split; [apply length_map |].
  intros i entity Hi. exists (Entities.MatchTarget entdicts entity).
  split; [rewrite list_lookup_fmap, Hi; reflexivity |].
  unfold Entities.MatchTarget.
  rewrite find_target_FindEntDictWithKeyPair.
  destruct (Entities.ValueForKey entity "target") as [| c t] eqn:Et.
  - split; [reflexivity | congruence].
  - cbn [String.length Nat.eqb]. split; [discriminate |]. intros _.
    destruct (Entities.FindEntDictWithKeyPair entdicts "targetname" (String c t))
      as [k |] eqn:Ek; simpl; [| reflexivity].
    split; [reflexivity |].
    apply (FindEntDictWithKeyPair_first_aux entdicts "targetname" (String c t) k Ek).
Qed.
Lemma FindEntDictWithKeyPair_first_witness :
  exists d, Sample.aim_map !! 2%nat = Some d
            /\ Entities.EntDict_StringForKey d "targetname" = "t"%string.
Proof.
  apply (proj1 (proj1 (FindEntDictWithKeyPair_first Sample.aim_map "targetname" "t") 2%nat)).
  vm_compute. reflexivity.
Defined.

Lemma MatchTargets_first_match_witness :
  exists entity',
    Entities.MatchTargets Sample.aim_map [Sample.aimed_light] !! 0%nat = Some entity'
    /\ entity' = Entities.set_targetent (Some 2%nat) Sample.aimed_light.
Proof.
  destruct (proj2 (MatchTargets_first_match Sample.aim_map [Sample.aimed_light])
              0%nat Sample.aimed_light eq_refl) as (entity' & E & _ & H).
  exists entity'. split; [exact E |].
  assert (Ht : Entities.ValueForKey Sample.aimed_light "target" <> ""%string)
    by (vm_compute; discriminate).
  specialize (H Ht).
  change (Entities.FindEntDictWithKeyPair Sample.aim_map "targetname"
            (Entities.ValueForKey Sample.aimed_light "target")) with (Some 2%nat) in H.
  apply H.
Defined.

(** ** light/entities.cc: spotlights *)

Section Spotlights.

Variable cosf : Q -> Q.
Variable VectorNormalize : vec3 -> vec3.
Variable Q_PI : Q.
Variable sscanf_vec3 : string -> vec3.

Local Abbreviation SetupSpotlight :=
  (Entities.SetupSpotlight cosf VectorNormalize Q_PI sscanf_vec3).

(** X14. [SetupSpotlights] on one light.  A light with a target becomes
    a spotlight that points from its origin at the origin of the target; a
    light that neither has a target nor is a spotlight stays as it is.  On
    a spotlight the two falloffs are minus the cosines of half the angles
    of two cones: the outer angle is [angle] when that is positive and 40
    otherwise, and the inner one is [_softangle] brought into the range
    above 0 and up to the outer angle.  Origin, intensity and dict are not
    touched. *)
Theorem SetupSpotlight_cones (entdicts : list (gmap string string))
    (entity entity' : Entities.light_t) :
  SetupSpotlight entdicts entity = Ok entity' ->
  (forall i, Entities.targetent entity = Some i ->
     exists target,
       entdicts !! i = Some target
       /\ Entities.spotlight entity' = true
       /\ Entities.spotvec entity'
          = VectorNormalize
              (VectorSubtract (sscanf_vec3 (Entities.EntDict_StringForKey target "origin"))
                              (Entities.origin entity)))
  /\ (Entities.targetent entity = None ->
      Entities.spotlight entity' = Entities.spotlight entity
      /\ Entities.spotvec entity' = Entities.spotvec entity
      /\ (Entities.spotlight entity = false -> entity' = entity))
  /\ (Entities.spotlight entity' = true ->
      exists angle angle2 : Q,
        (0 < angle2 <= angle)%Q
        /\ (angle = Entities.spotangle entity
            \/ ((Entities.spotangle entity <= 0)%Q /\ angle = 40%Q))
        /\ (angle2 = Entities.spotangle2 entity \/ angle2 = angle)
        /\ Entities.spotfalloff entity' = (- cosf (angle / 2 * Q_PI / 180))%Q
        /\ Entities.spotfalloff2 entity' = (- cosf (angle2 / 2 * Q_PI / 180))%Q)
  /\ Entities.origin entity' = Entities.origin entity
  /\ Entities.light entity' = Entities.light entity
  /\ Entities.epairs entity' = Entities.epairs entity
  /\ Entities.targetent entity' = Entities.targetent entity.
Proof.
  unfold Entities.SetupSpotlight, Entities.EntDict_VectorForKey.
  set (angle_of := fun e : Entities.light_t =>
         if Qltb 0 (Entities.spotangle e) then Entities.spotangle e else 40%Q).
  assert (Hangle : forall e, (0 < angle_of e)%Q
            /\ (angle_of e = Entities.spotangle e
                \/ ((Entities.spotangle e <= 0)%Q /\ angle_of e = 40%Q))).
  { intros e. unfold angle_of. destruct (Qltb 0 (Entities.spotangle e)) eqn:E.
    - apply Qltb_lt in E. split; [exact E | left; reflexivity].
    - apply Qltb_ge in E. split; [reflexivity | right; split; [exact E | reflexivity]]. }
  assert (Hangle2 : forall (a a2 : Q), (0 < a)%Q ->
            let r := if Qle_bool a2 0 || Qltb a a2 then a else a2 in
            (0 < r <= a)%Q /\ (r = a2 \/ r = a)).
  { intros a a2 Ha. cbv zeta. destruct (Qle_bool a2 0 || Qltb a a2) eqn:E.
    - split; [split; [exact Ha | apply Qle_refl] | right; reflexivity].
    - apply orb_false_iff in E. destruct E as [E1 E2]. apply Qltb_ge in E2.
      split; [split; [| exact E2] | left; reflexivity].
      apply Qnot_le_lt. intros Hle. apply Qle_bool_iff in Hle. congruence. }
  destruct (Entities.targetent entity) as [i |] eqn:Et.
  - destruct (entdicts !! i) as [target |] eqn:Ei; cbn [bind]; [| discriminate].
    cbn [Entities.spotlight Entities.set_spotlight].
    intros H. injection H as <-.
    destruct (Hangle entity) as [Ha Hsrc].
    destruct (Hangle2 (angle_of entity) (Entities.spotangle2 entity) Ha) as [Hr Hr'].
    split; [| split; [discriminate | split]].
    + intros i' [= <-]. exists target. split; [exact Ei | split; reflexivity].
    + intros _. exists (angle_of entity). eexists. split; [exact Hr |].
      split; [exact Hsrc |]. split; [exact Hr' |]. split; reflexivity.
    + repeat split; try reflexivity. exact Et.
  - cbn [bind]. destruct (Entities.spotlight entity) eqn:Es.
    + intros H. injection H as <-.
      destruct (Hangle entity) as [Ha Hsrc].
      destruct (Hangle2 (angle_of entity) (Entities.spotangle2 entity) Ha) as [Hr Hr'].
      split; [discriminate |]. split; [| split].
      * intros _. split; [exact Es |]. split; [reflexivity | discriminate].
      * intros _. exists (angle_of entity). eexists. split; [exact Hr |].
        split; [exact Hsrc |]. split; [exact Hr' |]. split; reflexivity.
      * repeat split; try reflexivity. exact Et.
    + intros H. injection H as <-.
      split; [discriminate |]. split; [| split].
      * intros _. split; [exact Es |]. split; reflexivity.
      * rewrite Es. discriminate.
      * repeat split; try reflexivity. exact Et.
Qed.

End Spotlights.

Lemma SetupSpotlight_cones_witness :
  exists entity' (angle angle2 : Q),
    Entities.spotlight entity' = true
    /\ (0 < angle2 <= angle)%Q
    /\ Entities.spotfalloff entity' = (- Sample.zero_fn (angle / 2 * (355 # 113) / 180))%Q.
Proof.
  assert (E : exists entity',
             Entities.SetupSpotlight Sample.zero_fn Sample.keep_vec (355 # 113)
               Sample.no_sscanf Sample.aim_map
               (Entities.set_targetent (Some 2%nat) Sample.aimed_light) = Ok entity').
  { apply is_ok_returns. vm_compute. reflexivity. }
  destruct E as [entity' E].
  destruct (SetupSpotlight_cones Sample.zero_fn Sample.keep_vec (355 # 113)
              Sample.no_sscanf Sample.aim_map _ entity' E) as (Ht & _ & Hc & _).
  destruct (Ht 2%nat eq_refl) as (target & _ & Hs & _).
  destruct (Hc Hs) as (angle & angle2 & Hr & _ & _ & Hf & _).
  exists entity', angle, angle2. split; [exact Hs |]. split; [exact Hr | exact Hf].
Defined.
(** ** light/entities.cc: lights in solid *)

Lemma Qltb_proper (a a' b b' : Q) :
  (a == a')%Q -> (b == b')%Q -> Qltb a b = Qltb a' b'.
Proof.
  intros Ha Hb.
  destruct (Qltb a b) eqn:E; symmetry.
  - apply Qltb_lt. apply Qltb_lt in E. rewrite <- Ha, <- Hb. exact E.
  - apply Qltb_ge. apply Qltb_ge in E. rewrite <- Ha, <- Hb. exact E.
Qed.

Section SolidMore.

Variable PLANE_X PLANE_Y PLANE_Z : Z.
Variable CONTENTS_SOLID CONTENTS_SKY : Z.

Local Abbreviation Plane_Dist := (Entities.Plane_Dist PLANE_X PLANE_Y PLANE_Z).
Local Abbreviation Light_PointInSolid_r :=
  (Entities.Light_PointInSolid_r PLANE_X PLANE_Y PLANE_Z CONTENTS_SOLID CONTENTS_SKY).
Local Abbreviation Light_PointInSolid :=
  (Entities.Light_PointInSolid PLANE_X PLANE_Y PLANE_Z CONTENTS_SOLID CONTENTS_SKY).
Local Abbreviation FixLightOnFace :=
  (Entities.FixLightOnFace PLANE_X PLANE_Y PLANE_Z CONTENTS_SOLID CONTENTS_SKY).
Local Abbreviation FixLightOnFace_nudges :=
  (Entities.FixLightOnFace_nudges PLANE_X PLANE_Y PLANE_Z CONTENTS_SOLID CONTENTS_SKY).

(** X15. The shortcut of [Plane_Dist] for the planes of type
    [PLANE_X], [PLANE_Y] and [PLANE_Z] gives the distance of the general
    formula, on a plane whose normal is the axis that its type names. *)
Theorem Plane_Dist_axial (point : vec3) (plane : dplane_t) :
  (type plane = PLANE_X -> normal plane = (1, 0, 0)%Q) ->
  (type plane = PLANE_Y -> normal plane = (0, 1, 0)%Q) ->
  (type plane = PLANE_Z -> normal plane = (0, 0, 1)%Q) ->
  (Plane_Dist point plane == DotProduct point (normal plane) - dist plane)%Q.
Proof.
  intros HX HY HZ. unfold Entities.Plane_Dist, DotProduct.
  destruct (type plane =? PLANE_X) eqn:EX.
  { apply Z.eqb_eq in EX. rewrite (HX EX). unfold vx, vy, vz. simpl. ring. }
  destruct (type plane =? PLANE_Y) eqn:EY.
  { apply Z.eqb_eq in EY. rewrite (HY EY). unfold vx, vy, vz. simpl. ring. }
  destruct (type plane =? PLANE_Z) eqn:EZ.
  { apply Z.eqb_eq in EZ. rewrite (HZ EZ). unfold vx, vy, vz. simpl. ring. }
  reflexivity.
Qed.

Lemma FixLightOnFace_nudges_result (fuel : nat) (bsp : mbsp_t) (p q : vec3)
    (tries : list Z) :
  FixLightOnFace_nudges fuel bsp p tries = Ok q ->
  (exists i, In i tries /\ q = NudgeSpec.testpoint p i
             /\ Light_PointInSolid fuel bsp q = Ok false)
  \/ (q = p
      /\ forall i, In i tries ->
           Light_PointInSolid fuel bsp (NudgeSpec.testpoint p i) = Ok true).
Proof.
  induction tries as [| i tries IH]; cbn [Entities.FixLightOnFace_nudges].
  - intros [= <-]. right. split; [reflexivity |]. intros i [].
  - fold (NudgeSpec.nudged p (Z.to_nat (i / 2)) (if negb (i mod 2 =? 0) then 2 else -2)%Q).
    fold (NudgeSpec.testpoint p i).
    destruct (Light_PointInSolid fuel bsp (NudgeSpec.testpoint p i)) as [solid | | | |] eqn:E;
      cbn [bind]; try discriminate.
    destruct solid; cbn [negb].
    + intros H. destruct (IH H) as [(j & Hj & Hq & Hs) | [Hq Hall]].
      * left. exists j. split; [right; exact Hj | split; assumption].
      * right. split; [exact Hq |]. intros j [<- | Hj]; [exact E | exact (Hall j Hj)].
    + intros [= <-]. left. exists i. split; [left; reflexivity | split; [reflexivity | exact E]].
Qed.

(** X16. What [FixLightOnFace] returns.  A point that is not in solid
    is returned as it is.  For a point in solid the result is the point
    moved by 2 units along one axis, one way or the other, to a place that
    is not in solid; and when all six such places are in solid it is the
    point itself. *)
Theorem FixLightOnFace_result (fuel : nat) (bsp : mbsp_t) (p q : vec3) :
  FixLightOnFace fuel bsp p = Ok q ->
  (Light_PointInSolid fuel bsp p = Ok false /\ q = p)
  \/ (Light_PointInSolid fuel bsp p = Ok true
      /\ ((exists (axis : nat) (s : Q),
             (axis < 3)%nat /\ (s = 2%Q \/ s = (-2)%Q)
             /\ q = NudgeSpec.nudged p axis s
             /\ Light_PointInSolid fuel bsp q = Ok false)
          \/ (q = p
              /\ forall (axis : nat) (s : Q),
                   (axis < 3)%nat -> s = 2%Q \/ s = (-2)%Q ->
                   Light_PointInSolid fuel bsp (NudgeSpec.nudged p axis s) = Ok true))).
Proof.
  unfold Entities.FixLightOnFace.
  destruct (Light_PointInSolid fuel bsp p) as [solid | | | |] eqn:E;
    cbn [bind]; try discriminate.
  destruct solid; cbn [negb]; [| intros [= <-]; left; split; reflexivity].
  intros H. right. split; [reflexivity |].
  destruct (FixLightOnFace_nudges_result _ _ _ _ _ H) as [(i & Hi & Hq & Hs) | [Hq Hall]].
  - left. simpl in Hi.
    destruct Hi as [<- | [<- | [<- | [<- | [<- | [<- | []]]]]]];
      [exists 0%nat, (-2)%Q | exists 0%nat, 2%Q | exists 1%nat, (-2)%Q
       | exists 1%nat, 2%Q | exists 2%nat, (-2)%Q | exists 2%nat, 2%Q];
      (split; [lia |]); (split; [auto |]); (split; [exact Hq | exact Hs]).
  - right. split; [exact Hq |]. intros axis s Haxis Hs.
    assert (Hi : exists i, In i [0; 1; 2; 3; 4; 5]
                           /\ NudgeSpec.testpoint p i = NudgeSpec.nudged p axis s).
    { destruct axis as [| [| [| axis]]]; [| | | lia]; destruct Hs as [-> | ->];
        [exists 1 | exists 0 | exists 3 | exists 2 | exists 5 | exists 4];
        (split; [simpl; tauto | reflexivity]). }
    destruct Hi as (i & Hi & <-). exact (Hall i Hi).
Qed.

(** The descent of [common/bsputils.cc] with the distance of
    [Plane_Dist], next to the one of this file. *)
Lemma Light_PointInSolid_r_versions (Q2_CONTENTS_SOLID : Z)
    (distance_to_fast : dplane_t -> vec3 -> Q) (bsp : mbsp_t) (p : vec3) :
  (forall plane point, (distance_to_fast plane point == Plane_Dist point plane)%Q) ->
  game bsp <> GAME_QUAKE_II ->
  forall (fuel : nat) (n : Z),
  BspUtils.Light_PointInSolid_r CONTENTS_SOLID CONTENTS_SKY Q2_CONTENTS_SOLID
    distance_to_fast fuel bsp n p
  = Light_PointInSolid_r fuel bsp n p
  \/ (Light_PointInSolid_r fuel bsp n p = Undefined
      /\ is_fatal (BspUtils.Light_PointInSolid_r CONTENTS_SOLID CONTENTS_SKY
                     Q2_CONTENTS_SOLID distance_to_fast fuel bsp n p) = true).
Proof.
  intros Hdist Hgame fuel. induction fuel as [| fuel IH]; intros n; [left; reflexivity |].
  cbn [BspUtils.Light_PointInSolid_r Entities.Light_PointInSolid_r].
  destruct (n <? 0) eqn:En.
  - unfold BspUtils.BSP_GetLeafFromNodeNum, BspUtils.BSP_GetLeaf. cbv zeta.
    destruct ((-1 - n <? 0) || (zlen (dleafs bsp) <=? -1 - n)) eqn:Er.
    + right. split; [| reflexivity].
      unfold unchecked. rewrite nthZ_None_range; [reflexivity |].
      apply orb_true_iff in Er. destruct Er as [Er | Er];
        [left; apply Z.ltb_lt | right; apply Z.leb_le]; exact Er.
    + left. destruct (unchecked (dleafs bsp) (-1 - n)) as [leaf | | | |]; try reflexivity.
      cbn [bind]. unfold BspUtils.leaf_is_solid.
      destruct (game bsp); try reflexivity. contradiction.
  - destruct (unchecked (dnodes bsp) n) as [node | | | |]; cbn [bind]; try (left; reflexivity).
    destruct (unchecked (dplanes bsp) (planenum node)) as [plane | | | |]; cbn [bind];
      try (left; reflexivity).
    rewrite (Qltb_proper (1 # 10) (1 # 10) _ _ (Qeq_refl _) (Hdist plane p)).
    rewrite (Qltb_proper _ _ (- (1 # 10)) (- (1 # 10)) (Hdist plane p) (Qeq_refl _)).
    destruct (Qltb (1 # 10) (Plane_Dist p plane)); [apply IH |].
    destruct (Qltb (Plane_Dist p plane) (- (1 # 10))); [apply IH |].
    destruct (IH (fst (children node))) as [-> | [-> Hf]].
    + destruct (Light_PointInSolid_r fuel bsp (fst (children node)) p) as [front | | | |];
        cbn [bind]; try (left; reflexivity).
      destruct front; [left; reflexivity | apply IH].
    + right. split; [reflexivity |].
      destruct (BspUtils.Light_PointInSolid_r CONTENTS_SOLID CONTENTS_SKY Q2_CONTENTS_SOLID
                  distance_to_fast fuel bsp (fst (children node)) p);
        try discriminate Hf. reflexivity.
Qed.

(** X17. The two tests for a point in solid, the one of
    [light/entities.cc] and the one of [common/bsputils.cc], agree on a
    BSP that is not of Quake 2 when [distance_to_fast] is the distance
    that [Plane_Dist] computes and the point is within the bounds of the
    world model: they give the same answer, except that where the descent
    reaches a leaf outside the BSP the older test reads outside the array
    and the newer one stops with a fatal error. *)
Theorem Light_PointInSolid_versions_agree (Q2_CONTENTS_SOLID : Z)
    (distance_to_fast : dplane_t -> vec3 -> Q) (fuel : nat) (bsp : mbsp_t)
    (world : dmodelh2_t) (p : vec3) :
  (forall plane point, (distance_to_fast plane point == Plane_Dist point plane)%Q) ->
  game bsp <> GAME_QUAKE_II ->
  nthZ (dmodels bsp) 0 = Some world ->
  BspUtils.outside_bounds world p = false ->
  BspUtils.Light_PointInWorld CONTENTS_SOLID CONTENTS_SKY Q2_CONTENTS_SOLID
    distance_to_fast fuel bsp p
  = Light_PointInSolid fuel bsp p
  \/ (Light_PointInSolid fuel bsp p = Undefined
      /\ is_fatal (BspUtils.Light_PointInWorld CONTENTS_SOLID CONTENTS_SKY
                     Q2_CONTENTS_SOLID distance_to_fast fuel bsp p) = true).
Proof.
  intros Hdist Hgame Hworld Hin.
  unfold BspUtils.Light_PointInWorld, Entities.Light_PointInSolid, BspUtils.Light_PointInSolid,
    unchecked.
  rewrite Hworld. cbn [bind]. rewrite Hin.
  apply Light_PointInSolid_r_versions; assumption.
Qed.

End SolidMore.

Lemma Plane_Dist_axial_witness :
  (Entities.Plane_Dist Sample.PLANE_X Sample.PLANE_Y Sample.PLANE_Z (3, 4, 5)%Q
     {| normal := (1, 0, 0)%Q; dist := 1%Q; type := Sample.PLANE_X |}
   == DotProduct (3, 4, 5)%Q (1, 0, 0)%Q - 1)%Q.
Proof.
  apply (Plane_Dist_axial Sample.PLANE_X Sample.PLANE_Y Sample.PLANE_Z (3, 4, 5)%Q
           {| normal := (1, 0, 0)%Q; dist := 1%Q; type := Sample.PLANE_X |});
    simpl; intros H; (reflexivity || discriminate H).
Defined.

Lemma half_space_fix :
  exists q,
    Entities.FixLightOnFace Sample.PLANE_X Sample.PLANE_Y Sample.PLANE_Z
      Sample.CONTENTS_SOLID Sample.CONTENTS_SKY 2 Sample.half_space (-1, 0, 0)%Q = Ok q.
Proof. apply is_ok_returns. vm_compute. reflexivity. Qed.

Lemma FixLightOnFace_result_witness :
  exists q,
    Entities.FixLightOnFace Sample.PLANE_X Sample.PLANE_Y Sample.PLANE_Z
      Sample.CONTENTS_SOLID Sample.CONTENTS_SKY 2 Sample.half_space (-1, 0, 0)%Q = Ok q
    /\ (q = (-1, 0, 0)%Q
        \/ exists (axis : nat) (s : Q), q = NudgeSpec.nudged (-1, 0, 0)%Q axis s).
Proof.
  destruct half_space_fix as [q E]. exists q. split; [exact E |].
  destruct (FixLightOnFace_result Sample.PLANE_X Sample.PLANE_Y Sample.PLANE_Z
              Sample.CONTENTS_SOLID Sample.CONTENTS_SKY 2 Sample.half_space _ q E)
    as [[_ ->] | [_ [(axis & s & _ & _ & -> & _) | [-> _]]]].
  - left. reflexivity.
  - right. exists axis, s. reflexivity.
  - left. reflexivity.
Defined.

Lemma Light_PointInSolid_versions_agree_witness :
  BspUtils.Light_PointInWorld Sample.CONTENTS_SOLID Sample.CONTENTS_SKY
    Sample.Q2_CONTENTS_SOLID
    (fun plane point =>
       Entities.Plane_Dist Sample.PLANE_X Sample.PLANE_Y Sample.PLANE_Z point plane)
    2 Sample.half_space (-5, 0, 0)%Q
  = Entities.Light_PointInSolid Sample.PLANE_X Sample.PLANE_Y Sample.PLANE_Z
      Sample.CONTENTS_SOLID Sample.CONTENTS_SKY 2 Sample.half_space (-5, 0, 0)%Q
  \/ (Entities.Light_PointInSolid Sample.PLANE_X Sample.PLANE_Y Sample.PLANE_Z
        Sample.CONTENTS_SOLID Sample.CONTENTS_SKY 2 Sample.half_space (-5, 0, 0)%Q
      = Undefined
      /\ is_fatal
           (BspUtils.Light_PointInWorld Sample.CONTENTS_SOLID Sample.CONTENTS_SKY
              Sample.Q2_CONTENTS_SOLID
              (fun plane point =>
                 Entities.Plane_Dist Sample.PLANE_X Sample.PLANE_Y Sample.PLANE_Z point plane)
              2 Sample.half_space (-5, 0, 0)%Q) = true).
Proof.
  apply (Light_PointInSolid_versions_agree Sample.PLANE_X Sample.PLANE_Y Sample.PLANE_Z
           Sample.CONTENTS_SOLID Sample.CONTENTS_SKY Sample.Q2_CONTENTS_SOLID
           (fun plane point =>
              Entities.Plane_Dist Sample.PLANE_X Sample.PLANE_Y Sample.PLANE_Z point plane)
           2 Sample.half_space Sample.half_space_model (-5, 0, 0)%Q).
  - intros plane point. reflexivity.
  - discriminate.
  - reflexivity.
  - vm_compute. reflexivity.
Defined.

(** ** light/entities.cc: the bounds and the cut of a polygon *)

Lemma BoundPoly_fold (step : vec3 * vec3 -> vec3 -> vec3 * vec3) (verts : list vec3) :
  (forall acc v j, (j < 3)%nat ->
     (vidx (fst (step acc v)) j <= vidx (fst acc) j)%Q
     /\ (vidx (snd acc) j <= vidx (snd (step acc v)) j)%Q
     /\ (vidx (fst (step acc v)) j <= vidx v j <= vidx (snd (step acc v)) j)%Q) ->
  forall acc,
  (forall j, (j < 3)%nat ->
     (vidx (fst (fold_left step verts acc)) j <= vidx (fst acc) j)%Q
     /\ (vidx (snd acc) j <= vidx (snd (fold_left step verts acc)) j)%Q)
  /\ Forall (fun v => forall j, (j < 3)%nat ->
               (vidx (fst (fold_left step verts acc)) j <= vidx v j
                <= vidx (snd (fold_left step verts acc)) j)%Q) verts.
Proof.
  intros Hstep. induction verts as [| v verts IH]; intros acc; cbn [fold_left].
  - split; [intros j _; split; apply Qle_refl | constructor].
  - destruct (IH (step acc v)) as [Hmono Hall]. split.
    + intros j Hj. destruct (Hmono j Hj) as [H1 H2].
      destruct (Hstep acc v j Hj) as (H3 & H4 & _).
      split; eapply Qle_trans; eassumption.
    + constructor; [| exact Hall].
      intros j Hj. destruct (Hmono j Hj) as [H1 H2].
      destruct (Hstep acc v j Hj) as (_ & _ & H5 & H6).
      split; eapply Qle_trans; eassumption.
Qed.

Lemma BoundPoly_holds (verts : list vec3) :
  Forall (fun v => forall j, (j < 3)%nat ->
            (vidx (fst (Entities.BoundPoly verts)) j <= vidx v j
             <= vidx (snd (Entities.BoundPoly verts)) j)%Q) verts
  /\ forall j, (j < 3)%nat ->
       (vidx (fst (Entities.BoundPoly verts)) j <= 9999)%Q
       /\ (-9999 <= vidx (snd (Entities.BoundPoly verts)) j)%Q.
Proof.
  unfold Entities.BoundPoly.
  match goal with
  | |- context [fold_left ?f _ ?init] =>
    set (step := f); pose proof (BoundPoly_fold step verts) as H
  end.
  assert (Hstep : forall acc v j, (j < 3)%nat ->
     (vidx (fst (step acc v)) j <= vidx (fst acc) j)%Q
     /\ (vidx (snd acc) j <= vidx (snd (step acc v)) j)%Q
     /\ (vidx (fst (step acc v)) j <= vidx v j <= vidx (snd (step acc v)) j)%Q).
  { intros [[[a b] c] [[d e] f]] [[x y] z] j Hj. unfold step.
    destruct j as [| [| [| j]]]; [| | | lia]; cbn;
      repeat match goal with
             | |- context [Qltb ?u ?w] =>
               lazymatch u with context [if _ then _ else _] => fail | _ => idtac end;
               lazymatch w with context [if _ then _ else _] => fail | _ => idtac end;
               let E := fresh "E" in
               destruct (Qltb u w) eqn:E;
               [apply Qltb_lt in E | apply Qltb_ge in E]; cbn
             end;
      repeat split; lra. }
  specialize (H Hstep ((9999, 9999, 9999)%Q, (-9999, -9999, -9999)%Q)).
  destruct H as [Hmono Hall]. fold step in Hmono, Hall.
  split; [exact Hall |].
  intros j Hj. destruct (Hmono j Hj) as [H1 H2].
  destruct j as [| [| [| j]]]; [| | | lia]; cbn in H1, H2; split; assumption.
Qed.


Lemma BoundPoly_fold_step (verts : list vec3) :
  Entities.BoundPoly verts
  = fold_left SubdivideSpec.bound_step verts
      ((9999, 9999, 9999)%Q, (-9999, -9999, -9999)%Q).
Proof. reflexivity. Qed.

Lemma bound_step_axis (acc : vec3 * vec3) (v : vec3) (k : nat) :
  (k < 3)%nat ->
  vidx (fst (SubdivideSpec.bound_step acc v)) k
  = (if Qltb (vidx v k) (vidx (fst acc) k) then vidx v k else vidx (fst acc) k)
  /\ vidx (snd (SubdivideSpec.bound_step acc v)) k
     = (if Qltb (vidx (snd acc) k) (vidx v k) then vidx v k else vidx (snd acc) k).
Proof.
  destruct acc as [[[a b] c] [[d e] f]]. destruct v as [[x y] z]. intros Hk.
  unfold SubdivideSpec.bound_step.
  destruct k as [| [| [| k]]]; [| | | lia]; cbn;
    repeat match goal with
           | |- context [Qltb ?u ?w] =>
             lazymatch u with context [if _ then _ else _] => fail | _ => idtac end;
             lazymatch w with context [if _ then _ else _] => fail | _ => idtac end;
             destruct (Qltb u w); cbn
           end;
    split; reflexivity.
Qed.

(** Bounds that hold all the vertices, and the starting values, hold the
    bounds that [BoundPoly] returns. *)
Lemma BoundPoly_within (verts : list vec3) (k : nat) (L U : Q) :
  (k < 3)%nat ->
  Forall (fun v => (L <= vidx v k <= U)%Q) verts ->
  (L <= 9999)%Q -> (-9999 <= U)%Q ->
  (L <= vidx (fst (Entities.BoundPoly verts)) k)%Q
  /\ (vidx (snd (Entities.BoundPoly verts)) k <= U)%Q.
Proof.
  intros Hk Hall HL HU. rewrite BoundPoly_fold_step.
  assert (Hgen : forall acc,
             (L <= vidx (fst acc) k)%Q /\ (vidx (snd acc) k <= U)%Q ->
             (L <= vidx (fst (fold_left SubdivideSpec.bound_step verts acc)) k)%Q
             /\ (vidx (snd (fold_left SubdivideSpec.bound_step verts acc)) k <= U)%Q).
  { induction Hall as [| v verts Hv _ IH]; intros acc Hacc; [exact Hacc |].
    cbn [fold_left]. apply IH.
    destruct (bound_step_axis acc v k Hk) as [-> ->].
    destruct (Qltb (vidx v k) (vidx (fst acc) k));
      destruct (Qltb (vidx (snd acc) k) (vidx v k)); split; lra. }
  apply Hgen.
  destruct k as [| [| [| k]]]; [| | | lia]; cbn; split; assumption.
Qed.

Lemma between (L U a b t : Q) :
  (L <= a <= U)%Q -> (L <= b <= U)%Q -> (0 <= t <= 1)%Q ->
  (L <= a + t * (b - a) <= U)%Q.
Proof.
  intros [Ha1 Ha2] [Hb1 Hb2] [Ht1 Ht2].
  assert (H1 : (0 <= (1 - t) * (a - L))%Q) by (apply Qmult_le_0_compat; lra).
  assert (H2 : (0 <= t * (b - L))%Q) by (apply Qmult_le_0_compat; lra).
  assert (H3 : (0 <= (1 - t) * (U - a))%Q) by (apply Qmult_le_0_compat; lra).
  assert (H4 : (0 <= t * (U - b))%Q) by (apply Qmult_le_0_compat; lra).
  split; lra.
Qed.

Lemma clip_fraction (d d1 : Q) :
  Qltb 0 d <> Qltb 0 d1 -> (0 <= d / (d - d1) <= 1)%Q.
Proof.
  intros Hsign.
  destruct (Qltb 0 d) eqn:E1; destruct (Qltb 0 d1) eqn:E2; try congruence.
  - apply Qltb_lt in E1. apply Qltb_ge in E2.
    assert (Hc : (0 < d - d1)%Q) by lra. split.
    + apply Qle_shift_div_l; [exact Hc | lra].
    + apply Qle_shift_div_r; [exact Hc | lra].
  - apply Qltb_ge in E1. apply Qltb_lt in E2.
    assert (Hc : (0 < d1 - d)%Q) by lra.
    assert (E : (d / (d - d1) == (- d) / (d1 - d))%Q) by (field; split; lra).
    rewrite E. split.
    + apply Qle_shift_div_l; [exact Hc | lra].
    + apply Qle_shift_div_r; [exact Hc | lra].
Qed.

(** The cut keeps within any bounds along an axis that hold the vertices. *)
Lemma clip_verts_within (k : nat) (L U : Q) :
  (k < 3)%nat ->
  forall (l : list (vec3 * Q)) (first : vec3 * Q),
  Forall (fun p => (L <= vidx (fst p) k <= U)%Q) (first :: l) ->
  Forall (fun v => (L <= vidx v k <= U)%Q) (fst (Entities.clip_verts first l))
  /\ Forall (fun v => (L <= vidx v k <= U)%Q) (snd (Entities.clip_verts first l)).
Proof.
  intros Hk l first Hd. apply Forall_cons in Hd. destruct Hd as [Hfirst Hl].
  induction l as [| [v d] rest IH].
  - simpl. split; constructor.
  - apply Forall_cons in Hl. destruct Hl as [Hv Hrest]. cbn [fst] in Hv.
    specialize (IH Hrest). destruct IH as (IHf & IHb).
    cbn [Entities.clip_verts].
    set (next := match rest with [] => first | x :: _ => x end).
    assert (Hnext : (L <= vidx (fst next) k <= U)%Q).
    { unfold next. destruct rest as [| x rest']; [exact Hfirst |].
      apply Forall_cons in Hrest. apply Hrest. }
    destruct next as [v1 d1]. cbn [fst] in Hnext.
    destruct (Entities.clip_verts first rest) as [front back]. cbn [fst snd] in *.
    set (p := (vx v + d / (d - d1) * (vx v1 - vx v),
               vy v + d / (d - d1) * (vy v1 - vy v),
               vz v + d / (d - d1) * (vz v1 - vz v))%Q).
    assert (Hp : negb (Bool.eqb (Qltb 0 d) (Qltb 0 d1)) = true ->
                 (L <= vidx p k <= U)%Q).
    { intros Hsign. apply negb_true_iff, eqb_false_iff in Hsign.
      pose proof (clip_fraction d d1 Hsign) as Ht. unfold p.
      destruct k as [| [| [| k]]]; [| | | lia]; cbn [vidx vx vy vz fst snd] in *;
        apply between; assumption. }
    assert (Hclip :
      forall fb : list vec3 * list vec3,
      fb = (if Qeq_bool d 0 || Qeq_bool d1 0 then (front, back)
            else if negb (Bool.eqb (Qltb 0 d) (Qltb 0 d1)) then (p :: front, p :: back)
                 else (front, back)) ->
      Forall (fun v => (L <= vidx v k <= U)%Q) (fst fb)
      /\ Forall (fun v => (L <= vidx v k <= U)%Q) (snd fb)).
    { intros fb ->.
      destruct (Qeq_bool d 0 || Qeq_bool d1 0); [cbn [fst snd]; auto |].
      destruct (negb (Bool.eqb (Qltb 0 d) (Qltb 0 d1))) eqn:Es; [| cbn [fst snd]; auto].
      cbn [fst snd]. specialize (Hp eq_refl).
      split; constructor; assumption. }
    match goal with
    | |- context [let '(f0, b0) := ?c in _] =>
      specialize (Hclip c eq_refl); destruct c as [front' back']
    end.
    cbn [fst snd] in Hclip. destruct Hclip as (Hf' & Hb').
    split.
    + destruct (Qle_bool 0 d); [constructor |]; assumption.
    + destruct (Qle_bool d 0); [constructor |]; assumption.
Qed.

Lemma cut_polygon_within (verts : list vec3) (i : nat) (m : Q) (front back : list vec3)
    (k : nat) (L U : Q) :
  (k < 3)%nat ->
  Entities.cut_polygon verts i m = Ok (front, back) ->
  Forall (fun v => (L <= vidx v k <= U)%Q) verts ->
  Forall (fun v => (L <= vidx v k <= U)%Q) front
  /\ Forall (fun v => (L <= vidx v k <= U)%Q) back.
Proof.
  intros Hk. unfold Entities.cut_polygon. cbv zeta.
  destruct verts as [| v0 verts0].
  { simpl. intros [= <- <-] _. split; constructor. }
  intros H Hall.
  set (dists := map (fun v => (v, (vidx v i - m)%Q)) (v0 :: verts0)) in *.
  assert (Hd : Forall (fun p => (L <= vidx (fst p) k <= U)%Q) dists).
  { unfold dists. apply Forall_forall. intros p Hp.
    apply list_elem_of_In, in_map_iff in Hp. destruct Hp as (v & <- & Hv).
    rewrite Forall_forall in Hall. apply Hall, list_elem_of_In, Hv. }
  assert (Hdists : dists = (v0, (vidx v0 i - m)%Q) :: map (fun v => (v, (vidx v i - m)%Q)) verts0)
    by reflexivity.
  rewrite Hdists in H at 1.
  pose proof (clip_verts_within k L U Hk dists (v0, (vidx v0 i - m)%Q)
                ltac:(constructor; [apply Forall_cons in Hall; apply Hall | exact Hd]))
    as (Hf & Hb).
  destruct (Entities.clip_verts (v0, (vidx v0 i - m)%Q) dists) as [front' back'].
  cbn [fst snd] in *.
  destruct ((64 <? zlen front') || (64 <? zlen back')); [discriminate |].
  injection H as <- <-. split; assumption.
Qed.

(** X18. [BoundPoly] returns bounds that hold every vertex of the
    polygon along every axis.  They start from 9999 and -9999, so the
    lower bound is never above 9999 and the upper one never below -9999;
    within that they are the tightest: bounds along an axis that hold
    every vertex, the lower one not above 9999 and the upper one not below
    -9999, hold the bounds returned. *)
Theorem BoundPoly_bounds (verts : list vec3) (mins maxs : vec3) :
  Entities.BoundPoly verts = (mins, maxs) ->
  Forall (fun v => forall j, (j < 3)%nat ->
            (vidx mins j <= vidx v j <= vidx maxs j)%Q) verts
  /\ (forall j, (j < 3)%nat -> (vidx mins j <= 9999)%Q /\ (-9999 <= vidx maxs j)%Q)
  /\ (forall (k : nat) (L U : Q),
        (k < 3)%nat ->
        Forall (fun v => (L <= vidx v k <= U)%Q) verts ->
        (L <= 9999)%Q -> (-9999 <= U)%Q ->
        (L <= vidx mins k)%Q /\ (vidx maxs k <= U)%Q).
Proof.
  intros E. pose proof (BoundPoly_holds verts) as [Hall Hinit].
  pose proof (BoundPoly_within verts) as Htight.
  rewrite E in Hall, Hinit, Htight. cbn [fst snd] in Hall, Hinit, Htight.
  split; [exact Hall |]. split; [exact Hinit |].
  intros k L U Hk Hv HL HU. exact (Htight k L U Hk Hv HL HU).
Qed.

Lemma BoundPoly_bounds_witness :
  Forall (fun v => forall j, (j < 3)%nat ->
            (vidx (fst (Entities.BoundPoly Sample.lava_quad)) j <= vidx v j
             <= vidx (snd (Entities.BoundPoly Sample.lava_quad)) j)%Q) Sample.lava_quad.
Proof.
  apply (BoundPoly_bounds Sample.lava_quad). apply surjective_pairing.
Defined.

Lemma clip_verts_sides (i : nat) (m : Q) :
  (i < 3)%nat ->
  forall (l : list (vec3 * Q)) (first : vec3 * Q),
  Forall (fun p => snd p = (vidx (fst p) i - m)%Q) (first :: l) ->
  Forall (fun v => (m <= vidx v i)%Q) (fst (Entities.clip_verts first l))
  /\ Forall (fun v => (vidx v i <= m)%Q) (snd (Entities.clip_verts first l))
  /\ Forall (fun p => In (fst p) (fst (Entities.clip_verts first l))
                      \/ In (fst p) (snd (Entities.clip_verts first l))) l.
Proof.
  intros Hi l first Hd. apply Forall_cons in Hd. destruct Hd as [Hfirst Hl].
  induction l as [| [v d] rest IH].
  - simpl. repeat split; constructor.
  - apply Forall_cons in Hl. destruct Hl as [Hv Hrest]. cbn [fst snd] in Hv.
    specialize (IH Hrest). destruct IH as (IHf & IHb & IHin).
    cbn [Entities.clip_verts].
    set (next := match rest with [] => first | x :: _ => x end).
    assert (Hnext : snd next = (vidx (fst next) i - m)%Q).
    { unfold next. destruct rest as [| x rest']; [exact Hfirst |].
      apply Forall_cons in Hrest. apply Hrest. }
    destruct next as [v1 d1]. cbn [fst snd] in Hnext.
    destruct (Entities.clip_verts first rest) as [front back]. cbn [fst snd] in *.
    set (p := (vx v + d / (d - d1) * (vx v1 - vx v),
               vy v + d / (d - d1) * (vy v1 - vy v),
               vz v + d / (d - d1) * (vz v1 - vz v))%Q).
    assert (Hp : negb (Bool.eqb (Qltb 0 d) (Qltb 0 d1)) = true -> (vidx p i == m)%Q).
    { intros Hsign. apply negb_true_iff, eqb_false_iff in Hsign.
      assert (Hne : ~ (d - d1 == 0)%Q).
      { intros Hz.
        destruct (Qltb 0 d) eqn:E1; destruct (Qltb 0 d1) eqn:E2; try congruence;
          [apply Qltb_lt in E1; apply Qltb_ge in E2
          | apply Qltb_ge in E1; apply Qltb_lt in E2]; lra. }
      subst d d1. unfold p.
      destruct i as [| [| [| i]]]; [| | | lia]; cbn [vidx vx vy vz fst snd] in *;
        field; exact Hne. }
    assert (Hclip :
      forall fb : list vec3 * list vec3,
      fb = (if Qeq_bool d 0 || Qeq_bool d1 0 then (front, back)
            else if negb (Bool.eqb (Qltb 0 d) (Qltb 0 d1)) then (p :: front, p :: back)
                 else (front, back)) ->
      Forall (fun v => (m <= vidx v i)%Q) (fst fb)
      /\ Forall (fun v => (vidx v i <= m)%Q) (snd fb)
      /\ (forall x, In x front -> In x (fst fb))
      /\ (forall x, In x back -> In x (snd fb))).
    { intros fb ->.
      destruct (Qeq_bool d 0 || Qeq_bool d1 0); [cbn [fst snd]; auto |].
      destruct (negb (Bool.eqb (Qltb 0 d) (Qltb 0 d1))) eqn:Es; [| cbn [fst snd]; auto].
      cbn [fst snd]. specialize (Hp eq_refl).
      split; [constructor; [rewrite Hp; apply Qle_refl | exact IHf] |].
      split; [constructor; [rewrite Hp; apply Qle_refl | exact IHb] |].
      split; intros x Hx; right; exact Hx. }
    match goal with
    | |- context [let '(f0, b0) := ?c in _] =>
      specialize (Hclip c eq_refl); destruct c as [front' back']
    end.
    cbn [fst snd] in Hclip. destruct Hclip as (Hf' & Hb' & Hinf & Hinb).
    split; [| split].
    + destruct (Qle_bool 0 d) eqn:E; [| exact Hf'].
      constructor; [| exact Hf']. apply Qle_bool_iff in E. subst d. lra.
    + destruct (Qle_bool d 0) eqn:E; [| exact Hb'].
      constructor; [| exact Hb']. apply Qle_bool_iff in E. subst d. lra.
    + constructor.
      * cbn [fst]. destruct (Qle_bool 0 d) eqn:E; [left; left; reflexivity |].
        right. destruct (Qle_bool d 0) eqn:E'; [left; reflexivity |].
        exfalso.
        assert (H1 : ~ (0 <= d)%Q) by (intros H; apply Qle_bool_iff in H; congruence).
        assert (H2 : ~ (d <= 0)%Q) by (intros H; apply Qle_bool_iff in H; congruence).
        lra.
      * eapply Forall_impl; [exact IHin |].
        intros q [Hq | Hq]; [left | right].
        -- destruct (Qle_bool 0 d); [right |]; apply Hinf; exact Hq.
        -- destruct (Qle_bool d 0); [right |]; apply Hinb; exact Hq.
Qed.

Lemma cut_polygon_split (verts : list vec3) (i : nat) (m : Q) (front back : list vec3) :
  (i < 3)%nat ->
  Entities.cut_polygon verts i m = Ok (front, back) ->
  Forall (fun v => (m <= vidx v i)%Q) front
  /\ Forall (fun v => (vidx v i <= m)%Q) back
  /\ Forall (fun v => In v front \/ In v back) verts.
Proof.
  intros Hi. unfold Entities.cut_polygon. cbv zeta.
  destruct verts as [| v0 verts0].
  { simpl. intros [= <- <-]. repeat split; constructor. }
  set (verts := v0 :: verts0).
  set (dists := map (fun v => (v, (vidx v i - m)%Q)) verts).
  assert (Hd : Forall (fun p => snd p = (vidx (fst p) i - m)%Q) dists).
  { unfold dists. apply Forall_forall. intros p Hp.
    apply list_elem_of_In, in_map_iff in Hp. destruct Hp as (v & <- & _). reflexivity. }
  change (map (fun v => (v, (vidx v i - m)%Q)) (v0 :: verts0)) with dists.
  assert (Hdists : dists = (v0, (vidx v0 i - m)%Q) :: map (fun v => (v, (vidx v i - m)%Q)) verts0)
    by reflexivity.
  rewrite Hdists at 1.
  pose proof (clip_verts_sides i m Hi dists (v0, (vidx v0 i - m)%Q)
                ltac:(constructor; [reflexivity | exact Hd])) as (Hf & Hb & Hin).
  destruct (Entities.clip_verts (v0, (vidx v0 i - m)%Q) dists) as [front' back'].
  cbn [fst snd] in *.
  destruct ((64 <? zlen front') || (64 <? zlen back')); [discriminate |].
  intros [= <- <-]. split; [exact Hf |]. split; [exact Hb |].
  apply Forall_forall. intros v Hv.
  rewrite Forall_forall in Hin. apply (Hin (v, (vidx v i - m)%Q)).
  unfold dists. apply list_elem_of_In, in_map_iff. exists v. split; [reflexivity |].
  apply list_elem_of_In. exact Hv.
Qed.


(** X19. The cut of [SubdividePolygon] along an axis at [m].  Every
    vertex it puts in the front polygon lies at or above [m] on that axis,
    and every vertex of the back polygon at or below: the points it adds
    where an edge crosses lie at [m] exactly.  No vertex of the polygon is
    lost: each is in the front polygon or in the back one.  And the two
    polygons stay within any bounds along an axis that hold the polygon
    that is cut. *)
Theorem cut_polygon_sides (verts : list vec3) (i : nat) (m : Q) (front back : list vec3) :
  (i < 3)%nat ->
  Entities.cut_polygon verts i m = Ok (front, back) ->
  Forall (fun v => (m <= vidx v i)%Q) front
  /\ Forall (fun v => (vidx v i <= m)%Q) back
  /\ Forall (fun v => In v front \/ In v back) verts
  /\ (forall (k : nat) (L U : Q),
        (k < 3)%nat ->
        Forall (fun v => (L <= vidx v k <= U)%Q) verts ->
        Forall (fun v => (L <= vidx v k <= U)%Q) front
        /\ Forall (fun v => (L <= vidx v k <= U)%Q) back).
Proof.
  intros Hi E. destruct (cut_polygon_split verts i m front back Hi E) as (Hf & Hb & Hin).
  split; [exact Hf |]. split; [exact Hb |]. split; [exact Hin |].
  intros k L U Hk Hall. exact (cut_polygon_within verts i m front back k L U Hk E Hall).
Qed.

Lemma cut_polygon_sides_witness :
  exists front back,
    Entities.cut_polygon Sample.lava_quad 0 16 = Ok (front, back)
    /\ Forall (fun v => (16 <= vidx v 0)%Q) front
    /\ Forall (fun v => (vidx v 0 <= 16)%Q) back.
Proof.
  assert (E : exists r, Entities.cut_polygon Sample.lava_quad 0 16 = Ok r).
  { apply is_ok_returns. vm_compute. reflexivity. }
  destruct E as [[front back] E].
  destruct (cut_polygon_sides Sample.lava_quad 0 16 front back ltac:(lia) E) as (Hf & Hb & _ & _).
  exists front, back. split; [exact E |]. split; [exact Hf | exact Hb].
Defined.
(** ** light/entities.cc: MakeSurfaceLights without surface lights *)

(** X20. On lights none of which has a [_surface] value,
    [MakeSurfaceLights] returns at once: the lights are as they were, no
    template is kept, and the BSP is not read (no face is visited,
    whatever the BSP holds). *)
Theorem MakeSurfaceLights_without_templates
    (cfg : Entities.globals_t) (atoi : string -> Z) (atof : string -> Q)
    (Q_strcasecmp : string -> string -> Z) (CONTENTS_EMPTY : Z)
    (ModelInfoForFace : mbsp_t -> Z -> option Entities.modelinfo_t)
    (fuel : nat) (bsp : mbsp_t) (all_lights : list Entities.light_t) :
  Forall (fun entity => Entities.ValueForKey entity "_surface" = ""%string) all_lights ->
  Entities.MakeSurfaceLights cfg atoi atof Q_strcasecmp CONTENTS_EMPTY ModelInfoForFace
    fuel bsp all_lights []
  = Ok (all_lights, []).
Proof.
  intros Hnone. unfold Entities.MakeSurfaceLights.
  rewrite collect_templates_spec.
  assert (Hmap : map SurfaceLightSpec.neutralized all_lights = all_lights
                 /\ List.filter SurfaceLightSpec.has_surface all_lights = []).
  { induction Hnone as [| e l He _ [IH1 IH2]]; [split; reflexivity |].
    cbn [map List.filter]. unfold SurfaceLightSpec.neutralized at 1.
    unfold SurfaceLightSpec.has_surface at 1 2. rewrite He. cbn [String.eqb negb].
    rewrite IH1, IH2. split; reflexivity. }
  destruct Hmap as [-> ->]. reflexivity.
Qed.

Lemma MakeSurfaceLights_without_templates_witness :
  Entities.MakeSurfaceLights Sample.dome_cfg Sample.atoi0 Sample.atof0 Sample.strcmp01
    Sample.CONTENTS_EMPTY Sample.every_face 0 Sample.lava_floor [Sample.jitter_light] []
  = Ok ([Sample.jitter_light], []).
Proof.
  apply MakeSurfaceLights_without_templates.
  apply Forall_cons. split; [vm_compute; reflexivity | apply List.Forall_nil].
Defined.

(** ** The vertices of a face, in both files *)

Lemma face_vertex_both (bsp : mbsp_t) (face : mface_t) (j : Z) (p : vec3) :
  0 <= j < numedges face ->
  BspUtils.Face_PointAtIndex bsp face j = Ok p <->
  (do edgenum <- unchecked (dsurfedges bsp) (firstedge face + j);
   if 0 <=? edgenum
   then do e <- unchecked (dedges bsp) edgenum; unchecked (dvertexes bsp) (fst e)
   else do e <- unchecked (dedges bsp) (- edgenum); unchecked (dvertexes bsp) (snd e))
  = Ok p.
Proof.
  intros [Hj0 Hj1].
  unfold BspUtils.Face_PointAtIndex, BspUtils.Face_VertexAtIndex, BspUtils.Vertex_GetPos.
  assert (E0 : (0 <=? j) = true) by (apply Z.leb_le; exact Hj0).
  assert (E1 : (j <? numedges face) = true) by (apply Z.ltb_lt; exact Hj1).
  rewrite E0, E1. cbn [BspUtils.Q_assert bind].
  destruct (unchecked (dsurfedges bsp) (firstedge face + j)) as [edge | | | |];
    cbn [bind]; [| split; discriminate ..].
  assert (Hv : forall num,
             (do _ <- BspUtils.Q_assert (BspUtils.in_range num (dvertexes bsp));
              unchecked (dvertexes bsp) num) = Ok p
             <-> unchecked (dvertexes bsp) num = Ok p).
  { intros num. unfold unchecked.
    destruct (nthZ (dvertexes bsp) num) as [x |] eqn:En.
    - apply nthZ_Some_range in En. unfold BspUtils.in_range.
      assert (Er : (0 <=? num) && (num <? zlen (dvertexes bsp)) = true).
      { apply andb_true_iff. split; [apply Z.leb_le | apply Z.ltb_lt]; lia. }
      rewrite Er. reflexivity.
    - destruct (BspUtils.in_range num (dvertexes bsp)); cbn; split; discriminate. }
  replace (0 <=? edge) with (negb (edge <? 0))
    by (destruct (Z.ltb_spec edge 0); destruct (Z.leb_spec 0 edge); try reflexivity; lia).
  destruct (edge <? 0); cbn [negb].
  - destruct (unchecked (dedges bsp) (- edge)) as [e | | | |]; cbn [bind];
      [apply Hv | split; discriminate ..].
  - destruct (unchecked (dedges bsp) edge) as [e | | | |]; cbn [bind];
      [apply Hv | split; discriminate ..].
Qed.

Lemma face_points_face_verts (bsp : mbsp_t) (face : mface_t) (n : nat) :
  forall j : Z,
  0 <= j -> j + Z.of_nat n <= numedges face -> j + Z.of_nat n <= 64 ->
  (exists pts, BspUtils.face_points n bsp face j = Ok pts
               /\ Entities.face_verts n bsp face j = Ok pts)
  \/ (is_ok (BspUtils.face_points n bsp face j) = false
      /\ is_ok (Entities.face_verts n bsp face j) = false).
Proof.
  induction n as [| n IH]; intros j Hj Hn H64; [left; exists []; split; reflexivity |].
  cbn [BspUtils.face_points Entities.face_verts].
  assert (E64 : (64 <=? j) = false) by (apply Z.leb_gt; lia).
  pose proof (fun p => face_vertex_both bsp face j p ltac:(lia)) as Hp.
  destruct (unchecked (dsurfedges bsp) (firstedge face + j)) as [edge | | | |];
    cbn [bind] in Hp |- *.
  2-5: right; split; [| reflexivity];
       destruct (BspUtils.Face_PointAtIndex bsp face j) as [p | | | |]; try reflexivity;
       pose proof (proj1 (Hp p) eq_refl) as Hbad; discriminate Hbad.
  match goal with
  | |- context [bind ?c _] =>
    lazymatch c with
    | (if _ then _ else _) => destruct c as [v | | | |] eqn:Ev
    end
  end; cbn [bind].
  2-5: right; split; [| reflexivity];
       destruct (BspUtils.Face_PointAtIndex bsp face j) as [p | | | |]; try reflexivity;
       pose proof (proj1 (Hp p) eq_refl) as Hbad; discriminate Hbad.
  rewrite (proj2 (Hp v) eq_refl). cbn [bind]. rewrite E64.
  destruct (IH (j + 1) ltac:(lia) ltac:(lia) ltac:(lia)) as [(rest & -> & ->) | [Ha Hb]].
  - left. exists (v :: rest). split; reflexivity.
  - right.
    destruct (BspUtils.face_points n bsp face (j + 1)); try discriminate Ha;
      destruct (Entities.face_verts n bsp face (j + 1)); try discriminate Hb;
      split; reflexivity.
Qed.

(** X21. The vertex loop of [GL_SubdivideSurface] in
    [light/entities.cc] and [GLM_FacePoints] of [common/bsputils.cc] read
    the same polygon off a face of at most 64 edges: one returns a list of
    points exactly when the other returns it. *)
Theorem face_verts_GLM_FacePoints (bsp : mbsp_t) (face : mface_t) (pts : list vec3) :
  numedges face <= 64 ->
  BspUtils.GLM_FacePoints bsp face = Ok pts <->
  Entities.face_verts (Z.to_nat (numedges face)) bsp face 0 = Ok pts.
Proof.
  intros H64. unfold BspUtils.GLM_FacePoints.
  destruct (Z.le_gt_cases (numedges face) 0) as [Hneg | Hpos].
  { replace (Z.to_nat (numedges face)) with 0%nat by lia. reflexivity. }
  destruct (face_points_face_verts bsp face (Z.to_nat (numedges face)) 0
              ltac:(lia) ltac:(lia) ltac:(lia))
    as [(pts' & Ea & Eb) | [Ha Hb]].
  - rewrite Ea, Eb. reflexivity.
  - destruct (BspUtils.face_points (Z.to_nat (numedges face)) bsp face 0);
      try discriminate Ha;
      destruct (Entities.face_verts (Z.to_nat (numedges face)) bsp face 0);
      try discriminate Hb; split; discriminate.
Qed.

Lemma face_verts_GLM_FacePoints_witness :
  BspUtils.GLM_FacePoints Sample.lava_floor Sample.lava_face = Ok Sample.lava_quad.
Proof.
  apply (face_verts_GLM_FacePoints Sample.lava_floor Sample.lava_face Sample.lava_quad).
  - simpl. lia.
  - vm_compute. reflexivity.
Defined.
(** ** light/entities.cc: SubdividePolygon comes to an end *)






Section Termination.

Variable atoi : string -> Z.
Variable atof : string -> Q.
Variable Q_strcasecmp : string -> string -> Z.

Local Abbreviation SubdividePolygon := (Entities.SubdividePolygon atoi atof Q_strcasecmp).
Local Abbreviation subdivision_lights := (Entities.subdivision_lights atoi atof Q_strcasecmp).






End Termination.



(** ** common/bsputils.cc: the checked accessors *)

Lemma nthZ_None_outside {A} (l : list A) (i : Z) :
  nthZ l i = None -> i < 0 \/ zlen l <= i.
Proof.
  unfold nthZ, zlen. destruct (i <? 0) eqn:E; [intros _; left; apply Z.ltb_lt, E |].
  intros H. apply nth_error_None in H. apply Z.ltb_ge in E. right. lia.
Qed.

Lemma checked_read {A} (l : list A) (i : Z) :
  (do _ <- BspUtils.Q_assert (BspUtils.in_range i l); unchecked l i)
  = match nthZ l i with
    | Some x => Ok x
    | None => AssertFail
    end.
Proof.
  unfold unchecked. destruct (nthZ l i) as [x |] eqn:E.
  - apply nthZ_Some_range in E. unfold BspUtils.in_range.
    assert (Er : (0 <=? i) && (i <? zlen l) = true).
    { apply andb_true_iff. split; [apply Z.leb_le | apply Z.ltb_lt]; lia. }
    rewrite Er. reflexivity.
  - destruct (BspUtils.in_range i l) eqn:Er; [| reflexivity]. exfalso.
    unfold BspUtils.in_range in Er. apply andb_true_iff in Er. destruct Er as [E0 E1].
    apply Z.leb_le in E0. apply Z.ltb_lt in E1.
    unfold nthZ in E. assert (E2 : (i <? 0) = false) by (apply Z.ltb_ge; lia).
    rewrite E2 in E. apply nth_error_None in E. unfold zlen in E1. lia.
Qed.

(** X23. The bounds-checked accessors never read outside their array.
    [BSP_GetNode], [BSP_GetPlane], [BSP_GetFace] and [Vertex_GetPos]
    return the element at an index within the array and fail their
    assertion at any other; [BSP_GetLeaf] returns the element or ends with
    a fatal error, and [BSP_GetLeafFromNodeNum] on [-1 - k] reads leaf
    [k]; [BSP_GetTexinfo] returns the element or null; [BSP_GetWorldModel]
    returns model 0 or ends with a fatal error when there is no model. *)
Theorem checked_accessors (bsp : mbsp_t) (n : Z) :
  BspUtils.BSP_GetNode bsp n
  = match nthZ (dnodes bsp) n with Some x => Ok x | None => AssertFail end
  /\ BspUtils.BSP_GetPlane bsp n
     = match nthZ (dplanes bsp) n with Some x => Ok x | None => AssertFail end
  /\ BspUtils.BSP_GetFace bsp n
     = match nthZ (dfaces bsp) n with Some x => Ok x | None => AssertFail end
  /\ BspUtils.Vertex_GetPos bsp n
     = match nthZ (dvertexes bsp) n with Some x => Ok x | None => AssertFail end
  /\ BspUtils.BSP_GetLeaf bsp n
     = match nthZ (dleafs bsp) n with
       | Some x => Ok x
       | None => Fatal "Corrupt BSP: leaf is out of bounds"
       end
  /\ BspUtils.BSP_GetLeafFromNodeNum bsp (-1 - n) = BspUtils.BSP_GetLeaf bsp n
  /\ BspUtils.BSP_GetTexinfo bsp n = nthZ (bsp_texinfo bsp) n
  /\ BspUtils.BSP_GetWorldModel bsp
     = match nthZ (dmodels bsp) 0 with
       | Some x => Ok x
       | None => Fatal "BSP has no models"
       end.
Proof.
  split; [apply checked_read |]. split; [apply checked_read |].
  split; [apply checked_read |]. split; [apply checked_read |].
  split; [| split; [| split]].
  - unfold BspUtils.BSP_GetLeaf, unchecked.
    destruct (nthZ (dleafs bsp) n) as [x |] eqn:E.
    + apply nthZ_Some_range in E.
      assert (Er : (n <? 0) || (zlen (dleafs bsp) <=? n) = false).
      { apply orb_false_iff. split; [apply Z.ltb_ge | apply Z.leb_gt]; lia. }
      rewrite Er. reflexivity.
    + apply nthZ_None_outside in E.
      assert (Er : (n <? 0) || (zlen (dleafs bsp) <=? n) = true).
      { apply orb_true_iff. destruct E as [E | E];
          [left; apply Z.ltb_lt, E | right; apply Z.leb_le, E]. }
      rewrite Er. reflexivity.
  - unfold BspUtils.BSP_GetLeafFromNodeNum. cbv zeta. f_equal. lia.
  - unfold BspUtils.BSP_GetTexinfo.
    destruct (n <? 0) eqn:E0; [symmetry; apply nthZ_None_range; left; apply Z.ltb_lt, E0 |].
    destruct (zlen (bsp_texinfo bsp) <=? n) eqn:E1; [| reflexivity].
    symmetry. apply nthZ_None_range. right. apply Z.leb_le, E1.
  - unfold BspUtils.BSP_GetWorldModel, unchecked.
    destruct (nthZ (dmodels bsp) 0) as [x |] eqn:E.
    + apply nthZ_Some_range in E.
      assert (Er : (zlen (dmodels bsp) <? 1) = false) by (apply Z.ltb_ge; lia).
      rewrite Er. reflexivity.
    + apply nthZ_None_outside in E.
      assert (Er : (zlen (dmodels bsp) <? 1) = true) by (apply Z.ltb_lt; lia).
      rewrite Er. reflexivity.
Qed.

(** ** common/bsputils.cc: the edge planes of a face *)

Section EdgePlanes.

Variable qv_normalize : vec3 -> vec3.

Local Abbreviation Face_AllocInwardFacingEdgePlanes :=
  (BspUtils.Face_AllocInwardFacingEdgePlanes qv_normalize).
Local Abbreviation edge_planes := (BspUtils.edge_planes qv_normalize).

Lemma cross_orthogonal (a b : vec3) :
  (DotProduct (BspUtils.CrossProduct a b) b == 0)%Q
  /\ (DotProduct (BspUtils.CrossProduct a b) a == 0)%Q.
Proof.
  destruct a as [[a1 a2] a3]. destruct b as [[b1 b2] b3].
  unfold DotProduct, BspUtils.CrossProduct, vx, vy, vz. simpl. split; ring.
Qed.

Lemma edge_planes_geometry (bsp : mbsp_t) (face : mface_t) (faceplane : BspUtils.qplane3d)
    (n : nat) :
  forall (i : Z) (planes : list BspUtils.qplane3d),
  edge_planes n bsp face faceplane i = Ok planes ->
  length planes = n
  /\ forall (k : nat) (pl : BspUtils.qplane3d),
       planes !! k = Some pl ->
       exists v0 v1,
         BspUtils.GetSurfaceVertexPoint bsp face (i + Z.of_nat k) = Ok v0
         /\ BspUtils.GetSurfaceVertexPoint bsp face
              (Z.rem (i + Z.of_nat k + 1) (numedges face)) = Ok v1
         /\ BspUtils.qnormal pl
            = BspUtils.CrossProduct (qv_normalize (VectorSubtract v1 v0))
                (BspUtils.qnormal faceplane)
         /\ (BspUtils.distance_to pl v0 == 0)%Q.
Proof.
  induction n as [| n IH]; intros i planes; cbn [BspUtils.edge_planes].
  - intros [= <-]. split; [reflexivity |]. intros k pl Hk.
    rewrite lookup_nil in Hk. discriminate.
  - destruct (BspUtils.GetSurfaceVertexPoint bsp face i) as [v0 | | | |] eqn:E0;
      cbn [bind]; try discriminate.
    destruct (BspUtils.GetSurfaceVertexPoint bsp face (Z.rem (i + 1) (numedges face)))
      as [v1 | | | |] eqn:E1; cbn [bind]; try discriminate.
    destruct (edge_planes n bsp face faceplane (i + 1)) as [rest | | | |] eqn:Er;
      cbn [bind]; try discriminate.
    intros [= <-]. destruct (IH (i + 1) rest Er) as [Hlen Hrest].
    split; [simpl; rewrite Hlen; reflexivity |].
    intros [| k] pl Hk; simpl in Hk.
    + injection Hk as <-. exists v0, v1. rewrite Z.add_0_r.
      split; [exact E0 |]. split; [exact E1 |]. split; [reflexivity |].
      unfold BspUtils.distance_to. cbn [BspUtils.qnormal BspUtils.qdist]. ring.
    + destruct (Hrest k pl Hk) as (w0 & w1 & Hw0 & Hw1 & Hn & Hd).
      exists w0, w1.
      replace (i + Z.of_nat (S k)) with (i + 1 + Z.of_nat k) by lia.
      auto.
Qed.

(** X24. The edge planes of a face.  [Face_AllocInwardFacingEdgePlanes]
    returns one plane for each edge.  The plane of an edge passes through
    the first vertex of the edge, and its normal is at right angles to the
    normal of the face; when [normalize] returns a multiple of its
    argument, as it does, the plane passes through the second vertex of
    the edge too, which is vertex 0 for the last edge. *)
Theorem Face_AllocInwardFacingEdgePlanes_geometry (bsp : mbsp_t) (face : mface_t)
    (faceplane : BspUtils.qplane3d) (planes : list BspUtils.qplane3d) :
  BspUtils.Face_Plane bsp face = Ok faceplane ->
  Face_AllocInwardFacingEdgePlanes bsp face = Ok planes ->
  Z.of_nat (length planes) = Z.max 0 (numedges face)
  /\ forall (k : nat) (pl : BspUtils.qplane3d),
       planes !! k = Some pl ->
       (DotProduct (BspUtils.qnormal pl) (BspUtils.qnormal faceplane) == 0)%Q
       /\ exists v0 v1,
            BspUtils.GetSurfaceVertexPoint bsp face (Z.of_nat k) = Ok v0
            /\ BspUtils.GetSurfaceVertexPoint bsp face
                 (Z.rem (Z.of_nat k + 1) (numedges face)) = Ok v1
            /\ (BspUtils.distance_to pl v0 == 0)%Q
            /\ ((exists s, qv_normalize (VectorSubtract v1 v0)
                           = VectorScale (VectorSubtract v1 v0) s) ->
                (BspUtils.distance_to pl v1 == 0)%Q).
Proof.
  intros Hplane. unfold BspUtils.Face_AllocInwardFacingEdgePlanes.
  rewrite Hplane. cbn [bind]. intros H.
  destruct (edge_planes_geometry _ _ _ _ _ _ H) as [Hlen Hgeo].
  split; [rewrite Hlen; lia |].
  intros k pl Hk. destruct (Hgeo k pl Hk) as (v0 & v1 & E0 & E1 & Hn & Hd).
  rewrite Z.add_0_l in E0, E1.
  split.
  - rewrite Hn. apply cross_orthogonal.
  - exists v0, v1. split; [exact E0 |]. split; [exact E1 |]. split; [exact Hd |].
    intros [s Hs]. unfold BspUtils.distance_to in *. rewrite Hn, Hs in *.
    destruct v0 as [[x0 y0] z0]. destruct v1 as [[x1 y1] z1].
    destruct (BspUtils.qnormal faceplane) as [[n1 n2] n3].
    unfold DotProduct, BspUtils.CrossProduct, VectorScale, VectorSubtract, vx, vy, vz in *.
    cbn [fst snd] in *. lra.
Qed.

End EdgePlanes.

Lemma Face_AllocInwardFacingEdgePlanes_geometry_witness :
  exists planes,
    BspUtils.Face_AllocInwardFacingEdgePlanes Sample.keep_vec Floor.floor_cw Floor.floor_face
    = Ok planes
    /\ Z.of_nat (length planes) = 4
    /\ forall (k : nat) (pl : BspUtils.qplane3d),
         planes !! k = Some pl ->
         (DotProduct (BspUtils.qnormal pl) (0, 0, 1)%Q == 0)%Q.
Proof.
  exists Floor.floor_edgeplanes.
  assert (Hplanes : BspUtils.Face_AllocInwardFacingEdgePlanes Sample.keep_vec Floor.floor_cw
                      Floor.floor_face = Ok Floor.floor_edgeplanes)
    by (vm_compute; reflexivity).
  assert (Hplane : BspUtils.Face_Plane Floor.floor_cw Floor.floor_face
                   = Ok {| BspUtils.qnormal := (0, 0, 1)%Q; BspUtils.qdist := 0%Q |})
    by reflexivity.
  destruct (Face_AllocInwardFacingEdgePlanes_geometry Sample.keep_vec Floor.floor_cw
              Floor.floor_face _ _ Hplane Hplanes) as [Hlen Hgeo].
  split; [exact Hplanes |]. split; [exact Hlen |].
  intros k pl Hk. destruct (Hgeo k pl Hk) as [Hdot _]. exact Hdot.
Defined.

(** ** common/bsputils.cc: [BSP_FindFaceAtPoint] *)

Lemma bind_OutOfFuel {A B} (m : result A) (k : A -> result B) :
  m <> OutOfFuel -> (forall a, k a <> OutOfFuel) -> bind m k <> OutOfFuel.
Proof. intros Hm Hk. destruct m; cbn [bind]; auto; discriminate. Qed.

Lemma unchecked_OutOfFuel {A} (l : list A) (i : Z) : unchecked l i <> OutOfFuel.
Proof. unfold unchecked. destruct (nthZ l i); discriminate. Qed.

Lemma Q_assert_OutOfFuel (b : bool) : BspUtils.Q_assert b <> OutOfFuel.
Proof. destruct b; discriminate. Qed.

Lemma GetSurfaceVertexPoint_OutOfFuel (bsp : mbsp_t) (f : mface_t) (v : Z) :
  BspUtils.GetSurfaceVertexPoint bsp f v <> OutOfFuel.
Proof.
  unfold BspUtils.GetSurfaceVertexPoint, BspUtils.Face_VertexAtIndex.
  apply bind_OutOfFuel; [| intros; apply unchecked_OutOfFuel].
  apply bind_OutOfFuel; [apply Q_assert_OutOfFuel | intros _].
  apply bind_OutOfFuel; [apply Q_assert_OutOfFuel | intros _].
  cbv zeta. apply bind_OutOfFuel; [apply unchecked_OutOfFuel | intros e].
  destruct (e <? 0); (apply bind_OutOfFuel; [apply unchecked_OutOfFuel | discriminate]).
Qed.

Lemma Face_Plane_OutOfFuel (bsp : mbsp_t) (f : mface_t) :
  BspUtils.Face_Plane bsp f <> OutOfFuel.
Proof.
  unfold BspUtils.Face_Plane.
  apply bind_OutOfFuel; [apply Q_assert_OutOfFuel | intros _].
  apply bind_OutOfFuel; [apply unchecked_OutOfFuel | intros pl].
  cbv zeta. destruct (side f); discriminate.
Qed.

Section FindFace.

Variable distance_to_fast : dplane_t -> vec3 -> Q.
Variable qv_normalize : vec3 -> vec3.

Local Abbreviation Face_AllocInwardFacingEdgePlanes :=
  (BspUtils.Face_AllocInwardFacingEdgePlanes qv_normalize).
Local Abbreviation edge_planes := (BspUtils.edge_planes qv_normalize).
Local Abbreviation find_face_on_node := (BspUtils.find_face_on_node qv_normalize).
Local Abbreviation BSP_FindFaceAtPoint_r :=
  (BspUtils.BSP_FindFaceAtPoint_r distance_to_fast qv_normalize).
Local Abbreviation BSP_FindFaceAtPoint :=
  (BspUtils.BSP_FindFaceAtPoint distance_to_fast qv_normalize).
Local Abbreviation face_matches := (FindFaceSpec.face_matches qv_normalize).
Local Abbreviation on_near_node := (FindFaceSpec.on_near_node distance_to_fast).

Lemma EdgePlanes_PointInside_Forall (planes : list BspUtils.qplane3d) (point : vec3) :
  BspUtils.EdgePlanes_PointInside planes point = true ->
  Forall (fun pl => (0 <= BspUtils.distance_to pl point)%Q) planes.
Proof.
  induction planes as [| pl rest IH]; cbn [BspUtils.EdgePlanes_PointInside]; intros H.
  - constructor.
  - destruct (Qltb (BspUtils.distance_to pl point) 0) eqn:E; [discriminate |].
    constructor; [| apply IH, H]. apply Qltb_ge in E. exact E.
Qed.

Lemma edge_planes_OutOfFuel (bsp : mbsp_t) (face : mface_t)
    (faceplane : BspUtils.qplane3d) (n : nat) :
  forall i, edge_planes n bsp face faceplane i <> OutOfFuel.
Proof.
  induction n as [| n IH]; intros i; cbn [BspUtils.edge_planes]; [discriminate |].
  apply bind_OutOfFuel; [apply GetSurfaceVertexPoint_OutOfFuel | intros v0].
  apply bind_OutOfFuel; [apply GetSurfaceVertexPoint_OutOfFuel | intros v1].
  cbv zeta. apply bind_OutOfFuel; [apply IH | discriminate].
Qed.

Lemma find_face_on_node_sound (bsp : mbsp_t) (node : bsp2_dnode_t)
    (point wantedNormal : vec3) (n : nat) :
  forall (i fnum : Z),
  find_face_on_node n bsp node i point wantedNormal = Ok (Some fnum) ->
  firstface node + i <= fnum < firstface node + i + Z.of_nat n
  /\ face_matches bsp fnum point wantedNormal.
Proof.
  induction n as [| n IH]; intros i fnum; cbn [BspUtils.find_face_on_node];
    [discriminate |].
  destruct (BspUtils.BSP_GetFace bsp (firstface node + i)) as [face | | | |] eqn:Ef;
    cbn [bind]; try discriminate.
  destruct (BspUtils.Face_Normal bsp face) as [faceNormal | | | |] eqn:En;
    cbn [bind]; try discriminate.
  assert (Hnext : find_face_on_node n bsp node (i + 1) point wantedNormal = Ok (Some fnum) ->
                  firstface node + i <= fnum < firstface node + i + Z.of_nat (S n)
                  /\ face_matches bsp fnum point wantedNormal).
  { intros H. destruct (IH _ _ H) as [Hr Hm]. split; [lia | exact Hm]. }
  destruct (Qltb (DotProduct faceNormal wantedNormal) 0) eqn:Ed; [exact Hnext |].
  destruct (Face_AllocInwardFacingEdgePlanes bsp face) as [planes | | | |] eqn:Ep;
    cbn [bind]; try discriminate.
  destruct (BspUtils.EdgePlanes_PointInside planes point) eqn:Ei; [| exact Hnext].
  intros [= <-]. split; [lia |].
  exists face, faceNormal, planes.
  split; [exact Ef |]. split; [exact En |].
  split; [apply Qltb_ge in Ed; exact Ed |].
  split; [exact Ep |]. apply EdgePlanes_PointInside_Forall, Ei.
Qed.

Lemma find_face_on_node_OutOfFuel (bsp : mbsp_t) (node : bsp2_dnode_t)
    (point wantedNormal : vec3) (n : nat) :
  forall i, find_face_on_node n bsp node i point wantedNormal <> OutOfFuel.
Proof.
  induction n as [| n IH]; intros i; cbn [BspUtils.find_face_on_node]; [discriminate |].
  apply bind_OutOfFuel.
  { unfold BspUtils.BSP_GetFace.
    apply bind_OutOfFuel; [apply Q_assert_OutOfFuel | intros _; apply unchecked_OutOfFuel]. }
  intros face. apply bind_OutOfFuel.
  { unfold BspUtils.Face_Normal.
    apply bind_OutOfFuel; [apply Face_Plane_OutOfFuel | discriminate]. }
  intros faceNormal.
  destruct (Qltb (DotProduct faceNormal wantedNormal) 0); [apply IH |].
  apply bind_OutOfFuel.
  { unfold BspUtils.Face_AllocInwardFacingEdgePlanes.
    apply bind_OutOfFuel; [apply Face_Plane_OutOfFuel | intros pl; apply edge_planes_OutOfFuel]. }
  intros planes. destruct (BspUtils.EdgePlanes_PointInside planes point);
    [discriminate | apply IH].
Qed.

Lemma BSP_FindFaceAtPoint_r_sound (bsp : mbsp_t) (point wantedNormal : vec3) (fuel : nat) :
  forall (nodenum fnum : Z),
  BSP_FindFaceAtPoint_r fuel bsp nodenum point wantedNormal = Ok (Some fnum) ->
  face_matches bsp fnum point wantedNormal /\ on_near_node bsp fnum point.
Proof.
  induction fuel as [| fuel IH]; intros nodenum fnum;
    cbn [BspUtils.BSP_FindFaceAtPoint_r]; [discriminate |].
  destruct (nodenum <? 0); [discriminate |].
  unfold unchecked.
  destruct (nthZ (dnodes bsp) nodenum) as [node |] eqn:En; cbn [bind]; [| discriminate].
  destruct (nthZ (dplanes bsp) (planenum node)) as [plane |] eqn:Ep; cbn [bind];
    [| discriminate].
  cbv zeta.
  destruct (Qltb (1 # 10) (distance_to_fast plane point)) eqn:E1; [apply IH |].
  destruct (Qltb (distance_to_fast plane point) (- (1 # 10))) eqn:E2; [apply IH |].
  destruct (find_face_on_node (Z.to_nat (numfaces node)) bsp node 0 point wantedNormal)
    as [[found |] | | | |] eqn:Ef; cbn [bind]; try discriminate.
  - intros [= <-]. destruct (find_face_on_node_sound _ _ _ _ _ _ _ Ef) as [Hr Hm].
    split; [exact Hm |]. exists nodenum, node, plane.
    split; [exact En |]. split; [exact Ep |].
    apply Qltb_ge in E1. apply Qltb_ge in E2.
    split; [split; assumption | lia].
  - destruct (BSP_FindFaceAtPoint_r fuel bsp (fst (children node)) point wantedNormal)
      as [[side0 |] | | | |] eqn:E0; cbn [bind]; try discriminate.
    + intros [= <-]. apply (IH _ _ E0).
    + apply IH.
Qed.

Lemma BSP_FindFaceAtPoint_r_fuel (bsp : mbsp_t) (point wantedNormal : vec3)
    (nodenum : Z) (t : bsptree) :
  represents bsp nodenum t ->
  forall fuel, (depth t <= fuel)%nat ->
  BSP_FindFaceAtPoint_r fuel bsp nodenum point wantedNormal <> OutOfFuel.
Proof.
  induction 1 as [n leaf Hn Hleaf | n node plane tf tb Hn Hnode Hplane Hf IHf Hb IHb];
    intros [| fuel] Hfuel; cbn [depth] in Hfuel; try lia;
    cbn [BspUtils.BSP_FindFaceAtPoint_r].
  - assert (E : (n <? 0) = true) by (apply Z.ltb_lt; lia). rewrite E. discriminate.
  - assert (E : (n <? 0) = false) by (apply Z.ltb_ge; lia). rewrite E.
    unfold unchecked. rewrite Hnode. cbn [bind]. rewrite Hplane. cbn [bind]. cbv zeta.
    assert (Hf' : BSP_FindFaceAtPoint_r fuel bsp (fst (children node)) point wantedNormal
                  <> OutOfFuel) by (apply IHf; lia).
    assert (Hb' : BSP_FindFaceAtPoint_r fuel bsp (snd (children node)) point wantedNormal
                  <> OutOfFuel) by (apply IHb; lia).
    destruct (Qltb (1 # 10) (distance_to_fast plane point)); [exact Hf' |].
    destruct (Qltb (distance_to_fast plane point) (- (1 # 10))); [exact Hb' |].
    apply bind_OutOfFuel; [apply find_face_on_node_OutOfFuel |].
    intros [found |]; [discriminate |].
    apply bind_OutOfFuel; [exact Hf' |]. intros [side0 |]; [discriminate | exact Hb'].
Qed.

(** X25. What [BSP_FindFaceAtPoint] returns.  A face it returns is a face
    of the BSP that does not face away from the wanted normal (the dot
    product of the two normals is not negative), has the point on the
    inner side of every one of its edge planes, and belongs to a node
    whose plane is within 0.1 of the point.  On a BSP whose arrays form a
    tree under the model's head node the search ends: with fuel for the
    depth of the tree it does not run out of fuel. *)
Theorem BSP_FindFaceAtPoint_sound (fuel : nat) (bsp : mbsp_t) (model : dmodelh2_t)
    (point wantedNormal : vec3) :
  (forall fnum,
     BSP_FindFaceAtPoint fuel bsp model point wantedNormal = Ok (Some fnum) ->
     face_matches bsp fnum point wantedNormal /\ on_near_node bsp fnum point)
  /\ (forall t,
        represents bsp (headnode_0 model) t -> (depth t <= fuel)%nat ->
        BSP_FindFaceAtPoint fuel bsp model point wantedNormal <> OutOfFuel).
Proof.
  unfold BspUtils.BSP_FindFaceAtPoint. split.
  - intros fnum. apply BSP_FindFaceAtPoint_r_sound.
  - intros t Ht Hfuel. apply (BSP_FindFaceAtPoint_r_fuel _ _ _ _ _ Ht), Hfuel.
Qed.

End FindFace.

Lemma floor_cw_represents : represents Floor.floor_cw 0 Floor.floor_tree.
Proof.
  unfold Floor.floor_tree.
  eapply (represents_node Floor.floor_cw 0
            {| planenum := 0; children := (-2, -1); firstface := 0; numfaces := 1 |}).
  - lia.
  - reflexivity.
  - reflexivity.
  - apply (represents_leaf Floor.floor_cw (-2)
             {| contents := Sample.CONTENTS_EMPTY; firstmarksurface := 0; nummarksurfaces := 1 |});
      [lia | reflexivity].
  - apply (represents_leaf Floor.floor_cw (-1)
             {| contents := Sample.CONTENTS_SOLID; firstmarksurface := 0; nummarksurfaces := 0 |});
      [lia | reflexivity].
Defined.

Lemma BSP_FindFaceAtPoint_sound_witness :
  BspUtils.BSP_FindFaceAtPoint Sample.distance_to_fast Sample.keep_vec 2 Floor.floor_cw
    Floor.floor_model (16, 16, 0)%Q (0, 0, 1)%Q = Ok (Some 0)
  /\ FindFaceSpec.face_matches Sample.keep_vec Floor.floor_cw 0 (16, 16, 0)%Q (0, 0, 1)%Q
  /\ FindFaceSpec.on_near_node Sample.distance_to_fast Floor.floor_cw 0 (16, 16, 0)%Q
  /\ BspUtils.BSP_FindFaceAtPoint Sample.distance_to_fast Sample.keep_vec 2 Floor.floor_cw
       Floor.floor_model (16, 16, 0)%Q (0, 0, 1)%Q <> OutOfFuel.
Proof.
  assert (Hfound : BspUtils.BSP_FindFaceAtPoint Sample.distance_to_fast Sample.keep_vec 2
                     Floor.floor_cw Floor.floor_model (16, 16, 0)%Q (0, 0, 1)%Q
                   = Ok (Some 0)) by (vm_compute; reflexivity).
  destruct (BSP_FindFaceAtPoint_sound Sample.distance_to_fast Sample.keep_vec 2
              Floor.floor_cw Floor.floor_model (16, 16, 0)%Q (0, 0, 1)%Q) as [Hsound Hfuel].
  destruct (Hsound 0 Hfound) as [Hm Hn].
  split; [exact Hfound |]. split; [exact Hm |]. split; [exact Hn |].
  apply (Hfuel Floor.floor_tree floor_cw_represents). simpl. lia.
Defined.

(** ** light/entities.cc: the matrices *)

Ltac mat4_ring :=
  unfold MatrixSpec.mat4_eq, Entities.Matrix4_Multiply, Entities.Matrix4x4_CM_NewTranslation;
  cbn [Entities.e0 Entities.e1 Entities.e2 Entities.e3 Entities.e4 Entities.e5
       Entities.e6 Entities.e7 Entities.e8 Entities.e9 Entities.e10 Entities.e11
       Entities.e12 Entities.e13 Entities.e14 Entities.e15];
  repeat split; ring.

(** X26. [Matrix4_Multiply] is the product of 4 x 4 matrices stored
    column after column: it is associative, the translation by zero is
    neutral on both sides, the product of two translations is the
    translation by the sum, and the image of a point under a product is
    the image under the first factor of its image under the second. *)
Theorem Matrix4_Multiply_product (a b c : Entities.mat4) (x y z x' y' z' : Q) (p : vec3) :
  MatrixSpec.mat4_eq
    (Entities.Matrix4_Multiply (Entities.Matrix4_Multiply a b) c)
    (Entities.Matrix4_Multiply a (Entities.Matrix4_Multiply b c))
  /\ MatrixSpec.mat4_eq
       (Entities.Matrix4_Multiply a (Entities.Matrix4x4_CM_NewTranslation 0 0 0)) a
  /\ MatrixSpec.mat4_eq
       (Entities.Matrix4_Multiply (Entities.Matrix4x4_CM_NewTranslation 0 0 0) a) a
  /\ MatrixSpec.mat4_eq
       (Entities.Matrix4_Multiply (Entities.Matrix4x4_CM_NewTranslation x y z)
          (Entities.Matrix4x4_CM_NewTranslation x' y' z'))
       (Entities.Matrix4x4_CM_NewTranslation (x + x') (y + y') (z + z'))
  /\ ((Entities.e3 b == 0 /\ Entities.e7 b == 0 /\ Entities.e11 b == 0
       /\ Entities.e15 b == 1)%Q ->
      MatrixSpec.vec3_eq
        (MatrixSpec.transform (Entities.Matrix4_Multiply a b) p)
        (MatrixSpec.transform a (MatrixSpec.transform b p))).
Proof.
  split; [mat4_ring |]. split; [mat4_ring |]. split; [mat4_ring |]. split; [mat4_ring |].
  intros (H3 & H7 & H11 & H15).
  unfold MatrixSpec.vec3_eq, MatrixSpec.transform, Entities.Matrix4_Multiply, vx, vy, vz.
  cbn [Entities.e0 Entities.e1 Entities.e2 Entities.e3 Entities.e4 Entities.e5
       Entities.e6 Entities.e7 Entities.e8 Entities.e9 Entities.e10 Entities.e11
       Entities.e12 Entities.e13 Entities.e14 Entities.e15 fst snd].
  rewrite H3, H7, H11, H15. repeat split; ring.
Qed.

Lemma Matrix4_Multiply_product_witness :
  MatrixSpec.vec3_eq
    (MatrixSpec.transform
       (Entities.Matrix4_Multiply (Entities.Matrix4x4_CM_NewTranslation 1 2 3)
          (Entities.Matrix4x4_CM_NewTranslation 10 20 30))
       (5, 5, 5)%Q)
    (MatrixSpec.transform (Entities.Matrix4x4_CM_NewTranslation 1 2 3)
       (MatrixSpec.transform (Entities.Matrix4x4_CM_NewTranslation 10 20 30) (5, 5, 5)%Q)).
Proof.
  destruct (Matrix4_Multiply_product (Entities.Matrix4x4_CM_NewTranslation 1 2 3)
              (Entities.Matrix4x4_CM_NewTranslation 10 20 30)
              (Entities.Matrix4x4_CM_NewTranslation 0 0 0) 0 0 0 0 0 0 (5, 5, 5)%Q)
    as (_ & _ & _ & _ & H).
  apply H. repeat split; reflexivity.
Defined.

Ltac mat4_entries :=
  cbn [Entities.e0 Entities.e1 Entities.e2 Entities.e3 Entities.e4 Entities.e5
       Entities.e6 Entities.e7 Entities.e8 Entities.e9 Entities.e10 Entities.e11
       Entities.e12 Entities.e13 Entities.e14 Entities.e15].

Lemma Matrix4_Multiply_linear (a b : Entities.mat4) :
  MatrixSpec.linear a -> MatrixSpec.linear b ->
  MatrixSpec.linear (Entities.Matrix4_Multiply a b).
Proof.
  intros [(A3 & A7 & A11 & A15) (A12 & A13 & A14)]
         [(B3 & B7 & B11 & B15) (B12 & B13 & B14)].
  unfold MatrixSpec.linear, MatrixSpec.affine, Entities.Matrix4_Multiply. mat4_entries.
  rewrite A3, A7, A11, A15, A12, A13, A14, B3, B7, B11, B15, B12, B13, B14.
  repeat split; ring.
Qed.

Lemma Matrix4_Multiply_translation (r : Entities.mat4) (o : vec3) :
  MatrixSpec.linear r ->
  let m := Entities.Matrix4_Multiply r
             (Entities.Matrix4x4_CM_NewTranslation (- vx o) (- vy o) (- vz o)) in
  MatrixSpec.affine m
  /\ MatrixSpec.vec3_eq (MatrixSpec.transform m o) (0, 0, 0)%Q
  /\ MatrixSpec.mat4_eq m
       (Entities.Matrix4_Multiply
          (Entities.Matrix4_Multiply r
             (Entities.Matrix4x4_CM_NewTranslation (- vx (0, 0, 0)%Q) (- vy (0, 0, 0)%Q)
                (- vz (0, 0, 0)%Q)))
          (Entities.Matrix4x4_CM_NewTranslation (- vx o) (- vy o) (- vz o))).
Proof.
  intros [(A3 & A7 & A11 & A15) (A12 & A13 & A14)]. cbv zeta.
  destruct o as [[ox oy] oz].
  unfold MatrixSpec.affine, MatrixSpec.vec3_eq, MatrixSpec.mat4_eq, MatrixSpec.transform,
    Entities.Matrix4_Multiply, Entities.Matrix4x4_CM_NewTranslation, vx, vy, vz.
  mat4_entries. cbn [fst snd].
  rewrite A3, A7, A11, A15, A12, A13, A14.
  repeat split; ring.
Qed.

Section ModelView.

Variable cosf sinf : Q -> Q.
Variable Q_PI : Q.

Local Abbreviation Matrix4x4_CM_NewRotation := (Entities.Matrix4x4_CM_NewRotation cosf sinf Q_PI).
Local Abbreviation Matrix4x4_CM_ModelViewMatrix :=
  (Entities.Matrix4x4_CM_ModelViewMatrix cosf sinf Q_PI).

Lemma Matrix4x4_CM_NewRotation_linear (a x y z : Q) :
  MatrixSpec.linear (Matrix4x4_CM_NewRotation a x y z).
Proof.
  unfold MatrixSpec.linear, MatrixSpec.affine, Entities.Matrix4x4_CM_NewRotation.
  cbv zeta. mat4_entries. repeat split; reflexivity.
Qed.

(** X27. The model-view matrix carries the view origin to the origin.
    Whatever the angles, [Matrix4x4_CM_ModelViewMatrix] is an affine map
    (its last row is 0 0 0 1) that sends [vieworg] to (0, 0, 0), and it is
    the matrix for the same angles at the origin, multiplied by the
    translation by [-vieworg]: the view origin moves the image and leaves
    the rotation alone.  A rotation about an axis of length 1 leaves the
    points of the axis where they are. *)
Theorem Matrix4x4_CM_ModelViewMatrix_origin (viewangles vieworg : vec3) (a x y z k : Q) :
  let m := Matrix4x4_CM_ModelViewMatrix viewangles vieworg in
  MatrixSpec.affine m
  /\ MatrixSpec.vec3_eq (MatrixSpec.transform m vieworg) (0, 0, 0)%Q
  /\ MatrixSpec.mat4_eq m
       (Entities.Matrix4_Multiply (Matrix4x4_CM_ModelViewMatrix viewangles (0, 0, 0)%Q)
          (Entities.Matrix4x4_CM_NewTranslation (- vx vieworg) (- vy vieworg) (- vz vieworg)))
  /\ ((x * x + y * y + z * z == 1)%Q ->
      MatrixSpec.vec3_eq
        (MatrixSpec.transform (Matrix4x4_CM_NewRotation a x y z) (k * x, k * y, k * z)%Q)
        (k * x, k * y, k * z)%Q).
Proof.
  cbv zeta. unfold Entities.Matrix4x4_CM_ModelViewMatrix. cbv zeta.
  match goal with
  | |- MatrixSpec.affine (Entities.Matrix4_Multiply ?r _) /\ _ => set (rot := r)
  end.
  assert (Hrot : MatrixSpec.linear rot).
  { unfold rot. repeat apply Matrix4_Multiply_linear;
      try apply Matrix4x4_CM_NewRotation_linear.
    unfold MatrixSpec.linear, MatrixSpec.affine. mat4_entries. repeat split; reflexivity. }
  clearbody rot.
  destruct (Matrix4_Multiply_translation rot vieworg Hrot) as (Haff & Horg & Hfac).
  split; [exact Haff |]. split; [exact Horg |]. split; [exact Hfac |].
  intros Hunit.
  unfold Entities.Matrix4x4_CM_NewRotation, MatrixSpec.vec3_eq, MatrixSpec.transform,
    vx, vy, vz.
  cbv zeta. mat4_entries. cbn [fst snd].
  set (c := cosf (a * Q_PI / 180)). set (s := sinf (a * Q_PI / 180)).
  repeat split.
  - transitivity (k * x * ((x * x + y * y + z * z) * (1 - c) + c))%Q; [ring |].
    rewrite Hunit. ring.
  - transitivity (k * y * ((x * x + y * y + z * z) * (1 - c) + c))%Q; [ring |].
    rewrite Hunit. ring.
  - transitivity (k * z * ((x * x + y * y + z * z) * (1 - c) + c))%Q; [ring |].
    rewrite Hunit. ring.
Qed.

End ModelView.

Lemma Matrix4x4_CM_ModelViewMatrix_origin_witness :
  MatrixSpec.vec3_eq
    (MatrixSpec.transform
       (Entities.Matrix4x4_CM_NewRotation Sample.zero_fn Sample.zero_fn (355 # 113) 90 0 0 1)
       (0, 0, 7)%Q)
    (0, 0, 7)%Q.
Proof.
  destruct (Matrix4x4_CM_ModelViewMatrix_origin Sample.zero_fn Sample.zero_fn (355 # 113)
              (0, 0, 0)%Q (0, 0, 0)%Q 90 0 0 1 7) as (_ & _ & _ & H).
  assert (Haxis : (0 * 0 + 0 * 0 + 1 * 1 == 1)%Q) by reflexivity.
  exact (H Haxis).
Defined.

(** ** light/entities.cc: the world entity *)

(** X28. Keys of the world entity.  When [SetWorldKeyValue] returns, the
    list of entities has the same length and the entities after the first
    are unchanged.  For a key other than [classname] (or the value
    [worldspawn]) [WorldValueForKey] then reads the value back, and reads
    every other key as before; setting [classname] to another value
    leaves a list on which every [WorldValueForKey] is a fatal error.
    Without a first entity of class [worldspawn] both functions are a
    fatal error. *)
Theorem SetWorldKeyValue_read_back (entdicts : list Entities.entdict_t) (key value : string) :
  (Entities.WorldEnt entdicts = Fatal "WorldEnt() failed to get worldspawn" ->
   is_fatal (Entities.SetWorldKeyValue entdicts key value) = true
   /\ is_fatal (Entities.WorldValueForKey entdicts key) = true)
  /\ forall entdicts',
       Entities.SetWorldKeyValue entdicts key value = Ok entdicts' ->
       length entdicts' = length entdicts
       /\ (forall i, (0 < i)%nat -> entdicts' !! i = entdicts !! i)
       /\ (key <> "classname"%string \/ value = "worldspawn"%string ->
           Entities.WorldValueForKey entdicts' key = Ok value
           /\ forall k, k <> key ->
                Entities.WorldValueForKey entdicts' k = Entities.WorldValueForKey entdicts k)
       /\ (key = "classname"%string -> value <> "worldspawn"%string ->
           forall k, is_fatal (Entities.WorldValueForKey entdicts' k) = true).
Proof.
  split.
  - intros H. unfold Entities.SetWorldKeyValue, Entities.WorldValueForKey.
    rewrite H. split; reflexivity.
  - intros entdicts'. unfold Entities.SetWorldKeyValue, Entities.WorldValueForKey.
    destruct entdicts as [| world rest]; [discriminate |].
    unfold Entities.WorldEnt at 1.
    destruct (String.eqb (Entities.EntDict_StringForKey world "classname") "worldspawn")
      eqn:Ec; cbn [negb bind]; [| discriminate].
    intros [= <-]. cbn [list_insert Entities.WorldEnt].
    split; [reflexivity |].
    split; [intros [| i] Hi; [lia | reflexivity] |].
    assert (Hget : forall k, Entities.EntDict_StringForKey (<[key := value]> world) k
                             = if String.eqb k key then value
                               else Entities.EntDict_StringForKey world k).
    { intros k. unfold Entities.EntDict_StringForKey.
      destruct (String.eqb k key) eqn:Ek.
      - apply String.eqb_eq in Ek. subst k. rewrite lookup_insert_eq. reflexivity.
      - apply String.eqb_neq in Ek. rewrite lookup_insert_ne by congruence. reflexivity. }
    split.
    + intros Hkey.
      assert (Hclass : String.eqb
                         (Entities.EntDict_StringForKey (<[key := value]> world) "classname")
                         "worldspawn" = true).
      { rewrite Hget. destruct (String.eqb "classname" key) eqn:Ek; [| exact Ec].
        apply String.eqb_eq in Ek. destruct Hkey as [Hkey | Hkey]; [congruence |].
        subst value. reflexivity. }
      rewrite Hclass, Ec. cbn [negb bind]. split.
      * rewrite Hget, String.eqb_refl. reflexivity.
      * intros k Hk. rewrite Hget. apply String.eqb_neq in Hk. rewrite Hk. reflexivity.
    + intros -> Hvalue k.
      assert (Hclass : String.eqb
                         (Entities.EntDict_StringForKey (<[ "classname"%string := value]> world)
                            "classname")
                         "worldspawn" = false).
      { rewrite Hget, String.eqb_refl. apply String.eqb_neq. exact Hvalue. }
      rewrite Hclass. reflexivity.
Qed.

Lemma SetWorldKeyValue_read_back_witness :
  exists entdicts',
    Entities.SetWorldKeyValue World.bare_world "light" "5" = Ok entdicts'
    /\ Entities.WorldValueForKey entdicts' "light" = Ok "5"%string
    /\ Entities.WorldValueForKey entdicts' "classname" = Ok "worldspawn"%string.
Proof.
  destruct (SetWorldKeyValue_read_back World.bare_world "light" "5") as [_ H].
  assert (Hset : is_ok (Entities.SetWorldKeyValue World.bare_world "light" "5") = true)
    by (vm_compute; reflexivity).
  apply is_ok_returns in Hset. destruct Hset as [entdicts' Hset].
  exists entdicts'. split; [exact Hset |].
  destruct (H entdicts' Hset) as (_ & _ & Hread & _).
  assert (Hkey : "light"%string <> "classname"%string \/ "5"%string = "worldspawn"%string)
    by (left; discriminate).
  destruct (Hread Hkey) as [Hv Hother].
  split; [exact Hv |].
  rewrite (Hother "classname"%string) by discriminate.
  vm_compute. reflexivity.
Defined.

(** ** light/bounce.cc: the bounce lights and their index *)

Lemma nthZ_app_l {A} (l l' : list A) (i : Z) (x : A) :
  nthZ l i = Some x -> nthZ (l ++ l') i = Some x.
Proof.
  unfold nthZ. destruct (i <? 0); [discriminate |]. intros H.
  rewrite nth_error_app1; [exact H |]. apply nth_error_Some. congruence.
Qed.

Lemma nthZ_app_last {A} (l : list A) (x : A) : nthZ (l ++ [x]) (zlen l) = Some x.
Proof.
  unfold nthZ, zlen. assert (E : (Z.of_nat (length l) <? 0) = false) by (apply Z.ltb_ge; lia).
  rewrite E, Nat2Z.id, nth_error_app2 by lia. rewrite Nat.sub_diag. reflexivity.
Qed.

Lemma raise_max_le (m : vec3) (sc : Z * vec3) :
  BounceSpec.color_le m (Bounce.raise_max m sc)
  /\ BounceSpec.color_le (snd sc) (Bounce.raise_max m sc).
Proof.
  destruct sc as [style [[c1 c2] c3]]. destruct m as [[m1 m2] m3].
  unfold Bounce.raise_max, BounceSpec.color_le. cbn [snd].
  unfold vidx, vset, vx, vy, vz. cbn [fst snd].
  destruct (Qltb m1 c1) eqn:E1; cbn [fst snd];
    destruct (Qltb m2 c2) eqn:E2; cbn [fst snd];
    destruct (Qltb m3 c3) eqn:E3; cbn [fst snd];
    try apply Qltb_lt in E1; try apply Qltb_ge in E1;
    try apply Qltb_lt in E2; try apply Qltb_ge in E2;
    try apply Qltb_lt in E3; try apply Qltb_ge in E3;
    repeat split; lra.
Qed.

Lemma color_le_trans (a b c : vec3) :
  BounceSpec.color_le a b -> BounceSpec.color_le b c -> BounceSpec.color_le a c.
Proof.
  unfold BounceSpec.color_le. intros (H1 & H2 & H3) (G1 & G2 & G3). repeat split; lra.
Qed.

Lemma raise_max_fold (styles : list (Z * vec3)) :
  forall m : vec3,
  BounceSpec.color_le m (fold_left Bounce.raise_max styles m)
  /\ forall sc, In sc styles ->
                BounceSpec.color_le (snd sc) (fold_left Bounce.raise_max styles m).
Proof.
  induction styles as [| sc0 rest IH]; intros m; cbn [fold_left].
  - split; [unfold BounceSpec.color_le; repeat split; lra | intros sc []].
  - destruct (IH (Bounce.raise_max m sc0)) as [Hm Hrest].
    destruct (raise_max_le m sc0) as [H0 H1]. split.
    + apply (color_le_trans _ _ _ H0 Hm).
    + intros sc [<- | Hin]; [apply (color_le_trans _ _ _ H1 Hm) | apply Hrest, Hin].
Qed.

Lemma styles_of_In (m : gmap Z vec3) (style : Z) (c : vec3) :
  m !! style = Some c -> In (style, c) (Bounce.styles_of m).
Proof.
  intros H. apply list_elem_of_In. unfold Bounce.styles_of.
  rewrite merge_sort_Permutation. apply elem_of_map_to_list. exact H.
Qed.

Section BounceLights.

Variable edgeplanes_t bounds_t winding_t : Type.
Variable GLM_MakeInwardFacingEdgePlanes : list vec3 -> edgeplanes_t.
Variable EstimateVisibleBoundsAtPoint : vec3 -> bounds_t.
Variable no_bounds : bounds_t.
Variable novisapprox : bool.
Variable extended_texinfo_flags : list Z.
Variable TEX_EXFLAG_NOBOUNCE : Z.
Variable bouncecolorscale : Q.
Variable GetDirectLighting : mbsp_t -> vec3 -> vec3 -> gmap Z vec3.
Variable winding_from_face : mbsp_t -> mface_t -> winding_t.
Variable winding_area : winding_t -> Q.
Variable winding_plane : winding_t -> BspUtils.qplane3d.
Variable winding_center : winding_t -> vec3.
Variable winding_dice : Q -> winding_t -> list winding_t.
Variable Q_strcasecmp : string -> string -> Z.
Variable surf_is_lightmapped : Z -> bool.
Variable ModelInfoForFace : mbsp_t -> Z -> option Bounce.modelinfo_t.

Local Abbreviation bounce_state := (Bounce.bounce_state edgeplanes_t bounds_t).
Local Abbreviation AddBounceLight :=
  (Bounce.AddBounceLight edgeplanes_t bounds_t GLM_MakeInwardFacingEdgePlanes
     EstimateVisibleBoundsAtPoint no_bounds novisapprox).
Local Abbreviation new_bouncelight :=
  (Bounce.new_bouncelight edgeplanes_t bounds_t GLM_MakeInwardFacingEdgePlanes
     EstimateVisibleBoundsAtPoint no_bounds novisapprox).
Local Abbreviation bounce_emission :=
  (Bounce.bounce_emission winding_t extended_texinfo_flags TEX_EXFLAG_NOBOUNCE
     bouncecolorscale GetDirectLighting winding_from_face winding_area winding_plane
     winding_center winding_dice Q_strcasecmp surf_is_lightmapped ModelInfoForFace).
Local Abbreviation MakeBounceLightsThread_face :=
  (Bounce.MakeBounceLightsThread_face edgeplanes_t bounds_t winding_t
     GLM_MakeInwardFacingEdgePlanes EstimateVisibleBoundsAtPoint no_bounds novisapprox
     extended_texinfo_flags TEX_EXFLAG_NOBOUNCE bouncecolorscale GetDirectLighting
     winding_from_face winding_area winding_plane winding_center winding_dice
     Q_strcasecmp surf_is_lightmapped ModelInfoForFace).
Local Abbreviation MakeBounceLights :=
  (Bounce.MakeBounceLights edgeplanes_t bounds_t winding_t
     GLM_MakeInwardFacingEdgePlanes EstimateVisibleBoundsAtPoint no_bounds novisapprox
     extended_texinfo_flags TEX_EXFLAG_NOBOUNCE bouncecolorscale GetDirectLighting
     winding_from_face winding_area winding_plane winding_center winding_dice
     Q_strcasecmp surf_is_lightmapped ModelInfoForFace).
Local Abbreviation BounceLights := (Bounce.BounceLights edgeplanes_t bounds_t).
Local Abbreviation BounceLightsForFaceNum :=
  (Bounce.BounceLightsForFaceNum edgeplanes_t bounds_t).
Local Abbreviation indexed := (BounceSpec.indexed edgeplanes_t bounds_t).
Local Abbreviation covered := (BounceSpec.covered edgeplanes_t bounds_t).
Local Abbreviation no_lights := (BounceSpec.no_lights edgeplanes_t bounds_t).

Lemma AddBounceLight_indexed (pos : vec3) (colorByStyle : gmap Z vec3) (surfnormal : vec3)
    (area : Q) (facenum : Z) (face : mface_t) (bsp : mbsp_t) (st st' : bounce_state) :
  BspUtils.BSP_GetFace bsp facenum = Ok face ->
  AddBounceLight pos colorByStyle surfnormal area facenum face bsp st = Ok st' ->
  indexed bsp st -> covered st ->
  indexed bsp st' /\ covered st'
  /\ zlen (BounceLights st') = zlen (BounceLights st) + 1.
Proof.
  intros Hface. unfold Bounce.AddBounceLight.
  destruct (forallb (fun sc => Bounce.color_nonneg (snd sc)) (Bounce.styles_of colorByStyle))
    eqn:Hcolors; cbn [BspUtils.Q_assert bind]; [| discriminate].
  destruct (Qltb 0 area) eqn:Harea; cbn [bind]; [| discriminate].
  destruct (BspUtils.GLM_FacePoints bsp face) as [poly | | | |] eqn:Hpoly; cbn [bind];
    try discriminate.
  cbv zeta. unfold BspUtils.Face_GetNum.
  destruct ((0 <=? facenum) && (facenum <? zlen (dfaces bsp))); cbn [BspUtils.Q_assert bind];
    [| discriminate].
  intros [= <-] Hidx Hcov.
  unfold BounceSpec.indexed, BounceSpec.covered, Bounce.BounceLightsForFaceNum,
    Bounce.BounceLights in *.
  cbn [Bounce.radlights Bounce.radlightsByFacenum].
  set (l := new_bouncelight pos colorByStyle surfnormal area poly).
  assert (Hlast : zlen (Bounce.radlights edgeplanes_t bounds_t st ++ [l]) - 1
                  = zlen (Bounce.radlights edgeplanes_t bounds_t st)).
  { unfold zlen. rewrite length_app. simpl. lia. }
  rewrite Hlast.
  assert (Hold : forall f idx,
            In idx match Bounce.radlightsByFacenum edgeplanes_t bounds_t st !! f with
                   | Some v => v
                   | None => []
                   end ->
            exists l0 face0,
              nthZ (Bounce.radlights edgeplanes_t bounds_t st ++ [l]) idx = Some l0
              /\ BspUtils.BSP_GetFace bsp f = Ok face0
              /\ BspUtils.GLM_FacePoints bsp face0 = Ok (Bounce.poly edgeplanes_t bounds_t l0)
              /\ (0 < Bounce.area edgeplanes_t bounds_t l0)%Q
              /\ forall style c,
                   Bounce.colorByStyle edgeplanes_t bounds_t l0 !! style = Some c ->
                   BounceSpec.color_ge0 c
                   /\ BounceSpec.color_le c
                        (Bounce.componentwiseMaxColor edgeplanes_t bounds_t l0)).
  { intros f idx Hin. destruct (Hidx f idx Hin) as (l0 & face0 & Hn & Hrest).
    exists l0, face0. split; [apply nthZ_app_l, Hn | exact Hrest]. }
  split; [| split].
  - intros f idx. destruct (decide (f = facenum)) as [-> | Hf].
    + rewrite lookup_insert_eq. intros Hin. apply in_app_or in Hin.
      destruct Hin as [Hin | [<- | []]]; [apply Hold, Hin |].
      exists l, face. split; [apply nthZ_app_last |]. split; [exact Hface |].
      split; [exact Hpoly |]. split; [apply Qltb_lt, Harea |].
      intros style c Hc. unfold l in Hc. cbn [Bounce.colorByStyle Bounce.new_bouncelight] in Hc.
      apply styles_of_In in Hc. split.
      * rewrite forallb_forall in Hcolors. specialize (Hcolors _ Hc). cbn [snd] in Hcolors.
        unfold Bounce.color_nonneg in Hcolors.
        apply andb_true_iff in Hcolors. destruct Hcolors as [Hxy Hz].
        apply andb_true_iff in Hxy. destruct Hxy as [Hx Hy].
        apply Qle_bool_iff in Hx, Hy, Hz. unfold BounceSpec.color_ge0. auto.
      * unfold l. cbn [Bounce.componentwiseMaxColor Bounce.new_bouncelight].
        apply (proj2 (raise_max_fold (Bounce.styles_of colorByStyle) vec3_origin) _ Hc).
    + rewrite lookup_insert_ne by congruence. apply Hold.
  - intros idx Hrange. unfold zlen in Hrange. rewrite length_app in Hrange. simpl in Hrange.
    destruct (decide (idx = zlen (Bounce.radlights edgeplanes_t bounds_t st))) as [-> | Hne].
    + exists facenum. rewrite lookup_insert_eq. apply in_or_app. right. left. reflexivity.
    + destruct (Hcov idx) as [f Hin]; [unfold zlen in *; lia |].
      exists f. destruct (decide (f = facenum)) as [-> | Hf].
      * rewrite lookup_insert_eq. apply in_or_app. left. exact Hin.
      * rewrite lookup_insert_ne by congruence. exact Hin.
  - unfold zlen. rewrite length_app. simpl. lia.
Qed.

Lemma bounce_emission_face (texturecolors : gmap string vec3) (bsp : mbsp_t) (i : Z)
    (facemidpoint : vec3) (emitcolors : gmap Z vec3) (normal : vec3) (facearea : Q)
    (face : mface_t) :
  bounce_emission texturecolors bsp i
  = Ok (Some (facemidpoint, emitcolors, normal, facearea, face)) ->
  BspUtils.BSP_GetFace bsp i = Ok face.
Proof.
  unfold Bounce.bounce_emission.
  destruct (BspUtils.BSP_GetFace bsp i) as [face0 | | | |]; cbn [bind]; try discriminate.
  match goal with
  | |- context [bind ?m _] => destruct m as [should | | | |]; cbn [bind]; try discriminate
  end.
  destruct (negb should); [discriminate |]. cbv zeta.
  match goal with
  | |- context [Qeq_bool ?a ?b] => destruct (Qeq_bool a b); [discriminate |]
  end.
  match goal with
  | |- context [Qltb ?a 1] => destruct (Qltb a 1); [discriminate |]
  end.
  destruct (Bounce.Face_LookupTextureColor texturecolors bsp face0) as [tc | | | |];
    cbn [bind]; try discriminate.
  intros [= _ _ _ _ <-]. reflexivity.
Qed.

Lemma MakeBounceLights_keeps (texturecolors : gmap string vec3) (bsp : mbsp_t)
    (order : list Z) :
  forall st st' : bounce_state,
  MakeBounceLights texturecolors bsp order st = Ok st' ->
  indexed bsp st -> covered st ->
  indexed bsp st' /\ covered st'
  /\ zlen (BounceLights st') <= zlen (BounceLights st) + Z.of_nat (length order).
Proof.
  induction order as [| i rest IH]; intros st st'; cbn [Bounce.MakeBounceLights].
  - intros [= <-] Hidx Hcov. split; [exact Hidx |]. split; [exact Hcov |]. simpl. lia.
  - destruct (MakeBounceLightsThread_face texturecolors bsp i st) as [st1 | | | |] eqn:E1;
      cbn [bind]; try discriminate.
    intros Hrest Hidx Hcov.
    assert (H1 : indexed bsp st1 /\ covered st1
                 /\ zlen (BounceLights st1) <= zlen (BounceLights st) + 1).
    { unfold Bounce.MakeBounceLightsThread_face in E1.
      destruct (bounce_emission texturecolors bsp i) as [[args |] | | | |] eqn:Ee;
        cbn [bind] in E1; try discriminate.
      - destruct args as [[[[facemidpoint emitcolors] normal] facearea] face].
        apply bounce_emission_face in Ee.
        destruct (AddBounceLight_indexed _ _ _ _ _ _ _ _ _ Ee E1 Hidx Hcov)
          as (Hi & Hc & Hl).
        split; [exact Hi |]. split; [exact Hc |]. lia.
      - injection E1 as <-. split; [exact Hidx |]. split; [exact Hcov |]. lia. }
    destruct H1 as (Hi1 & Hc1 & Hl1).
    destruct (IH st1 st' Hrest Hi1 Hc1) as (Hi & Hc & Hl).
    split; [exact Hi |]. split; [exact Hc |].
    cbn [length]. lia.
Qed.

(** X29. The index of the bounce lights.  After [MakeBounceLights], in
    whatever order the workers took the faces, every index that
    [BounceLightsForFaceNum] gives for a face is the place in
    [BounceLights] of a light that was made from that face: its polygon
    is the polygon of the face, its area is positive, and each of its
    colours has no negative component and is at most
    [componentwiseMaxColor] in each component.  Every light is listed
    under a face, and there is at most one light for each face that was
    handed out. *)
Theorem MakeBounceLights_indexed (texturecolors : gmap string vec3) (bsp : mbsp_t)
    (order : list Z) (st' : bounce_state) :
  MakeBounceLights texturecolors bsp order no_lights = Ok st' ->
  indexed bsp st' /\ covered st'
  /\ zlen (BounceLights st') <= Z.of_nat (length order).
Proof.
  intros H.
  destruct (MakeBounceLights_keeps texturecolors bsp order no_lights st' H)
    as (Hi & Hc & Hl).
  - intros f idx Hin. unfold Bounce.BounceLightsForFaceNum, BounceSpec.no_lights in Hin.
    cbn [Bounce.radlightsByFacenum] in Hin. rewrite lookup_empty in Hin. destruct Hin.
  - intros idx Hrange. unfold Bounce.BounceLights, BounceSpec.no_lights, zlen in Hrange.
    cbn [Bounce.radlights length] in Hrange. lia.
  - split; [exact Hi |]. split; [exact Hc |].
    unfold Bounce.BounceLights, BounceSpec.no_lights, zlen in Hl.
    cbn [Bounce.radlights length] in Hl. unfold Bounce.BounceLights, zlen. lia.
Qed.

End BounceLights.

Lemma MakeBounceLights_indexed_witness :
  exists st',
    Bounce.MakeBounceLights unit unit unit BounceSample.no_planes BounceSample.no_estimate tt
      true [0] 1 0 BounceSample.white_light BounceSample.whole_face BounceSample.area_1024
      BounceSample.plane_up BounceSample.middle BounceSample.one_piece
      BounceSample.same_name BounceSample.lightmapped BounceSample.casts_shadow
      ∅ BounceSample.painted_floor [0] (BounceSpec.no_lights unit unit) = Ok st'
    /\ Bounce.BounceLightsForFaceNum unit unit st' 0 = [0]
    /\ BounceSpec.indexed unit unit BounceSample.painted_floor st'.
Proof.
  assert (Hrun : is_ok
                   (Bounce.MakeBounceLights unit unit unit BounceSample.no_planes
                      BounceSample.no_estimate tt true [0] 1 0 BounceSample.white_light
                      BounceSample.whole_face BounceSample.area_1024 BounceSample.plane_up
                      BounceSample.middle BounceSample.one_piece BounceSample.same_name
                      BounceSample.lightmapped BounceSample.casts_shadow
                      ∅ BounceSample.painted_floor [0] (BounceSpec.no_lights unit unit))
                 = true) by (vm_compute; reflexivity).
  apply is_ok_returns in Hrun. destruct Hrun as [st' Hrun].
  exists st'. split; [exact Hrun |].
  destruct (MakeBounceLights_indexed unit unit unit BounceSample.no_planes
              BounceSample.no_estimate tt true [0] 1 0 BounceSample.white_light
              BounceSample.whole_face BounceSample.area_1024 BounceSample.plane_up
              BounceSample.middle BounceSample.one_piece BounceSample.same_name
              BounceSample.lightmapped BounceSample.casts_shadow
              ∅ BounceSample.painted_floor [0] st' Hrun) as (Hi & _ & _).
  split; [| exact Hi].
  assert (Hlist : (do st <- Bounce.MakeBounceLights unit unit unit BounceSample.no_planes
                      BounceSample.no_estimate tt true [0] 1 0 BounceSample.white_light
                      BounceSample.whole_face BounceSample.area_1024 BounceSample.plane_up
                      BounceSample.middle BounceSample.one_piece BounceSample.same_name
                      BounceSample.lightmapped BounceSample.casts_shadow
                      ∅ BounceSample.painted_floor [0] (BounceSpec.no_lights unit unit);
                   Ok (Bounce.BounceLightsForFaceNum unit unit st 0)) = Ok [0])
    by (vm_compute; reflexivity).
  rewrite Hrun in Hlist. cbn [bind] in Hlist. injection Hlist as Hlist. exact Hlist.
Defined.

(** ** light/bounce.cc: texture colours *)

Section TextureColors.

Variable miptex_has_data : rgba_miptex_t -> bool.
Variable miptex_width miptex_height : rgba_miptex_t -> Z.
Variable Texture_GetColor : rgba_miptex_t -> Z -> Bounce.vec4.

Local Abbreviation sum_pixels := (Bounce.sum_pixels Texture_GetColor).
Local Abbreviation Texture_AvgColor :=
  (Bounce.Texture_AvgColor miptex_has_data miptex_width miptex_height Texture_GetColor).
Local Abbreviation MakeTextureColors :=
  (Bounce.MakeTextureColors miptex_has_data miptex_width miptex_height Texture_GetColor).

Lemma sum_pixels_within (miptex : rgba_miptex_t) (n : nat) :
  forall (i : Z) (color : Bounce.vec4) (k : nat),
  (forall j, i <= j < i + Z.of_nat n ->
             BounceSpec.rgb_within (Texture_GetColor miptex j) 255) ->
  BounceSpec.rgb_within color (255 * inject_Z (Z.of_nat k)) ->
  BounceSpec.rgb_within (sum_pixels n miptex i color)
    (255 * inject_Z (Z.of_nat (k + n))).
Proof.
  induction n as [| n IH]; intros i color k Hpix Hcolor; cbn [Bounce.sum_pixels].
  - rewrite Nat.add_0_r. exact Hcolor.
  - replace (k + S n)%nat with (S k + n)%nat by lia.
    apply IH; [intros j Hj; apply Hpix; lia |].
    destruct (Qltb (snd (Texture_GetColor miptex i)) 128).
    + unfold BounceSpec.rgb_within in *.
      assert (Hk : (255 * inject_Z (Z.of_nat k) <= 255 * inject_Z (Z.of_nat (S k)))%Q).
      { rewrite Nat2Z.inj_succ. unfold Z.succ. rewrite inject_Z_plus.
        change (inject_Z 1) with 1%Q. lra. }
      destruct Hcolor as (Hr & Hg & Hb). repeat split; lra.
    + assert (Hp : BounceSpec.rgb_within (Texture_GetColor miptex i) 255)
        by (apply Hpix; lia).
      destruct color as [[[r g] b] a].
      destruct (Texture_GetColor miptex i) as [[[cr cg] cb] ca].
      unfold BounceSpec.rgb_within in *. cbn [fst snd] in *.
      rewrite Nat2Z.inj_succ. unfold Z.succ. rewrite inject_Z_plus.
      change (inject_Z 1) with 1%Q.
      destruct Hcolor as (Hr & Hg & Hb). destruct Hp as (Hpr & Hpg & Hpb).
      repeat split; lra.
Qed.

Lemma average_within (x : Q) (n : Z) :
  0 < n -> (0 <= x <= 255 * inject_Z n)%Q -> (0 <= x / inject_Z n <= 255)%Q.
Proof.
  intros Hn [H0 H1].
  assert (Hpos : (0 < inject_Z n)%Q).
  { change 0%Q with (inject_Z 0). rewrite <- Zlt_Qlt. exact Hn. }
  split.
  - apply Qle_shift_div_l; [exact Hpos |]. lra.
  - apply Qle_shift_div_r; [exact Hpos |]. lra.
Qed.

Lemma Texture_AvgColor_within (bsp : mbsp_t) (miptex : rgba_miptex_t) :
  (miptex_has_data miptex = true ->
   0 < miptex_width miptex * miptex_height miptex
   /\ forall i, 0 <= i < miptex_width miptex * miptex_height miptex ->
                BounceSpec.rgb_within (Texture_GetColor miptex i) 255) ->
  BounceSpec.color_within (Texture_AvgColor bsp miptex) 255.
Proof.
  intros H. unfold Bounce.Texture_AvgColor.
  destruct (miptex_has_data miptex); cbn [negb].
  - destruct (H eq_refl) as [Hsize Hpix]. cbv zeta.
    set (size := miptex_width miptex * miptex_height miptex) in *.
    assert (Hsum : BounceSpec.rgb_within
                     (sum_pixels (Z.to_nat size) miptex 0 (0, 0, 0, 0)%Q)
                     (255 * inject_Z (Z.of_nat (0 + Z.to_nat size)))).
    { apply sum_pixels_within.
      - intros j Hj. apply Hpix. lia.
      - unfold BounceSpec.rgb_within. cbn [fst snd].
        change (inject_Z (Z.of_nat 0)) with 0%Q. repeat split; lra. }
    rewrite Nat.add_0_l, Z2Nat.id in Hsum by lia.
    destruct (sum_pixels (Z.to_nat size) miptex 0 (0, 0, 0, 0)%Q) as [[[r g] b] a].
    unfold BounceSpec.rgb_within in Hsum. cbn [fst snd] in Hsum.
    destruct Hsum as (Hr & Hg & Hb).
    unfold BounceSpec.color_within, vx, vy, vz. cbn [fst snd].
    repeat split; apply average_within; assumption || lra.
  - unfold BounceSpec.color_within, vec3_origin, vx, vy, vz. cbn [fst snd].
    repeat split; lra.
Qed.

Lemma MakeTextureColors_fold (bsp : mbsp_t) (textures : list rgba_miptex_t) :
  forall (texturecolors : gmap string vec3) (name : string) (c : vec3),
    fold_left
      (fun (texturecolors : gmap string vec3) (miptex : rgba_miptex_t) =>
         if negb (miptex_has_data miptex) then texturecolors
         else
           let name := rgba_name miptex in
           let color := Texture_AvgColor bsp miptex in
           <[name := color]> texturecolors)
      textures texturecolors !! name = Some c ->
    (exists miptex, In miptex textures /\ miptex_has_data miptex = true
                    /\ rgba_name miptex = name /\ c = Texture_AvgColor bsp miptex)
    \/ texturecolors !! name = Some c.
Proof.
  induction textures as [| miptex rest IH]; intros texturecolors name c; cbn [fold_left].
  - intros H. right. exact H.
  - intros H. apply IH in H. destruct H as [(m & Hin & Hm) | H].
    + left. exists m. split; [right; exact Hin | exact Hm].
    + destruct (miptex_has_data miptex) eqn:Ed; cbn [negb] in H; [| right; exact H].
      cbv zeta in H. destruct (decide (rgba_name miptex = name)) as [En | En].
      * subst name. rewrite lookup_insert_eq in H. injection H as <-.
        left. exists miptex. split; [left; reflexivity |]. auto.
      * rewrite lookup_insert_ne in H by exact En. right. exact H.
Qed.

Lemma MakeTextureColors_colors (bsp : mbsp_t) (name : string) (c : vec3) :
  MakeTextureColors bsp ∅ !! name = Some c ->
  exists miptex, In miptex (drgbatexdata bsp) /\ miptex_has_data miptex = true
                 /\ rgba_name miptex = name /\ c = Texture_AvgColor bsp miptex.
Proof.
  unfold Bounce.MakeTextureColors. intros H.
  destruct (drgbatexdata bsp) as [| m rest] eqn:Et.
  - rewrite lookup_empty in H. discriminate.
  - apply MakeTextureColors_fold in H. destruct H as [H | H]; [exact H |].
    rewrite lookup_empty in H. discriminate.
Qed.

(** X30. Texture colours stay within 0 and 255.  When every texture with
    data has a positive size, and [Texture_GetColor] gives red, green and
    blue within 0 and 255 for its pixels, the colour that
    [Face_LookupTextureColor] finds after [MakeTextureColors] has its
    three components within 0 and 255: it is the gray 127 127 127, or the
    [Texture_AvgColor] of a texture with data that has the name of the
    texture of the face. *)
Theorem Face_LookupTextureColor_within (bsp : mbsp_t) (face : mface_t) (color : vec3) :
  (forall miptex,
     In miptex (drgbatexdata bsp) -> miptex_has_data miptex = true ->
     0 < miptex_width miptex * miptex_height miptex
     /\ forall i, 0 <= i < miptex_width miptex * miptex_height miptex ->
                  BounceSpec.rgb_within (Texture_GetColor miptex i) 255) ->
  Bounce.Face_LookupTextureColor (MakeTextureColors bsp ∅) bsp face = Ok color ->
  BounceSpec.color_within color 255
  /\ (color = (127, 127, 127)%Q
      \/ exists miptex,
           In miptex (drgbatexdata bsp) /\ miptex_has_data miptex = true
           /\ BspUtils.Face_TextureName bsp face = Ok (rgba_name miptex)
           /\ color = Texture_AvgColor bsp miptex).
Proof.
  intros Hpix. unfold Bounce.Face_LookupTextureColor.
  destruct (BspUtils.Face_TextureName bsp face) as [facename | | | |]; cbn [bind];
    try discriminate.
  destruct (MakeTextureColors bsp ∅ !! facename) as [c |] eqn:Ec.
  - intros [= <-]. apply MakeTextureColors_colors in Ec.
    destruct Ec as (miptex & Hin & Hdata & Hname & ->). split.
    + apply Texture_AvgColor_within. intros _. apply Hpix; assumption.
    + right. exists miptex. subst facename. auto.
  - intros [= <-]. split; [| left; reflexivity].
    unfold BounceSpec.color_within, vx, vy, vz. cbn [fst snd]. repeat split; lra.
Qed.

End TextureColors.

Lemma Face_LookupTextureColor_within_witness :
  exists color,
    Bounce.Face_LookupTextureColor
      (Bounce.MakeTextureColors BounceSample.has_data BounceSample.two BounceSample.two
         BounceSample.pixel BounceSample.painted_floor ∅)
      BounceSample.painted_floor Floor.floor_face = Ok color
    /\ BounceSpec.color_within color 255
    /\ color <> (127, 127, 127)%Q.
Proof.
  assert (Hcolor : Bounce.Face_LookupTextureColor
                     (Bounce.MakeTextureColors BounceSample.has_data BounceSample.two
                        BounceSample.two BounceSample.pixel BounceSample.painted_floor ∅)
                     BounceSample.painted_floor Floor.floor_face
                   = Ok (60 / 4, 80 / 4, 120 / 4)%Q) by (vm_compute; reflexivity).
  exists (60 / 4, 80 / 4, 120 / 4)%Q. split; [exact Hcolor |].
  destruct (Face_LookupTextureColor_within BounceSample.has_data BounceSample.two
              BounceSample.two BounceSample.pixel BounceSample.painted_floor
              Floor.floor_face (60 / 4, 80 / 4, 120 / 4)%Q) as [Hwithin _].
  - intros miptex _ _. split; [reflexivity |].
    intros i Hi. unfold BounceSample.two in Hi.
    unfold BounceSpec.rgb_within, BounceSample.pixel. cbn [fst snd].
    rewrite inject_Z_mult. change (inject_Z 10) with 10%Q.
    assert (H0 : (inject_Z 0 <= inject_Z i)%Q) by (rewrite <- Zle_Qle; lia).
    assert (H3 : (inject_Z i <= inject_Z 3)%Q) by (rewrite <- Zle_Qle; lia).
    change (inject_Z 0) with 0%Q in H0. change (inject_Z 3) with 3%Q in H3.
    repeat split; lra.
  - exact Hcolor.
  - split; [exact Hwithin |]. discriminate.
Defined.
